(* ===== verification/_CoqProject ===== *)
-Q . S2P
Prelude.v
GoString.v
Api.v
K8s.v
Pdp.v
PdpFacts.v
LoadBalancer.v
Ports.v
Net.v
Paths.v
PeerClient.v
Certs.v
Jwks.v
Authz.v
AuthzFacts.v
AuthzServer.v
ApiServer.v
Control.v
ControlFacts.v
Envoy.v
Xds.v
XdsFacts.v
Dataplane.v
Fetcher.v
DataplaneFacts.v
EndToEnd.v
EnvoyConf.v
Listeners.v
ListenersFacts.v
Forwarder.v
PeerMonitor.v
PeerMonitorFacts.v
Reconciler.v
Controllers.v
ControlControllers.v
XdsControllers.v
Operator.v
OperatorServer.v
OperatorFacts.v
Runnable.v
Bootstrap.v
Servers.v
DataplaneServers.v
Wrappers.v
BootstrapFacts.v
Deploy.v
DeployFacts.v
Flags.v
Commands.v
CommandFacts.v
OperatorProgram.v
DeepCopy.v
