(* ===== verification/Prelude.v ===== *)
(** * ClusterLink: a verification library

    ClusterLink connects services of different Kubernetes clusters ("peers").  In each
    cluster a control plane ([src/pkg/controlplane]) reads custom resources ([Peer],
    [Export], [Import], [AccessPolicy]) and decides who may connect to what; a data plane
    ([src/pkg/dataplane]) forwards the connections and asks the control plane about each
    of them; an operator ([src/pkg/operator]) deploys the two, and a command-line tool
    ([src/cmd/clusterlink]) makes the certificates by which peers trust each other, and
    installs all of it.  This library models these parts and proves what makes them
    correct.

    ** How the parts interact

    A client in cluster A connects to the service of an import.  The connection reaches
    the data plane on the port that the control manager leased for the import ([Ports],
    [Control]) and that the xDS manager published as a listener ([Xds]); the data plane
    got the listener from a fetcher ([Fetcher], [Listeners]) and asks the control plane
    ([Dataplane.getEgressAuth] to [AuthzServer.checkEgress]).  The authorization manager
    ([Authz]) looks up the pod of the client, lets the load balancer ([LoadBalancer])
    choose a source of the import, evaluates the policies ([Pdp]) and asks the remote
    peer for a token ([PeerClient]).  In cluster B the request is decided by the same
    code for ingress, and the token names the export.  The data plane of A connects to a
    gateway of B under the TLS name of the peer, with the token; the data plane of B has
    it checked and forwards to the service ([Forwarder]).  Peers are probed by the peer
    monitors ([PeerMonitor]); certificates are reread by the watcher ([Certs]).  [EndToEnd]
    is this path from one end to the other; the controllers ([Controllers],
    [ControlControllers]) keep the state that it is decided on, and [Servers] starts them.

    ** The files

    - [Prelude]: Go values, errors, [result] and [outcome], the state monad [ST] with
      [inside] and [outside] for the two halves of a state, orders of map iteration
      ([ranger]), generic lemmas and tactics ([unfold_st], [keeps_tac]).
    - [GoString]: the functions of [strings], [strconv] and [net] that are used.
    - [Paths]: [filepath.Join], and the files that the programs and the deployment share.
    - [Api]: the custom resources ([pkg/apis]) and the names of [controlplane/api].
    - [K8s], [ApiServer]: the Kubernetes libraries as classes of operations with classes
      of laws; an API server in memory that keeps the laws.
    - [Pdp], [PdpFacts]: [authz/connectivitypdp], the policy decisions.
    - [LoadBalancer]: [authz/loadbalancer.go].  [Ports]: [control/port.go].
    - [Net]: [util/jsonapi], [util/tls].  [PeerClient], [Certs]: [controlplane/peer].
    - [Jwks], [Authz], [AuthzFacts], [AuthzServer]: [authz/manager.go], [authz/server.go].
    - [Control], [ControlFacts]: [control/manager.go]; [PeerMonitor], [PeerMonitorFacts]:
      [control/peer.go].
    - [Envoy], [Xds], [XdsFacts]: [controlplane/xds] over the messages and the caches of
      go-control-plane.  [Reconciler]: [util/controller], run on the xDS manager.
    - [Dataplane], [Fetcher], [DataplaneFacts]: [dataplane/server], [dataplane/client];
      [Listeners], [ListenersFacts]: the goroutines of the listeners; [Forwarder].
    - [EndToEnd]: the control planes and the data planes of two peers together.
    - [EnvoyConf]: [cmd/cl-dataplane], the configuration of the other data plane, as a tree.
    - [Controllers], [ControlControllers], [XdsControllers]: the controllers of
      [authz/controllers.go], [control/controllers.go] and [xds/controllers.go], run by the
      reconciler in any order.
    - [Operator], [OperatorServer], [OperatorFacts]: [operator/controller].
    - [Runnable]: [util/runnable].  [Servers]: [cmd/cl-controlplane/app/server.go] with
      [util/tcp], [util/log] and [versioninfo]; [DataplaneServers]: the programs of the two
      data planes; [Wrappers]: [util/http], [util/grpc] and the rest of [util].
    - [Bootstrap], [BootstrapFacts]: [bootstrap/crypt.go], [bootstrap/cert.go] and the
      commands [create fabric] and [create peer-cert].
    - [Deploy], [DeployFacts]: the commands [deploy peer] and [delete peer], and the
      Kubernetes objects of the templates of [bootstrap/platform].
    - [Flags], [Commands], [CommandFacts]: the flags and the commands of all the programs,
      over pflag and cobra; [main] and the exit status.
    - [OperatorProgram]: [cmd/cl-operator] with package [flag], what the reconciler watches,
      and its run among events, failures, other writers and restarts.
    - [DeepCopy]: the generated copies of the custom resources, on a heap of cells.

    A struct is a record with the fields the code reads, a handler is a definition of the
    same name, and the fields of a component are the first half of its state.  Everything
    outside (API server, network, files, clock, randomness) is the second half, [W],
    reached through classes; a [Laws] class states documented behaviour of a library, and
    a [ref_], [mem_], [cluster_] or [host_] instance satisfies it and evaluates the
    witnesses.  Code that runs under a lock is one step; code whose interleavings matter
    is a step relation on goroutines, locks and channels ([PeerClient.gr_step],
    [Listeners.fetcher_step], [PeerMonitor.pm_step], [Fetcher.runFetcher],
    [Runnable.step]).  Map iteration takes an order as an argument, the requests to the
    gateways of a peer a [schedule]; a call that may block forever gives an option, whose
    [None] says that it does not return.  A panic is [Panic].
    Values are shared only where no one writes to them; [DeepCopy], where the sharing is
    the point, has pointers, slices and maps on an explicit heap.

    ** What the theorems show

    - Policies: [Decide] is the verdict of an abstract policy store after any updates and
      for every map order; updates keep the tiers well formed; decisions that do not
      depend on the client are recognised.
    - Authorization: a connection is allowed only to a source that policies and peer
      allow; a good source is found whatever else fails, and the loop ends, both unless a
      request to a peer with several gateways blocks; tokens open exactly the export they
      were given for; attributes cannot be forged by labels; every other request is refused.
    - End to end: a connection that the data plane of one peer forwards is allowed by the
      policies of both peers, goes to the peer of a source of its import under that
      peer's name, and bears a token that opens exactly that export there.
    - Peers: under every interleaving in which a request to several gateways returns, the
      first successful gateway wins or all errors are joined; from the first change of the
      status on, the monitors' counters decide as the documented window of heartbeats does;
      monitors probe their peers with the current certificates.
    - Control: imports get a leased port and their services, deletion frees both, foreign
      services are never touched; leases stay inverse to each other.
    - Controllers: whatever requests, certificate updates and changes of the API server
      come in whatever order, nothing panics, and what the last successful request for an
      object left is as the API server has it; so connections are decided as the valid
      policies of the cluster decide them, the gateways of its peers are probed, and a data
      plane that fetches its clusters reaches its peers and exports.
    - Configuration: after any events or reconcile requests, with failures, the xDS
      caches hold what stands for the peers, the exports and the imports with a valid
      target port, and the data plane connects to exactly those peers and exports; for an
      import whose port is not valid any more its former listener may remain.
    - Data plane: a forwarded egress connection was authorized for its import and reaches
      its peer; a forwarded ingress connection bore a valid token; until it is told to
      stop, an acceptor is the only one of its listener and on its current address;
      forwarding reorders nothing and loses only bytes that come with an error.  In the
      configuration of Envoy every name that is referred to is defined there or published
      by the control plane.
    - Operator: a successful request is one of the cases of a specification that says
      what is deployed, refused or removed, and touches nothing else; requests end.  As
      long as the program is not restarted, no instance takes over the namespace of another, and the
      deployments of the owner become what its specification asks for and stay so.
    - Programs: [Run] of the runnables returns exactly the errors of those that failed and
      leaves no listener open; a control plane that starts has its certificates, and later
      ones as long as its watcher runs.  Each
      subcommand runs with the options that its flags spell, or exits with status one; the
      arguments of the containers that are deployed are understood by the programs in them,
      and the labels given to [deploy peer] are those that policies see.
    - Copies: a generated copy has the same value and shares nothing with the original.
    - Certificates: from files made by the commands, any two peers of a fabric connect
      and authenticate each other; after [deploy peer] the pods find their certificates,
      the data plane connects to its control plane, and the control plane has the
      certificate of the peer.  A deployment without the operator runs the same pods, the
      control plane with the same permissions.
    - Some lemmas exhibit defects: a state the code reaches, and what it cannot do from
      there.

    ** Bounds and fuel

    Ports are 16-bit integers with their wrap-around ([wrap16]); up to 48126 leases are
    found, the number of ports the scan visits.  [egress_loop] runs with [2 n + 1] rounds
    for [n] sources: every source is tried once and, delayed, once more.
    [Operator.Reconcile] needs more fuel than there are instances: each nested call
    follows the removal of one.  [PeerMonitor.update_status] is a retry loop that may
    really not end, and its theorem says when.

    ** Not modelled

    The texts of the templates of [bootstrap/platform] and of Envoy (what is decoded from
    them is modelled), and what Envoy does with its configuration; what the libraries do
    (grpc, [net/http], controller-runtime, cobra, logrus) beyond the documented behaviour
    that their classes state; registrations ([init] of the resource types, [AddToManager],
    [RegisterService]); one-line getters; log messages; the tests.  Requests on one component are
    atomic unless a step relation says otherwise, and no other writer changes the API
    server between the calls of a handler. *)
From stdpp Require Export base gmap strings list fin_maps fin_sets pretty sorting.
From stdpp Require Import options.
From Stdlib Require Import Ascii ZArith Lia.

Declare Scope go_scope.
Delimit Scope go_scope with go.
Open Scope stdpp_scope.
Open Scope go_scope.

Create HintDb clink.
Create Rewrite HintDb clink.

(** ** Go values *)

(** [types.NamespacedName]: a Kubernetes object key. *)
Record NamespacedName := mkNN { Namespace : string; Name : string }.

#[export] Instance NamespacedName_eq_dec : EqDecision NamespacedName.
Proof. solve_decision. Defined.

#[export] Program Instance NamespacedName_countable : Countable NamespacedName :=
  inj_countable' (λ n, (Namespace n, Name n)) (λ p, mkNN p.1 p.2) _.
Next Obligation. by intros []. Qed.

(** Wrap-around of the unsigned machine integers the code uses. *)
Definition wrap16 (z : Z) : Z := (z mod 65536)%Z.
Definition wrap32 (z : Z) : Z := (z mod 4294967296)%Z.

(** ** Go errors

    The dynamic values of Go's [error] interface that the sources build or
    inspect.  [EApi] is an error of the Kubernetes API client, classified the
    way [k8s.io/apimachinery/pkg/api/errors] classifies it; [EWrap] is an error
    made by [fmt.Errorf] with the [%w] verb (the message is the formatted prefix, which
    a colon follows; [EPrefix] has a space instead);
    [EJoin] is [errors.Join]; [ETerminal] is [reconcile.TerminalError].  The
    other constructors are the error structs of [pkg/controlplane/control] and
    [parseError] of [pkg/controlplane/peer]. *)
Inductive api_reason := ReasonNotFound | ReasonAlreadyExists | ReasonOther.

#[export] Instance api_reason_eq_dec : EqDecision api_reason.
Proof. solve_decision. Defined.

Inductive error :=
  | ENew (msg : string)
  | EApi (reason : api_reason) (msg : string)
  | EWrap (msg : string) (e : error)
  | EPrefix (msg : string) (e : error)
  | EJoin (es : list error)
  | ETerminal (e : error)
  | EParse (e : error)
  | EConflictingTargetPort (port : Z) (leaseName : NamespacedName)
  | EExportServiceNotExist (name : NamespacedName)
  | EImportServiceNotExist (name : NamespacedName)
  | EConflictingService (name : NamespacedName) (managedBy : string).

(** [errors.Is] and [errors.As]: a depth-first search of the tree of wrapped errors. *)
Fixpoint error_is (p : error → bool) (e : error) : bool :=
  p e ||
  match e with
  | EWrap _ e' | EPrefix _ e' => error_is p e'
  | EJoin es => existsb (error_is p) es
  | ETerminal e' => error_is p e'
  | _ => false
  end.

Definition is_api_reason (r : api_reason) (e : error) : bool :=
  match e with EApi r' _ => bool_decide (r = r') | _ => false end.

(** [k8serrors.IsNotFound], [k8serrors.IsAlreadyExists]. *)
Definition IsNotFound : error → bool := error_is (is_api_reason ReasonNotFound).
Definition IsAlreadyExists : error → bool := error_is (is_api_reason ReasonAlreadyExists).

(** [errors.Join]: nil errors are discarded. *)
Definition errors_Join (errs : list (option error)) : option error :=
  match omap id errs with [] => None | es => Some (EJoin es) end.

Lemma errors_Join_none errs : errors_Join errs = None ↔ Forall (λ e, e = None) errs.
Proof.
  unfold errors_Join. induction errs as [|[e|] errs IH]; simpl.
  - split; [constructor|done].
  - split; [done|]. by intros [? _]%Forall_cons.
  - rewrite Forall_cons, <- IH. split; [done|by intros []].
Qed.

(** A call that returns [(T, error)]; a plain [error] is an [option error]. *)
Inductive result (A : Type) := Ok (a : A) | Err (e : error).
Arguments Ok {A} _.
Arguments Err {A} _.

Definition is_ok {A} (r : result A) : bool := if r is Ok _ then true else false.

#[export] Instance result_fmap : FMap result := λ A B f r,
  match r with Ok a => Ok (f a) | Err e => Err e end.

(** A call that may panic (nil dereference, slice bounds, failed assertion). *)
Inductive outcome (A : Type) := Done (a : A) | Panic.
Arguments Done {A} _.
Arguments Panic {A}.

(** ** Stateful calls *)

Definition ST (S A : Type) : Type := S → A * S.
#[export] Instance ST_ret S : MRet (ST S) := λ A a s, (a, s).
#[export] Instance ST_bind S : MBind (ST S) := λ A B f m s,
  match m s with (a, s') => f a s' end.

Definition getS {S} : ST S S := λ s, (s, s).
Definition gets {S A} (f : S → A) : ST S A := λ s, (f s, s).
Definition modify {S} (f : S → S) : ST S unit := λ s, (tt, f s).

(** Run a call that touches only the second half of the state (the outside
    world), or only the first (the component's own fields). *)
Definition outside {S W A} (m : ST W A) : ST (S * W) A := λ s,
  match m s.2 with (a, w) => (a, (s.1, w)) end.
Definition inside {S W A} (m : ST S A) : ST (S * W) A := λ s,
  match m s.1 with (a, x) => (a, (x, s.2)) end.

(** Expose the state passing. *)
Ltac unfold_st := unfold mbind, ST_bind, mret, ST_ret, gets, getS, modify, outside, inside; cbn beta iota delta [fst snd].
Tactic Notation "unfold_st" "in" hyp(H) :=
  unfold mbind, ST_bind, mret, ST_ret, gets, getS, modify, outside, inside in H; cbn beta iota delta [fst snd] in H.

(** A call that relates the states before and after it. *)
Definition keeps {S A} (R : S → S → Prop) (m : ST S A) : Prop := ∀ s, R s (m s).2.

Section keeps.
Context {S : Type} (R : S → S → Prop) `{!PreOrder R}.
Lemma keeps_ret {A} (a : A) : keeps R (mret a : ST S A).
Proof using All. by intros s. Qed.
Lemma keeps_getS : keeps R getS.
Proof using All. by intros s. Qed.
Lemma keeps_gets {A} (f : S → A) : keeps R (gets f).
Proof using All. by intros s. Qed.
Lemma keeps_bind {A B} (m : ST S A) (f : A → ST S B) :
  keeps R m → (∀ a, keeps R (f a)) → keeps R (m ≫= f).
Proof using All.
  intros Hm Hf s. specialize (Hm s). unfold mbind, ST_bind.
  destruct (m s) as [a s']. simpl in *. etrans; [done|]. apply Hf.
Qed.
End keeps.

(** Follow the structure of a call down to the calls that change the state. *)
Ltac keeps_step :=
  match goal with
  | |- keeps _ (mret _) => refine (keeps_ret _ _)
  | |- keeps _ (gets _) => refine (keeps_gets _ _)
  | |- keeps _ (mbind _ _) => refine (keeps_bind _ _ _ _ _); [|intros]
  | |- keeps _ (if _ then _ else _) => case_match
  | |- keeps _ (match _ with _ => _ end) => case_match
  | |- keeps _ (let _ := _ in _) => cbv zeta
  | |- keeps _ _ => solve [eauto with clink]
  end.
Ltac keeps_tac := repeat keeps_step.

(** Early return on error, the [if err != nil { return err }] idiom. *)
Class FromErr (A : Type) := from_err : error → A.
#[export] Instance FromErr_option : FromErr (option error) := Some.
#[export] Instance FromErr_result A : FromErr (result A) := Err.

Notation "'try!' x ':=' m 'in' k" :=
  (mbind (λ r, match r with Ok x => k | Err e => mret (from_err e) end) m)
  (at level 10, x pattern, m at level 200, k at level 200,
   format "'[v' 'try!'  x  ':='  m  'in' '/' k ']'") : go_scope.
Notation "'check!' m 'in' k" :=
  (mbind (λ r, match r with None => k | Some e => mret (from_err e) end) m)
  (at level 10, m at level 200, k at level 200,
   format "'[v' 'check!'  m  'in' '/' k ']'") : go_scope.

(** ** Ranging over a Go map

    The order in which [range] visits a map is unspecified.  A [ranger] is one
    possible order; definitions that range over a map take a ranger, so their
    theorems hold for every order. *)
Record ranger (K V : Type) `{Countable K} := mkRanger {
  range :> gmap K V → list (K * V);
  range_perm : ∀ m, range m ≡ₚ map_to_list m
}.
Arguments range {_ _ _ _} _ _.
Arguments range_perm {_ _ _ _} _ _.

Definition std_ranger {K V} `{Countable K} : ranger K V :=
  {| range := map_to_list; range_perm := λ m, Permutation_refl _ |}.
Definition rev_ranger {K V} `{Countable K} : ranger K V :=
  {| range := λ m, reverse (map_to_list m); range_perm := λ m, reverse_Permutation _ |}.

Lemma elem_of_range {K V} `{Countable K} (r : ranger K V) (m : gmap K V) k v :
  (k, v) ∈ range r m ↔ m !! k = Some v.
Proof. rewrite (range_perm r m). apply elem_of_map_to_list. Qed.

Lemma NoDup_range_fst {K V} `{Countable K} (r : ranger K V) (m : gmap K V) :
  NoDup (range r m).*1.
Proof. rewrite (range_perm r m). apply NoDup_fst_map_to_list. Qed.

Lemma range_empty {K V} `{Countable K} (r : ranger K V) : range r (∅ : gmap K V) = [].
Proof. apply Permutation_nil. symmetry. by rewrite (range_perm r ∅), map_to_list_empty. Qed.

(** ** Runs *)

(** A call whose result is known. *)
Lemma result_of {S A} (x : A * S) a : x.1 = a → x = (a, x.2).
Proof. by destruct x; intros [= ->]. Qed.

(** What every step keeps is kept by a run. *)
Lemma rtc_preserves {A} (R : relation A) (P : A → Prop) x y :
  (∀ x y, R x y → P x → P y) → P x → rtc R x y → P y.
Proof. intros HR Hx H. revert Hx. induction H as [|x y z Hxy _ IH]; [done|]. intros Hx. by eapply IH, HR. Qed.

(** ** Counting *)

(** A set with fewer than [n] elements misses one of [n] consecutive integers. *)
Lemma pigeonhole_range (X : gset Z) (lo n : Z) :
  (Z.of_nat (size X) < n)%Z → ∃ p, (lo ≤ p < lo + n)%Z ∧ p ∉ X.
Proof.
  intros Hs.
  destruct (decide (Exists (λ p, p ∉ X) (seqZ lo n))) as [(p & Hp & Hx)%Exists_exists|Hno].
  - apply elem_of_seqZ in Hp. exists p. split; [lia|done].
  - exfalso. assert (Hsub : list_to_set (seqZ lo n) ⊆ X).
    { intros p Hp%elem_of_list_to_set. destruct (decide (p ∈ X)); [done|].
      destruct Hno. apply Exists_exists. eauto. }
    apply subseteq_size in Hsub. rewrite size_list_to_set in Hsub by apply NoDup_seqZ.
    rewrite length_seqZ in Hsub. lia.
Qed.

(** Distinct integers of a range of [n] are all of it. *)
Lemma permutation_range (l : list Z) (n : Z) :
  NoDup l → Forall (λ i, (0 ≤ i < n)%Z) l → Z.of_nat (length l) = n → l ≡ₚ seqZ 0 n.
Proof.
  intros Hn Hr Hl. apply submseteq_length_Permutation.
  - apply NoDup_submseteq; [done|]. intros i Hi. apply elem_of_seqZ.
    rewrite Forall_forall in Hr. specialize (Hr i Hi). simpl in Hr. lia.
  - rewrite length_seqZ. lia.
Qed.

(** Close integers with the same remainder are equal. *)
Lemma mod_inj_close (n a b : Z) : (Z.abs (a - b) < n → a `mod` n = b `mod` n → a = b)%Z.
Proof.
  intros Hk Heq. assert (n ≠ 0)%Z as Hn by lia.
  assert (H1 := Z.div_mod a n Hn). assert (H2 := Z.div_mod b n Hn).
  rewrite Heq in H1. revert H1 H2.
  generalize (a / n)%Z (b / n)%Z (b `mod` n)%Z. intros q1 q2 m H1 H2.
  assert (a - b = n * (q1 - q2))%Z by lia.
  destruct (Z.lt_trichotomy q1 q2) as [Hq|[->|Hq]]; [exfalso|lia|exfalso].
  - assert (n * (q1 - q2) ≤ n * (-1))%Z by (apply Z.mul_le_mono_nonneg_l; lia). lia.
  - assert (n * 1 ≤ n * (q1 - q2))%Z by (apply Z.mul_le_mono_nonneg_l; lia). lia.
Qed.
