(* ===== verification/GoString.v ===== *)
(** * The string functions of the Go standard library the sources use

    Go strings are byte strings; [string] is the byte string of the Standard
    Library ([ascii] is a byte).  Numbers are formatted in base 10. *)
From S2P Require Export Prelude.
From stdpp Require Import options.
From Stdlib Require Import Ascii ZArith Lia.

(** ** [strings.HasPrefix], [strings.TrimPrefix] *)
Fixpoint strip_prefix (p s : string) : option string :=
  match p, s with
  | EmptyString, _ => Some s
  | String a p', String b s' => if bool_decide (a = b) then strip_prefix p' s' else None
  | String _ _, EmptyString => None
  end.

Definition HasPrefix (s p : string) : bool := bool_decide (is_Some (strip_prefix p s)).
Definition TrimPrefix (s p : string) : string := default s (strip_prefix p s).

(** ** [strings.SplitN] with a one-byte separator *)
Fixpoint cut (c : ascii) (s : string) : option (string * string) :=
  match s with
  | EmptyString => None
  | String a s' =>
      if bool_decide (a = c) then Some (EmptyString, s')
      else match cut c s' with
           | Some (x, y) => Some (String a x, y)
           | None => None
           end
  end.

Fixpoint SplitN (n : nat) (c : ascii) (s : string) : list string :=
  match n with
  | O => []
  | S n' =>
      match n' with
      | O => [s]
      | S _ => match cut c s with
               | Some (x, y) => x :: SplitN n' c y
               | None => [s]
               end
      end
  end.

(** [strings.Split(s, c)[0]]: the part before the first separator. *)
Definition before (c : ascii) (s : string) : string :=
  match cut c s with Some (x, _) => x | None => s end.

Fixpoint str_in (c : ascii) (s : string) : bool :=
  match s with
  | EmptyString => false
  | String a s' => bool_decide (a = c) || str_in c s'
  end.

(** [s[:n]] and [s[n:]] with [n] within bounds. *)
Fixpoint str_take (n : nat) (s : string) : string :=
  match n, s with
  | S n', String a s' => String a (str_take n' s')
  | _, _ => EmptyString
  end.
Fixpoint str_drop (n : nat) (s : string) : string :=
  match n, s with
  | S n', String _ s' => str_drop n' s'
  | _, _ => s
  end.

(** ** [strconv.Itoa] and [strconv.Atoi] (64-bit [int]) *)
Definition Itoa (n : Z) : string := pretty n.

Definition digit_val (a : ascii) : option Z :=
  let n := Z.of_nat (nat_of_ascii a) in
  if bool_decide (48 ≤ n ≤ 57)%Z then Some (n - 48)%Z else None.

Fixpoint digits_val (acc : Z) (s : string) : option Z :=
  match s with
  | EmptyString => Some acc
  | String a s' => match digit_val a with
                   | Some d => digits_val (acc * 10 + d) s'
                   | None => None
                   end
  end.

Definition unsigned_val (s : string) : option Z :=
  match s with EmptyString => None | _ => digits_val 0 s end.

Definition int64_ok (z : Z) : bool :=
  bool_decide (- 9223372036854775808 ≤ z < 9223372036854775808)%Z.

Definition Atoi (s : string) : option Z :=
  z ← match s with
      | String "-" s' => Z.opp <$> unsigned_val s'
      | String "+" s' => unsigned_val s'
      | _ => unsigned_val s
      end;
  if int64_ok z then Some z else None.

(** ** [net.SplitHostPort] *)

(** Cut at the last separator. *)
Fixpoint cut_last (c : ascii) (s : string) : option (string * string) :=
  match s with
  | EmptyString => None
  | String a s' =>
      match cut_last c s' with
      | Some (x, y) => Some (String a x, y)
      | None => if bool_decide (a = c) then Some (EmptyString, s') else None
      end
  end.

Definition addrErr {A} (hostport why : string) : result A := Err (ENew ("address " +:+ hostport +:+ ": " +:+ why)).

Definition SplitHostPort (hostport : string) : result (string * string) :=
  match cut_last ":" hostport with
  | None => addrErr hostport "missing port in address"
  | Some (before_colon, port) =>
      match hostport with
      | String "[" inner =>
          match cut "]" inner with
          | None => addrErr hostport "missing ']' in address"
          | Some (_, EmptyString) => addrErr hostport "missing port in address"
          | Some (host, String ":" after) =>
              if str_in ":" after then addrErr hostport "too many colons in address"
              else if str_in "[" inner then addrErr hostport "unexpected '[' in address"
              else if str_in "]" after then addrErr hostport "unexpected ']' in address"
              else Ok (host, after)
          | Some (_, String _ _) => addrErr hostport "missing port in address"
          end
      | _ =>
          if str_in ":" before_colon then addrErr hostport "too many colons in address"
          else if str_in "[" hostport then addrErr hostport "unexpected '[' in address"
          else if str_in "]" hostport then addrErr hostport "unexpected ']' in address"
          else Ok (before_colon, port)
      end
  end.

(** ** Lemmas *)
#[local] Arguments String.append !_ _ / : simpl nomatch.

Lemma str_app_nil_r s : s +:+ "" = s.
Proof. induction s; simpl; congruence. Qed.

Lemma str_app_assoc s1 s2 s3 : s1 +:+ (s2 +:+ s3) = (s1 +:+ s2) +:+ s3.
Proof. induction s1; simpl; congruence. Qed.

Lemma str_app_inj_l p s1 s2 : p +:+ s1 = p +:+ s2 → s1 = s2.
Proof. induction p; simpl; [done|]. intros [=]; auto. Qed.

Lemma str_length_app s1 s2 :
  String.length (s1 +:+ s2) = String.length s1 + String.length s2.
Proof. induction s1; simpl; congruence. Qed.

Lemma strip_prefix_app p s : strip_prefix p (p +:+ s) = Some s.
Proof. induction p as [|a p IH]; simpl; [by destruct s|]. by rewrite bool_decide_eq_true_2. Qed.

Lemma strip_prefix_Some p s r : strip_prefix p s = Some r → s = p +:+ r.
Proof.
  revert s. induction p as [|a p IH]; intros [|b s]; simpl; try congruence.
  case_bool_decide; [|congruence]. intros ?%IH. by subst.
Qed.

Lemma TrimPrefix_app p s : TrimPrefix (p +:+ s) p = s.
Proof. unfold TrimPrefix. by rewrite strip_prefix_app. Qed.

Lemma HasPrefix_app p s : HasPrefix (p +:+ s) p = true.
Proof. unfold HasPrefix. rewrite strip_prefix_app. by apply bool_decide_eq_true_2. Qed.

Lemma HasPrefix_spec s p : HasPrefix s p = true ↔ ∃ r, s = p +:+ r.
Proof.
  unfold HasPrefix. rewrite bool_decide_eq_true. split.
  - intros [r Hr]. exists r. by apply strip_prefix_Some.
  - intros [r ->]. rewrite strip_prefix_app. eauto.
Qed.

Lemma cut_app c x y : str_in c x = false → cut c (x +:+ String c y) = Some (x, y).
Proof.
  induction x as [|a x IH]; simpl; intros Hx.
  - by rewrite bool_decide_eq_true_2.
  - apply orb_false_iff in Hx as [Ha Hx]. rewrite Ha, IH by done. done.
Qed.

Lemma cut_None c s : cut c s = None ↔ str_in c s = false.
Proof.
  induction s as [|a s IH]; simpl; [done|].
  case_bool_decide; simpl; [done|]. rewrite <- IH. by destruct (cut c s) as [[]|].
Qed.

Lemma before_app c x y : str_in c x = false → before c (x +:+ String c y) = x.
Proof. intros Hx. unfold before. by rewrite cut_app. Qed.

Lemma str_in_app c s1 s2 : str_in c (s1 +:+ s2) = str_in c s1 || str_in c s2.
Proof. induction s1; simpl; [done|]. rewrite IHs1. by destruct (bool_decide _). Qed.

Lemma str_take_app s1 s2 : str_take (String.length s1) (s1 +:+ s2) = s1.
Proof. induction s1; simpl; [by destruct s2|congruence]. Qed.

Lemma str_drop_app s1 s2 : str_drop (String.length s1) (s1 +:+ s2) = s2.
Proof. induction s1; simpl; [by destruct s2|done]. Qed.

(** A separator that does not occur on the left makes concatenation injective. *)
Lemma sep_app_inj c x1 y1 x2 y2 :
  str_in c x1 = false → str_in c x2 = false →
  x1 +:+ String c y1 = x2 +:+ String c y2 → x1 = x2 ∧ y1 = y2.
Proof.
  intros H1 H2 Heq. apply (f_equal (cut c)) in Heq.
  rewrite !cut_app in Heq by done. by simplify_eq.
Qed.

Lemma cut_last_None c s : str_in c s = false → cut_last c s = None.
Proof.
  induction s as [|a s IH]; simpl; [done|]. intros [Ha Hs]%orb_false_iff. by rewrite IH, Ha.
Qed.
Lemma cut_last_app c x y : str_in c y = false → cut_last c (x +:+ String c y) = Some (x, y).
Proof.
  intros Hy. induction x as [|a x IH]; simpl.
  - rewrite cut_last_None by done. by rewrite bool_decide_eq_true_2.
  - by rewrite IH.
Qed.

(** A host without colons and brackets. *)
Definition plain_host (s : string) : Prop :=
  str_in ":" s = false ∧ str_in "[" s = false ∧ str_in "]" s = false.
#[export] Instance plain_host_dec s : Decision (plain_host s).
Proof. unfold plain_host. apply _. Defined.

Lemma SplitHostPort_plain host port :
  plain_host host → plain_host port → SplitHostPort (host +:+ ":" +:+ port) = Ok (host, port).
Proof.
  intros (H1 & H2 & H3) (P1 & P2 & P3). unfold SplitHostPort.
  change (":" +:+ port) with (String ":" port). rewrite cut_last_app by done.
  assert (str_in "[" (host +:+ String ":" port) = false) as Hl by (by rewrite str_in_app, H2; simpl; rewrite P2).
  assert (str_in "]" (host +:+ String ":" port) = false) as Hr by (by rewrite str_in_app, H3; simpl; rewrite P3).
  rewrite H1, Hl, Hr. destruct host as [|a host]; [done|].
  simpl in Hl. apply orb_false_iff in Hl as [Ha%bool_decide_eq_false _].
  simpl. destruct a as [[] [] [] [] [] [] [] []]; done.
Qed.

Lemma digit_val_pretty_char n :
  (n < 10)%N → digit_val (pretty_N_char n) = Some (Z.of_N n).
Proof.
  intros Hn. assert (n = 0 ∨ n = 1 ∨ n = 2 ∨ n = 3 ∨ n = 4 ∨ n = 5 ∨ n = 6
    ∨ n = 7 ∨ n = 8 ∨ n = 9)%N as H by lia.
  destruct_or! H; subst n; reflexivity.
Qed.

Lemma digits_val_pretty_go n s :
  digits_val 0 (pretty_N_go n s) = digits_val (Z.of_N n) s.
Proof.
  revert s. induction (N.lt_wf_0 n) as [n _ IH]; intros s.
  destruct (decide (n = 0)%N) as [->|Hn]; [by rewrite pretty_N_go_0|].
  rewrite pretty_N_go_step by lia. rewrite IH by (apply N.div_lt; lia). cbn [digits_val].
  rewrite digit_val_pretty_char by (apply N.mod_lt; lia).
  f_equal. pose proof (N.div_mod n 10). lia.
Qed.

Lemma str_in_digit c s a :
  digit_val c = None → digits_val a s ≠ None → str_in c s = false.
Proof.
  intros Hc. revert a. induction s as [|b s IH]; simpl; intros a Hs; [done|].
  destruct (digit_val b) as [d|] eqn:Hb; [|done].
  rewrite (IH _ Hs), orb_false_r. apply bool_decide_eq_false. congruence.
Qed.

Lemma Itoa_digits z : (0 ≤ z)%Z → digits_val 0 (Itoa z) = Some z ∧ Itoa z ≠ "".
Proof.
  intros Hz. unfold Itoa, pretty, pretty_Z.
  destruct z as [|p|p]; [by split| |lia].
  change (pretty p) with (pretty_N_go (Npos p) ""). split.
  - by rewrite digits_val_pretty_go.
  - intros Hnil. pose proof (digits_val_pretty_go (Npos p) "") as H'.
    rewrite Hnil in H'. done.
Qed.

Lemma Atoi_Itoa z : (0 ≤ z < 9223372036854775808)%Z → Atoi (Itoa z) = Some z.
Proof.
  intros Hz. destruct (Itoa_digits z) as [Hd Hne]; [lia|]. unfold Atoi.
  assert (∀ c, digit_val c = None → str_in c (Itoa z) = false) as Hin.
  { intros c Hc. eapply (str_in_digit _ _ 0 Hc). by rewrite Hd. }
  pose proof (Hin "-"%char eq_refl) as H1. pose proof (Hin "+"%char eq_refl) as H2.
  assert (unsigned_val (Itoa z) = Some z) as Hu by (unfold unsigned_val; by case_match).
  assert (int64_ok z = true) as Hi by (apply bool_decide_eq_true; lia).
  destruct (Itoa z) as [|a s] eqn:E; [done|]. simpl in H1, H2.
  apply orb_false_iff in H1 as [?%bool_decide_eq_false _].
  apply orb_false_iff in H2 as [?%bool_decide_eq_false _].
  transitivity (unsigned_val (String a s) ≫= λ z, if int64_ok z then Some z else None).
  - f_equal. destruct a as [[] [] [] [] [] [] [] []]; done.
  - rewrite Hu. simpl. by rewrite Hi.
Qed.

Lemma Itoa_no_char c z : (0 ≤ z)%Z → digit_val c = None → str_in c (Itoa z) = false.
Proof.
  intros Hz Hc. destruct (Itoa_digits z Hz) as [Hd _].
  eapply (str_in_digit _ _ 0 Hc). by rewrite Hd.
Qed.

#[export] Hint Resolve Itoa_no_char strip_prefix_app HasPrefix_app : clink.
#[export] Hint Rewrite TrimPrefix_app HasPrefix_app strip_prefix_app str_take_app str_drop_app : clink.
