(* ===== verification/Api.v ===== *)
(** * The custom resources and the names shared by the components

    [pkg/apis/clusterlink.net/v1alpha1] (Peer, Import, Export, AccessPolicy,
    PrivilegedAccessPolicy), [pkg/controlplane/api] (headers, paths, JWT claims,
    xDS resource names), and the Kubernetes types the sources read.  A pointer
    field is an [option]; a Go [int32]/[uint16] field is a [Z]; [time] is a [Z]. *)
From S2P Require Export GoString.
From stdpp Require Import options.
From Stdlib Require Import Ascii ZArith Lia.

(** ** Kubernetes data the sources read *)

(** The fields of [metav1.ObjectMeta] the sources use. *)
Record ObjectMeta := mkMeta { om_Name : string; om_Namespace : string; om_Labels : gmap string string }.

Definition om_key (m : ObjectMeta) : NamespacedName :=
  mkNN (om_Namespace m) (om_Name m).

(** [metav1.Condition]. *)
Record Condition := mkCondition {
  cond_Type : string; cond_Status : string;
  cond_Reason : string; cond_Message : string;
  cond_LastTransitionTime : Z; cond_ObservedGeneration : Z
}.
#[export] Instance Condition_eq_dec : EqDecision Condition.
Proof. solve_decision. Defined.

Definition ConditionTrue : string := "True".
Definition ConditionFalse : string := "False".

(** [metav1.LabelSelector]. *)
Record LabelSelectorRequirement := mkReq { req_Key : string; req_Operator : string; req_Values : list string }.
Record LabelSelector := mkSelector {
  MatchLabels : gmap string string;
  MatchExpressions : list LabelSelectorRequirement
}.

(** ** accesspolicy.go *)

Record WorkloadSetOrSelector := mkWSS {
  WorkloadSets : list string;
  WorkloadSelector : option LabelSelector
}.

(** [AccessPolicyAction] is a string type: values other than the two constants
    exist and are what [Validate] rejects. *)
Definition AccessPolicyActionAllow : string := "allow".
Definition AccessPolicyActionDeny : string := "deny".

Record AccessPolicySpec := mkSpec {
  pol_Action : string;
  pol_From : list WorkloadSetOrSelector;
  pol_To : list WorkloadSetOrSelector
}.

(** Both [AccessPolicy] and [PrivilegedAccessPolicy]: the structs have the same fields. *)
Record AccessPolicyCR := mkPolicyCR { pcr_Meta : ObjectMeta; pcr_Spec : AccessPolicySpec }.

(** ** peer.go *)
Record Endpoint := mkEndpoint { ep_Host : string; ep_Port : Z }.
#[export] Instance Endpoint_eq_dec : EqDecision Endpoint.
Proof. solve_decision. Defined.

Definition PeerReachable : string := "PeerReachable".

Record Peer := mkPeer {
  peer_Meta : ObjectMeta;
  peer_Gateways : list Endpoint;
  peer_Conditions : list Condition;
  peer_Labels : gmap string string
}.
Definition peer_Name (p : Peer) : string := om_Name (peer_Meta p).

(** ** import.go *)
Record ImportSource := mkSource { src_Peer : string; src_ExportName : string; src_ExportNamespace : string }.
#[export] Instance ImportSource_eq_dec : EqDecision ImportSource.
Proof. solve_decision. Defined.

(** [LBScheme] is a string type; the CRD schema does not restrict its values. *)
Definition LBSchemeRandom : string := "random".
Definition LBSchemeRoundRobin : string := "round-robin".
Definition LBSchemeStatic : string := "static".
Definition LBSchemeDefault : string := LBSchemeRoundRobin.

Record ImportSpec := mkImportSpec {
  imp_Port : Z;
  imp_TargetPort : Z;
  imp_Sources : list ImportSource;
  imp_LBScheme : string
}.

Definition ImportTargetPortValid : string := "ImportTargetPortValid".
Definition ImportServiceValid : string := "ImportServiceValid".
Definition LabelImportMerge : string := "import.clusterlink.net/merge".

Record Import := mkImport {
  imp_Meta : ObjectMeta;
  imp_Spec : ImportSpec;
  imp_Conditions : list Condition
}.
Definition imp_Name (i : Import) : string := om_Name (imp_Meta i).
Definition imp_Namespace (i : Import) : string := om_Namespace (imp_Meta i).
Definition imp_Labels (i : Import) : gmap string string := om_Labels (imp_Meta i).
Definition imp_key (i : Import) : NamespacedName := om_key (imp_Meta i).

(** ** export.go *)
Definition ExportValid : string := "ExportValid".

Record Export := mkExport {
  exp_Meta : ObjectMeta;
  exp_Host : string;
  exp_Port : Z;
  exp_Conditions : list Condition
}.
Definition exp_Name (e : Export) : string := om_Name (exp_Meta e).
Definition exp_Namespace (e : Export) : string := om_Namespace (exp_Meta e).
Definition exp_Labels (e : Export) : gmap string string := om_Labels (exp_Meta e).

(** ** pkg/controlplane/api/authz.go *)
Definition RemotePeerAuthorizationPath : string := "/authz".
Definition ImportNameHeader : string := "x-import-name".
Definition ImportNamespaceHeader : string := "x-import-namespace".
Definition ClientIPHeader : string := "x-client-ip".
Definition AuthorizationHeader : string := "authorization".
Definition TargetClusterHeader : string := "host".
Definition AccessTokenHeader : string := "x-access-token".
Definition ExportNameJWTClaim : string := "export_name".
Definition ExportNamespaceJWTClaim : string := "export_namespace".

Record AuthorizationRequest := mkAuthzReq {
  areq_ServiceName : string;
  areq_ServiceNamespace : string;
  areq_SrcAttributes : gmap string string
}.

(** ** pkg/controlplane/api/heartbeat.go *)
Definition HeartbeatPath : string := "/healthz".
Definition PeerLabelsCustomHeader : string := "ClusterLinkPeerLabels".

(** ** pkg/controlplane/api/xds.go *)
Definition EgressRouterCluster : string := "egress-router".
Definition ExportClusterPrefix : string := "export-".
Definition RemotePeerClusterPrefix : string := "remote-peer-".
Definition ImportListenerPrefix : string := "import-".
Definition ValidationSecret : string := "validation".
Definition CertificateSecret : string := "certificate".

Definition ExportClusterName (name namespace : string) : string :=
  ExportClusterPrefix +:+ namespace +:+ "/" +:+ name.
Definition RemotePeerClusterName (name : string) : string :=
  RemotePeerClusterPrefix +:+ name.
Definition ImportListenerName (name namespace : string) : string :=
  ImportListenerPrefix +:+ namespace +:+ "/" +:+ name.

(** ** const.go of the controlplane and of the dataplane *)
Definition controlplane_Name : string := "cl-controlplane".
Definition dataplane_Name : string := "cl-dataplane".
Definition GoDataplaneName : string := "cl-go-dataplane".
Definition controlplane_ListenPort : Z := 4444.
Definition dataplane_ListenPort : Z := 4443.
(** [IngressSvcName] of cmd/cl-dataplane/app/server.go. *)
Definition IngressSvcName : string := "clusterlink".

(** ** The xDS names are injective where namespaces have no slash *)
#[local] Arguments String.append !_ _ / : simpl nomatch.

(** A Kubernetes namespace is a DNS label, so it has no slash. *)
Definition no_slash (s : string) : Prop := str_in "/"%char s = false.
#[export] Instance no_slash_dec s : Decision (no_slash s).
Proof. unfold no_slash. apply _. Defined.

Lemma slash_app_inj ns1 n1 ns2 n2 :
  no_slash ns1 → no_slash ns2 →
  ns1 +:+ "/" +:+ n1 = ns2 +:+ "/" +:+ n2 → ns1 = ns2 ∧ n1 = n2.
Proof. intros H1 H2 Heq. by apply (sep_app_inj "/"%char). Qed.

Lemma export_not_remote_peer name ns peer :
  ExportClusterName name ns ≠ RemotePeerClusterName peer.
Proof. done. Qed.

Lemma ExportClusterName_inj' n1 ns1 n2 ns2 :
  no_slash ns1 → no_slash ns2 →
  ExportClusterName n1 ns1 = ExportClusterName n2 ns2 → n1 = n2 ∧ ns1 = ns2.
Proof.
  intros H1 H2 Heq%str_app_inj_l.
  by apply slash_app_inj in Heq as [-> ->].
Qed.

Lemma ImportListenerName_inj' n1 ns1 n2 ns2 :
  no_slash ns1 → no_slash ns2 →
  ImportListenerName n1 ns1 = ImportListenerName n2 ns2 → n1 = n2 ∧ ns1 = ns2.
Proof.
  intros H1 H2 Heq%str_app_inj_l.
  by apply slash_app_inj in Heq as [-> ->].
Qed.

Lemma RemotePeerClusterName_inj p1 p2 :
  RemotePeerClusterName p1 = RemotePeerClusterName p2 → p1 = p2.
Proof. apply str_app_inj_l. Qed.

#[export] Hint Resolve RemotePeerClusterName_inj export_not_remote_peer : clink.
