(* ===== verification/K8s.v ===== *)
(** * The Kubernetes libraries the sources call, as interfaces

    [k8s.io/apimachinery] and the controller-runtime client are not part of the
    repository.  Each is a class of operations; what the code relies on is a
    second class of laws stating their documented behaviour.  The [ref_]
    instances are small concrete implementations: they satisfy the laws and are
    used to evaluate the model on concrete inputs. *)
From S2P Require Export Api.
From stdpp Require Import options.
From Stdlib Require Import Ascii ZArith Lia.

(** ** Label selectors: [metav1.LabelSelectorAsSelector], [labels.Selector.Matches] *)
Class LabelSelectors := {
  Selector : Type;
  LabelSelectorAsSelector : option LabelSelector → result Selector;
  Matches : Selector → gmap string string → bool
}.

(** [NamespacedName.String], used in the [%v] of a name. *)
Class NamespacedNameString := { nn_String : NamespacedName → string }.

(** ** Status conditions: [k8s.io/apimachinery/pkg/api/meta] *)
Class StatusConditions := {
  FindStatusCondition : list Condition → string → option Condition;
  IsStatusConditionTrue : list Condition → string → bool;
  (** The first argument is the time of the call. *)
  SetStatusCondition : Z → list Condition → Condition → list Condition
}.

(** Two conditions that say the same thing at possibly different times. *)
Definition same_condition (c1 c2 : Condition) : Prop :=
  cond_Type c1 = cond_Type c2 ∧ cond_Status c1 = cond_Status c2 ∧
  cond_Reason c1 = cond_Reason c2 ∧ cond_Message c1 = cond_Message c2.
#[export] Instance same_condition_dec c1 c2 : Decision (same_condition c1 c2).
Proof. unfold same_condition. apply _. Defined.
#[export] Instance same_condition_equiv : Equivalence same_condition.
Proof. split; repeat intro; unfold same_condition in *; naive_solver congruence. Qed.

Class StatusConditionsLaws `{!StatusConditions} := {
  Find_type cs t c : FindStatusCondition cs t = Some c → c ∈ cs ∧ cond_Type c = t;
  IsTrue_spec cs t :
    IsStatusConditionTrue cs t = true ↔
    ∃ c, FindStatusCondition cs t = Some c ∧ cond_Status c = ConditionTrue;
  Find_Set_eq now cs c :
    ∃ c', FindStatusCondition (SetStatusCondition now cs c) (cond_Type c) = Some c' ∧
          same_condition c' c;
  Find_Set_ne now cs c t :
    t ≠ cond_Type c → FindStatusCondition (SetStatusCondition now cs c) t = FindStatusCondition cs t;
  Find_fmap (f : Condition → Condition) cs t :
    (∀ c, cond_Type (f c) = cond_Type c) → FindStatusCondition (f <$> cs) t = f <$> FindStatusCondition cs t;
  (** The time is written when the status changes. *)
  Set_time now cs c :
    (∀ c0, FindStatusCondition cs (cond_Type c) = Some c0 → cond_Status c0 ≠ cond_Status c) →
    ∃ c', c' ∈ SetStatusCondition now cs c ∧ cond_LastTransitionTime c' = now
}.

(** ** The API client of controller-runtime

    [W] is the state of the API server (and of anything else outside the
    program); every call may read and change it. [kUpdate] and [kStatusUpdate]
    return the object decoded from the response. *)
Record ListOptions := mkListOptions {
  lo_Namespace : option string;       (* client.InNamespace *)
  lo_Labels : gmap string string      (* client.MatchingLabels *)
}.

Class KubeClient (W T : Type) := {
  kGet : NamespacedName → ST W (result T);
  kList : ListOptions → ST W (result (list T));
  kCreate : T → ST W (result T);
  kUpdate : T → ST W (result T);
  kStatusUpdate : T → ST W (result T);
  kDelete : NamespacedName → ST W (option error)
}.

(** The clock. *)
Class Clock (W : Type) := { clock_now : W → Z }.

(** The error of a call whose response object is not used. *)
Definition err_of {A} (r : result A) : option error :=
  match r with Ok _ => None | Err e => Some e end.

(** The key and the labels of an object. *)
Class KubeObject (T : Type) := { kKey : T → NamespacedName; kLabels : T → gmap string string }.
#[export] Instance Import_object : KubeObject Import := {| kKey := imp_key; kLabels := imp_Labels |}.

(** *** What the API server does

    [kView] is the store of one kind of object.  A call that fails leaves it as it
    was, or (when only the answer was lost) has its effect; objects have no
    finalizers.  Other writers do
    not run between the calls of a handler. *)
Class KubeClientLaws (W T : Type) `{!KubeObject T} `{!KubeClient W T} := {
  kView : W → gmap NamespacedName T;
  kGet_view k w : kView (kGet k w).2 = kView w;
  kGet_ok k w x : (kGet k w).1 = Ok x → kView w !! k = Some x;
  kView_key k w x : kView w !! k = Some x → kKey x = k;
  kGet_notfound k w e : (kGet k w).1 = Err e → IsNotFound e = true → kView w !! k = None;
  kList_view o w : kView (kList o w).2 = kView w;
  kList_ok o w xs : (kList o w).1 = Ok xs → ∀ x,
    x ∈ xs ↔ kView w !! kKey x = Some x ∧ lo_Labels o ⊆ kLabels x ∧
             (∀ ns, lo_Namespace o = Some ns → Namespace (kKey x) = ns);
  kCreate_view x w :
    kView (kCreate x w).2 = kView w ∨
    (kView w !! kKey x = None ∧ kView (kCreate x w).2 = <[kKey x := x]> (kView w));
  kCreate_ok x w y : (kCreate x w).1 = Ok y → kView (kCreate x w).2 !! kKey x = Some x;
  kUpdate_view x w :
    kView (kUpdate x w).2 = kView w ∨ kView (kUpdate x w).2 = <[kKey x := x]> (kView w);
  kUpdate_ok x w y : (kUpdate x w).1 = Ok y → kView (kUpdate x w).2 !! kKey x = Some x;
  kUpdate_missing x w : kView w !! kKey x = None →
    (∃ e, (kUpdate x w).1 = Err e) ∧ kView (kUpdate x w).2 = kView w;
  kDelete_view k w :
    kView (kDelete k w).2 = kView w ∨ kView (kDelete k w).2 = delete k (kView w);
  kDelete_ok k w : (kDelete k w).1 = None → kView (kDelete k w).2 !! k = None;
  kDelete_notfound k w e : (kDelete k w).1 = Some e → IsNotFound e = true → kView (kDelete k w).2 !! k = None
}.

(** Calls on objects of kind [T] do not change the store of kind [T']. *)
Class KubeFrame (W T T' : Type) `{!KubeClient W T} `{KubeClientLaws W T'} := {
  frame_get k w : kView (T:=T') (kGet (T:=T) k w).2 = kView w;
  frame_list o w : kView (T:=T') (kList (T:=T) o w).2 = kView w;
  frame_create (x : T) w : kView (T:=T') (kCreate x w).2 = kView w;
  frame_update (x : T) w : kView (T:=T') (kUpdate x w).2 = kView w;
  frame_status (x : T) w : kView (T:=T') (kStatusUpdate x w).2 = kView w;
  frame_delete k w : kView (T:=T') (kDelete (T:=T) k w).2 = kView w
}.

(** [Error()] of the errors of the sources. *)
Fixpoint error_string `{NamespacedNameString} (e : error) : string :=
  match e with
  | ENew msg | EApi _ msg => msg
  | EWrap msg e' => msg +:+ ": " +:+ error_string e'
  | EPrefix msg e' => msg +:+ " " +:+ error_string e'
  | EJoin es => String.concat (String (ascii_of_nat 10) "") (map error_string es)
  | ETerminal e' => "terminal error: " +:+ error_string e'
  | EParse e' => error_string e'
  | EConflictingTargetPort port n =>
      "port " +:+ Itoa port +:+ " is already in use by service " +:+ nn_String n
  | EExportServiceNotExist n => "export service '" +:+ Namespace n +:+ "/" +:+ Name n +:+ "' does not exist"
  | EImportServiceNotExist n => "import service '" +:+ Namespace n +:+ "/" +:+ Name n +:+ "' does not exist"
  | EConflictingService n managedBy =>
      "service '" +:+ Namespace n +:+ "/" +:+ Name n +:+ "' already exists and managed by '" +:+ managedBy +:+ "'"
  end.

(** ** Reference instances *)
Definition requirement_matches (ls : gmap string string) (r : LabelSelectorRequirement) : bool :=
  if bool_decide (req_Operator r = "In") then
    if ls !! req_Key r is Some v then bool_decide (v ∈ req_Values r) else false
  else if bool_decide (req_Operator r = "NotIn") then
    if ls !! req_Key r is Some v then bool_decide (v ∉ req_Values r) else true
  else if bool_decide (req_Operator r = "Exists") then bool_decide (is_Some (ls !! req_Key r))
  else bool_decide (ls !! req_Key r = None).

Definition requirement_valid (r : LabelSelectorRequirement) : bool :=
  bool_decide (req_Operator r ∈ ["In"; "NotIn"; "Exists"; "DoesNotExist"]).

Definition ref_labelselectors : LabelSelectors := {|
  Selector := option LabelSelector;
  LabelSelectorAsSelector os :=
    match os with
    | None => Ok None
    | Some s => if forallb requirement_valid (MatchExpressions s) then Ok (Some s)
                else Err (ENew "not a valid label selector operator")
    end;
  Matches os ls :=
    match os with
    | None => false
    | Some s => bool_decide (MatchLabels s ⊆ ls) &&
                forallb (requirement_matches ls) (MatchExpressions s)
    end
|}.

Definition ref_nn_string : NamespacedNameString :=
  {| nn_String n := Namespace n +:+ "/" +:+ Name n |}.

Definition ref_find (cs : list Condition) (t : string) : option Condition :=
  snd <$> list_find (λ c, cond_Type c = t) cs.

Fixpoint ref_set (now : Z) (cs : list Condition) (c : Condition) : list Condition :=
  match cs with
  | [] => [mkCondition (cond_Type c) (cond_Status c) (cond_Reason c) (cond_Message c)
             now (cond_ObservedGeneration c)]
  | c0 :: cs' =>
      if bool_decide (cond_Type c0 = cond_Type c) then
        mkCondition (cond_Type c) (cond_Status c) (cond_Reason c) (cond_Message c)
          (if bool_decide (cond_Status c0 = cond_Status c) then cond_LastTransitionTime c0 else now)
          (cond_ObservedGeneration c) :: cs'
      else c0 :: ref_set now cs' c
  end.

#[export] Instance ref_conditions : StatusConditions | 100 := {|
  FindStatusCondition := ref_find;
  IsStatusConditionTrue cs t :=
    if ref_find cs t is Some c then bool_decide (cond_Status c = ConditionTrue) else false;
  SetStatusCondition := ref_set
|}.

Lemma ref_find_cons c cs t :
  ref_find (c :: cs) t = if decide (cond_Type c = t) then Some c else ref_find cs t.
Proof.
  unfold ref_find; simpl. case_decide; [done|].
  by destruct (list_find _ cs) as [[]|].
Qed.

#[export] Instance ref_conditions_laws : @StatusConditionsLaws ref_conditions.
Proof.
  split; simpl.
  - intros cs t c. induction cs as [|c0 cs IH]; [done|]. rewrite ref_find_cons.
    case_decide; [set_solver|]. intros [? ?]%IH. set_solver.
  - intros cs t. destruct (ref_find cs t) as [c|]; [|naive_solver].
    rewrite bool_decide_eq_true. naive_solver.
  - intros now cs c. induction cs as [|c0 cs IH]; simpl.
    + rewrite ref_find_cons, decide_True by done. eexists; split; [done|]. by repeat split.
    + case_bool_decide; rewrite ref_find_cons; simpl.
      * rewrite decide_True by done. eexists; split; [done|]. by repeat split.
      * by rewrite decide_False.
  - intros now cs c t Ht. induction cs as [|c0 cs IH]; simpl.
    + by rewrite ref_find_cons, decide_False.
    + case_bool_decide; rewrite !ref_find_cons; simpl; repeat case_decide; congruence.
  - intros f cs t Hf. induction cs as [|c0 cs IH]; [done|]. rewrite fmap_cons, !ref_find_cons, Hf.
    by case_decide.
  - intros now cs c. induction cs as [|c0 cs IH]; intros Hc; simpl; [eexists; split; [by left|done]|].
    rewrite ref_find_cons in Hc. case_bool_decide as Ht.
    + rewrite decide_True in Hc by done. eexists. split; [by left|]. simpl.
      by rewrite bool_decide_eq_false_2 by (by apply Hc).
    + rewrite decide_False in Hc by done. destruct (IH Hc) as (c' & Hin & Hn). exists c'. split; [by right|done].
Qed.
