(* ===== verification/Pdp.v ===== *)
(** * The connectivity policy decision point

    [pkg/controlplane/authz/connectivitypdp] and the validation of
    [v1alpha1/accesspolicy.go].  A tier keeps a map of deny and a map of allow
    policies; [Decide] asks the privileged tier, then the regular one, then
    denies.  The maps are [gmap]s; a loop over a map takes a [ranger].  Each
    operation runs under the tier's lock, so an execution of the PDP is a
    sequence of operations. *)
From S2P Require Export K8s.
From stdpp Require Import options.

Inductive Decision := DecisionUndecided | DecisionAllow | DecisionDeny.
#[export] Instance Decision_eq_dec : EqDecision Decision.
Proof. solve_decision. Defined.

(** [WorkloadAttrs]; a nil map is the empty one. *)
Abbreviation WorkloadAttrs := (gmap string string).
Abbreviation connPolicyMap := (gmap NamespacedName AccessPolicySpec).

Record policyTier := mkTier {
  privileged : bool;
  denyPolicies : connPolicyMap;
  allowPolicies : connPolicyMap
}.

Record PDP := mkPDP { privilegedPolicies : policyTier; regularPolicies : policyTier }.

Record DestinationDecision := mkDD {
  Destination : WorkloadAttrs;
  dd_Decision : Decision;
  MatchedBy : string;
  PrivilegedMatch : bool
}.

(** connectivitypdp.AccessPolicy *)
Record AccessPolicy := mkAccessPolicy {
  ap_name : NamespacedName; ap_privileged : bool; ap_spec : AccessPolicySpec
}.

Definition DefaultDenyPolicyName : string := "<default deny>".

Definition PolicyFromCR (vap : AccessPolicyCR) : AccessPolicy :=
  mkAccessPolicy (mkNN (om_Namespace (pcr_Meta vap)) (om_Name (pcr_Meta vap))) false (pcr_Spec vap).
Definition PolicyFromPrivilegedCR (vap : AccessPolicyCR) : AccessPolicy :=
  mkAccessPolicy (mkNN "" (om_Name (pcr_Meta vap))) true (pcr_Spec vap).

Definition newPolicyTier (priv : bool) : policyTier := mkTier priv ∅ ∅.
Definition NewPDP : PDP := mkPDP (newPolicyTier true) (newPolicyTier false).

Section pdp.
Context {LS : LabelSelectors} {NS : NamespacedNameString}.

(** ** Validation *)

Definition validate_wss (wss : WorkloadSetOrSelector) : option error :=
  if bool_decide (0 < length (WorkloadSets wss) ∧ is_Some (WorkloadSelector wss)
                  ∨ length (WorkloadSets wss) = 0 ∧ WorkloadSelector wss = None) then
    Some (ENew "exactly one of WorkloadSets or WorkloadSelector must be set")
  else if bool_decide (0 < length (WorkloadSets wss)) then
    Some (ENew "workload sets are not yet supported")
  else err_of (LabelSelectorAsSelector (WorkloadSelector wss)).

Fixpoint validate_list (wsl : list WorkloadSetOrSelector) : option error :=
  match wsl with
  | [] => None
  | wss :: wsl' => match validate_wss wss with
                   | Some err => Some err
                   | None => validate_list wsl'
                   end
  end.

Definition Validate (p : AccessPolicySpec) : option error :=
  if bool_decide (pol_Action p ≠ AccessPolicyActionAllow ∧ pol_Action p ≠ AccessPolicyActionDeny) then
    Some (ENew ("unsupported policy actions " +:+ pol_Action p))
  else if bool_decide (length (pol_From p) = 0) then
    Some (ENew "empty From field is not allowed")
  else match validate_list (pol_From p) with
  | Some err => Some err
  | None =>
      if bool_decide (length (pol_To p) = 0) then
        Some (ENew "empty To field is not allowed")
      else validate_list (pol_To p)
  end.

(** ** Matching *)

Definition workloadSetOrSelectorMatches (wss : WorkloadSetOrSelector) (attrs : WorkloadAttrs) : result bool :=
  match LabelSelectorAsSelector (WorkloadSelector wss) with
  | Err err => Err err
  | Ok selector => Ok (Matches selector attrs)
  end.

Fixpoint WorkloadSetOrSelectorListMatches (wsl : list WorkloadSetOrSelector) (attrs : WorkloadAttrs) : result bool :=
  match wsl with
  | [] => Ok false
  | wss :: wsl' =>
      match workloadSetOrSelectorMatches wss attrs with
      | Err err => Err err
      | Ok true => Ok true
      | Ok false => WorkloadSetOrSelectorListMatches wsl' attrs
      end
  end.

Definition accessPolicyMatches (policy : AccessPolicySpec) (src dest : WorkloadAttrs) : result bool :=
  match WorkloadSetOrSelectorListMatches (pol_From policy) src with
  | Err err => Err err
  | Ok false => Ok false
  | Ok true => WorkloadSetOrSelectorListMatches (pol_To policy) dest
  end.

Definition accessPolicyDecide (policy : AccessPolicySpec) (src dest : WorkloadAttrs) : result Decision :=
  match accessPolicyMatches policy src dest with
  | Err err => Err err
  | Ok true => if bool_decide (pol_Action policy = AccessPolicyActionAllow)
               then Ok DecisionAllow else Ok DecisionDeny
  | Ok false => Ok DecisionUndecided
  end.

(** ** Deciding

    [dest] is passed by pointer in Go; here the updated decision is returned
    together with whether the destination was decided. *)

Fixpoint cpm_decide (cpm : list (NamespacedName * AccessPolicySpec)) (src : WorkloadAttrs)
    (dest : DestinationDecision) (priv : bool) (ns : string) : result (DestinationDecision * bool) :=
  match cpm with
  | [] => Ok (dest, false)
  | (policyName, policy) :: cpm' =>
      if bool_decide (priv = false ∧ Namespace policyName ≠ ns) then
        cpm_decide cpm' src dest priv ns
      else
        match accessPolicyDecide policy src (Destination dest) with
        | Err err => Err err
        | Ok decision =>
            if bool_decide (decision ≠ DecisionUndecided) then
              Ok (mkDD (Destination dest) decision (nn_String policyName) priv, true)
            else cpm_decide cpm' src dest priv ns
        end
  end.

(** The order in which the two maps of a tier are visited. *)
Record TierOrder := mkTierOrder {
  deny_order : ranger NamespacedName AccessPolicySpec;
  allow_order : ranger NamespacedName AccessPolicySpec
}.

Definition tier_decide (o : TierOrder) (pt : policyTier) (src : WorkloadAttrs)
    (dest : DestinationDecision) (ns : string) : result (DestinationDecision * bool) :=
  match cpm_decide (range (deny_order o) (denyPolicies pt)) src dest (privileged pt) ns with
  | Err err => Err err
  | Ok (dest', true) => Ok (dest', true)
  | Ok (dest', false) =>
      match cpm_decide (range (allow_order o) (allowPolicies pt)) src dest' (privileged pt) ns with
      | Err err => Err err
      | Ok (dest'', decided) => Ok (dest'', decided)
      end
  end.

Definition Decide (o_priv o_reg : TierOrder) (pdp : PDP) (src dest : WorkloadAttrs) (ns : string)
    : result DestinationDecision :=
  let decision := mkDD dest DecisionUndecided "" false in
  match tier_decide o_priv (privilegedPolicies pdp) src decision ns with
  | Err err => Err err
  | Ok (decision', true) => Ok decision'
  | Ok (decision', false) =>
      match tier_decide o_reg (regularPolicies pdp) src decision' ns with
      | Err err => Err err
      | Ok (decision'', true) => Ok decision''
      | Ok (decision'', false) =>
          Ok (mkDD (Destination decision'') DecisionDeny DefaultDenyPolicyName false)
      end
  end.

(** ** Updating *)

Definition unsafeDeletePolicy (policyName : NamespacedName) : ST policyTier (option error) := λ pt,
  let okDeny := bool_decide (is_Some (denyPolicies pt !! policyName)) in
  let pt1 := if okDeny then mkTier (privileged pt) (delete policyName (denyPolicies pt)) (allowPolicies pt)
             else pt in
  let okAllow := bool_decide (is_Some (allowPolicies pt1 !! policyName)) in
  let pt2 := if okAllow then mkTier (privileged pt1) (denyPolicies pt1) (delete policyName (allowPolicies pt1))
             else pt1 in
  if negb okDeny && negb okAllow
  then (Some (ENew ("failed deleting AccessPolicy " +:+ nn_String policyName)), pt2)
  else (None, pt2).

Definition addPolicy (policyName : NamespacedName) (policySpec : AccessPolicySpec) (pt : policyTier) : policyTier :=
  let pt' := (unsafeDeletePolicy policyName pt).2 in
  if bool_decide (pol_Action policySpec = AccessPolicyActionDeny)
  then mkTier (privileged pt') (<[policyName := policySpec]> (denyPolicies pt')) (allowPolicies pt')
  else mkTier (privileged pt') (denyPolicies pt') (<[policyName := policySpec]> (allowPolicies pt')).

Definition deletePolicy (policyName : NamespacedName) : ST policyTier (option error) :=
  unsafeDeletePolicy policyName.

Definition AddOrUpdatePolicy (policy : AccessPolicy) : ST PDP (option error) := λ pdp,
  match Validate (ap_spec policy) with
  | Some err => (Some err, pdp)
  | None =>
      if ap_privileged policy
      then (None, mkPDP (addPolicy (ap_name policy) (ap_spec policy) (privilegedPolicies pdp)) (regularPolicies pdp))
      else (None, mkPDP (privilegedPolicies pdp) (addPolicy (ap_name policy) (ap_spec policy) (regularPolicies pdp)))
  end.

Definition DeletePolicy (policyName : NamespacedName) (priv : bool) : ST PDP (option error) := λ pdp,
  if priv
  then let (err, pt) := deletePolicy policyName (privilegedPolicies pdp) in (err, mkPDP pt (regularPolicies pdp))
  else let (err, pt) := deletePolicy policyName (regularPolicies pdp) in (err, mkPDP (privilegedPolicies pdp) pt).

(** ** Queries *)

Definition selector_depends (wss : WorkloadSetOrSelector) : bool :=
  match WorkloadSelector wss with
  | None => false
  | Some selector => bool_decide (0 < length (MatchExpressions selector) ∨ 0 < size (MatchLabels selector))
  end.

(** Whether the nested loops return true does not depend on the order. *)
Definition cpm_dependsOnClientAttrs (cpm : connPolicyMap) : bool :=
  existsb (λ np, existsb selector_depends (pol_From np.2)) (map_to_list cpm).

Definition tier_dependsOnClientAttrs (pt : policyTier) : bool :=
  cpm_dependsOnClientAttrs (denyPolicies pt) || cpm_dependsOnClientAttrs (allowPolicies pt).

Definition DependsOnClientAttrs (pdp : PDP) : bool :=
  tier_dependsOnClientAttrs (privilegedPolicies pdp) || tier_dependsOnClientAttrs (regularPolicies pdp).

(** [res := pt.denyPolicies] aliases the map of the tier, so the loop that
    fills [res] writes the allow policies into the deny policies. *)
Definition getPolicies : ST policyTier connPolicyMap := λ pt,
  let res := allowPolicies pt ∪ denyPolicies pt in
  (res, mkTier (privileged pt) res (allowPolicies pt)).

Definition policies_to_crs (r : ranger NamespacedName AccessPolicySpec) (pols : connPolicyMap) : list AccessPolicyCR :=
  (λ np, mkPolicyCR (mkMeta (Name np.1) (Namespace np.1) ∅) np.2) <$> range r pols.

Definition GetPrivilegedPolicies (r : ranger NamespacedName AccessPolicySpec) : ST PDP (list AccessPolicyCR) := λ pdp,
  let (pols, pt) := getPolicies (privilegedPolicies pdp) in
  (policies_to_crs r pols, mkPDP pt (regularPolicies pdp)).

Definition GetPolicies (r : ranger NamespacedName AccessPolicySpec) : ST PDP (list AccessPolicyCR) := λ pdp,
  let (pols, pt) := getPolicies (regularPolicies pdp) in
  (policies_to_crs r pols, mkPDP (privilegedPolicies pdp) pt).

End pdp.
