(* ===== verification/PdpFacts.v ===== *)
(** * Correctness of the policy decision point

    The specification is a store of policies keyed by tier and name: adding is
    insertion, deleting is deletion, and the verdict on a connection is that of
    the first of four questions about the store that has a positive answer.
    [Decide_refines_store] says the PDP gives that verdict after any sequence of
    updates and for any iteration order of its maps. *)
From S2P Require Export Pdp.
From stdpp Require Import options.

Section facts.
Context {LS : LabelSelectors} {NS : NamespacedNameString}.

(** ** Specification *)

Definition spec_matches (p : AccessPolicySpec) (src dst : WorkloadAttrs) : bool :=
  match accessPolicyMatches p src dst with Ok b => b | Err _ => false end.

(** Privileged policies apply everywhere, regular ones in their namespace. *)
Definition applicable (priv : bool) (ns : string) (n : NamespacedName) : Prop :=
  priv = true ∨ Namespace n = ns.
#[export] Instance applicable_dec priv ns n : base.Decision (applicable priv ns n).
Proof. unfold applicable. apply _. Defined.

Record policyStore := mkStore { st_privileged : connPolicyMap; st_regular : connPolicyMap }.
Definition store_tier (st : policyStore) (priv : bool) : connPolicyMap :=
  if priv then st_privileged st else st_regular st.

(** Some applicable policy with the given action matches the connection. *)
Definition store_has (m : connPolicyMap) (priv : bool) (action ns : string) (src dst : WorkloadAttrs) : bool :=
  bool_decide (map_Exists
    (λ n p, pol_Action p = action ∧ applicable priv ns n ∧ spec_matches p src dst = true) m).

(** The decision, and whether a privileged policy took it. *)
Definition store_decide (st : policyStore) (src dst : WorkloadAttrs) (ns : string) : Decision * bool :=
  if store_has (st_privileged st) true AccessPolicyActionDeny ns src dst then (DecisionDeny, true)
  else if store_has (st_privileged st) true AccessPolicyActionAllow ns src dst then (DecisionAllow, true)
  else if store_has (st_regular st) false AccessPolicyActionDeny ns src dst then (DecisionDeny, false)
  else if store_has (st_regular st) false AccessPolicyActionAllow ns src dst then (DecisionAllow, false)
  else (DecisionDeny, false).

Inductive pdp_op := OpAdd (p : AccessPolicy) | OpDelete (n : NamespacedName) (priv : bool).

Definition run_op (op : pdp_op) : ST PDP (option error) :=
  match op with OpAdd p => AddOrUpdatePolicy p | OpDelete n priv => DeletePolicy n priv end.
Definition run_ops (ops : list pdp_op) (pdp : PDP) : PDP :=
  foldl (λ s op, (run_op op s).2) pdp ops.

Definition update_tier (st : policyStore) (priv : bool) (f : connPolicyMap → connPolicyMap) : policyStore :=
  if priv then mkStore (f (st_privileged st)) (st_regular st)
  else mkStore (st_privileged st) (f (st_regular st)).

(** The new store and whether the operation fails. *)
Definition store_op (op : pdp_op) (st : policyStore) : bool * policyStore :=
  match op with
  | OpAdd p =>
      if Validate (ap_spec p) is Some _ then (true, st)
      else (false, update_tier st (ap_privileged p) <[ap_name p := ap_spec p]>)
  | OpDelete n priv =>
      (bool_decide (store_tier st priv !! n = None), update_tier st priv (delete n))
  end.
Definition store_ops (ops : list pdp_op) (st : policyStore) : policyStore :=
  foldl (λ s op, (store_op op s).2) st ops.
Definition empty_store : policyStore := mkStore ∅ ∅.

(** ** Invariant and abstraction *)

Record tier_wf (priv : bool) (pt : policyTier) : Prop := {
  tier_privileged : privileged pt = priv;
  tier_deny : map_Forall (λ _ p, pol_Action p = AccessPolicyActionDeny ∧ Validate p = None) (denyPolicies pt);
  tier_allow : map_Forall (λ _ p, pol_Action p = AccessPolicyActionAllow ∧ Validate p = None) (allowPolicies pt);
  tier_disjoint : denyPolicies pt ##ₘ allowPolicies pt
}.
Definition pdp_wf (pdp : PDP) : Prop :=
  tier_wf true (privilegedPolicies pdp) ∧ tier_wf false (regularPolicies pdp).

Definition tier_abs (pt : policyTier) : connPolicyMap := denyPolicies pt ∪ allowPolicies pt.
Definition pdp_abs (pdp : PDP) : policyStore :=
  mkStore (tier_abs (privilegedPolicies pdp)) (tier_abs (regularPolicies pdp)).

Lemma Validate_action p :
  Validate p = None → pol_Action p ≠ AccessPolicyActionDeny → pol_Action p = AccessPolicyActionAllow.
Proof.
  unfold Validate. case_bool_decide as Hact; [done|]. intros _ Hd.
  destruct (decide (pol_Action p = AccessPolicyActionAllow)); [done|]. tauto.
Qed.

Lemma newPolicyTier_wf priv : tier_wf priv (newPolicyTier priv).
Proof. split; simpl; [done|intros ???; simplify_map_eq..|apply map_disjoint_empty_l]. Qed.

Lemma NewPDP_wf : pdp_wf NewPDP.
Proof. split; apply newPolicyTier_wf. Qed.

(** Deleting from a tier deletes from both maps. *)
Lemma unsafeDeletePolicy_eq n pt :
  unsafeDeletePolicy n pt =
    (if bool_decide (tier_abs pt !! n = None)
     then Some (ENew ("failed deleting AccessPolicy " +:+ nn_String n)) else None,
     mkTier (privileged pt) (delete n (denyPolicies pt)) (delete n (allowPolicies pt))).
Proof.
  destruct pt as [priv deny allow]. unfold unsafeDeletePolicy, tier_abs; simpl.
  rewrite lookup_union.
  destruct (deny !! n) as [d|] eqn:Hd, (allow !! n) as [a|] eqn:Ha; simpl;
    rewrite ?Ha, ?(delete_id deny), ?(delete_id allow) by done; reflexivity.
Qed.

Lemma unsafeDeletePolicy_wf n priv pt : tier_wf priv pt → tier_wf priv (unsafeDeletePolicy n pt).2.
Proof.
  rewrite unsafeDeletePolicy_eq. intros []; split; simpl;
    [done|by apply map_Forall_delete..|by apply map_disjoint_delete_l, map_disjoint_delete_r].
Qed.

Lemma unsafeDeletePolicy_abs n pt : tier_abs (unsafeDeletePolicy n pt).2 = delete n (tier_abs pt).
Proof. rewrite unsafeDeletePolicy_eq. unfold tier_abs; simpl. by rewrite delete_union. Qed.

Lemma addPolicy_wf n p priv pt :
  Validate p = None → tier_wf priv pt → tier_wf priv (addPolicy n p pt).
Proof.
  intros Hp Hwf. unfold addPolicy.
  pose proof (unsafeDeletePolicy_wf n _ _ Hwf) as [H1 H2 H3 H4].
  assert (denyPolicies (unsafeDeletePolicy n pt).2 !! n = None ∧
          allowPolicies (unsafeDeletePolicy n pt).2 !! n = None) as [? ?].
  { rewrite unsafeDeletePolicy_eq; simpl. by rewrite !lookup_delete_eq. }
  case_bool_decide; split; simpl; try done.
  - by apply map_Forall_insert_2.
  - by apply map_disjoint_insert_l.
  - apply map_Forall_insert_2; auto using Validate_action.
  - by apply map_disjoint_insert_r.
Qed.

Lemma addPolicy_abs n p pt : tier_abs (addPolicy n p pt) = <[n := p]> (tier_abs pt).
Proof.
  unfold addPolicy. rewrite <-(insert_delete_eq (tier_abs pt)), <-unsafeDeletePolicy_abs.
  assert (denyPolicies (unsafeDeletePolicy n pt).2 !! n = None).
  { rewrite unsafeDeletePolicy_eq; simpl. by rewrite lookup_delete_eq. }
  unfold tier_abs. case_bool_decide; simpl.
  - by rewrite insert_union_l.
  - by rewrite insert_union_r.
Qed.

Lemma run_op_wf op pdp : pdp_wf pdp → pdp_wf (run_op op pdp).2.
Proof.
  intros [Hp Hr]. destruct op as [[n [] p]|n []]; simpl;
    unfold AddOrUpdatePolicy, DeletePolicy, deletePolicy; simpl;
    repeat case_match; simplify_eq/=; split; simpl; auto using addPolicy_wf.
  all: match goal with H : unsafeDeletePolicy ?n ?pt = _ |- _ =>
         apply (f_equal snd) in H; simpl in H; subst; by apply unsafeDeletePolicy_wf end.
Qed.

Lemma run_op_abs op pdp :
  pdp_abs (run_op op pdp).2 = (store_op op (pdp_abs pdp)).2 ∧
  bool_decide (is_Some (run_op op pdp).1) = (store_op op (pdp_abs pdp)).1.
Proof.
  destruct op as [[n [] p]|n []]; simpl; unfold AddOrUpdatePolicy, DeletePolicy, deletePolicy; simpl;
    try (destruct (Validate p) as [e|] eqn:?; simpl; unfold pdp_abs; simpl; by rewrite ?addPolicy_abs).
  all: rewrite unsafeDeletePolicy_eq; simpl; split;
    [unfold pdp_abs, tier_abs; simpl; by rewrite delete_union |
     by destruct (bool_decide (_ = None))].
Qed.

Lemma run_ops_refines ops : ∀ pdp,
  pdp_wf pdp →
  pdp_wf (run_ops ops pdp) ∧ pdp_abs (run_ops ops pdp) = store_ops ops (pdp_abs pdp).
Proof.
  induction ops as [|op ops IH]; intros pdp Hwf; [done|].
  destruct (IH (run_op op pdp).2) as [H1 H2]; [by apply run_op_wf|].
  rewrite (proj1 (run_op_abs op pdp)) in H2. done.
Qed.

(** ** Deciding *)

Lemma validate_list_ok wsl attrs :
  validate_list wsl = None → ∃ b, WorkloadSetOrSelectorListMatches wsl attrs = Ok b.
Proof.
  induction wsl as [|wss wsl IH]; simpl; [eauto|].
  unfold validate_wss, workloadSetOrSelectorMatches.
  do 2 (case_bool_decide; [done|]).
  destruct (LabelSelectorAsSelector _) as [s|e]; simpl; [|done].
  intros ?. destruct (Matches s attrs); eauto.
Qed.

Lemma Validate_lists p :
  Validate p = None → validate_list (pol_From p) = None ∧ validate_list (pol_To p) = None.
Proof. unfold Validate. repeat (case_bool_decide || case_match); naive_solver. Qed.

Lemma valid_matches p src dst :
  Validate p = None → accessPolicyMatches p src dst = Ok (spec_matches p src dst).
Proof.
  intros [Hf Ht]%Validate_lists. unfold spec_matches, accessPolicyMatches.
  destruct (validate_list_ok _ src Hf) as [[] ->]; [|done].
  by destruct (validate_list_ok _ dst Ht) as [b ->].
Qed.

Definition action_decision (action : string) : Decision :=
  if bool_decide (action = AccessPolicyActionAllow) then DecisionAllow else DecisionDeny.

Lemma accessPolicyDecide_valid p src dst :
  Validate p = None →
  accessPolicyDecide p src dst =
    Ok (if spec_matches p src dst then action_decision (pol_Action p) else DecisionUndecided).
Proof.
  intros Hp. unfold accessPolicyDecide, action_decision. rewrite valid_matches by done.
  destruct (spec_matches p src dst); [|done]. by case_bool_decide.
Qed.

Lemma cpm_decide_spec l a src dest priv ns :
  Forall (λ np, Validate np.2 = None ∧ pol_Action np.2 = a) l →
  (cpm_decide l src dest priv ns = Ok (dest, false) ∧
     Forall (λ np, ¬ (applicable priv ns np.1 ∧ spec_matches np.2 src (Destination dest) = true)) l) ∨
  (∃ n p, (n, p) ∈ l ∧ applicable priv ns n ∧ spec_matches p src (Destination dest) = true ∧
     cpm_decide l src dest priv ns =
       Ok (mkDD (Destination dest) (action_decision a) (nn_String n) priv, true)).
Proof.
  induction l as [|[n p] l IH]; simpl; [left; by split|].
  intros [[Hv Ha] Hl]%Forall_cons. simpl in *. specialize (IH Hl).
  assert (applicable priv ns n ↔ ¬ (priv = false ∧ Namespace n ≠ ns)) as Happ.
  { unfold applicable. destruct priv, (decide (Namespace n = ns)); naive_solver. }
  case_bool_decide as Hns.
  - destruct IH as [[Heq Hf]|(n' & p' & ? & ? & ? & ?)]; [left|right].
    + split; [done|]. constructor; [|done]. simpl. tauto.
    + exists n', p'. rewrite list_elem_of_In in *. simpl. naive_solver.
  - rewrite accessPolicyDecide_valid by done.
    destruct (spec_matches p src (Destination dest)) eqn:Hm; simpl.
    + right. exists n, p. rewrite Ha.
      assert (∃ d, action_decision a = d ∧ d ≠ DecisionUndecided) as (d & -> & Hd).
      { eexists; split; [done|]. unfold action_decision. by case_bool_decide. }
      rewrite bool_decide_eq_true_2 by done. rewrite list_elem_of_In; simpl. naive_solver.
    + destruct IH as [[Heq Hf]|(n' & p' & ? & ? & ? & ?)]; [left|right].
      * split; [done|]. constructor; [|done]. simpl. intros [_ ?]. congruence.
      * exists n', p'. rewrite list_elem_of_In in *. simpl. naive_solver.
Qed.

(** The same, for a map visited in any order. *)
Lemma cpm_decide_map (r : ranger NamespacedName AccessPolicySpec) m a src dest priv ns :
  map_Forall (λ _ p, pol_Action p = a ∧ Validate p = None) m →
  (cpm_decide (range r m) src dest priv ns = Ok (dest, false) ∧
     ∀ n p, m !! n = Some p → applicable priv ns n → spec_matches p src (Destination dest) = false) ∨
  (∃ n p, m !! n = Some p ∧ applicable priv ns n ∧ spec_matches p src (Destination dest) = true ∧
     cpm_decide (range r m) src dest priv ns =
       Ok (mkDD (Destination dest) (action_decision a) (nn_String n) priv, true)).
Proof.
  intros Hm. destruct (cpm_decide_spec (range r m) a src dest priv ns) as [[H1 H2]|(n & p & H1 & ? & ? & ?)].
  - apply Forall_forall. intros [n p] Hin. apply elem_of_range in Hin.
    destruct (Hm _ _ Hin). by split.
  - left. split; [done|]. intros n p Hnp Happ. apply elem_of_range with (r := r) in Hnp.
    rewrite Forall_forall in H2. specialize (H2 _ Hnp). simpl in H2.
    destruct (spec_matches _ _ _); [|done]. naive_solver.
  - right. exists n, p. by apply elem_of_range in H1.
Qed.

Lemma store_has_true m priv a ns src dst :
  store_has m priv a ns src dst = true ↔
  ∃ n p, m !! n = Some p ∧ pol_Action p = a ∧ applicable priv ns n ∧ spec_matches p src dst = true.
Proof. unfold store_has. rewrite bool_decide_eq_true. done. Qed.

Lemma store_has_false m priv a ns src dst :
  store_has m priv a ns src dst = false ↔
  ∀ n p, m !! n = Some p → pol_Action p = a → applicable priv ns n → spec_matches p src dst = false.
Proof.
  rewrite <-not_true_iff_false, store_has_true. split.
  - intros Hno n p ???. destruct (spec_matches p src dst) eqn:?; [|done].
    destruct Hno. by exists n, p.
  - intros Hall (n & p & ? & ? & ? & ?). specialize (Hall n p). rewrite Hall in * by done. done.
Qed.

(** The part of the abstract tier with a given action is the map of that action. *)
Lemma tier_abs_deny priv pt n p :
  tier_wf priv pt → tier_abs pt !! n = Some p ∧ pol_Action p = AccessPolicyActionDeny ↔
                    denyPolicies pt !! n = Some p.
Proof.
  intros [_ Hd Ha Hdisj]. unfold tier_abs. rewrite lookup_union_Some by done. split.
  - intros [[?|H] Hact]; [done|]. destruct (Ha _ _ H) as [H' _]. by rewrite Hact in H'.
  - intros H. destruct (Hd _ _ H). auto.
Qed.

Lemma tier_abs_allow priv pt n p :
  tier_wf priv pt → tier_abs pt !! n = Some p ∧ pol_Action p = AccessPolicyActionAllow ↔
                    allowPolicies pt !! n = Some p.
Proof.
  intros [_ Hd Ha Hdisj]. unfold tier_abs. rewrite lookup_union_Some by done. split.
  - intros [[H|?] Hact]; [|done]. destruct (Hd _ _ H) as [H' _]. by rewrite Hact in H'.
  - intros H. destruct (Ha _ _ H). auto.
Qed.

(** What a tier decides, and by which policy. *)
Definition decided_by (pt : policyTier) (priv : bool) (a ns : string) (src dst : WorkloadAttrs)
    (d : DestinationDecision) : Prop :=
  ∃ n p, tier_abs pt !! n = Some p ∧ pol_Action p = a ∧ applicable priv ns n ∧
         spec_matches p src dst = true ∧ d = mkDD dst (action_decision a) (nn_String n) priv.

Lemma tier_decide_spec o priv pt src dest ns :
  tier_wf priv pt →
  let dst := Destination dest in
  let deny := store_has (tier_abs pt) priv AccessPolicyActionDeny ns src dst in
  let allow := store_has (tier_abs pt) priv AccessPolicyActionAllow ns src dst in
  match tier_decide o pt src dest ns with
  | Err _ => False
  | Ok (d, true) =>
      deny = true ∧ decided_by pt priv AccessPolicyActionDeny ns src dst d ∨
      deny = false ∧ allow = true ∧ decided_by pt priv AccessPolicyActionAllow ns src dst d
  | Ok (d, false) => deny = false ∧ allow = false ∧ d = dest
  end.
Proof.
  intros Hwf; simpl. pose proof Hwf as [Hp Hd Ha _]. unfold tier_decide. rewrite Hp.
  destruct (cpm_decide_map (deny_order o) _ _ src dest priv ns Hd)
    as [[-> Hnodeny]|(n & p & Hn & ? & ? & ->)]; simpl.
  2:{ left. apply (tier_abs_deny priv) in Hn as [??]; [|done]. rewrite store_has_true.
      split; [by exists n, p|]. by exists n, p. }
  assert (store_has (tier_abs pt) priv AccessPolicyActionDeny ns src (Destination dest) = false) as ->.
  { apply store_has_false. intros n p ???.
    by eapply Hnodeny; [apply (tier_abs_deny priv)|]. }
  destruct (cpm_decide_map (allow_order o) _ _ src dest priv ns Ha)
    as [[-> Hnoallow]|(n & p & Hn & ? & ? & ->)]; simpl.
  - split_and!; [done| |done]. apply store_has_false. intros n p ???.
    by eapply Hnoallow; [apply (tier_abs_allow priv)|].
  - right. apply (tier_abs_allow priv) in Hn as [??]; [|done]. rewrite store_has_true.
    split_and!; [done|by exists n, p|]. by exists n, p.
Qed.

(** The policy named in a decision is one that takes it; the default is named
    only where no policy matches. *)
Definition matched_by_ok (st : policyStore) (src dst : WorkloadAttrs) (ns : string)
    (d : DestinationDecision) : Prop :=
  (∃ n p, store_tier st (PrivilegedMatch d) !! n = Some p ∧ applicable (PrivilegedMatch d) ns n ∧
          spec_matches p src dst = true ∧ action_decision (pol_Action p) = dd_Decision d ∧
          MatchedBy d = nn_String n) ∨
  (MatchedBy d = DefaultDenyPolicyName ∧
   ∀ priv a, a = AccessPolicyActionAllow ∨ a = AccessPolicyActionDeny →
             store_has (store_tier st priv) priv a ns src dst = false).

Lemma Decide_wf o1 o2 pdp src dst ns :
  pdp_wf pdp →
  ∃ d, Decide o1 o2 pdp src dst ns = Ok d ∧ Destination d = dst ∧
       (dd_Decision d, PrivilegedMatch d) = store_decide (pdp_abs pdp) src dst ns ∧
       matched_by_ok (pdp_abs pdp) src dst ns d.
Proof.
  intros [Hp Hr]. unfold Decide, store_decide. simpl.
  set (dest0 := mkDD dst DecisionUndecided "" false).
  pose proof (tier_decide_spec o1 true _ src dest0 ns Hp) as H1. simpl in H1.
  destruct (tier_decide o1 _ _ _ _) as [[d1 []]|e]; [| |done].
  { eexists; split; [done|].
    destruct H1 as [[-> (n & p & ? & Ha & ? & ? & ->)]|(-> & -> & n & p & ? & Ha & ? & ? & ->)];
      simpl; (split_and!; [done|done|left; exists n, p; simpl; by rewrite Ha]). }
  destruct H1 as (Hpd & Hpa & ->). rewrite Hpd, Hpa.
  pose proof (tier_decide_spec o2 false _ src dest0 ns Hr) as H2. simpl in H2.
  destruct (tier_decide o2 _ _ _ _) as [[d2 []]|e]; [| |done].
  { eexists; split; [done|].
    destruct H2 as [[-> (n & p & ? & Ha & ? & ? & ->)]|(-> & -> & n & p & ? & Ha & ? & ? & ->)];
      simpl; (split_and!; [done|done|left; exists n, p; simpl; by rewrite Ha]). }
  destruct H2 as (Hrd & Hra & ->). rewrite Hrd, Hra.
  eexists; split_and!; [done|done|done|]. right. split; [done|].
  intros [] a [-> | ->]; simpl; auto.
Qed.

Lemma run_ops_wf ops : pdp_wf (run_ops ops NewPDP).
Proof. apply run_ops_refines, NewPDP_wf. Qed.

Lemma run_ops_abs ops : pdp_abs (run_ops ops NewPDP) = store_ops ops empty_store.
Proof.
  destruct (run_ops_refines ops NewPDP NewPDP_wf) as [_ ->]. f_equal.
Qed.

#[local] Hint Resolve run_ops_wf : clink.

(** Without policies that select on source attributes, the source is irrelevant. *)
Lemma spec_matches_src_irrelevant p src1 src2 dst :
  (∀ sel ls, LabelSelectorAsSelector (Some (mkSelector ∅ [])) = Ok sel → Matches sel ls = true) →
  Validate p = None → existsb selector_depends (pol_From p) = false →
  spec_matches p src1 dst = spec_matches p src2 dst.
Proof.
  intros Hempty Hp Hdep. pose proof (Validate_lists _ Hp) as [Hfrom _].
  assert (∃ wss wsl, pol_From p = wss :: wsl) as (wss & wsl & Hcons).
  { unfold Validate in Hp. destruct (pol_From p); [|eauto]. by repeat case_bool_decide. }
  rewrite Hcons in Hfrom, Hdep. simpl in Hfrom, Hdep.
  apply orb_false_iff in Hdep as [Hdep _].
  assert (∀ src, WorkloadSetOrSelectorListMatches (pol_From p) src = Ok true) as Hall.
  { intros src. rewrite Hcons; simpl. unfold workloadSetOrSelectorMatches, validate_wss, selector_depends in *.
    destruct (WorkloadSelector wss) as [[ml me]|].
    - apply bool_decide_eq_false in Hdep. simpl in Hdep.
      assert (ml = ∅ ∧ me = []) as [-> ->].
      { split; [apply map_size_empty_inv; lia|by destruct me; [|simpl in *; lia]]. }
      destruct (LabelSelectorAsSelector _) as [sel|] eqn:Hsel; [by rewrite (Hempty _ _ eq_refl)|].
      by repeat case_bool_decide.
    - destruct (WorkloadSets wss); simpl in Hfrom; by repeat case_bool_decide; naive_solver lia. }
  unfold spec_matches, accessPolicyMatches. by rewrite !Hall.
Qed.

Lemma existsb_range_false {A} (f : A → bool) (m : gmap NamespacedName A) :
  existsb (λ np, f np.2) (map_to_list m) = false ↔ map_Forall (λ _ p, f p = false) m.
Proof.
  rewrite <-not_true_iff_false, existsb_exists. split.
  - intros Hno n p Hnp. apply not_true_iff_false. intros Hf. apply Hno.
    exists (n, p). split; [|done]. by apply list_elem_of_In, elem_of_map_to_list.
  - intros Hall ([n p] & Hin%list_elem_of_In%elem_of_map_to_list & Hf).
    specialize (Hall _ _ Hin). simpl in *. congruence.
Qed.

Lemma DependsOnClientAttrs_false pdp priv n p :
  DependsOnClientAttrs pdp = false → store_tier (pdp_abs pdp) priv !! n = Some p →
  existsb selector_depends (pol_From p) = false.
Proof.
  unfold DependsOnClientAttrs, tier_dependsOnClientAttrs, cpm_dependsOnClientAttrs.
  rewrite !orb_false_iff, !(existsb_range_false (λ p, existsb selector_depends (pol_From p))).
  intros [[H1 H2] [H3 H4]]. destruct priv; simpl; unfold tier_abs;
    intros [Hn|[_ Hn]]%lookup_union_Some_raw; eauto.
Qed.

Lemma abs_valid pdp priv n p :
  pdp_wf pdp → store_tier (pdp_abs pdp) priv !! n = Some p → Validate p = None.
Proof.
  intros [[_ Hd Ha _] [_ Hd' Ha' _]]. destruct priv; simpl; unfold tier_abs;
    intros [Hn|[_ Hn]]%lookup_union_Some_raw;
    by (apply Hd in Hn as [_ ?] || apply Ha in Hn as [_ ?]
        || apply Hd' in Hn as [_ ?] || apply Ha' in Hn as [_ ?]).
Qed.

(** Verdicts on two connections agree when every stored policy treats them alike. *)
Lemma store_decide_ext st src1 src2 dst ns :
  (∀ priv n p, store_tier st priv !! n = Some p → spec_matches p src1 dst = spec_matches p src2 dst) →
  store_decide st src1 dst ns = store_decide st src2 dst ns.
Proof.
  intros Hext. assert (∀ priv a, store_has (store_tier st priv) priv a ns src1 dst =
                                 store_has (store_tier st priv) priv a ns src2 dst) as Heq.
  { intros priv a. unfold store_has. apply bool_decide_ext. unfold map_Exists.
    split; intros (n & p & Hn & ?); exists n, p; rewrite (Hext priv n p Hn) in *; done. }
  unfold store_decide. pose proof (Heq true) as Ht. pose proof (Heq false) as Hf. simpl in Ht, Hf.
  by rewrite !Ht, !Hf.
Qed.

Lemma store_has_insert m n p priv a ns src dst :
  m !! n = None →
  store_has (<[n := p]> m) priv a ns src dst =
    bool_decide (pol_Action p = a ∧ applicable priv ns n ∧ spec_matches p src dst = true) ||
    store_has m priv a ns src dst.
Proof.
  intros Hn. unfold store_has. rewrite <-bool_decide_or. apply bool_decide_ext.
  by rewrite map_Exists_insert.
Qed.

Lemma store_has_insert_ne m n p priv a ns src dst :
  m !! n = None → pol_Action p ≠ a →
  store_has (<[n := p]> m) priv a ns src dst = store_has m priv a ns src dst.
Proof.
  intros Hn Ha. rewrite store_has_insert by done.
  by rewrite bool_decide_eq_false_2 by (by intros [? _]).
Qed.

(** A new deny policy cannot turn a denial into something else. *)
Lemma store_add_deny st priv n p src dst ns :
  pol_Action p = AccessPolicyActionDeny → store_tier st priv !! n = None →
  (store_decide st src dst ns).1 = DecisionDeny →
  (store_decide (update_tier st priv <[n := p]>) src dst ns).1 = DecisionDeny.
Proof.
  intros Hact Hn. assert (pol_Action p ≠ AccessPolicyActionAllow) by by rewrite Hact.
  unfold store_decide. destruct priv; simpl in *;
    rewrite (store_has_insert_ne _ n p _ AccessPolicyActionAllow) by done;
    rewrite (store_has_insert _ n p _ AccessPolicyActionDeny) by done;
    destruct (bool_decide (pol_Action p = _ ∧ _)); simpl; by repeat case_match.
Qed.

Lemma Decide_refines_store_aux ops o1 o2 src dst ns :
  ∃ d, Decide o1 o2 (run_ops ops NewPDP) src dst ns = Ok d ∧
       (dd_Decision d, PrivilegedMatch d) = store_decide (store_ops ops empty_store) src dst ns.
Proof.
  rewrite <-run_ops_abs. destruct (Decide_wf o1 o2 _ src dst ns (run_ops_wf ops)) as (d & ? & _ & ? & _).
  by exists d.
Qed.

(** ** Properties *)

(** C1: after any sequence of policy updates, and for every order in which Go may
    iterate over the policy maps, [Decide] succeeds and returns the verdict of the
    specification store (privileged deny, privileged allow, deny and allow of the
    namespace, default deny), naming a policy that justifies it. *)
Theorem Decide_refines_store ops o1 o2 src dst ns :
  ∃ d, Decide o1 o2 (run_ops ops NewPDP) src dst ns = Ok d ∧ Destination d = dst ∧
       (dd_Decision d, PrivilegedMatch d) = store_decide (store_ops ops empty_store) src dst ns ∧
       matched_by_ok (store_ops ops empty_store) src dst ns d.
Proof. rewrite <-run_ops_abs. auto using Decide_wf, run_ops_wf. Qed.

(** Every reachable PDP keeps deny policies in the deny maps, allow policies in
    the allow maps, all of them valid and no name in both maps of a tier; the next
    update changes the policies exactly as the store's update does, and fails
    exactly when that fails (an invalid policy, or deleting an absent one). *)
Theorem run_op_refines_store ops op :
  let pdp := run_ops ops NewPDP in
  let st := store_ops ops empty_store in
  pdp_wf pdp ∧ pdp_abs (run_op op pdp).2 = (store_op op st).2 ∧
  bool_decide (is_Some (run_op op pdp).1) = (store_op op st).1.
Proof. simpl. rewrite <-run_ops_abs. split; [apply run_ops_wf|apply run_op_abs]. Qed.

(** When the PDP reports that no policy depends on client attributes, decisions
    are the same for every source, in particular for a client without attributes. *)
Theorem DependsOnClientAttrs_sound ops o1 o2 src1 src2 dst ns d1 d2
    (Hempty : ∀ sel ls, LabelSelectorAsSelector (Some (mkSelector ∅ [])) = Ok sel → Matches sel ls = true)
    (Hdep : DependsOnClientAttrs (run_ops ops NewPDP) = false)
    (H1 : Decide o1 o2 (run_ops ops NewPDP) src1 dst ns = Ok d1)
    (H2 : Decide o1 o2 (run_ops ops NewPDP) src2 dst ns = Ok d2) :
  dd_Decision d1 = dd_Decision d2 ∧ PrivilegedMatch d1 = PrivilegedMatch d2.
Proof.
  pose proof (run_ops_wf ops) as Hwf.
  destruct (Decide_wf o1 o2 _ src1 dst ns Hwf) as (d1' & Hd1 & _ & Hs1 & _).
  destruct (Decide_wf o1 o2 _ src2 dst ns Hwf) as (d2' & Hd2 & _ & Hs2 & _).
  simplify_eq. rewrite (store_decide_ext _ _ src2) in Hs1; [naive_solver congruence|].
  intros priv n p Hn. apply spec_matches_src_irrelevant; [done|by eapply abs_valid|].
  by eapply DependsOnClientAttrs_false.
Qed.

(** Adding a deny policy under a new name never turns a denied connection into
    an allowed one, whatever tier it is added to. *)
Theorem add_deny_keeps_denials ops p o1 o2 o1' o2' src dst ns d d'
    (Hact : pol_Action (ap_spec p) = AccessPolicyActionDeny)
    (Hnew : store_tier (store_ops ops empty_store) (ap_privileged p) !! ap_name p = None)
    (Hd : Decide o1 o2 (run_ops ops NewPDP) src dst ns = Ok d)
    (Hdeny : dd_Decision d = DecisionDeny)
    (Hd' : Decide o1' o2' (run_ops (ops ++ [OpAdd p]) NewPDP) src dst ns = Ok d') :
  dd_Decision d' = DecisionDeny.
Proof.
  destruct (Decide_refines_store_aux ops o1 o2 src dst ns) as (d0 & Hd0 & Hs).
  rewrite Hd in Hd0; injection Hd0 as <-.
  destruct (Decide_refines_store_aux (ops ++ [OpAdd p]) o1' o2' src dst ns) as (d0 & Hd0 & Hs').
  rewrite Hd' in Hd0; injection Hd0 as <-.
  unfold store_ops in Hs'. rewrite foldl_app in Hs'. fold (store_ops ops empty_store) in Hs'. simpl in Hs'.
  rewrite Hdeny in Hs. apply (f_equal fst) in Hs, Hs'. simpl in Hs, Hs'. rewrite Hs'.
  destruct (Validate (ap_spec p)); simpl; [done|]. by apply store_add_deny.
Qed.

End facts.

(** ** Concrete policies *)
#[local] Existing Instance ref_labelselectors.
#[local] Existing Instance ref_nn_string.

Definition ex_everyone : WorkloadSetOrSelector := mkWSS [] (Some (mkSelector ∅ [])).
Definition ex_policy (name action : string) : AccessPolicy :=
  mkAccessPolicy (mkNN "default" name) false (mkSpec action [ex_everyone] [ex_everyone]).
Definition ex_std : TierOrder := mkTierOrder std_ranger std_ranger.
Definition ex_ops : list pdp_op := [OpAdd (ex_policy "open" "allow"); OpAdd (ex_policy "closed" "deny")].

Lemma DependsOnClientAttrs_sound_witness :
  ∃ d1 d2, Decide ex_std ex_std (run_ops ex_ops NewPDP) ∅ ∅ "default" = Ok d1 ∧
           Decide ex_std ex_std (run_ops ex_ops NewPDP) {["a" := "b"]} ∅ "default" = Ok d2 ∧
           dd_Decision d1 = dd_Decision d2.
Proof.
  eexists _, _. split; [vm_compute; reflexivity|]. split; [vm_compute; reflexivity|].
  refine (proj1 (DependsOnClientAttrs_sound ex_ops ex_std ex_std ∅ {["a" := "b"]} ∅ "default"
                   _ _ _ _ _ _)).
  - intros sel ls Hsel. injection Hsel as <-. simpl. apply andb_true_intro. split; [|done].
    apply bool_decide_eq_true_2, map_empty_subseteq.
  - vm_compute. reflexivity.
  - vm_compute. reflexivity.
  - vm_compute. reflexivity.
Defined.

Lemma add_deny_keeps_denials_witness :
  ∃ d', Decide ex_std ex_std (run_ops (ex_ops ++ [OpAdd (ex_policy "more" "deny")]) NewPDP) ∅ ∅ "default" = Ok d' ∧
        dd_Decision d' = DecisionDeny.
Proof.
  eexists. split; [vm_compute; reflexivity|].
  eapply (add_deny_keeps_denials ex_ops (ex_policy "more" "deny") ex_std ex_std ex_std ex_std ∅ ∅ "default");
    vm_compute; reflexivity.
Defined.

(** Listing the regular policies with [GetPolicies] damages the PDP. Before the
    call the deny policy wins under every iteration order; after it the allow
    policy also sits in the deny map, and an order exists under which the same
    connection is allowed. *)
Theorem GetPolicies_breaks_deny_precedence :
  ∃ r o, (∀ o1 o2, ∃ d, Decide o1 o2 (run_ops ex_ops NewPDP) ∅ ∅ "default" = Ok d ∧
                        dd_Decision d = DecisionDeny) ∧
         ∃ d, Decide o o (GetPolicies r (run_ops ex_ops NewPDP)).2 ∅ ∅ "default" = Ok d ∧
              dd_Decision d = DecisionAllow.
Proof.
  exists std_ranger, (mkTierOrder std_ranger std_ranger). split.
  - intros o1 o2. destruct (Decide_refines_store_aux ex_ops o1 o2 ∅ ∅ "default") as (d & ? & Hs).
    exists d. split; [done|]. apply (f_equal fst) in Hs. simpl in Hs. rewrite Hs. vm_compute. reflexivity.
  - eexists. split; vm_compute; reflexivity.
Qed.
