(* ===== verification/LoadBalancer.v ===== *)
(** * The load balancer of egress connections

    [pkg/controlplane/authz/loadbalancer.go].  A [LoadBalancingResult] is the
    state of one authorization request: the index chosen last, the indices that
    failed and the ones put off.  The [LoadBalancer] holds one 32-bit round-robin
    counter per import, shared by concurrent requests: the theorems on one request
    let the counters be anything at each call.  [rand.Intn] is the argument
    [draw]. *)
From S2P Require Export K8s.
From stdpp Require Import options.
From Stdlib Require Import ZArith Lia.
Local Open Scope Z_scope.

(** [states]: an import without an [importState] yet has no entry. *)
Abbreviation LoadBalancer := (gmap NamespacedName Z).

Record LoadBalancingResult := mkLBR {
  lbr_imp : Import;
  currentIndex : Z;
  failed : gset Z;
  delayed : list Z
}.

Definition sources (imp : Import) : list ImportSource := imp_Sources (imp_Spec imp).
Definition sourceCount (imp : Import) : Z := Z.of_nat (length (sources imp)).

Definition set_currentIndex (i : Z) (r : LoadBalancingResult) : LoadBalancingResult :=
  mkLBR (lbr_imp r) i (failed r) (delayed r).

(** The expression [&r.imp.Spec.Sources[r.currentIndex]] panics out of range. *)
Definition Get (r : LoadBalancingResult) : outcome (option ImportSource) :=
  if decide (currentIndex r = -1) then Done None
  else if decide (currentIndex r < 0) then Panic
  else match sources (lbr_imp r) !! Z.to_nat (currentIndex r) with
       | Some s => Done (Some s)
       | None => Panic
       end.

Definition IsDelayed (r : LoadBalancingResult) : bool :=
  bool_decide (sourceCount (lbr_imp r) = Z.of_nat (size (failed r))).

Definition Delay (r : LoadBalancingResult) : LoadBalancingResult :=
  mkLBR (lbr_imp r) (currentIndex r) (failed r) (delayed r ++ [currentIndex r]).

Definition NewLoadBalancingResult (imp : Import) : LoadBalancingResult :=
  mkLBR imp (-1) ∅ [].

Definition NewLoadBalancer : LoadBalancer := ∅.

(** The loop of [selectRandom], with [n] iterations left. *)
Fixpoint random_scan (n : nat) (candidateCount index : Z) (failed : gset Z) : option Z :=
  match n with
  | O => None
  | S n' =>
      if decide (index ∈ failed) then
        let index := index + 1 in
        random_scan n' candidateCount (if decide (index = candidateCount) then 0 else index) failed
      else Some index
  end.

Definition selectRandom (draw : Z) (r : LoadBalancingResult) : LoadBalancingResult :=
  let candidateCount := sourceCount (lbr_imp r) in
  match random_scan (Z.to_nat candidateCount) candidateCount draw (failed r) with
  | Some index => set_currentIndex index r
  | None => r
  end.

(** [state.roundRobinCounter.Add(1)], creating the state when there is none. *)
Definition add_counter (name : NamespacedName) (lb : LoadBalancer) : Z * LoadBalancer :=
  let counter := wrap32 (default 0 (lb !! name) + 1) in
  (counter, <[name := counter]> lb).

Definition selectRoundRobin (lb : LoadBalancer) (r : LoadBalancingResult) : LoadBalancer * LoadBalancingResult :=
  let imp := lbr_imp r in
  let count := sourceCount imp in
  let '(counter, lb) := add_counter (imp_key imp) lb in
  if decide (currentIndex r ≠ -1) then
    let index := currentIndex r + 1 in
    (lb, set_currentIndex (if decide (index = count) then 0 else index) r)
  else (lb, set_currentIndex (Z.rem counter count) r).

Definition selectStatic (r : LoadBalancingResult) : LoadBalancingResult :=
  set_currentIndex (currentIndex r + 1) r.

Definition getScheme (imp : Import) : string :=
  if decide (imp_LBScheme (imp_Spec imp) = "") then LBSchemeDefault
  else imp_LBScheme (imp_Spec imp).

Definition mark_failed (r : LoadBalancingResult) : LoadBalancingResult :=
  if decide (currentIndex r ≠ -1) then
    mkLBR (lbr_imp r) (currentIndex r) ({[currentIndex r]} ∪ failed r) (delayed r)
  else r.

Definition Select (draw : Z) (lb : LoadBalancer) (r : LoadBalancingResult) :
    option error * (LoadBalancer * LoadBalancingResult) :=
  let r := mark_failed r in
  let imp := lbr_imp r in
  if decide (Z.of_nat (size (failed r)) = sourceCount imp) then
    match delayed r with
    | i :: rest => (None, (lb, mkLBR imp i (failed r) rest))
    | [] => (Some (ENew ("tried out all " +:+ Itoa (sourceCount imp) +:+ " sources")), (lb, r))
    end
  else
    let scheme := getScheme imp in
    if decide (scheme = LBSchemeRandom) then (None, (lb, selectRandom draw r))
    else if decide (scheme = LBSchemeRoundRobin) then (None, selectRoundRobin lb r)
    else if decide (scheme = LBSchemeStatic) then (None, (lb, selectStatic r))
    else (None, (lb, r)).

(** ** One request: a sequence of choices

    What one call of [Select] finds: the counters at that time, the number drawn,
    and whether the caller puts the choice off with [Delay]. *)
Record attempt := mkAttempt { at_lb : LoadBalancer; at_draw : Z; at_delay : bool }.

Definition attempt_ok (imp : Import) (a : attempt) : Prop :=
  0 ≤ at_draw a < sourceCount imp.

(** Every attempt of the list, with the indices it chose in order. *)
Fixpoint attempts (l : list attempt) (r : LoadBalancingResult) : option (list Z * LoadBalancingResult) :=
  match l with
  | [] => Some ([], r)
  | a :: l' =>
      match Select (at_draw a) (at_lb a) r with
      | (Some _, _) => None
      | (None, (_, r')) =>
          let r'' := if at_delay a then Delay r' else r' in
          '(idxs, rf) ← attempts l' r''; Some (currentIndex r' :: idxs, rf)
      end
  end.

(** The choices that were put off. *)
Definition put_off (l : list attempt) (idxs : list Z) : list Z :=
  (zip l idxs ≫= λ '(a, i), if at_delay a then [i] else []).

Definition known_scheme (imp : Import) : Prop :=
  getScheme imp ∈ [LBSchemeRandom; LBSchemeRoundRobin; LBSchemeStatic].
#[export] Instance known_scheme_dec imp : Decision (known_scheme imp).
Proof. unfold known_scheme. apply _. Defined.

(** ** The first pass *)

Lemma random_scan_spec n count index f :
  0 ≤ index < count →
  match random_scan n count index f with
  | Some j => 0 ≤ j < count ∧ j ∉ f
  | None => ∀ i, 0 ≤ i < Z.of_nat n → (index + i) `mod` count ∈ f
  end.
Proof.
  revert index. induction n as [|n IH]; intros index Hi; simpl; [lia|].
  case_decide as Hf; [|done].
  assert (Hnext : (if decide (index + 1 = count) then 0 else index + 1) = (index + 1) `mod` count).
  { case_decide as Heq; [rewrite Heq, Z_mod_same_full; lia|]. rewrite Z.mod_small; lia. }
  rewrite Hnext. assert (Hb := Z.mod_pos_bound (index + 1) count ltac:(lia)).
  specialize (IH _ Hb). destruct (random_scan _ _ _ _) as [j|]; [done|].
  intros i Hr. destruct (decide (i = 0)) as [->|].
  - by rewrite Z.add_0_r, Z.mod_small.
  - specialize (IH (i - 1) ltac:(lia)). rewrite Z.add_mod_idemp_l in IH by lia.
    by replace (index + 1 + (i - 1)) with (index + i) in IH by lia.
Qed.

Lemma random_scan_finds count index f :
  0 ≤ index < count → Z.of_nat (size f) < count →
  ∃ j, random_scan (Z.to_nat count) count index f = Some j ∧ 0 ≤ j < count ∧ j ∉ f.
Proof.
  intros Hi Hs. assert (H := random_scan_spec (Z.to_nat count) count index f Hi).
  destruct (random_scan _ _ _ _) as [j|]; [by eauto|].
  destruct (pigeonhole_range f 0 count) as (p & Hp & Hpf); [lia|]. destruct Hpf.
  specialize (H ((p - index) `mod` count)).
  rewrite Z.add_mod_idemp_r in H by lia.
  replace (index + (p - index)) with p in H by lia.
  rewrite (Z.mod_small p) in H by lia. apply H.
  assert (Hb := Z.mod_pos_bound (p - index) count ltac:(lia)). lia.
Qed.

(** The state of a request after it tried the indices [tried], the last one
    first, when each was tried once. *)
Record first_pass (imp : Import) (r : LoadBalancingResult) (tried : list Z) : Prop := {
  fp_imp : lbr_imp r = imp;
  fp_current : currentIndex r = default (-1) (head tried);
  fp_failed : failed r = list_to_set (tail tried);
  fp_nodup : NoDup tried;
  fp_range : Forall (λ i, 0 ≤ i < sourceCount imp) tried;
  fp_round_robin : getScheme imp = LBSchemeRoundRobin →
    ∃ c, tried = (λ i, (c - i) `mod` sourceCount imp) <$> seqZ 0 (Z.of_nat (length tried));
  fp_static : getScheme imp = LBSchemeStatic →
    tried = (λ i, Z.of_nat (length tried) - 1 - i) <$> seqZ 0 (Z.of_nat (length tried))
}.

Lemma first_pass_new imp : first_pass imp (NewLoadBalancingResult imp) [].
Proof. split; try done; [constructor|intros _; by exists 0]. Qed.

Lemma mark_failed_first_pass imp r tried :
  first_pass imp r tried → failed (mark_failed r) = list_to_set tried.
Proof.
  intros [Hi Hc Hf Hn Hr _ _]. unfold mark_failed. rewrite Hc, Hf.
  destruct tried as [|i tried]; simpl; [done|].
  apply Forall_cons in Hr as [Hb _]. by rewrite decide_True by lia.
Qed.

Lemma mark_failed_fields r :
  lbr_imp (mark_failed r) = lbr_imp r ∧ currentIndex (mark_failed r) = currentIndex r ∧
  delayed (mark_failed r) = delayed r.
Proof. unfold mark_failed. by case_decide. Qed.

Lemma NoDup_cyclic (n c : Z) k :
  Z.of_nat k ≤ n → NoDup ((λ i, (c - i) `mod` n) <$> seqZ 0 (Z.of_nat k)).
Proof.
  intros Hk. apply NoDup_fmap_2_strong; [|apply NoDup_seqZ].
  intros x y Hx%elem_of_seqZ Hy%elem_of_seqZ Heq.
  apply mod_inj_close in Heq; lia.
Qed.

Lemma size_tried (tried : list Z) : NoDup tried → size (list_to_set tried : gset Z) = length tried.
Proof. apply size_list_to_set. Qed.

Lemma seqZ_cons_shift (f : Z → Z) (k : nat) :
  f <$> seqZ 0 (Z.of_nat (S k)) = f 0 :: ((λ i, f (i + 1)) <$> seqZ 0 (Z.of_nat k)).
Proof.
  rewrite seqZ_cons by lia. simpl. f_equal.
  replace (Z.pred (Z.of_nat (S k))) with (Z.of_nat k) by lia.
  change (Z.succ 0) with (1 + 0).
  rewrite <- (fmap_add_seqZ 1 0), <- list_fmap_compose.
  apply list_fmap_ext. intros i x _. simpl. f_equal. lia.
Qed.

(** The new first pass when an untried index is chosen. *)
Lemma first_pass_cons imp r tried j :
  first_pass imp r tried →
  0 ≤ j < sourceCount imp →
  j ∉ tried →
  (getScheme imp = LBSchemeRoundRobin →
     ∃ c, j :: tried = (λ i, (c - i) `mod` sourceCount imp) <$> seqZ 0 (Z.of_nat (S (length tried)))) →
  (getScheme imp = LBSchemeStatic → j = Z.of_nat (length tried)) →
  first_pass imp (set_currentIndex j (mark_failed r)) (j :: tried).
Proof.
  intros Hfp Hj Hn Hrr Hst. assert (Hm := mark_failed_first_pass _ _ _ Hfp).
  destruct (mark_failed_fields r) as (Hi & _ & _). destruct Hfp as [H1 H2 H3 H4 H5 _ H7].
  split; simpl; try done.
  - by rewrite Hi.
  - by constructor.
  - by constructor.
  - intros Hs. rewrite seqZ_cons_shift. specialize (Hst Hs). specialize (H7 Hs).
    f_equal; [lia|]. rewrite H7 at 1. apply list_fmap_ext. intros; lia.
Qed.

Section one_choice.
Context (imp : Import) (r : LoadBalancingResult) (tried : list Z).
Hypothesis Hfp : first_pass imp r tried.
Hypothesis Hlt : Z.of_nat (length tried) < sourceCount imp.

(** The next index, for each scheme, is untried. *)
Lemma choose_random draw :
  getScheme imp = LBSchemeRandom → 0 ≤ draw < sourceCount imp →
  ∃ j, selectRandom draw (mark_failed r) = set_currentIndex j (mark_failed r) ∧
       first_pass imp (set_currentIndex j (mark_failed r)) (j :: tried).
Proof using All.
  intros Hs Hd. assert (Hm := mark_failed_first_pass _ _ _ Hfp).
  destruct (mark_failed_fields r) as (Hi & _ & _).
  unfold selectRandom. rewrite Hi, (fp_imp _ _ _ Hfp), Hm.
  destruct (random_scan_finds (sourceCount imp) draw (list_to_set tried)) as (j & -> & Hj & Hn);
    [done|rewrite size_tried by apply Hfp; done|].
  exists j. split; [done|]. apply first_pass_cons; try done; [set_solver|..]; rewrite Hs; done.
Qed.

Definition rr_index (counter : Z) : Z :=
  if decide (currentIndex r ≠ -1) then
    if decide (currentIndex r + 1 = sourceCount imp) then 0 else currentIndex r + 1
  else Z.rem counter (sourceCount imp).

Lemma rr_index_range counter : 0 ≤ counter → 0 ≤ rr_index counter < sourceCount imp.
Proof using All.
  intros Hc. unfold rr_index. assert (Hx := fp_range _ _ _ Hfp).
  rewrite (fp_current _ _ _ Hfp). destruct tried as [|x l]; simpl in *.
  - apply Z.rem_bound_pos; lia.
  - apply Forall_cons in Hx as [Hx _]. repeat case_decide; lia.
Qed.

Lemma rr_index_cyclic counter :
  0 ≤ counter → getScheme imp = LBSchemeRoundRobin →
  ∃ c, rr_index counter :: tried =
       (λ i, (c - i) `mod` sourceCount imp) <$> seqZ 0 (Z.of_nat (S (length tried))).
Proof using All.
  intros Hc Hs. assert (Hb := rr_index_range counter Hc).
  destruct (fp_round_robin _ _ _ Hfp Hs) as [c Htr]. assert (Hx := fp_range _ _ _ Hfp).
  revert Hb. unfold rr_index. rewrite (fp_current _ _ _ Hfp). destruct tried as [|x l]; simpl.
  - intros Hb. exists (Z.rem counter (sourceCount imp)).
    unfold seqZ; simpl. by rewrite Z.sub_0_r, Z.mod_small.
  - apply Forall_cons in Hx as [Hx _]. rewrite decide_True by lia. intros Hb.
    exists (c + 1). rewrite seqZ_cons_shift. f_equal.
    + simpl in Htr. rewrite seqZ_cons_shift in Htr. injection Htr as Hxc _.
      rewrite Z.sub_0_r in *. rewrite <- Z.add_mod_idemp_l, <- Hxc by lia.
      case_decide as Heq; [by rewrite Heq, Z_mod_same_full|]. rewrite Z.mod_small; lia.
    + rewrite Htr at 1. apply list_fmap_ext. intros i y _. simpl. f_equal. lia.
Qed.

Lemma choose_round_robin lb :
  getScheme imp = LBSchemeRoundRobin →
  ∃ lb' j, selectRoundRobin lb (mark_failed r) = (lb', set_currentIndex j (mark_failed r)) ∧
           first_pass imp (set_currentIndex j (mark_failed r)) (j :: tried).
Proof using All.
  intros Hs. destruct (mark_failed_fields r) as (Hi & Hc & _).
  unfold selectRoundRobin. simpl. rewrite Hc, Hi, (fp_imp _ _ _ Hfp).
  assert (Hw : 0 ≤ wrap32 (default 0 (lb !! imp_key imp) + 1)) by (apply Z.mod_pos_bound; lia).
  eexists _, (rr_index (wrap32 (default 0 (lb !! imp_key imp) + 1))). split.
  { unfold rr_index. by destruct (decide (currentIndex r ≠ -1)). }
  destruct (rr_index_cyclic _ Hw Hs) as [c Htr].
  apply first_pass_cons; try done; [by apply rr_index_range| |by eauto|by rewrite Hs].
  assert (Hnd : NoDup (rr_index (wrap32 (default 0 (lb !! imp_key imp) + 1)) :: tried)).
  { rewrite Htr. apply NoDup_cyclic. lia. }
  by apply NoDup_cons in Hnd as [? _].
Qed.

Lemma choose_static :
  getScheme imp = LBSchemeStatic →
  ∃ j, selectStatic (mark_failed r) = set_currentIndex j (mark_failed r) ∧
       first_pass imp (set_currentIndex j (mark_failed r)) (j :: tried).
Proof using All.
  intros Hs. destruct (mark_failed_fields r) as (Hi & Hc & _).
  unfold selectStatic. rewrite Hc. assert (Htr := fp_static _ _ _ Hfp Hs).
  assert (Hcur : currentIndex r + 1 = Z.of_nat (length tried)).
  { rewrite (fp_current _ _ _ Hfp), Htr. destruct tried; simpl; [done|].
    rewrite seqZ_cons_shift. simpl. rewrite length_fmap, length_seqZ. lia. }
  rewrite Hcur. exists (Z.of_nat (length tried)). split; [done|].
  apply first_pass_cons; try done; [lia| |rewrite Hs; done].
  intros Hin. assert (Hin' := Hin). rewrite Htr in Hin' at 2.
  apply list_elem_of_fmap in Hin' as (i & Hi' & Hr). apply elem_of_seqZ in Hr. lia.
Qed.
End one_choice.

(** An attempt of the first pass succeeds with an untried index. *)
Lemma Select_first_pass imp a r tried :
  known_scheme imp → attempt_ok imp a → first_pass imp r tried →
  Z.of_nat (length tried) < sourceCount imp →
  ∃ lb j, Select (at_draw a) (at_lb a) r = (None, (lb, set_currentIndex j (mark_failed r))) ∧
          first_pass imp (set_currentIndex j (mark_failed r)) (j :: tried).
Proof.
  intros Hk Ha Hfp Hlt. unfold Select.
  destruct (mark_failed_fields r) as (Hi & Hc & Hd).
  rewrite Hi, (fp_imp _ _ _ Hfp), (mark_failed_first_pass _ _ _ Hfp), size_tried by apply Hfp.
  rewrite decide_False by lia. case_decide as Hrand; [|case_decide as Hrr; [|case_decide as Hst]].
  - destruct (choose_random imp r tried Hfp Hlt _ Hrand Ha) as (j & -> & ?). eauto.
  - destruct (choose_round_robin imp r tried Hfp Hlt (at_lb a) Hrr) as (lb & j & -> & ?). eauto.
  - destruct (choose_static imp r tried Hfp Hlt Hst) as (j & -> & ?). eauto.
  - exfalso. unfold known_scheme in Hk. set_solver.
Qed.

Lemma attempts_first_pass imp l r tried :
  known_scheme imp → Forall (attempt_ok imp) l → first_pass imp r tried →
  Z.of_nat (length tried + length l) ≤ sourceCount imp →
  ∃ idxs rf, attempts l r = Some (idxs, rf) ∧ first_pass imp rf (reverse idxs ++ tried) ∧
    length idxs = length l ∧ delayed rf = delayed r ++ put_off l idxs.
Proof.
  intros Hk Hl. revert r tried.
  induction Hl as [|a l Ha Hl IH]; intros r tried Hfp Hlen; simpl in *.
  { eexists [], r. rewrite app_nil_r. done. }
  destruct (Select_first_pass imp a r tried) as (lb & j & -> & Hfp'); try done; [lia|].
  set (r' := set_currentIndex j (mark_failed r)) in *.
  assert (Hfp'' : first_pass imp (if at_delay a then Delay r' else r') (j :: tried)).
  { destruct (at_delay a); [|done]. destruct Hfp'. by split. }
  destruct (IH _ _ Hfp'') as (idxs & rf & -> & Hf & Hn & Hd); [simpl; lia|].
  exists (j :: idxs), rf. simpl. split; [done|]. split_and!; [|by rewrite Hn|].
  - by rewrite reverse_cons, <- app_assoc.
  - rewrite Hd. unfold put_off. simpl. destruct (mark_failed_fields r) as (_ & _ & Hdr).
    destruct (at_delay a); simpl; rewrite Hdr; [by rewrite <- app_assoc|done].
Qed.

(** Every source has been tried: only the ones put off are left. *)
Definition exhausted (r : LoadBalancingResult) : Prop :=
  Z.of_nat (size (failed (mark_failed r))) = sourceCount (lbr_imp r) ∧
  Forall (λ i, i ∈ failed (mark_failed r)) (delayed r).

Lemma exhausted_next r i rest :
  Z.of_nat (size (failed (mark_failed r))) = sourceCount (lbr_imp r) →
  i ∈ failed (mark_failed r) → Forall (λ i, i ∈ failed (mark_failed r)) rest →
  exhausted (mkLBR (lbr_imp r) i (failed (mark_failed r)) rest).
Proof.
  intros Hs Hin Hd. unfold exhausted.
  assert (Hm : failed (mark_failed (mkLBR (lbr_imp r) i (failed (mark_failed r)) rest)) = failed (mark_failed r)).
  { unfold mark_failed at 1. simpl. case_decide; simpl; [set_solver|done]. }
  simpl. by rewrite Hm.
Qed.

Lemma attempts_exhausted l r :
  exhausted r → Forall (λ a, at_delay a = false) l →
  fst <$> attempts l r =
    if decide (length l ≤ length (delayed r))%nat then Some (take (length l) (delayed r)) else None.
Proof.
  intros Hex Hl. revert r Hex. induction Hl as [|a l Ha Hl IH]; intros r [Hs Hd]; simpl; [done|].
  destruct (mark_failed_fields r) as (Hi & Hc & Hdr).
  unfold Select. rewrite Hi, Hdr, decide_True by done.
  destruct (delayed r) as [|i rest] eqn:Hrest; simpl; [done|].
  rewrite Ha. apply Forall_cons in Hd as [Hin Hd].
  assert (Hex : exhausted (mkLBR (lbr_imp r) i (failed (mark_failed r)) rest)) by by apply exhausted_next.
  specialize (IH _ Hex). simpl in IH. destruct (attempts l _) as [[idxs rf]|]; simpl in *;
    repeat case_decide; simpl in *; try lia; congruence.
Qed.

Lemma put_off_submseteq l idxs i : i ∈ put_off l idxs → i ∈ idxs.
Proof.
  unfold put_off. intros ([a j] & Hi & Hz)%list_elem_of_bind.
  apply elem_of_zip_r in Hz. destruct (at_delay a); set_solver.
Qed.

Lemma exhausted_after_first_pass imp r tried :
  first_pass imp r tried → Z.of_nat (length tried) = sourceCount imp →
  Forall (λ i, i ∈ tried) (delayed r) → exhausted r.
Proof.
  intros Hfp Hl Hd. unfold exhausted.
  rewrite (mark_failed_first_pass _ _ _ Hfp), (fp_imp _ _ _ Hfp).
  split; [rewrite size_tried by apply Hfp; done|].
  eapply Forall_impl; [done|]. intros i; simpl. set_solver.
Qed.

(** C27: Select, called again and again for one request with any of the known
    load balancing schemes, any numbers drawn and any interference of other requests
    on the counters, first returns every source of the import exactly once, then
    the ones put off with Delay in the order they were put off, and then an error. *)
Theorem Select_schedule imp l1 :
  known_scheme imp → Forall (attempt_ok imp) l1 → length l1 = length (sources imp) →
  ∃ idxs, idxs ≡ₚ seqZ 0 (sourceCount imp) ∧
    ∀ l2, Forall (λ a, at_delay a = false) l2 →
      fst <$> attempts (l1 ++ l2) (NewLoadBalancingResult imp) =
        if decide (length l2 ≤ length (put_off l1 idxs))%nat
        then Some (idxs ++ take (length l2) (put_off l1 idxs)) else None.
Proof.
  intros Hk Ha Hl. assert (Hn : Z.of_nat (length l1) = sourceCount imp) by (unfold sourceCount; lia).
  destruct (attempts_first_pass imp l1 _ _ Hk Ha (first_pass_new imp)) as (idxs & rf & Hat & Hfp & Hlen & Hd);
    [simpl; lia|].
  rewrite app_nil_r in Hfp. exists idxs. split.
  - rewrite <- (reverse_Permutation idxs). apply permutation_range; [apply Hfp..|].
    rewrite length_reverse. lia.
  - intros l2 Hl2. simpl in Hd. rewrite <- Hd.
    assert (Hex : exhausted rf).
    { apply (exhausted_after_first_pass imp _ (reverse idxs)); [done| |].
      - rewrite length_reverse. lia.
      - rewrite Hd. apply Forall_forall. intros i Hi%put_off_submseteq. by apply elem_of_reverse. }
    assert (Hrest := attempts_exhausted l2 rf Hex Hl2). revert Hrest Hat. clear.
    generalize (NewLoadBalancingResult imp). revert idxs.
    induction l1 as [|a l1 IH]; intros idxs r Hrest Hat; simpl in *.
    + injection Hat as <- <-. simpl. done.
    + destruct (Select _ _ _) as [[e|] [lb r']]; [done|].
      destruct (attempts l1 _) as [[idxs' rf']|] eqn:E; [|done].
      simpl in Hat. injection Hat as <- ->. specialize (IH idxs' _ Hrest E).
      destruct (attempts (l1 ++ l2) _) as [[]|]; simpl in *; case_decide; congruence.
Qed.

(** The first choices of [k] requests for the same import that come one after the other. *)
Fixpoint first_choices (k : nat) (lb : LoadBalancer) (imp : Import) : list Z :=
  match k with
  | O => []
  | S k' => match Select 0 lb (NewLoadBalancingResult imp) with
            | (_, (lb', r)) => currentIndex r :: first_choices k' lb' imp
            end
  end.

Lemma first_choices_spec k lb imp :
  getScheme imp = LBSchemeRoundRobin → 0 < sourceCount imp →
  let c := default 0 (lb !! imp_key imp) in
  0 ≤ c → c + Z.of_nat k < 4294967296 →
  first_choices k lb imp = (λ i, (c + 1 + i) `mod` sourceCount imp) <$> seqZ 0 (Z.of_nat k).
Proof.
  intros Hs Hn. revert lb. induction k as [|k IH]; intros lb c Hc Hk; [done|].
  rewrite seqZ_cons_shift. simpl. unfold Select, mark_failed. simpl.
  rewrite decide_False by (change (0 ≠ sourceCount imp); lia). rewrite Hs. simpl.
  unfold selectRoundRobin. simpl. fold c.
  assert (Hw : wrap32 (c + 1) = c + 1) by (unfold wrap32; apply Z.mod_small; lia).
  rewrite Hw. f_equal.
  - rewrite Z.add_0_r. apply Z.rem_mod_nonneg; lia.
  - rewrite IH; rewrite lookup_insert_eq; simpl; [|lia|lia].
    apply list_fmap_ext. intros i x _. f_equal. lia.
Qed.

(** With the round-robin scheme, as many consecutive requests as an import has
    sources are spread over all the sources, one each, from any value of the 32-bit
    counter that does not wrap around in between. *)
Theorem round_robin_balanced lb imp :
  getScheme imp = LBSchemeRoundRobin →
  0 ≤ default 0 (lb !! imp_key imp) →
  default 0 (lb !! imp_key imp) + sourceCount imp < 4294967296 →
  first_choices (length (sources imp)) lb imp ≡ₚ seqZ 0 (sourceCount imp).
Proof.
  intros Hs Hc Hk. destruct (decide (sourceCount imp = 0)) as [Hz|Hz].
  { unfold sourceCount in *. by destruct (sources imp). }
  rewrite first_choices_spec by (done || unfold sourceCount in *; lia).
  apply permutation_range.
  - apply NoDup_fmap_2_strong; [|apply NoDup_seqZ]. unfold sourceCount in *.
    intros x y Hx%elem_of_seqZ Hy%elem_of_seqZ Heq. apply mod_inj_close in Heq; lia.
  - apply Forall_fmap, Forall_true. intros i. apply Z.mod_pos_bound. unfold sourceCount in *. lia.
  - rewrite length_fmap, length_seqZ. unfold sourceCount. lia.
Qed.

(** ** Witnesses *)
Definition ex_sources : list ImportSource :=
  [mkSource "peer1" "http" "default"; mkSource "peer2" "http" "default"; mkSource "peer3" "web" "prod"].
Definition ex_import (scheme : string) : Import :=
  mkImport (mkMeta "http" "default" ∅) (mkImportSpec 80 0 ex_sources scheme) [].

Lemma Select_schedule_witness :
  ∃ idxs, idxs ≡ₚ seqZ 0 3 ∧
    ∀ l2, Forall (λ a, at_delay a = false) l2 →
      fst <$> attempts ([mkAttempt ∅ 2 true; mkAttempt ∅ 1 false; mkAttempt ∅ 2 true] ++ l2)
                (NewLoadBalancingResult (ex_import "random")) =
        if decide (length l2 ≤ length (put_off [mkAttempt ∅ 2 true; mkAttempt ∅ 1 false; mkAttempt ∅ 2 true] idxs))%nat
        then Some (idxs ++ take (length l2) (put_off [mkAttempt ∅ 2 true; mkAttempt ∅ 1 false; mkAttempt ∅ 2 true] idxs))
        else None.
Proof.
  apply (Select_schedule (ex_import "random")).
  - apply (bool_decide_unpack (known_scheme (ex_import "random"))). vm_compute. exact I.
  - repeat constructor; vm_compute; congruence.
  - reflexivity.
Defined.

Lemma round_robin_balanced_witness :
  first_choices 3 {[ mkNN "default" "http" := 7 ]} (ex_import "") ≡ₚ seqZ 0 3.
Proof.
  apply (round_robin_balanced {[ mkNN "default" "http" := 7 ]} (ex_import "")); [reflexivity|..];
    vm_compute; congruence.
Defined.
