(* ===== verification/Ports.v ===== *)
(** * The leases of listener ports

    [pkg/controlplane/control/port.go].  Ports are [uint16] values; arithmetic on
    them wraps.  [rand.Intn] is the argument [draw]: its [i]-th result.  Every
    operation runs under the manager's lock, so an execution is a sequence of
    operations. *)
From S2P Require Export K8s.
From stdpp Require Import options.
From Stdlib Require Import Ascii ZArith Lia.
Local Open Scope Z_scope.

Definition startPort : Z := 1024.
Definition endPort : Z := 49152.
Definition portCount : Z := wrap16 (endPort - startPort).
Definition maxRandomTries : nat := 40.

Record portManager := mkPM {
  leasesByPort : gmap Z NamespacedName;
  leasesByName : gmap NamespacedName Z
}.

Definition newPortManager : portManager := mkPM ∅ ∅.

(** The first loop of [getRandomFreePort], on the numbers it draws. *)
Fixpoint random_tries (leases : gmap Z NamespacedName) (draws : list Z) : option Z :=
  match draws with
  | [] => None
  | d :: draws' =>
      let port := wrap16 (startPort + wrap16 d) in
      match leases !! port with
      | None => Some port
      | Some _ => random_tries leases draws'
      end
  end.

(** The second loop, with [n] iterations left. *)
Fixpoint port_scan (leases : gmap Z NamespacedName) (n : nat) (port : Z) : Z :=
  match n with
  | O => port
  | S n' =>
      let port := wrap16 (port + 1) in
      let port := if decide (port = endPort) then startPort else port in
      match leases !! port with
      | None => port
      | Some _ => port_scan leases n' port
      end
  end.

(** The [port] of the first loop shadows the one declared before it: the scan
    starts from the zero value of the outer variable. *)
Definition getRandomFreePort (draw : nat → Z) (m : portManager) : Z :=
  let port := 0 in
  match random_tries (leasesByPort m) (draw <$> seq 0 maxRandomTries) with
  | Some p => p
  | None => port_scan (leasesByPort m) (Z.to_nat (wrap16 (portCount - 2))) port
  end.

(** The end of both lease operations: free the previous port and lease the new one. *)
Definition mark_leased (name : NamespacedName) (port : Z) (m : portManager) : portManager :=
  let byPort := match leasesByName m !! name with
                | Some oldPort => delete oldPort (leasesByPort m)
                | None => leasesByPort m
                end in
  mkPM (<[port := name]> byPort) (<[name := port]> (leasesByName m)).

Definition leaseWithRandomPort (draw : nat → Z) (name : NamespacedName) : ST portManager (result Z) := λ m,
  if decide (Z.of_nat (size (leasesByPort m)) = portCount) then (Err (ENew "all ports are taken"), m)
  else
    let port := default 0 (leasesByName m !! name) in
    if decide (port ≠ 0) then (Ok port, m)
    else
      let port := getRandomFreePort draw m in
      (Ok port, mark_leased name port m).

Definition leaseWithSpecificPort (name : NamespacedName) (port : Z) : ST portManager (result Z) := λ m,
  match leasesByPort m !! port with
  | Some leaseName =>
      if decide (leaseName ≠ name) then (Err (EConflictingTargetPort port leaseName), m)
      else (Ok port, mark_leased name port m)
  | None => (Ok port, mark_leased name port m)
  end.

Definition Lease (draw : nat → Z) (name : NamespacedName) (port : Z) : ST portManager (result Z) :=
  if decide (port = 0) then leaseWithRandomPort draw name else leaseWithSpecificPort name port.

Definition Release (name : NamespacedName) : ST portManager unit := λ m,
  match leasesByName m !! name with
  | Some port => (tt, mkPM (delete port (leasesByPort m)) (delete name (leasesByName m)))
  | None => (tt, m)
  end.

(** [conflictingTargetPortError.Is]: any error of this type matches any other. *)
Definition is_conflictingTargetPort (e : error) : bool :=
  match e with EConflictingTargetPort _ _ => true | _ => false end.

(** ** The lease invariant *)

(** The two maps are inverse to each other, and port 0 is never leased. *)
Definition lease_inv (m : portManager) : Prop :=
  (∀ p n, leasesByPort m !! p = Some n ↔ leasesByName m !! n = Some p) ∧
  (∀ p n, leasesByPort m !! p = Some n → 1 ≤ p < 65536).

Definition intn_ok (draw : nat → Z) : Prop := ∀ i, 0 ≤ draw i < portCount.

Lemma lease_inv_new : lease_inv newPortManager.
Proof. split; intros p n; simpl; rewrite !lookup_empty; done. Qed.

Lemma lease_inv_size m : lease_inv m → size (leasesByPort m) = size (leasesByName m).
Proof.
  intros [Hi _]. rewrite <- !length_map_to_list.
  assert (Hp : map_to_list (leasesByPort m) ≡ₚ prod_swap <$> map_to_list (leasesByName m)).
  { apply NoDup_Permutation.
    - apply NoDup_map_to_list.
    - apply NoDup_fmap_2; [|apply NoDup_map_to_list]. by intros [] [] [=-> ->].
    - intros [p n]. rewrite elem_of_map_to_list, list_elem_of_fmap, Hi. split.
      + intros H. exists (n, p). by rewrite elem_of_map_to_list.
      + intros ([n' p'] & [=-> ->] & H). by rewrite elem_of_map_to_list in H. }
  by rewrite Hp, length_fmap.
Qed.

Lemma mark_leased_inv name port m :
  lease_inv m → 1 ≤ port < 65536 →
  (leasesByPort m !! port = None ∨ leasesByPort m !! port = Some name) →
  lease_inv (mark_leased name port m).
Proof.
  intros [Hi Hr] Hp Hfree. unfold mark_leased, lease_inv; simpl.
  assert (Hrange : ∀ p n,
    <[port := name]> (match leasesByName m !! name with
                      | Some oldPort => delete oldPort (leasesByPort m)
                      | None => leasesByPort m end) !! p = Some n ↔
    (p = port ∧ n = name) ∨ (p ≠ port ∧ n ≠ name ∧ leasesByPort m !! p = Some n)).
  { intros p n. rewrite lookup_insert_Some.
    destruct (leasesByName m !! name) as [old|] eqn:Hold; [rewrite lookup_delete_Some|].
    - split; [|naive_solver congruence].
      intros [[-> ->]|(Hne & Hne' & Hl)]; [by left|right].
      split_and!; [congruence| |done]. intros ->. apply Hi in Hl. congruence.
    - split; [|naive_solver]. intros [[-> ->]|[Hne Hl]]; [by left|right].
      split_and!; [congruence| |done]. intros ->. apply Hi in Hl. congruence. }
  split; intros p n; rewrite Hrange.
  - rewrite lookup_insert_Some, <- Hi. split.
    + intros [[-> ->]|(? & ? & ?)]; [by left|right]. split; congruence.
    + intros [[-> <-]|[? Hl]]; [by left|right]. split_and!; [|congruence|done].
      intros ->. destruct Hfree; congruence.
  - intros [[-> ->]|(_ & _ & Hl)]; [done|eauto].
Qed.

Lemma Release_inv name m : lease_inv m → lease_inv (Release name m).2.
Proof.
  intros [Hi Hr]. unfold Release. destruct (leasesByName m !! name) as [port|] eqn:Hl; [|done].
  split; simpl; intros p n.
  - rewrite !lookup_delete_Some, Hi. split; intros [Hne Hl'].
    + split; [|done]. intros <-. congruence.
    + split; [|done]. intros <-. apply Hi in Hl, Hl'. congruence.
  - rewrite lookup_delete_Some. intros [_ ?]. eauto.
Qed.

(** ** Free ports *)

Lemma random_tries_free leases draws p :
  random_tries leases draws = Some p → Forall (λ d, 0 ≤ d < portCount) draws →
  leases !! p = None ∧ startPort ≤ p < endPort.
Proof.
  intros Hr. induction 1 as [|d draws Hd _ IH]; simpl in Hr; [done|].
  destruct (leases !! wrap16 (startPort + wrap16 d)) eqn:Hl; [by apply IH|].
  injection Hr as <-. split; [done|]. change portCount with 48128 in Hd.
  unfold wrap16, startPort, endPort. rewrite (Z.mod_small d) by lia. rewrite Z.mod_small; lia.
Qed.

(** The scan from [port] visits the next [n] ports one after the other. *)
Lemma port_scan_spec leases n port :
  0 ≤ port → port + Z.of_nat n < endPort →
  let r := port_scan leases n port in
  (n ≠ O ∧ port < r ≤ port + Z.of_nat n ∧ leases !! r = None ∧
     ∀ p, port < p < r → is_Some (leases !! p)) ∨
  (r = port + Z.of_nat n ∧ ∀ p, port < p ≤ r → is_Some (leases !! p)).
Proof.
  revert port. induction n as [|n IH]; intros port Hp Hn; cbn [port_scan].
  { right. split; [lia|]. intros; lia. }
  assert (Hw : wrap16 (port + 1) = port + 1).
  { unfold wrap16, endPort in *. apply Z.mod_small. lia. }
  rewrite Hw, decide_False by lia.
  destruct (leases !! (port + 1)) as [o|] eqn:Ho.
  - destruct (IH (port + 1)) as [(Hn0 & Hr & Hl & Ht)|[Hr Ht]]; [lia..| |].
    + left. split_and!; [done|lia|lia|done|]. intros p Hpr.
      destruct (decide (p = port + 1)) as [->|]; [by eexists|]. apply Ht. lia.
    + right. split; [lia|]. intros p Hpr.
      destruct (decide (p = port + 1)) as [->|]; [by eexists|]. apply Ht. lia.
  - left. split_and!; [done|lia|lia|done|]. intros; lia.
Qed.

(** The last port the scan reaches. *)
Definition lastScanned : Z := 48126.

Lemma getRandomFreePort_free draw m :
  intn_ok draw → Z.of_nat (size (leasesByPort m)) < lastScanned →
  leasesByPort m !! getRandomFreePort draw m = None ∧ 1 ≤ getRandomFreePort draw m < endPort.
Proof.
  intros Hd Hs. unfold getRandomFreePort.
  destruct (random_tries _ _) as [p|] eqn:Hr.
  { apply random_tries_free in Hr as [? ?].
    - unfold startPort in *. split; [done|lia].
    - apply Forall_fmap, Forall_true. intros i. apply Hd. }
  change (Z.to_nat (wrap16 (portCount - 2))) with (Z.to_nat lastScanned).
  destruct (port_scan_spec (leasesByPort m) (Z.to_nat lastScanned) 0) as [(_ & Hr' & Hl & _)|[Hr' Ht]];
    [done|unfold lastScanned, endPort; lia|..].
  { split; [done|]. unfold lastScanned, endPort in *. lia. }
  exfalso. destruct (pigeonhole_range (dom (leasesByPort m)) 1 lastScanned) as (p & Hp & Hpf).
  { by rewrite size_dom. }
  apply Hpf, elem_of_dom, Ht. unfold lastScanned in *. lia.
Qed.

(** ** The operations *)

(** What a lease does to the map of names, on every branch. *)
Inductive lease_result (m : portManager) (name : NamespacedName) (port : Z) : result Z → portManager → Prop :=
  | LR_existing p :
      port = 0 → leasesByName m !! name = Some p →
      lease_result m name port (Ok p) m
  | LR_random p m' :
      port = 0 → leasesByName m !! name = None →
      leasesByPort m !! p = None → 1 ≤ p < endPort →
      leasesByName m' = <[name := p]> (leasesByName m) →
      lease_result m name port (Ok p) m'
  | LR_conflict owner :
      port ≠ 0 → leasesByPort m !! port = Some owner → owner ≠ name →
      lease_result m name port (Err (EConflictingTargetPort port owner)) m
  | LR_specific m' :
      port ≠ 0 → leasesByPort m !! port = None ∨ leasesByPort m !! port = Some name →
      leasesByName m' = <[name := port]> (leasesByName m) →
      lease_result m name port (Ok port) m'.

Lemma Lease_result draw name port m :
  lease_inv m → intn_ok draw → 0 ≤ port < 65536 →
  (leasesByName m !! name = None → Z.of_nat (size (leasesByName m)) < lastScanned) →
  Z.of_nat (size (leasesByName m)) < portCount →
  lease_result m name port (Lease draw name port m).1 (Lease draw name port m).2 ∧
  lease_inv (Lease draw name port m).2.
Proof.
  intros Hinv Hd Hp Hs Hs'. unfold Lease. case_decide as Hz.
  - unfold leaseWithRandomPort. rewrite decide_False by (rewrite lease_inv_size by done; lia).
    destruct (leasesByName m !! name) as [p|] eqn:Hn; simpl.
    + assert (1 ≤ p < 65536) by (eapply Hinv, Hinv, Hn). rewrite decide_True by lia.
      split; [by apply LR_existing|done].
    + 
      destruct (getRandomFreePort_free draw m Hd) as [Hf Hr].
      { rewrite lease_inv_size by done. by apply Hs. }
      split; [by apply LR_random|]. apply mark_leased_inv; [done| |by left].
      unfold endPort in Hr. lia.
  - assert (Hgo : leasesByPort m !! port = None ∨ leasesByPort m !! port = Some name →
      lease_result m name port (Ok port) (mark_leased name port m) ∧ lease_inv (mark_leased name port m)).
    { intros Hf. split; [by apply LR_specific|]. apply mark_leased_inv; [done|lia|done]. }
    unfold leaseWithSpecificPort. destruct (leasesByPort m !! port) as [owner|] eqn:Ho; simpl.
    + case_decide as Hne; [|apply Hgo; right; destruct (decide (owner = name)); [by subst|done]].
      split; [by apply LR_conflict|done].
    + apply Hgo. by left.
Qed.

(** A run of the port manager. *)
Inductive port_op :=
  | OpLease (name : NamespacedName) (port : Z) (draw : nat → Z)
  | OpRelease (name : NamespacedName).

Definition op_name (o : port_op) : NamespacedName :=
  match o with OpLease name _ _ => name | OpRelease name => name end.

Definition op_ok (o : port_op) : Prop :=
  match o with OpLease _ port draw => 0 ≤ port < 65536 ∧ intn_ok draw | OpRelease _ => True end.

Definition run_port_op (m : portManager) (o : port_op) : portManager :=
  match o with
  | OpLease name port draw => (Lease draw name port m).2
  | OpRelease name => (Release name m).2
  end.

Definition run_ports (m : portManager) (ops : list port_op) : portManager := foldl run_port_op m ops.

Lemma lease_result_dom m name port r m' :
  lease_result m name port r m' → dom (leasesByName m') ⊆ {[name]} ∪ dom (leasesByName m).
Proof. intros []; try match goal with H : leasesByName _ = _ |- _ => rewrite H end; set_solver. Qed.

Lemma Release_dom name m : dom (leasesByName (Release name m).2) ⊆ dom (leasesByName m).
Proof. unfold Release. destruct (_ !! _); simpl; set_solver. Qed.

(** The bound on names that the operations need. *)
Lemma names_bound (X : gset NamespacedName) m name :
  Z.of_nat (size X) ≤ lastScanned → name ∈ X → dom (leasesByName m) ⊆ X →
  (leasesByName m !! name = None → Z.of_nat (size (leasesByName m)) < lastScanned) ∧
  Z.of_nat (size (leasesByName m)) < portCount.
Proof.
  intros Hx Hn Hd. rewrite <- (size_dom (leasesByName m)).
  change portCount with 48128. unfold lastScanned in *. split.
  - intros Hno%not_elem_of_dom.
    assert (Hlt : (size (dom (leasesByName m)) < size X)%nat) by (apply subset_size; set_solver). lia.
  - apply subseteq_size in Hd. lia.
Qed.

Lemma run_port_op_inv (X : gset NamespacedName) m o :
  Z.of_nat (size X) ≤ lastScanned → op_name o ∈ X → op_ok o →
  lease_inv m → dom (leasesByName m) ⊆ X →
  lease_inv (run_port_op m o) ∧ dom (leasesByName (run_port_op m o)) ⊆ X.
Proof.
  intros Hx Hn Ho Hinv Hd. destruct o as [name port draw|name]; simpl in *.
  - destruct Ho as [Hp Hdraw]. destruct (names_bound X m name Hx Hn Hd) as [Hb Hb'].
    destruct (Lease_result draw name port m Hinv Hdraw Hp Hb Hb') as [Hr Hi].
    split; [done|]. apply lease_result_dom in Hr. set_solver.
  - split; [by apply Release_inv|]. assert (H := Release_dom name m). set_solver.
Qed.

(** C28: for any sequence of leases and releases by up to 48126 distinct names, and any
    random numbers, the two lease maps stay inverse to each other: a port never has
    two owners, no name holds two ports, and port 0 is never leased. *)
Theorem run_ports_inv ops :
  Forall op_ok ops →
  Z.of_nat (size (list_to_set (op_name <$> ops) : gset NamespacedName)) ≤ lastScanned →
  lease_inv (run_ports newPortManager ops).
Proof.
  intros Ho Hs.
  assert (Hgen : ∀ m, lease_inv m → dom (leasesByName m) ⊆ (list_to_set (op_name <$> ops) : gset _) →
                      lease_inv (run_ports m ops)).
  2: { apply Hgen; [apply lease_inv_new|]. simpl. set_solver. }
  assert (Hsub : Forall (λ o, op_name o ∈ (list_to_set (op_name <$> ops) : gset NamespacedName)) ops).
  { apply Forall_forall. intros o Hin. apply elem_of_list_to_set, list_elem_of_fmap. eauto. }
  revert Hs Hsub. generalize (list_to_set (op_name <$> ops) : gset NamespacedName). intros X Hs.
  induction Ho as [|o ops Ho _ IH]; intros Hsub m Hm Hd; [done|].
  apply Forall_cons in Hsub as [Hin Hsub].
  destruct (run_port_op_inv X m o) as [Hm' Hd']; try done. by apply (IH Hsub).
Qed.

(** Every branch of Lease in a reachable state. With port 0 a name that has a lease
    keeps it and another gets a port nobody holds; a given port is refused with the name
    of its owner when another name holds it, and otherwise it replaces the name's old port. *)
Theorem Lease_spec ops draw name port :
  Forall op_ok ops → intn_ok draw → 0 ≤ port < 65536 →
  Z.of_nat (size ({[name]} ∪ list_to_set (op_name <$> ops) : gset NamespacedName)) ≤ lastScanned →
  let m := run_ports newPortManager ops in
  lease_result m name port (Lease draw name port m).1 (Lease draw name port m).2.
Proof.
  intros Ho Hd Hp Hs m.
  set (X := {[name]} ∪ list_to_set (op_name <$> ops) : gset NamespacedName) in *.
  assert (Hinv : ∀ m0, lease_inv m0 → dom (leasesByName m0) ⊆ X →
            lease_inv (run_ports m0 ops) ∧ dom (leasesByName (run_ports m0 ops)) ⊆ X).
  { assert (Hsub : Forall (λ o, op_name o ∈ X) ops).
    { apply Forall_forall. intros o Hin. apply elem_of_union_r, elem_of_list_to_set, list_elem_of_fmap. eauto. }
    clear m. clearbody X. induction Ho as [|o ops Ho _ IH]; intros m0 Hm Hdm; [done|].
    apply Forall_cons in Hsub as [Hin Hsub].
    destruct (run_port_op_inv X m0 o) as [Hm' Hd']; try done. by apply (IH Hsub). }
  destruct (Hinv newPortManager) as [Hm Hdm]; [apply lease_inv_new|simpl; set_solver|].
  destruct (names_bound X m name Hs) as [Hb Hb']; [set_solver|done|].
  by apply Lease_result.
Qed.

(** ** Where the fallback scan departs from its description *)

Lemma random_tries_taken leases draw :
  (∀ i, (i < maxRandomTries)%nat → is_Some (leases !! wrap16 (startPort + wrap16 (draw i)))) →
  random_tries leases (draw <$> seq 0 maxRandomTries) = None.
Proof.
  intros Hd. assert (Hi : Forall (λ i, (i < maxRandomTries)%nat) (seq 0 maxRandomTries)).
  { apply Forall_forall. intros i Hi%elem_of_seq. lia. }
  induction Hi as [|i l Hi _ IH]; simpl; [done|]. by destruct (Hd i Hi) as [o ->].
Qed.

(** When the 40 random tries all hit leased ports, the scan starts from port 1 and
    not from the allocation range, so a random lease can be below startPort. *)
Theorem random_lease_below_startPort m draw name :
  (∀ i, (i < maxRandomTries)%nat → is_Some (leasesByPort m !! wrap16 (startPort + wrap16 (draw i)))) →
  leasesByPort m !! 1 = None → leasesByName m !! name = None →
  Z.of_nat (size (leasesByPort m)) ≠ portCount →
  (Lease draw name 0 m).1 = Ok 1 ∧ 1 < startPort.
Proof.
  intros Hd H1 Hn Hs. split; [|done]. unfold Lease, leaseWithRandomPort. simpl.
  rewrite decide_False, Hn by done. simpl. f_equal. unfold getRandomFreePort.
  rewrite random_tries_taken by done. change (Z.to_nat (wrap16 (portCount - 2))) with (Z.to_nat lastScanned).
  destruct (Z.to_nat lastScanned) as [|n] eqn:E; [unfold lastScanned in E; lia|].
  cbn [port_scan]. change (wrap16 (0 + 1)) with 1. rewrite decide_False by done. by rewrite H1.
Qed.

(** With every scanned port leased the result is the last one. *)
Lemma getRandomFreePort_full draw m :
  (∀ i, (i < maxRandomTries)%nat → is_Some (leasesByPort m !! wrap16 (startPort + wrap16 (draw i)))) →
  (∀ p, 1 ≤ p ≤ lastScanned → is_Some (leasesByPort m !! p)) →
  getRandomFreePort draw m = lastScanned.
Proof.
  intros Hd Hall. unfold getRandomFreePort. rewrite random_tries_taken by done.
  change (Z.to_nat (wrap16 (portCount - 2))) with (Z.to_nat lastScanned).
  destruct (port_scan_spec (leasesByPort m) (Z.to_nat lastScanned) 0) as [(_ & Hr & Hl & _)|[-> _]];
    [done|unfold lastScanned, endPort; lia| |unfold lastScanned; lia].
  exfalso. destruct (Hall (port_scan (leasesByPort m) (Z.to_nat lastScanned) 0)) as [o Ho].
  { unfold lastScanned in *. lia. }
  congruence.
Qed.

(** Lease the ports 1, ..., [k] to distinct names. *)
Definition nth_name (p : Z) : NamespacedName := mkNN "default" (Itoa p).
Definition zero_draw : nat → Z := λ _, 0.
Definition lease_all (k : nat) : list port_op :=
  (λ p, OpLease (nth_name p) p zero_draw) <$> seqZ 1 (Z.of_nat k).

Lemma nth_name_inj p q : nth_name p = nth_name q → p = q.
Proof. intros [= H]. by apply (inj pretty). Qed.

Lemma lease_all_spec k :
  Z.of_nat k < 65535 →
  let m := run_ports newPortManager (lease_all k) in
  lease_inv m ∧
  (∀ p, leasesByPort m !! p = if decide (1 ≤ p ≤ Z.of_nat k) then Some (nth_name p) else None) ∧
  size (leasesByPort m) = k.
Proof.
  induction k as [|k IH]; intros Hk.
  { split; [apply lease_inv_new|]. split; [|done].
    intros p. rewrite decide_False by lia. apply lookup_empty. }
  destruct IH as (Hi & Hl & Hs); [lia|].
  unfold lease_all, run_ports. rewrite Nat2Z.inj_succ, <- Z.add_1_r, seqZ_app by lia.
  rewrite fmap_app, foldl_app. simpl. fold (lease_all k).
  change (foldl run_port_op newPortManager (lease_all k)) with (run_ports newPortManager (lease_all k)).
  set (m := run_ports newPortManager (lease_all k)) in *.
  change (Z.of_nat 0 + (1 + Z.of_nat k)) with (1 + Z.of_nat k).
  assert (Hfree : leasesByPort m !! (1 + Z.of_nat k) = None) by (rewrite Hl; apply decide_False; lia).
  unfold Lease. rewrite decide_False by lia. unfold leaseWithSpecificPort.
  assert (Hno : leasesByName m !! nth_name (1 + Z.of_nat k) = None).
  { destruct (leasesByName m !! nth_name (1 + Z.of_nat k)) as [q|] eqn:Hq; [|done].
    apply Hi in Hq. rewrite Hl in Hq. case_decide; [|done].
    injection Hq as Hq%(inj pretty). lia. }
  rewrite Hfree. simpl. split_and!.
  - apply mark_leased_inv; [done|lia|by left].
  - intros p. unfold mark_leased; simpl. rewrite Hno.
    destruct (decide (p = 1 + Z.of_nat k)) as [->|Hne].
    + rewrite lookup_insert_eq, decide_True by lia. done.
    + rewrite lookup_insert_ne, Hl by done. repeat case_decide; done || lia.
  - unfold mark_leased; simpl. rewrite Hno, map_size_insert_None by done. lia.
Qed.

(** When the ports 1 to 48126 are all leased, the scan ends without finding a free
    port and its last port is leased all the same: a reachable state where one
    port has two owners. *)
Theorem exhausted_scan_steals :
  ∃ ops draw name p,
    Forall op_ok ops ∧ intn_ok draw ∧
    let m := run_ports newPortManager ops in
    let m' := (Lease draw name 0 m).2 in
    (Lease draw name 0 m).1 = Ok p ∧
    ∃ other, other ≠ name ∧ leasesByName m' !! other = Some p ∧ leasesByName m' !! name = Some p.
Proof.
  assert (∃ k, Z.of_nat k = 48126) as [k Hk] by (exists (Z.to_nat 48126); apply Z2Nat.id; lia).
  exists (lease_all k), zero_draw, (mkNN "default" "extra"), 48126.
  destruct (lease_all_spec k) as (Hi & Hl & Hs); [lia|].
  assert (Hok : Forall op_ok (lease_all k)).
  { apply Forall_fmap, Forall_forall. intros p Hp%elem_of_seqZ. split; [lia|done]. }
  set (m := run_ports newPortManager (lease_all k)) in *. cbv zeta.
  do 2 (split; [done|]).
  assert (Hn : leasesByName m !! mkNN "default" "extra" = None).
  { destruct (leasesByName m !! mkNN "default" "extra") as [q|] eqn:Hq; [|done].
    apply Hi in Hq. rewrite Hl in Hq. case_decide; [|done]. injection Hq as Hq.
    assert (Hc := Itoa_no_char "x"%char q ltac:(lia) eq_refl). rewrite Hq in Hc. discriminate Hc. }
  assert (H48 : leasesByPort m !! 48126 = Some (nth_name 48126)).
  { rewrite Hl. apply decide_True. lia. }
  assert (Hp : getRandomFreePort zero_draw m = 48126).
  { apply getRandomFreePort_full; [intros i _; change (wrap16 _) with 1024|intros p Hp];
      rewrite Hl, decide_True by (unfold lastScanned in *; lia); by eexists. }
  unfold Lease, leaseWithRandomPort. simpl. rewrite decide_False, Hn; simpl.
  2: { rewrite Hs, Hk. done. }
  rewrite Hp. split; [done|]. exists (nth_name 48126).
  split; [vm_compute; congruence|]. split; [|apply lookup_insert_eq].
  rewrite lookup_insert_ne by (vm_compute; congruence). by apply Hi.
Qed.

(** ** Witnesses *)
Definition ex_names : list port_op :=
  [OpLease (mkNN "default" "a") 1024 zero_draw; OpLease (mkNN "default" "b") 0 (λ _, 5);
   OpLease (mkNN "default" "a") 80 zero_draw; OpRelease (mkNN "default" "b")].

Lemma run_ports_inv_witness : lease_inv (run_ports newPortManager ex_names).
Proof.
  apply run_ports_inv.
  - repeat constructor; vm_compute; congruence.
  - vm_compute. congruence.
Defined.

Lemma Lease_spec_witness :
  let m := run_ports newPortManager ex_names in
  lease_result m (mkNN "default" "b") 80
    (Lease zero_draw (mkNN "default" "b") 80 m).1 (Lease zero_draw (mkNN "default" "b") 80 m).2 ∧
  (Lease zero_draw (mkNN "default" "b") 80 m).1 = Err (EConflictingTargetPort 80 (mkNN "default" "a")).
Proof.
  split; [|reflexivity].
  apply (Lease_spec ex_names zero_draw (mkNN "default" "b") 80).
  - repeat constructor; vm_compute; congruence.
  - split; vm_compute; congruence.
  - lia.
  - vm_compute. congruence.
Defined.

Lemma random_lease_below_startPort_witness :
  (Lease zero_draw (mkNN "default" "b") 0
     (run_ports newPortManager [OpLease (mkNN "default" "a") 1024 zero_draw])).1 = Ok 1 ∧ 1 < startPort.
Proof.
  apply random_lease_below_startPort.
  - intros i _. eexists. reflexivity.
  - reflexivity.
  - reflexivity.
  - vm_compute. congruence.
Defined.
