(* ===== verification/Net.v ===== *)
(** * HTTP, TLS files and encodings

    [pkg/util/jsonapi/client.go] and [pkg/util/tls/util.go], with the parts of
    [net/http], [crypto/tls] and the encoders they use as interfaces. *)
From S2P Require Export K8s.
From stdpp Require Import options.
From Stdlib Require Import Ascii ZArith Lia.

(** ** Header keys: [net/textproto.CanonicalMIMEHeaderKey] on letters and dashes *)
Definition to_upper (c : ascii) : ascii :=
  let n := nat_of_ascii c in if decide (97 ≤ n ≤ 122) then ascii_of_nat (n - 32) else c.
Definition to_lower (c : ascii) : ascii :=
  let n := nat_of_ascii c in if decide (65 ≤ n ≤ 90) then ascii_of_nat (n + 32) else c.

Fixpoint canonical_from (upper : bool) (s : string) : string :=
  match s with
  | EmptyString => EmptyString
  | String c s' => String (if upper then to_upper c else to_lower c)
                          (canonical_from (bool_decide (c = "-"%char)) s')
  end.
Definition CanonicalHeaderKey : string → string := canonical_from true.

(** [http.Header], keyed by canonical names; [Get] of an absent key is empty. *)
Abbreviation Header := (gmap string string).
Definition Header_Get (h : Header) (key : string) : string := default "" (h !! CanonicalHeaderKey key).

(** ** Encodings

    JSON of the two values the sources send, and standard base64. *)
Class Encodings := {
  json_labels : gmap string string → result string;
  json_parse_labels : string → result (gmap string string);
  json_authz_request : AuthorizationRequest → result string;
  json_parse_authz_request : string → result AuthorizationRequest;
  base64_encode : string → string;
  base64_decode : string → result string
}.

(** What is decoded is what was encoded. *)
Class EncodingsLaws `{!Encodings} := {
  json_labels_round_trip m s : json_labels m = Ok s → json_parse_labels s = Ok m;
  json_authz_round_trip r s : json_authz_request r = Ok s → json_parse_authz_request s = Ok r;
  base64_round_trip s : base64_decode (base64_encode s) = Ok s
}.

(** ** tls/util.go *)

(** The values [crypto/tls] and [crypto/x509] parse. *)
Class TLSLib := {
  Certificate : Type;
  CertPool : Type;
  X509Certificate : Type;
  X509KeyPair : string → string → result Certificate;
  (** [AppendCertsFromPEM] on a new pool. *)
  AppendCertsFromPEM : string → option CertPool;
  (** [x509.ParseCertificate(certificate.Certificate[0])]. *)
  ParseCertificate : Certificate → result X509Certificate;
  x509_DNSNames : X509Certificate → list string
}.

(** [os.ReadFile]. *)
Class Files (W : Type) := { ReadFile : string → ST W (result string) }.

Inductive ClientAuthType := NoClientCert | RequireAndVerifyClientCert.

Section tls.
Context {TL : TLSLib}.

Record ParsedCertData := mkParsedCertData {
  pcd_certificate : Certificate; pcd_ca : CertPool; pcd_x509cert : X509Certificate
}.
Record RawCertData := mkRawCertData { raw_certificate : string; raw_key : string; raw_ca : string }.

(** [tls.Config]; [None] is a nil pool. *)
Record TLSConfig := mkTLSConfig {
  MinVersion : Z;
  Certificates : list Certificate;
  ClientCAs : option CertPool;
  ClientAuth : ClientAuthType;
  RootCAs : option CertPool;
  ServerName : string
}.
Definition VersionTLS12 : Z := 771.

Definition ServerConfig (c : ParsedCertData) : TLSConfig :=
  mkTLSConfig VersionTLS12 [pcd_certificate c] (Some (pcd_ca c)) RequireAndVerifyClientCert None "".

Definition ClientConfig (c : ParsedCertData) (sni : string) : TLSConfig :=
  mkTLSConfig VersionTLS12 [pcd_certificate c] None NoClientCert (Some (pcd_ca c)) sni.

Definition DNSNames (c : ParsedCertData) : list string := x509_DNSNames (pcd_x509cert c).

Context {W : Type} {FS : Files W}.

Definition ParseFiles (ca cert key : string) : ST W (result (ParsedCertData * RawCertData)) :=
  rawCA ← ReadFile ca;
  match rawCA with
  | Err err => mret (Err (EWrap ("unable to read CA file '" +:+ ca +:+ "'") err))
  | Ok rawCA =>
  rawCertificate ← ReadFile cert;
  match rawCertificate with
  | Err err => mret (Err (EWrap "unable to read certificate file" err))
  | Ok rawCertificate =>
  rawPrivateKey ← ReadFile key;
  match rawPrivateKey with
  | Err err => mret (Err (EWrap "unable to read private key file" err))
  | Ok rawPrivateKey =>
  mret match X509KeyPair rawCertificate rawPrivateKey with
  | Err err => Err (EWrap "unable to parse certificate keypair" err)
  | Ok certificate =>
      match AppendCertsFromPEM rawCA with
      | None => Err (ENew "unable to parse CA file")
      | Some caCertPool =>
          match ParseCertificate certificate with
          | Err err => Err (EWrap "unable to parse x509 certificate" err)
          | Ok x509cert =>
              Ok (mkParsedCertData certificate caCertPool x509cert,
                  mkRawCertData rawCertificate rawPrivateKey rawCA)
          end
      end
  end end end end.
End tls.

(** ** jsonapi/client.go *)

(** [net.JoinHostPort]. *)
Definition JoinHostPort (host port : string) : string :=
  if str_in ":"%char host then "[" +:+ host +:+ "]:" +:+ port else host +:+ ":" +:+ port.

Record HTTPRequest := mkHTTPRequest {
  hreq_Method : string; hreq_URL : string; hreq_ContentType : option string; hreq_Body : string
}.
Record HTTPResponse := mkHTTPResponse {
  hresp_StatusCode : Z; hresp_Header : Header;
  hresp_Body : result string     (* what io.ReadAll returns *)
}.

(** The error of [http.Client.Do]; the flag is [url.Error.Timeout]. *)
Record DoError := mkDoError { do_error : error; do_timeout : bool }.
Inductive do_result := DoOk (r : HTTPResponse) | DoErr (e : DoError).

(** The network, as seen through [net/http]. *)
Class HTTPLib {TL : TLSLib} (W : Type) := {
  NewRequest_check : string → string → option error;
  http_Do : TLSConfig → HTTPRequest → ST W do_result;
  CloseIdleConnections : TLSConfig → ST W unit
}.

Record Response := mkResponse { Status : Z; Headers : Header; Body : string }.

Section jsonapi.
Context {TL : TLSLib} {W : Type} {HL : HTTPLib W}.

(** [jsonapi.Client]. *)
Record jsonClient := mkJsonClient { jc_config : TLSConfig; jc_serverURL : string }.

Definition jsonapi_NewClient (host : string) (port : Z) (tlsConfig : TLSConfig) : jsonClient :=
  mkJsonClient tlsConfig ("https://" +:+ JoinHostPort host (Itoa port)).

(** [body] is [None] for a nil slice. *)
Definition jsonapi_do (c : jsonClient) (method path : string) (body : option string) : ST W (result Response) :=
  let url := jc_serverURL c +:+ path in
  match NewRequest_check method url with
  | Some err => mret (Err (EWrap "unable to create http request" err))
  | None =>
      let req := mkHTTPRequest method url
                   (if body is Some _ then Some "application/json; charset=utf-8" else None)
                   (default "" body) in
      resp ← http_Do (jc_config c) req;
      resp ← match resp with
             | DoErr e =>
                 if do_timeout e then
                   CloseIdleConnections (jc_config c);; http_Do (jc_config c) req
                 else mret resp
             | DoOk _ => mret resp
             end;
      mret match resp with
      | DoErr e => Err (EWrap "unable to perform http request" (do_error e))
      | DoOk r =>
          match hresp_Body r with
          | Err err => Err (EWrap "unable to read response body" err)
          | Ok b => Ok (mkResponse (hresp_StatusCode r) (hresp_Header r) b)
          end
      end
  end.

Definition jsonapi_Get (c : jsonClient) (path : string) : ST W (result Response) :=
  jsonapi_do c "GET" path None.
Definition jsonapi_Post (c : jsonClient) (path : string) (body : string) : ST W (result Response) :=
  jsonapi_do c "POST" path (Some body).
Definition jsonapi_Put (c : jsonClient) (path : string) (body : string) : ST W (result Response) :=
  jsonapi_do c "PUT" path (Some body).
Definition jsonapi_Delete (c : jsonClient) (path : string) (body : string) : ST W (result Response) :=
  jsonapi_do c "DELETE" path (Some body).
End jsonapi.

(** ** Reference instances *)
Fixpoint pos_bits (p : positive) : string :=
  match p with
  | xH => EmptyString
  | xO p' => String "0" (pos_bits p')
  | xI p' => String "1" (pos_bits p')
  end.
Fixpoint bits_pos (s : string) : option positive :=
  match s with
  | EmptyString => Some xH
  | String c s' =>
      if bool_decide (c = "0"%char) then xO <$> bits_pos s'
      else if bool_decide (c = "1"%char) then xI <$> bits_pos s' else None
  end.
Lemma bits_pos_bits p : bits_pos (pos_bits p) = Some p.
Proof. induction p as [p IH|p IH|]; simpl; rewrite ?IH; done. Qed.

Definition ref_marshal {A} `{Countable A} (a : A) : string := pos_bits (encode a).
Definition ref_unmarshal {A} `{Countable A} (s : string) : result A :=
  match bits_pos s ≫= decode with Some a => Ok a | None => Err (ENew "cannot unmarshal") end.
Lemma ref_unmarshal_marshal {A} `{Countable A} (a : A) : ref_unmarshal (ref_marshal a) = Ok a.
Proof. unfold ref_unmarshal, ref_marshal. rewrite bits_pos_bits. simpl. by rewrite decode_encode. Qed.

Definition ref_encodings : Encodings := {|
  json_labels m := Ok (ref_marshal m);
  json_parse_labels := ref_unmarshal;
  json_authz_request r := Ok (ref_marshal (areq_ServiceName r, areq_ServiceNamespace r, areq_SrcAttributes r));
  json_parse_authz_request s :=
    (λ t, mkAuthzReq t.1.1 t.1.2 t.2) <$> (ref_unmarshal s : result (string * string * gmap string string));
  base64_encode s := s;
  base64_decode := Ok
|}.

#[export] Instance ref_encodings_laws : @EncodingsLaws ref_encodings.
Proof.
  split; simpl.
  - intros m s [= <-]. apply ref_unmarshal_marshal.
  - intros r s [= <-]. rewrite ref_unmarshal_marshal. by destruct r.
  - done.
Qed.

Definition ref_tls : TLSLib := {|
  Certificate := string; CertPool := string; X509Certificate := list string;
  X509KeyPair cert key := if decide (key = "") then Err (ENew "no key") else Ok cert;
  AppendCertsFromPEM ca := if decide (ca = "") then None else Some ca;
  ParseCertificate cert := Ok [cert];
  x509_DNSNames := id
|}.

(** A network where every server gives the same answer. *)
Definition ref_http (W : Type) (answer : do_result) : @HTTPLib ref_tls W := {|
  NewRequest_check _ _ := None;
  http_Do _ _ := mret answer;
  CloseIdleConnections _ := mret tt
|}.
