(* ===== verification/Paths.v ===== *)
(** * Paths

    [filepath.Join], and the files, directories and ports that the programs and what
    deploys them agree on: the constants of [cmd/cl-controlplane/app/server.go],
    [cmd/cl-dataplane/app/server.go] (with the same values in [cmd/cl-go-dataplane]) and
    of the API packages. *)
From S2P Require Export GoString.
From stdpp Require Import options.
From Stdlib Require Import Ascii ZArith.

(** ** [filepath.Clean] and [filepath.Join] on slash-separated paths *)
Fixpoint path_elements (s acc : string) : list string :=
  match s with
  | EmptyString => [acc]
  | String c s' => if decide (c = "/"%char) then acc :: path_elements s' "" else path_elements s' (acc +:+ String c "")
  end.
Definition clean_step (rooted : bool) (out : list string) (e : string) : list string :=
  if decide (e = "" ∨ e = ".") then out
  else if decide (e = "..") then
    match out with
    | [] => if rooted then [] else [".."]
    | o :: out' => if decide (o = "..") then ".." :: out else out'
    end
  else e :: out.
Definition filepath_Clean (path : string) : string :=
  let rooted := HasPrefix path "/" in
  let p := String.concat "/" (rev (foldl (clean_step rooted) [] (path_elements path ""))) in
  if rooted then "/" +:+ p else if decide (p = "") then "." else p.
Definition filepath_Join (elems : list string) : string :=
  match filter (λ e, e ≠ "") elems with [] => "" | es => filepath_Clean (String.concat "/" es) end.

(** The files of [cmd/cl-controlplane/app] and [cmd/cl-dataplane/app]. *)
Definition CAFile : string := "/etc/ssl/certs/clink_ca.pem".
Definition cp_CertificateFile : string := "/etc/ssl/certs/clink-controlplane.pem".
Definition cp_KeyFile : string := "/etc/ssl/key/clink-controlplane.pem".
Definition PeerTLSDirectory : string := "/etc/ssl/certs/clink".
Definition NamespaceEnvVariable : string := "CL_NAMESPACE".
Definition dp_CertificateFile : string := "/etc/ssl/certs/clink-dataplane.pem".
Definition dp_KeyFile : string := "/etc/ssl/key/clink-dataplane.pem".
(** The default namespace of the system. *)
Definition SystemNamespace : string := "clusterlink-system".
(** [ReadinessListenPort] of the API packages of the control plane and of the data plane. *)
Definition ReadinessListenPort : Z := 4445.

(** The names of the files in the directory of the peer certificates ([cl-controlplane/app]). *)
Definition PeerCertificateFile : string := "cert.pem".
Definition PeerKeyFile : string := "key.pem".
Definition FabricCertificateFile : string := "ca.pem".
Definition PeerCertificateFilePath : string := filepath_Join [PeerTLSDirectory; PeerCertificateFile].
Definition PeerKeyFilePath : string := filepath_Join [PeerTLSDirectory; PeerKeyFile].
Definition FabricCertificateFilePath : string := filepath_Join [PeerTLSDirectory; FabricCertificateFile].
