(* ===== verification/PeerClient.v ===== *)
(** * The client of a remote peer

    [pkg/controlplane/peer/client.go].  [getResponse] asks all the gateways of a
    peer at once, one goroutine each.  Its goroutines, lock and channel are
    modelled as a step relation ([gr_step]); [getResponse] is the same as a function of
    a schedule: what it returns for an order in which the responses arrive, or that it
    does not return.  That a call blocks forever is [None]. *)
From S2P Require Export Net.
From stdpp Require Import options.
From Stdlib Require Import ZArith Lia.

(** ** Collecting the responses *)

(** The loop that reads the channel: [retErr] and the results in arrival order.
    With no results at all the result is a nil response and no error. *)
Fixpoint collect (retErr : option error) (rs : list (result Response)) : result (option Response) :=
  match rs with
  | [] => match retErr with Some err => Err err | None => Ok None end
  | Ok r :: _ => Ok (Some r)
  | Err err :: rs' => collect (Some (EJoin (option_list retErr ++ [err]))) rs'
  end.

(** How many of the results the caller reads. *)
Fixpoint results_read (rs : list (result Response)) : nat :=
  match rs with
  | [] => 0
  | Ok _ :: _ => 1
  | Err _ :: rs' => S (results_read rs')
  end.
(** The caller can be blocked: it has read a response and is about to take the lock, and
    the goroutine of another of the [n] gateways may hold it, sending to nobody. *)
Definition can_block (n : nat) (rs : list (result Response)) : bool :=
  existsb is_ok rs && (results_read rs <? n).

(** A schedule of the goroutines: the order in which the responses are sent, and whether
    a goroutine takes the lock before the caller when both can. *)
Record schedule {TL : TLSLib} := mkSchedule { sch_order : list jsonClient; sch_blocks : bool }.
Arguments mkSchedule {TL}. Arguments sch_order {TL}. Arguments sch_blocks {TL}.

Section client.
Context {TL : TLSLib} {W : Type} {HL : HTTPLib W} {EN : Encodings}.

Record Client := mkClient { cl_pr : Peer; cl_clients : list jsonClient }.

Definition NewClient (peer : Peer) (tlsConfig : TLSConfig) : Client :=
  mkClient peer ((λ ep, jsonapi_NewClient (ep_Host ep) (ep_Port ep) tlsConfig) <$> peer_Gateways peer).

(** The schedule of the requests to several gateways. *)
Context (arrival : W → list jsonClient → schedule).

Fixpoint responses (getRespFunc : jsonClient → ST W (result Response)) (cs : list jsonClient) :
    ST W (list (result Response)) :=
  match cs with
  | [] => mret []
  | c :: cs' => r ← getRespFunc c; rs ← responses getRespFunc cs'; mret (r :: rs)
  end.

Definition getResponse (c : Client) (getRespFunc : jsonClient → ST W (result Response)) :
    ST W (option (result (option Response))) :=
  match cl_clients c with
  | [cl] => r ← getRespFunc cl; mret (Some (Some <$> r))
  | cs =>
      w ← getS;
      let sch := arrival w cs in
      rs ← responses getRespFunc (sch_order sch);
      mret (if sch_blocks sch && can_block (length cs) rs then None else Some (collect None rs))
  end.

(** [serverResp] is dereferenced without a check. *)
Definition authorize_answer (serverResp : result (option Response)) : outcome (result string) :=
  match serverResp with
  | Err err => Done (Err err)
  | Ok None => Panic
  | Ok (Some resp) =>
      if decide (Status resp ≠ 200%Z) then
        Done (Err (ENew ("unable to authorize connection (" +:+ Itoa (Status resp) +:+
                         "), server returned: " +:+ Body resp)))
      else Done (Ok (Header_Get (Headers resp) AccessTokenHeader))
  end.
Definition Authorize (c : Client) (req : AuthorizationRequest) : ST W (option (outcome (result string))) :=
  match json_authz_request req with
  | Err err => mret (Some (Done (Err (EWrap "unable to serialize authorization request" err))))
  | Ok body =>
      serverResp ← getResponse c (λ client, jsonapi_Post client RemotePeerAuthorizationPath body);
      mret (authorize_answer <$> serverResp)
  end.

Definition heartbeat_answer (serverResp : result (option Response)) : outcome (result (gmap string string)) :=
  match serverResp with
  | Err err => Done (Err err)
  | Ok None => Panic
  | Ok (Some resp) =>
      if decide (Status resp ≠ 200%Z) then
        Done (Err (ENew ("unable to get heartbeat (" +:+ Itoa (Status resp) +:+
                         "), server returned: " +:+ Body resp)))
      else
        match base64_decode (Header_Get (Headers resp) PeerLabelsCustomHeader) with
        | Err err => Done (Err err)
        | Ok sDec => Done (json_parse_labels sDec)
        end
  end.
Definition GetHeartbeat (c : Client) : ST W (option (outcome (result (gmap string string)))) :=
  serverResp ← getResponse c (λ client, jsonapi_Get client HeartbeatPath);
  mret (heartbeat_answer <$> serverResp).

(** A peer whose list of gateways is empty, which the resource schema allows,
    makes the client dereference a nil response: the heartbeat panics. *)
Theorem no_gateways_panics pr tlsConfig w :
  peer_Gateways pr = [] → sch_order (arrival w []) = [] →
  (GetHeartbeat (NewClient pr tlsConfig) w).1 = Some Panic.
Proof.
  intros Hg Ha. unfold GetHeartbeat, getResponse, NewClient. simpl. rewrite Hg.
  unfold mbind, ST_bind, getS. simpl. rewrite Ha. simpl. by rewrite andb_false_r.
Qed.

(** A request blocks only when the peer has several gateways and the schedule has a
    goroutine take the lock before the caller. *)
Lemma getResponse_blocks c f w :
  (getResponse c f w).1 = None → 1 < length (cl_clients c) ∧ sch_blocks (arrival w (cl_clients c)) = true.
Proof.
  unfold getResponse. destruct (cl_clients c) as [|c1 [|c2 cs]] eqn:Hcs; unfold_st.
  - destruct (responses f _ w) as [rs w']. simpl. unfold can_block. destruct (results_read rs); by rewrite ?andb_false_r.
  - by destruct (f c1 w).
  - destruct (responses f _ w) as [rs w']. simpl. destruct (sch_blocks _); [|done]. intros _. split; [lia|done].
Qed.
Lemma Authorize_blocks c req w :
  (Authorize c req w).1 = None → 1 < length (cl_clients c) ∧ sch_blocks (arrival w (cl_clients c)) = true.
Proof.
  unfold Authorize. destruct (json_authz_request req) as [body|e]; [|done]. unfold_st.
  intros H. apply (getResponse_blocks c (λ client, jsonapi_Post client RemotePeerAuthorizationPath body)).
  by destruct (getResponse c _ w) as [[r|] w'].
Qed.
End client.

(** ** The goroutines of getResponse *)

(** A goroutine: waiting for its response; waiting for the lock with its response;
    sending on the unbuffered channel while it holds the lock; done sending and about
    to release the lock; returned. *)
Inductive gstate :=
  | Requesting | Waiting | Sending | Sent | Gone.
#[export] Instance gstate_eq_dec : EqDecision gstate.
Proof. solve_decision. Defined.

(** The caller: reading the channel [k] more times; taking the lock to set
    [done]; holding it; returned. *)
Inductive mstate :=
  | Receiving (k : nat) (retErr : option error)
  | Locking (resp : Response)
  | Unlocking (resp : Response)
  | Returned (r : result (option Response)).

(** [g_arrived] is the history of the channel: the goroutines that sent. *)
Record gconfig := mkG {
  g_main : mstate; g_go : list gstate; g_done : bool; g_locked : bool; g_arrived : list nat
}.

Definition g_init (n : nat) : gconfig := mkG (Receiving n None) (replicate n Requesting) false false [].

(** The caller after it received a result. *)
Definition received (k : nat) (retErr : option error) (r : result Response) : mstate :=
  match r with
  | Ok resp => Locking resp
  | Err err => Receiving k (Some (EJoin (option_list retErr ++ [err])))
  end.

Section goroutines.
(** The response of each gateway. *)
Context (resp_of : nat → result Response).

Inductive gr_step : gconfig → gconfig → Prop :=
  | step_response m gs d l a i :
      gs !! i = Some Requesting →
      gr_step (mkG m gs d l a) (mkG m (<[i := Waiting]> gs) d l a)
  | step_lock m gs a i :
      gs !! i = Some Waiting →
      gr_step (mkG m gs false false a) (mkG m (<[i := Sending]> gs) false true a)
  | step_done m gs a i :
      gs !! i = Some Waiting →
      gr_step (mkG m gs true false a) (mkG m (<[i := Gone]> gs) true false a)
  | step_send k retErr gs d l a i :
      gs !! i = Some Sending →
      gr_step (mkG (Receiving (S k) retErr) gs d l a)
              (mkG (received k retErr (resp_of i)) (<[i := Sent]> gs) d l (a ++ [i]))
  | step_unlock m gs d a i :
      gs !! i = Some Sent →
      gr_step (mkG m gs d true a) (mkG m (<[i := Gone]> gs) d false a)
  | step_main_lock resp gs d a :
      gr_step (mkG (Locking resp) gs d false a) (mkG (Unlocking resp) gs true true a)
  | step_main_unlock resp gs d a :
      gr_step (mkG (Unlocking resp) gs d true a) (mkG (Returned (Ok (Some resp))) gs d false a)
  | step_main_end retErr gs d l a :
      gr_step (mkG (Receiving 0 retErr) gs d l a) (mkG (Returned (collect retErr [])) gs d l a).

Definition gr_reachable (n : nat) (c : gconfig) : Prop := rtc gr_step (g_init n) c.

Lemma received_collect k retErr r :
  match received k retErr r with
  | Receiving _ e => ∀ rs, collect retErr (r :: rs) = collect e rs
  | Locking resp => ∀ rs, collect retErr (r :: rs) = Ok (Some resp)
  | _ => False
  end.
Proof. by destruct r. Qed.

(** What the caller knows about the arrivals: the rest of the loop gives the
    result of the whole loop. *)
Definition main_inv (n : nat) (m : mstate) (a : list nat) : Prop :=
  match m with
  | Receiving k e =>
      k + length a = n ∧ ∀ rs, collect None ((resp_of <$> a) ++ rs) = collect e rs
  | Locking resp | Unlocking resp => ∀ rs, collect None ((resp_of <$> a) ++ rs) = Ok (Some resp)
  | Returned r =>
      collect None (resp_of <$> a) = r ∧
      (length a = n ∨ ∃ resp, r = Ok (Some resp))
  end.

Definition gr_inv (n : nat) (c : gconfig) : Prop :=
  length (g_go c) = n ∧ NoDup (g_arrived c) ∧
  (∀ i, i ∈ g_arrived c → g_go c !! i = Some Sent ∨ g_go c !! i = Some Gone) ∧
  main_inv n (g_main c) (g_arrived c).

Lemma go_update (gs : list gstate) (a : list nat) i x y :
  gs !! i = Some x → x ≠ Sent → x ≠ Gone →
  (∀ j, j ∈ a → gs !! j = Some Sent ∨ gs !! j = Some Gone) →
  ∀ j, j ∈ a → <[i := y]> gs !! j = Some Sent ∨ <[i := y]> gs !! j = Some Gone.
Proof.
  intros Hi Hx Hx' Ha j Hj. destruct (decide (i = j)) as [<-|Hne].
  - destruct (Ha i Hj); congruence.
  - rewrite list_lookup_insert_ne by done. by apply Ha.
Qed.

Lemma go_update_done (gs : list gstate) (a : list nat) i y :
  i < length gs → y = Sent ∨ y = Gone →
  (∀ j, j ∈ a → gs !! j = Some Sent ∨ gs !! j = Some Gone) →
  ∀ j, j ∈ a → <[i := y]> gs !! j = Some Sent ∨ <[i := y]> gs !! j = Some Gone.
Proof.
  intros Hi Hy Ha j Hj. destruct (decide (i = j)) as [<-|Hne].
  - rewrite list_lookup_insert_eq by done. destruct Hy as [->| ->]; [by left|by right].
  - rewrite list_lookup_insert_ne by done. by apply Ha.
Qed.

Lemma gr_step_inv n c c' : gr_step c c' → gr_inv n c → gr_inv n c'.
Proof.
  intros Hst (Hl & Hn & Ha & Hm). unfold gr_inv.
  destruct Hst as [m gs d l a i Hi|m gs a i Hi|m gs a i Hi|k e gs d l a i Hi|m gs d a i Hi
    |resp gs d a|resp gs d a|e gs d l a]; simpl in *; rewrite ?length_insert.
  - split_and!; try done. by eapply go_update.
  - split_and!; try done. by eapply go_update.
  - split_and!; try done. by eapply go_update.
  - assert (Hni : i ∉ a) by (intros Hin; destruct (Ha i Hin); congruence).
    split_and!; [done| | |].
    + apply NoDup_app. split_and!; [done| |by apply NoDup_singleton].
      intros j Hj ->%list_elem_of_singleton. done.
    + intros j Hj. apply elem_of_app in Hj as [Hj|Hj%list_elem_of_singleton].
      * by eapply (go_update gs a i Sending).
      * subst j. left. apply list_lookup_insert_eq. by eapply lookup_lt_Some.
    + destruct Hm as [Hlen Hc]. assert (Hr := received_collect k e (resp_of i)).
      destruct (received k e (resp_of i)) as [k' e'|resp|resp|r] eqn:Er; try done; simpl.
      * split; [destruct (resp_of i); [done|injection Er as <- _; rewrite length_app; simpl; lia]|].
        intros rs. by rewrite fmap_app, <- app_assoc, Hc, <- Hr.
      * intros rs. by rewrite fmap_app, <- app_assoc, Hc, <- (Hr rs).
  - split_and!; try done. apply go_update_done; [by eapply lookup_lt_Some|by right|done].
  - done.
  - split_and!; try done; [specialize (Hm []); by rewrite app_nil_r in Hm|right; by eexists].
  - destruct Hm as [Hlen Hc]. split_and!; try done; [|left; lia].
    specialize (Hc []). by rewrite app_nil_r in Hc.
Qed.

Lemma gr_reachable_inv n c : gr_reachable n c → gr_inv n c.
Proof.
  intros Hr. eapply (rtc_ind_r (gr_inv n) (g_init n)); [| |done].
  - unfold gr_inv. simpl. rewrite length_replicate. split_and!; [done|constructor|set_solver|lia|done].
  - intros y z _ Hst Hy. by eapply gr_step_inv.
Qed.

(** [i] is the first success among the goroutines that sent. *)
Definition first_success (arrived : list nat) (i : nat) (resp : Response) : Prop :=
  ∃ before after, arrived = before ++ i :: after ∧ resp_of i = Ok resp ∧
                  ∀ j, j ∈ before → is_ok (resp_of j) = false.

Lemma collect_success e a r :
  collect e (resp_of <$> a) = Ok (Some r) → ∃ i, first_success a i r.
Proof.
  revert e. induction a as [|i a IH]; intros e; simpl; [by destruct e|].
  destruct (resp_of i) as [resp|err] eqn:Hi.
  - intros [= ->]. exists i, [], a. split_and!; [done..|]. by intros j ?%not_elem_of_nil.
  - intros (k & before & after & -> & Hk & Hb)%IH. exists k, (i :: before), after. split_and!; [done..|].
    intros j [->|Hj]%elem_of_cons; [by rewrite Hi|by apply Hb].
Qed.
Lemma collect_failure e a r :
  collect e (resp_of <$> a) = r → (∀ resp, r ≠ Ok (Some resp)) → ∀ i, i ∈ a → is_ok (resp_of i) = false.
Proof.
  revert e. induction a as [|i a IH]; intros e; simpl; [by intros _ _ i ?%not_elem_of_nil|].
  destruct (resp_of i) as [resp|err] eqn:Hi; [by intros <- Hne; destruct (Hne resp)|].
  intros Hr Hne j [->|Hj]%elem_of_cons; [by rewrite Hi|by eapply IH].
Qed.

Lemma gr_arrived_all n c :
  gr_inv n c → length (g_arrived c) = n → g_arrived c ≡ₚ seq 0 n.
Proof.
  intros (Hl & Hn & Ha & _) Hlen. apply submseteq_length_Permutation; [|rewrite length_seq; lia].
  apply NoDup_submseteq; [done|]. intros i Hi. apply elem_of_seq.
  destruct (Ha i Hi) as [Hi'|Hi']; apply lookup_lt_Some in Hi'; lia.
Qed.

Lemma gr_returned n c r :
  gr_reachable n c → g_main c = Returned r →
  collect None (resp_of <$> g_arrived c) = r ∧
  ((∃ resp, r = Ok (Some resp)) ∨ g_arrived c ≡ₚ seq 0 n).
Proof.
  intros Hi%gr_reachable_inv Hr. pose proof Hi as (_ & _ & _ & Hm). rewrite Hr in Hm. destruct Hm as [Hc Hcase].
  split; [done|]. destruct Hcase as [Hlen|]; [right; by apply gr_arrived_all|by left].
Qed.
End goroutines.

(** ** Termination and the deadlock *)

Definition g_rank (g : gstate) : nat :=
  match g with Requesting => 4 | Waiting => 3 | Sending => 2 | Sent => 1 | Gone => 0 end.
Definition m_rank (m : mstate) : nat :=
  match m with Receiving _ _ => 3 | Locking _ => 2 | Unlocking _ => 1 | Returned _ => 0 end.
Definition gr_measure (c : gconfig) : nat := m_rank (g_main c) + sum_list_with g_rank (g_go c).

Lemma sum_rank_insert gs i x y :
  gs !! i = Some x →
  sum_list_with g_rank (<[i := y]> gs) + g_rank x = sum_list_with g_rank gs + g_rank y.
Proof.
  revert i. induction gs as [|g gs IH]; intros [|i] Hi; simpl in *; try done.
  - injection Hi as ->. lia.
  - specialize (IH i Hi). lia.
Qed.

Section termination.
Context (resp_of : nat → result Response).

(** Every step of the goroutines or of the caller brings the end closer. *)
Lemma gr_step_measure c c' : gr_step resp_of c c' → gr_measure c' < gr_measure c.
Proof.
  destruct 1 as [m gs d l a i Hi|m gs a i Hi|m gs a i Hi|k e gs d l a i Hi|m gs d a i Hi
    |resp gs d a|resp gs d a|e gs d l a]; unfold gr_measure; simpl; try lia;
    match goal with
    | Hi : ?l !! ?j = Some _ |- context [<[?j := ?y]> ?l] =>
        assert (H := sum_rank_insert l j _ y Hi); simpl in H
    end; try lia.
  destruct (resp_of i); simpl; lia.
Qed.

(** A goroutine that has the lock. *)
Definition has_lock (gs : list gstate) (i : nat) : Prop := gs !! i = Some Sending ∨ gs !! i = Some Sent.

(** Who has the lock: at most one goroutine, or the caller.  While the caller receives,
    [done] is not set, and the goroutines that returned have sent. *)
Record lock_inv (c : gconfig) : Prop := mkLockInv {
  lk_go i : has_lock (g_go c) i → g_locked c = true ∧ ∀ resp, g_main c ≠ Unlocking resp;
  lk_unique i j : has_lock (g_go c) i → has_lock (g_go c) j → i = j;
  lk_main resp : g_main c = Unlocking resp → g_locked c = true;
  lk_held : g_locked c = true → (∃ i, has_lock (g_go c) i) ∨ ∃ resp, g_main c = Unlocking resp;
  lk_receiving k e : g_main c = Receiving k e → g_done c = false ∧
    ∀ i, g_go c !! i = Some Gone ∨ g_go c !! i = Some Sent → i ∈ g_arrived c
}.

Lemma has_lock_insert gs i y j :
  has_lock (<[i := y]> gs) j → (i = j ∧ (y = Sending ∨ y = Sent)) ∨ (i ≠ j ∧ has_lock gs j).
Proof.
  intros [Hj|Hj]; apply list_lookup_insert_Some in Hj as [(-> & <- & _)|[Hne Hj]];
    [left; auto|right; split; [done|by left]|left; auto|right; split; [done|by right]].
Qed.
Lemma has_lock_other gs i y j : i ≠ j → has_lock gs j → has_lock (<[i := y]> gs) j.
Proof. intros Hne Hj. unfold has_lock. by rewrite list_lookup_insert_ne. Qed.
Lemma has_lock_here gs i y : i < length gs → y = Sending ∨ y = Sent → has_lock (<[i := y]> gs) i.
Proof. intros Hi Hy. unfold has_lock. rewrite list_lookup_insert_eq by done. destruct Hy as [->| ->]; auto. Qed.
Lemma not_has_lock gs i x : gs !! i = Some x → x ≠ Sending → x ≠ Sent → ¬ has_lock gs i.
Proof. intros Hi ?? [H|H]; congruence. Qed.

Lemma sent_update (gs : list gstate) (a : list nat) i y :
  (∀ j, gs !! j = Some Gone ∨ gs !! j = Some Sent → j ∈ a) → (y = Gone ∨ y = Sent → i ∈ a) →
  ∀ j, <[i := y]> gs !! j = Some Gone ∨ <[i := y]> gs !! j = Some Sent → j ∈ a.
Proof.
  intros Ha Hy j [Hj|Hj]; apply list_lookup_insert_Some in Hj as [(-> & -> & _)|[_ Hj]]; auto.
Qed.
Lemma lock_inv_free m gs d l a i x y :
  lock_inv (mkG m gs d l a) → gs !! i = Some x → x ≠ Sending → x ≠ Sent → y ≠ Sending → y ≠ Sent →
  (∀ k e, m = Receiving k e → y = Gone → i ∈ a) → lock_inv (mkG m (<[i := y]> gs) d l a).
Proof.
  intros [H1 H2 H3 H4 H5] Hi Hx Hx' Hy Hy' Hg. simpl in *.
  assert (∀ j, has_lock (<[i := y]> gs) j → has_lock gs j) as Hold.
  { intros j [[_ [?|?]]|[_ ?]]%has_lock_insert; done. }
  split; simpl; eauto.
  - intros Hl. destruct (H4 Hl) as [[j Hj]|?]; [left|by right]. exists j. apply has_lock_other; [|done].
    intros ->. by eapply not_has_lock.
  - intros k e Hm. destruct (H5 k e Hm) as [Hd Ha]. split; [done|]. apply sent_update; [done|]. intros [->|]; [by eapply Hg|done].
Qed.

Lemma gr_step_lock_inv c c' : gr_step resp_of c c' → lock_inv c → lock_inv c'.
Proof.
  intros Hst Hinv. destruct Hst as [m gs d l a i Hi|m gs a i Hi|m gs a i Hi|k e gs d l a i Hi|m gs d a i Hi
    |resp gs d a|resp gs d a|e gs d l a].
  - by eapply lock_inv_free.
  - destruct Hinv as [H1 H2 H3 H4 H5]. simpl in *.
    assert (∀ j, ¬ has_lock gs j) as Hno by (intros j Hj; destruct (H1 j Hj); done).
    assert (i < length gs) as Hlt by by eapply lookup_lt_Some.
    split; simpl.
    + intros j _. split; [done|]. intros resp Hm. by specialize (H3 resp Hm).
    + intros j j' [[-> _]|[_ Hj]]%has_lock_insert [[-> _]|[_ Hj']]%has_lock_insert; [done|by destruct (Hno _ Hj')|by destruct (Hno _ Hj)..].
    + done.
    + intros _. left. exists i. apply has_lock_here; auto.
    + intros k e Hm. destruct (H5 k e Hm) as [Hd Ha]. split; [done|]. apply sent_update; [done|]. by intros [?|?].
  - eapply lock_inv_free; [done|done|done..|]. intros k e Hm. by destruct (lk_receiving _ Hinv k e Hm).
  - destruct Hinv as [H1 H2 H3 H4 H5]. simpl in *. destruct (H1 i) as [-> _]; [by left|].
    assert (i < length gs) as Hlt by by eapply lookup_lt_Some.
    assert (∀ resp', received k e (resp_of i) ≠ Unlocking resp') as Hrec by (destruct (resp_of i); done).
    split; simpl; [done| |done| |].
    + intros j j' [[-> _]|[Hne Hj]]%has_lock_insert [[-> _]|[Hne' Hj']]%has_lock_insert; [done| | |by apply H2].
      * by destruct Hne'; apply H2; [left|].
      * by destruct Hne; apply H2; [left|].
    + intros _. left. exists i. apply has_lock_here; auto.
    + intros k' e' Hm. destruct (H5 (S k) e eq_refl) as [Hd Ha]. split; [done|].
      apply sent_update; [|set_solver]. intros j Hj. apply elem_of_app. left. by apply Ha.
  - destruct Hinv as [H1 H2 H3 H4 H5]. simpl in *. destruct (H1 i) as [_ Hm]; [by right|].
    assert (∀ j, ¬ has_lock (<[i := Gone]> gs) j) as Hno.
    { intros j [[_ [?|?]]|[Hne Hj]]%has_lock_insert; [done..|]. apply Hne. apply H2; [by right|done]. }
    split; simpl; [by intros j ?%Hno|by intros j j' ?%Hno|by intros resp ?%Hm|done|].
    intros k e Hk. destruct (H5 k e Hk) as [Hd Ha]. split; [done|]. apply sent_update; [done|]. intros _. apply Ha. by right.
  - destruct Hinv as [H1 H2 H3 H4 H5]. simpl in *.
    assert (∀ j, ¬ has_lock gs j) as Hno by (intros j Hj; destruct (H1 j Hj); done).
    split; simpl; [by intros j ?%Hno|by intros j j' ?%Hno|done|right; by eexists|done].
  - destruct Hinv as [H1 H2 H3 H4 H5]. simpl in *.
    assert (∀ j, ¬ has_lock gs j) as Hno by (intros j Hj; destruct (H1 j Hj) as [_ Hm]; by apply (Hm resp)).
    split; simpl; [by intros j ?%Hno|by intros j j' ?%Hno|done|done|done].
  - destruct Hinv as [H1 H2 H3 H4 H5]. simpl in *. split; simpl; try done.
    + intros i Hi. by destruct (H1 i Hi).
    + intros Hl. destruct (H4 Hl) as [?|[? ?]]; [by left|done].
Qed.

Lemma gr_reachable_lock_inv n c : gr_reachable resp_of n c → gr_inv resp_of n c ∧ lock_inv c.
Proof.
  intros Hr. split; [by apply gr_reachable_inv|].
  eapply (rtc_ind_r lock_inv (g_init n)); [| |done].
  - assert (∀ i, ¬ has_lock (replicate n Requesting) i) as Hno.
    { by intros i [[? _]%lookup_replicate|[? _]%lookup_replicate]. }
    split; simpl; [by intros i ?%Hno|by intros i j ?%Hno|done|done|].
    intros k e _. split; [done|]. by intros i [[? _]%lookup_replicate|[? _]%lookup_replicate].
  - intros y z _ Hst Hy. by eapply gr_step_lock_inv.
Qed.

(** The caller waits for the lock with a first success; a goroutine that has the lock
    sends its response, which nobody reads any more. *)
Definition blocked (c : gconfig) : Prop :=
  ∃ resp i, g_main c = Locking resp ∧ g_go c !! i = Some Sending ∧ g_locked c = true ∧ i ∉ g_arrived c.

Lemma gr_progress n c :
  gr_inv resp_of n c → lock_inv c →
  (∃ r, g_main c = Returned r) ∨ blocked c ∨ ∃ c', gr_step resp_of c c'.
Proof.
  intros (Hlen & Hn & Ha & Hm) [H1 H2 H3 H4 H5].
  destruct c as [m gs d l a]; simpl in *. destruct m as [k e|resp|resp|r]; [right..|by left; eauto].
  - right. destruct (H5 k e eq_refl) as [-> Hg].
    destruct k as [|k]; [eexists; by apply step_main_end|]. destruct Hm as [Hk _].
    destruct l.
    { destruct (H4 eq_refl) as [[i [Hi|Hi]]|[? [=]]]; eexists; [by eapply step_send|by eapply step_unlock]. }
    destruct (decide (Forall (λ i, i ∈ a) (seq 0 n))) as [Hall|Hex].
    { exfalso. assert (Hsub : seq 0 n ⊆+ a) by (apply NoDup_submseteq; [apply NoDup_seq|]; by apply Forall_forall).
      apply submseteq_length in Hsub. rewrite length_seq in Hsub. lia. }
    apply not_Forall_Exists in Hex; [|apply _].
    apply Exists_exists in Hex as (i & Hi%elem_of_seq & Hni). simpl in Hni.
    destruct (lookup_lt_is_Some_2 gs i) as [g Hgi]; [lia|].
    destruct g; [eexists; by eapply step_response|eexists; by eapply step_lock|
      eexists; by eapply step_send|exfalso..]; apply Hni, Hg; auto.
  - destruct l; [|right; eexists; by apply step_main_lock].
    destruct (H4 eq_refl) as [[i [Hi|Hi]]|[? [=]]]; [left|right; eexists; by eapply step_unlock].
    exists resp, i. split_and!; [done..|]. intros Hin. destruct (Ha i Hin); simpl in *; congruence.
  - right. specialize (H3 resp eq_refl). subst l. eexists. by apply step_main_unlock.
Qed.

(** A caller that is blocked has read a success, and not the responses of all gateways. *)
Lemma blocked_can_block n c :
  gr_inv resp_of n c → blocked c → can_block n (resp_of <$> g_arrived c) = true.
Proof.
  intros (Hlen & Hn & Ha & Hm) (resp & i & Hmain & Hi & _ & Hni). rewrite Hmain in Hm.
  specialize (Hm []). rewrite app_nil_r in Hm.
  assert (length (g_arrived c) < n) as Hlt.
  { assert (i :: g_arrived c ⊆+ seq 0 n) as Hsub.
    { apply NoDup_submseteq; [by constructor|]. intros j Hj. apply elem_of_seq. rewrite <- Hlen.
      apply elem_of_cons in Hj as [->|Hj]; [apply lookup_lt_Some in Hi; lia|].
      destruct (Ha j Hj) as [Hj'|Hj']; apply lookup_lt_Some in Hj'; lia. }
    apply submseteq_length in Hsub. rewrite length_seq in Hsub. simpl in Hsub. lia. }
  assert (∀ rs e, results_read rs ≤ length rs ∧ (collect e rs = Ok (Some resp) → existsb is_ok rs = true)) as Hrs.
  { induction rs as [|[x|x] rs IH]; intros e; simpl; [split; [lia|by destruct e]|split; [lia|done]|].
    destruct (IH (Some (EJoin (option_list e ++ [x])))) as [? ?]. split; [lia|done]. }
  destruct (Hrs (resp_of <$> g_arrived c) None) as [Hread Hex]. unfold can_block. rewrite (Hex Hm). simpl.
  apply Nat.ltb_lt. rewrite length_fmap in Hread. lia.
Qed.

(** Every run ends, after at most [4 n + 3] steps: the caller has returned or is blocked. *)
Lemma gr_ends n c :
  gr_reachable resp_of n c →
  gr_measure c ≤ 4 * n + 3 ∧ (∀ c', gr_step resp_of c c' → gr_measure c' < gr_measure c) ∧
  ((∀ c', ¬ gr_step resp_of c c') → (∃ r, g_main c = Returned r) ∨ blocked c).
Proof.
  intros Hr. split_and!.
  - assert (H0 : gr_measure (g_init n) = 4 * n + 3).
    { unfold gr_measure, g_init. simpl. clear. induction n; simpl; lia. }
    rewrite <- H0. clear H0. induction Hr as [|x y z Hxy _ IH]; [done|].
    apply gr_step_measure in Hxy. lia.
  - intros c'. apply gr_step_measure.
  - intros Hstuck. destruct (gr_reachable_lock_inv n c Hr) as [Hi Hl].
    destruct (gr_progress n c Hi Hl) as [?|[?|[c' Hc]]]; [by left|by right|by destruct (Hstuck c')].
Qed.

(** C21: under every interleaving, when getResponse returns, its result is the response
    of the gateway that was the first to succeed in the order in which the goroutines
    sent, or, when all have sent and none succeeded, the joined error of all of them in
    that order.  Every run ends: within 4n+3 steps the caller has returned, or, with the
    response of a first success, is blocked forever by another goroutine that holds the
    lock it waits for. *)
Theorem getResponse_returns_first_success n c :
  gr_reachable resp_of n c →
  (∀ r, g_main c = Returned r →
     NoDup (g_arrived c) ∧ (∀ i, i ∈ g_arrived c → i < n) ∧
     ((∃ i resp, first_success resp_of (g_arrived c) i resp ∧ r = Ok (Some resp)) ∨
      (g_arrived c ≡ₚ seq 0 n ∧ (∀ i, i < n → is_ok (resp_of i) = false) ∧
       r = collect None (resp_of <$> g_arrived c)))) ∧
  gr_measure c ≤ 4 * n + 3 ∧ (∀ c', gr_step resp_of c c' → gr_measure c' < gr_measure c) ∧
  ((∀ c', ¬ gr_step resp_of c c') → (∃ r, g_main c = Returned r) ∨
     (blocked c ∧ can_block n (resp_of <$> g_arrived c) = true)).
Proof.
  intros Hr. destruct (gr_ends n c Hr) as (Hb & Hd & He). pose proof (gr_reachable_inv _ _ _ Hr) as Hi.
  split; [|split_and!; [done..|]].
  2: { intros [?|Hbl]%He; [by left|right]. split; [done|]. by apply blocked_can_block. }
  intros r Hm. destruct (gr_returned _ n c r Hr Hm) as [Hc Hcase]. pose proof Hi as (Hl & Hn & Ha & _).
  split_and!; [done| |].
  - intros i Hin. destruct (Ha i Hin) as [H|H]; apply lookup_lt_Some in H; lia.
  - destruct Hcase as [[resp ->]|Hp].
    { left. destruct (collect_success _ _ _ _ Hc) as [i Hi']. by exists i, resp. }
    destruct r as [[resp|]|err]; [left; destruct (collect_success _ _ _ _ Hc) as [i Hi']; by exists i, resp|right..].
    all: split_and!; [done| |done]; intros i Hin; eapply (collect_failure resp_of None (g_arrived c)); [done|done|];
      rewrite Hp; apply elem_of_seq; lia.
Qed.

(** When no gateway answers, the caller returns. *)
Theorem getResponse_all_fail_returns n c :
  (∀ i, is_ok (resp_of i) = false) → gr_reachable resp_of n c → (∀ c', ¬ gr_step resp_of c c') →
  g_arrived c ≡ₚ seq 0 n ∧ g_main c = Returned (collect None (resp_of <$> g_arrived c)).
Proof.
  intros Hf Hr Hstuck. destruct (gr_ends n c Hr) as (_ & _ & He).
  destruct (He Hstuck) as [[r Hm]|Hb].
  - destruct (gr_returned _ n c r Hr Hm) as [Hc [[resp ->]|Hp]]; [|by rewrite Hm, Hc].
    destruct (collect_success _ _ _ _ Hc) as (i & before & after & _ & Hi & _). specialize (Hf i). by rewrite Hi in Hf.
  - apply (blocked_can_block n) in Hb; [|by apply gr_reachable_inv]. unfold can_block in Hb.
    apply andb_true_iff in Hb as [(x & Hx & Hok)%existsb_exists _]. apply list_elem_of_In in Hx.
    apply list_elem_of_fmap in Hx as (i & -> & _). by rewrite Hf in Hok.
Qed.
End termination.

(** With two gateways that both answer, getResponse can block forever: the goroutine
    of the second one holds the lock while it sends on the unbuffered channel, which
    the caller does not read any more because it waits for the lock. *)
Theorem getResponse_deadlock resp_of r0 :
  resp_of 0 = Ok r0 →
  ∃ c, gr_reachable resp_of 2 c ∧ g_main c = Locking r0 ∧ ∀ c', ¬ gr_step resp_of c c'.
Proof.
  intros H0. exists (mkG (Locking r0) [Gone; Sending] false true [0]). split_and!; [|done|].
  - unfold gr_reachable, g_init. simpl.
    eapply rtc_l; [by apply (step_response _ _ _ _ _ _ 0)|simpl].
    eapply rtc_l; [by apply (step_response _ _ _ _ _ _ 1)|simpl].
    eapply rtc_l; [by apply (step_lock _ _ _ _ 0)|simpl].
    eapply rtc_l; [by apply (step_send _ _ _ _ _ _ _ 0)|simpl]. rewrite H0. simpl.
    eapply rtc_l; [by apply (step_unlock _ _ _ _ _ 0)|simpl].
    eapply rtc_l; [by apply (step_lock _ _ _ _ 1)|simpl]. apply rtc_refl.
  - intros c' Hst. inversion Hst; subst;
      match goal with H : _ !! ?i = Some _ |- _ => destruct i as [|[|]]; discriminate H end.
Qed.

(** ** Witnesses *)
Definition ex_resp : Response := mkResponse 200 ∅ "ok".
Definition ex_resp_of (i : nat) : result Response :=
  match i with 1 => Ok ex_resp | _ => Err (ENew "refused") end.

Lemma no_gateways_panics_witness :
  (@GetHeartbeat ref_tls unit (ref_http unit (DoErr (mkDoError (ENew "refused") false))) ref_encodings (λ _ cs, mkSchedule cs false)
     (@NewClient ref_tls (mkPeer (mkMeta "p" "ns" ∅) [] [] ∅) (@mkTLSConfig ref_tls 0 [] None NoClientCert None "")) tt).1
  = Some Panic.
Proof.
  apply (@no_gateways_panics ref_tls unit (ref_http unit (DoErr (mkDoError (ENew "refused") false)))
           ref_encodings (λ _ cs, mkSchedule cs false) (mkPeer (mkMeta "p" "ns" ∅) [] [] ∅)); reflexivity.
Defined.

Definition ex_run : gconfig := mkG (Returned (Ok (Some ex_resp))) [Gone; Gone] true false [0; 1].
Lemma getResponse_returns_first_success_witness :
  (∃ i resp, first_success ex_resp_of [0; 1] i resp ∧ Ok (Some ex_resp) = Ok (Some resp)) ∨
  ([0; 1] ≡ₚ seq 0 2 ∧ (∀ i, i < 2 → is_ok (ex_resp_of i) = false) ∧
   Ok (Some ex_resp) = collect None (ex_resp_of <$> [0; 1])).
Proof.
  refine (proj2 (proj2 (proj1 (getResponse_returns_first_success ex_resp_of 2 ex_run _) (Ok (Some ex_resp)) eq_refl))).
  unfold gr_reachable, g_init. simpl.
  eapply rtc_l; [by apply (step_response _ _ _ _ _ _ 0)|simpl].
  eapply rtc_l; [by apply (step_lock _ _ _ _ 0)|simpl].
  eapply rtc_l; [by apply (step_send _ _ _ _ _ _ _ 0)|simpl].
  eapply rtc_l; [by apply (step_unlock _ _ _ _ _ 0)|simpl].
  eapply rtc_l; [by apply (step_response _ _ _ _ _ _ 1)|simpl].
  eapply rtc_l; [by apply (step_lock _ _ _ _ 1)|simpl].
  eapply rtc_l; [by apply (step_send _ _ _ _ _ _ _ 1)|simpl].
  eapply rtc_l; [by apply (step_unlock _ _ _ _ _ 1)|simpl].
  eapply rtc_l; [apply step_main_lock|].
  eapply rtc_l; [apply step_main_unlock|]. apply rtc_refl.
Defined.

Lemma getResponse_deadlock_witness :
  ∃ c, gr_reachable (λ _, Ok ex_resp) 2 c ∧ g_main c = Locking ex_resp ∧
       ∀ c', ¬ gr_step (λ _, Ok ex_resp) c c'.
Proof. apply (getResponse_deadlock (λ _, Ok ex_resp) ex_resp). reflexivity. Defined.
