(* ===== verification/Certs.v ===== *)
(** * The watcher of the peer certificates

    [pkg/controlplane/peer/certs.go].  The consumers are the managers of the
    control plane; the world [W] holds their states, the files and the file
    watcher.  The event loop is a function of the events its [select] receives. *)
From S2P Require Export Net.
From stdpp Require Import options.

(** [fsnotify] and [path.Dir]. *)
Class FileWatcher (W : Type) := {
  NewFileWatcher : ST W (option error);
  watcher_Add : string → ST W (option error);
  path_Dir : string → string
}.

(** What the [select] of the loop can receive. *)
Inductive watch_event := EvStop | EvFile | EvError (err : error) | EvTick.

Section certs.
Context {TL : TLSLib} {W : Type} {FS : Files W} {FW : FileWatcher W}.

(** [SetPeerCertificates] of a [CertsConsumer]. *)
Definition CertsConsumer : Type := ParsedCertData → RawCertData → ST W (option error).

Record CertsWatcher := mkCertsWatcher {
  caPath : string; certPath : string; keyPath : string; consumers : list CertsConsumer
}.

Definition NewWatcher (ca cert key : string) : CertsWatcher := mkCertsWatcher ca cert key [].

Definition AddConsumer (w : CertsWatcher) (consumer : CertsConsumer) : CertsWatcher :=
  mkCertsWatcher (caPath w) (certPath w) (keyPath w) (consumers w ++ [consumer]).

Fixpoint update_consumers (cs : list CertsConsumer) (p : ParsedCertData) (r : RawCertData) : ST W (option error) :=
  match cs with
  | [] => mret None
  | consumer :: cs' =>
      err ← consumer p r;
      match err with
      | Some err => mret (Some (EWrap "error setting peer certificates" err))
      | None => update_consumers cs' p r
      end
  end.

Definition ReadCertsAndUpdateConsumers (w : CertsWatcher) : ST W (option error) :=
  data ← ParseFiles (caPath w) (certPath w) (keyPath w);
  match data with
  | Err err => mret (Some (EParse err))
  | Ok (parsedCertData, rawCertData) => update_consumers (consumers w) parsedCertData rawCertData
  end.

(** [errors.Is(err, &parseError{})]: the target is a pointer to a fresh struct, which
    no error of the chain is equal to, and [parseError] has no [Is] method. *)
Definition is_fresh_parseError : error → bool := error_is (λ _, false).

(** One round of the loop: [inl] when the loop returns, else the new [certsModified]. *)
Definition watch_step (w : CertsWatcher) (certsModified : bool) (ev : watch_event) :
    ST W (option error + bool) :=
  match ev with
  | EvStop => mret (inl None)
  | EvFile => mret (inr true)
  | EvError err => mret (inl (Some err))
  | EvTick =>
      if negb certsModified then mret (inr certsModified)
      else
        err ← ReadCertsAndUpdateConsumers w;
        match err with
        | None => mret (inr false)
        | Some err => if negb (is_fresh_parseError err) then mret (inl (Some err))
                      else mret (inr false)
        end
  end.

(** The loop over the events received so far; [None] while it is running. *)
Fixpoint watch_loop (w : CertsWatcher) (certsModified : bool) (evs : list watch_event) :
    ST W (option (option error)) :=
  match evs with
  | [] => mret None
  | ev :: evs' =>
      r ← watch_step w certsModified ev;
      match r with
      | inl err => mret (Some err)
      | inr certsModified => watch_loop w certsModified evs'
      end
  end.

Fixpoint watch_dirs (files : list string) (watchedDirs : gset string) : ST W (option error) :=
  match files with
  | [] => mret None
  | file :: files' =>
      let dir := path_Dir file in
      if decide (dir ∈ watchedDirs) then watch_dirs files' watchedDirs
      else
        err ← watcher_Add dir;
        match err with
        | Some err => mret (Some (EWrap ("cannot watch directory '" +:+ dir +:+ "'") err))
        | None => watch_dirs files' ({[dir]} ∪ watchedDirs)
        end
  end.

Definition watcher_Start (w : CertsWatcher) (evs : list watch_event) : ST W (option (option error)) :=
  err ← NewFileWatcher;
  match err with
  | Some err => mret (Some (Some (EWrap "cannot initialize file watcher" err)))
  | None =>
      err ← watch_dirs [caPath w; certPath w; keyPath w] ∅;
      match err with
      | Some err => mret (Some (Some err))
      | None => watch_loop w false evs
      end
  end.

(** ** Behaviour *)

Lemma is_fresh_parseError_false e : is_fresh_parseError e = false.
Proof.
  revert e. fix IH 1. intros [ | | m e | m e | es | e | | | | | ]; simpl; try reflexivity; try apply (IH e).
  induction es as [|e es IHes]; simpl; [reflexivity|].
  change (is_fresh_parseError e || is_fresh_parseError (EJoin es) = false).
  by rewrite IH, IHes.
Qed.

(** Every consumer is updated with the same pair, in order, up to the first error. *)
Fixpoint updated_all (cs : list CertsConsumer) (p : ParsedCertData) (r : RawCertData) (st st' : W) : Prop :=
  match cs with
  | [] => st = st'
  | c :: cs' => ∃ st1, c p r st = (None, st1) ∧ updated_all cs' p r st1 st'
  end.

Lemma update_consumers_ok cs p r st st' :
  update_consumers cs p r st = (None, st') ↔ updated_all cs p r st st'.
Proof.
  revert st. induction cs as [|c cs IH]; intros st; simpl.
  - split; [by intros [= ->]|by intros ->].
  - unfold mbind, ST_bind. destruct (c p r st) as [[e|] st1] eqn:Hc.
    + split; [done|]. intros (st2 & [=] & _).
    + rewrite IH. split; [by eauto|]. by intros (st2 & [= <-] & ?).
Qed.

(** The watcher keeps running over file events and ticks exactly as long as each
    update it makes succeeds, and a tick after a file event leaves every consumer with
    the data of one and the same parse of the three files. *)
Theorem watch_tick_updates w st certsModified st' :
  watch_step w certsModified EvTick st = (inr false, st') →
  (certsModified = false ∧ st' = st) ∨
  ∃ p r st1, ParseFiles (caPath w) (certPath w) (keyPath w) st = (Ok (p, r), st1) ∧
             updated_all (consumers w) p r st1 st'.
Proof.
  unfold watch_step, ReadCertsAndUpdateConsumers.
  destruct certsModified; simpl; [|by intros [= <-]; left]. intros H. right.
  unfold mbind, ST_bind in H.
  destruct (ParseFiles _ _ _ st) as [[[p r]|err] st1] eqn:Hp.
  - destruct (update_consumers (consumers w) p r st1) as [[err|] st2] eqn:Hu.
    + rewrite is_fresh_parseError_false in H. by injection H.
    + injection H as <-. exists p, r, st1. split; [done|]. by apply update_consumers_ok.
  - cbn in H. discriminate H.
Qed.

(** A file that can not be parsed when the watcher reacts to a change stops the
    watcher with that error: the test for a parse error compares with a fresh
    pointer and never holds. *)
Theorem parse_error_stops_watcher w st err st' evs :
  ParseFiles (caPath w) (certPath w) (keyPath w) st = (Err err, st') →
  watch_loop w true (EvTick :: evs) st = (Some (Some (EParse err)), st').
Proof.
  intros Hp. simpl. unfold mbind, ST_bind, ReadCertsAndUpdateConsumers. simpl.
  unfold mbind, ST_bind. rewrite Hp. simpl. done.
Qed.
End certs.

(** ** Witnesses *)
Definition ex_files (content : string) : Files nat := {| ReadFile _ n := (Ok content, S n) |}.
Definition ex_watcher : @CertsWatcher ref_tls nat :=
  @AddConsumer ref_tls nat (@NewWatcher ref_tls nat "ca" "cert" "key") (λ _ _ n, (None, n + 10)).
Lemma watch_tick_updates_witness :
  (true = false ∧ 13 = 0) ∨
  ∃ p r st1, @ParseFiles ref_tls nat (ex_files "pem") "ca" "cert" "key" 0 = (Ok (p, r), st1) ∧
             updated_all (consumers ex_watcher) p r st1 13.
Proof. apply (@watch_tick_updates ref_tls nat (ex_files "pem") ex_watcher 0 true 13). reflexivity. Defined.

Lemma parse_error_stops_watcher_witness :
  @watch_loop ref_tls nat (ex_files "") ex_watcher true [EvTick; EvFile] 0 =
    (Some (Some (EParse (EWrap "unable to parse certificate keypair" (ENew "no key")))), 3).
Proof. apply (@parse_error_stops_watcher ref_tls nat (ex_files "")). reflexivity. Defined.
