(* ===== verification/Jwks.v ===== *)
(** * The secret of the token signing key

    [ParseJWKSSecret], [generateJWKSecret] of [pkg/controlplane/control/manager.go]. *)
From S2P Require Export Net.
From stdpp Require Import options.

(** [v1.Secret]. *)
Record Secret := mkSecret { sec_Meta : ObjectMeta; sec_Data : gmap string string }.
#[export] Instance Secret_object : KubeObject Secret :=
  {| kKey s := om_key (sec_Meta s); kLabels s := om_Labels (sec_Meta s) |}.

Definition JWKSecretName : string := "jwk".
Definition JWKSecretKeyName : string := "key".

(** [crypto/rand.Read] of [n] bytes. *)
Class RandBytes (W : Type) := { rand_Read : nat → ST W (result string) }.

Section jwks.
Context {EN : Encodings}.

Definition ParseJWKSSecret (secret : Secret) : result string :=
  match sec_Data secret !! JWKSecretKeyName with
  | None => Err (ENew ("secret missing " +:+ JWKSecretKeyName +:+ " key"))
  | Some keyBase64 =>
      match base64_decode keyBase64 with
      | Err _ => Err (ENew "cannot base64 decode key")
      | Ok keyBytes => Ok keyBytes
      end
  end.

Definition generateJWKSecret {W} `{RandBytes W} : ST W (result string) :=
  keyBytes ← rand_Read 32;
  mret match keyBytes with
  | Err err => Err (EWrap "unable to generate JWK key" err)
  | Ok b => Ok (base64_encode b)
  end.

Definition newJWKSecret (namespace data : string) : Secret :=
  mkSecret (mkMeta JWKSecretName namespace ∅) {[ JWKSecretKeyName := data ]}.

(** A generated secret holds the random bytes. *)
Lemma parse_generated {W} `{RandBytes W} `{!EncodingsLaws} (w w' : W) b ns :
  rand_Read 32 w = (Ok b, w') →
  (∃ data, generateJWKSecret w = (Ok data, w') ∧ ParseJWKSSecret (newJWKSecret ns data) = Ok b).
Proof.
  intros Hr. exists (base64_encode b). unfold generateJWKSecret, mbind, ST_bind. rewrite Hr.
  split; [done|]. unfold ParseJWKSSecret. simpl. by rewrite lookup_singleton_eq, base64_round_trip.
Qed.
End jwks.
