(* ===== verification/Authz.v ===== *)
(** * The authorization manager

    [pkg/controlplane/authz/manager.go].  The manager keeps the peer clients, the
    pods by address, the policies, the load balancer and the signing key.  A call
    runs on the pair of the manager's state and the outside world [W] (API server,
    network, clock).  The handlers of one request are atomic on the manager's state. *)
From S2P Require Export Pdp LoadBalancer PeerClient Jwks.
From stdpp Require Import options.
From Stdlib Require Import ZArith Lia.

Definition jwtExpirySeconds : Z := 5.
Definition ClientNamespaceLabel : string := "client.clusterlink.net/namespace".
Definition ClientSALabel : string := "client.clusterlink.net/service-account".
Definition ClientLabelsPrefix : string := "client.clusterlink.net/labels.".
Definition ServiceNameLabel : string := "export.clusterlink.net/name".
Definition ServiceNamespaceLabel : string := "export.clusterlink.net/namespace".
Definition ServiceLabelsPrefix : string := "export.clusterlink.net/labels.".
Definition PeerNameLabel : string := "peer.clusterlink.net/name".
Definition PeerLabelsPrefix : string := "peer.clusterlink.net/labels.".

Record egressAuthorizationRequest := mkEgressReq { ereq_ImportName : NamespacedName; ereq_IP : string }.
Record egressAuthorizationResponse := mkEgressResp {
  eresp_Allowed : bool; RemotePeerCluster : string; eresp_AccessToken : string
}.
Record ingressAuthorizationRequest := mkIngressReq {
  ireq_ServiceName : NamespacedName; ireq_SrcAttributes : WorkloadAttrs
}.
Record ingressAuthorizationResponse := mkIngressResp {
  ServiceExists : bool; iresp_Allowed : bool; iresp_AccessToken : string
}.

Record podInfo := mkPodInfo {
  pi_name : string; pi_namespace : string; pi_serviceAccount : string; pi_labels : gmap string string
}.

(** The fields of [v1.Pod] the manager reads. *)
Record Pod := mkPod {
  pod_Meta : ObjectMeta; pod_ServiceAccountName : string;
  pod_PodIPs : list string; pod_HostIP : string
}.

(** ** github.com/lestrrat-go/jwx

    A token has an expiry time and private claims; a claim read back from a token
    is a string or another JSON value. *)
Inductive claim := ClaimString (s : string) | ClaimOther.
Record token := mkToken { tok_Expiration : Z; tok_Claims : gmap string claim }.

Class JWTLib := {
  JwkKey : Type;
  jwk_New : string → result JwkKey;
  jwt_Build : token → result token;
  jwt_Sign : JwkKey → token → result string;
  (** [ParseString] with the options [WithVerify] and [WithValidate], at a time. *)
  jwt_ParseString : JwkKey → Z → string → result token
}.

(** A signed token that has not expired is read back with the same key. *)
Class JWTLaws `{!JWTLib} := {
  jwt_Build_id t t' : jwt_Build t = Ok t' → t' = t;
  jwt_round_trip k now t s :
    jwt_Sign k t = Ok s → (now < tok_Expiration t)%Z → jwt_ParseString k now s = Ok t
}.

Section authz.
Context {LS : LabelSelectors} {NS : NamespacedNameString} {SC : StatusConditions}.
Context {TL : TLSLib} {EN : Encodings} {JW : JWTLib}.

Record Manager := mkManager {
  namespace : string;
  loadBalancer : LoadBalancer;
  connectivityPDP : PDP;
  peerTLS : option ParsedCertData;
  peerName : string;
  peerLabels : gmap string string;
  peerClient : gmap string Client;
  ipToPod : gmap string NamespacedName;
  podList : gmap NamespacedName podInfo;
  jwkKey : option JwkKey
}.

Definition NewManager (ns : string) (labels : gmap string string) : Manager :=
  mkManager ns NewLoadBalancer NewPDP None "" labels ∅ ∅ ∅ None.

Definition set_loadBalancer (lb : LoadBalancer) (m : Manager) : Manager :=
  mkManager (namespace m) lb (connectivityPDP m) (peerTLS m) (peerName m) (peerLabels m)
            (peerClient m) (ipToPod m) (podList m) (jwkKey m).
Definition set_connectivityPDP (pdp : PDP) (m : Manager) : Manager :=
  mkManager (namespace m) (loadBalancer m) pdp (peerTLS m) (peerName m) (peerLabels m)
            (peerClient m) (ipToPod m) (podList m) (jwkKey m).
Definition set_peerClient (pc : gmap string Client) (m : Manager) : Manager :=
  mkManager (namespace m) (loadBalancer m) (connectivityPDP m) (peerTLS m) (peerName m) (peerLabels m)
            pc (ipToPod m) (podList m) (jwkKey m).
Definition set_pods (ips : gmap string NamespacedName) (pods : gmap NamespacedName podInfo) (m : Manager) : Manager :=
  mkManager (namespace m) (loadBalancer m) (connectivityPDP m) (peerTLS m) (peerName m) (peerLabels m)
            (peerClient m) ips pods (jwkKey m).
Definition set_jwkKey (k : JwkKey) (m : Manager) : Manager :=
  mkManager (namespace m) (loadBalancer m) (connectivityPDP m) (peerTLS m) (peerName m) (peerLabels m)
            (peerClient m) (ipToPod m) (podList m) (Some k).

(** ** Peers, policies, pods, secrets *)

(** [m.peerTLS.ClientConfig] dereferences a nil pointer before the first certificates. *)
Definition AddPeer (pr : Peer) (m : Manager) : outcome Manager :=
  match peerTLS m with
  | None => Panic
  | Some tls =>
      let cl := NewClient pr (ClientConfig tls (peer_Name pr)) in
      Done (set_peerClient (<[peer_Name pr := cl]> (peerClient m)) m)
  end.

Definition DeletePeer (name : string) (m : Manager) : Manager :=
  set_peerClient (delete name (peerClient m)) m.

Definition AddAccessPolicy (policy : AccessPolicy) : ST Manager (option error) := λ m,
  let (err, pdp) := AddOrUpdatePolicy policy (connectivityPDP m) in (err, set_connectivityPDP pdp m).

Definition DeleteAccessPolicy (name : NamespacedName) (priv : bool) : ST Manager (option error) := λ m,
  let (err, pdp) := DeletePolicy name priv (connectivityPDP m) in (err, set_connectivityPDP pdp m).

Definition deletePod (podID : NamespacedName) (m : Manager) : Manager :=
  set_pods (filter (λ kp, ¬ (Name kp.2 = Name podID ∧ Namespace kp.2 = Namespace podID)) (ipToPod m))
           (delete podID (podList m)) m.

Fixpoint add_pod_ips (podID : NamespacedName) (hostIP : string) (ips : list string)
    (ipToPod : gmap string NamespacedName) : gmap string NamespacedName :=
  match ips with
  | [] => ipToPod
  | ip :: ips' =>
      add_pod_ips podID hostIP ips' (if decide (ip ≠ hostIP) then <[ip := podID]> ipToPod else ipToPod)
  end.

Definition addPod (pod : Pod) (m : Manager) : Manager :=
  let podID := om_key (pod_Meta pod) in
  let info := mkPodInfo (om_Name (pod_Meta pod)) (om_Namespace (pod_Meta pod))
                        (pod_ServiceAccountName pod) (om_Labels (pod_Meta pod)) in
  set_pods (add_pod_ips podID (pod_HostIP pod) (pod_PodIPs pod) (ipToPod m))
           (<[podID := info]> (podList m)) m.

Definition addSecret (secret : Secret) : ST Manager (option error) := λ m,
  if decide (om_Namespace (sec_Meta secret) ≠ namespace m ∨ om_Name (sec_Meta secret) ≠ JWKSecretName)
  then (None, m)
  else match ParseJWKSSecret secret with
  | Err err => (Some (EWrap "cannot parse JWKS secret" err), m)
  | Ok key =>
      match jwk_New key with
      | Err err => (Some (EWrap "unable to create JWK key" err), m)
      | Ok jwkKey => (None, set_jwkKey jwkKey m)
      end
  end.

Definition SetPeerCertificates (tls : ParsedCertData) : ST Manager (option error) := λ m,
  match DNSNames tls with
  | [] => (Some (ENew "expected peer certificate to contain at least one DNS name"), m)
  | name :: _ =>
      (None,
       mkManager (namespace m) (loadBalancer m) (connectivityPDP m) (Some tls) name (peerLabels m)
         (map_imap (λ pr cl, Some (NewClient (cl_pr cl) (ClientConfig tls pr))) (peerClient m))
         (ipToPod m) (podList m) (jwkKey m))
  end.

Definition IsReady (m : Manager) : bool := bool_decide (is_Some (jwkKey m)).

Definition getPodInfoByIP (ip : string) (m : Manager) : option podInfo :=
  match ipToPod m !! ip with
  | Some p => podList m !! p
  | None => None
  end.

(** ** Attributes *)

(** [for k, v := range labels { attrs[prefix+k] = v }]. *)
Definition prefix_labels (prefix : string) (labels attrs : gmap string string) : gmap string string :=
  kmap (String.append prefix) labels ∪ attrs.

Definition getSrcAttributes (req : egressAuthorizationRequest) (m : Manager) : WorkloadAttrs :=
  match getPodInfoByIP (ereq_IP req) m with
  | None => ∅
  | Some podInfo =>
      prefix_labels PeerLabelsPrefix (peerLabels m)
        (prefix_labels ClientLabelsPrefix (pi_labels podInfo)
          (<[ClientSALabel := pi_serviceAccount podInfo]>
            (<[ClientNamespaceLabel := pi_namespace podInfo]>
              {[ PeerNameLabel := peerName m ]})))
  end.

Definition getDstAttributes (svcName svcNS peerName : string) (svcLabels peerLabels : gmap string string) : WorkloadAttrs :=
  prefix_labels PeerLabelsPrefix peerLabels
    (prefix_labels ServiceLabelsPrefix svcLabels
      (<[PeerNameLabel := peerName]>
        (<[ServiceNamespaceLabel := svcNS]> {[ ServiceNameLabel := svcName ]}))).

(** ** Egress *)

Context {W : Type} {KI : KubeClient W Import} {KP : KubeClient W Peer} {KE : KubeClient W Export}.
Context {HL : HTTPLib W} {CL : Clock W}.
Context (arrival : W → list jsonClient → schedule).
(** The visiting orders of the policy maps at each decision. *)
Context (o_priv o_reg : TierOrder).
(** [rand.Intn(n)] of the load balancer, at each attempt. *)
Context (draw : nat → Z → Z).

(** One round of the loop: go on with a new [lbResult], or return; it does not end
    ([None]) when the request to the gateways of the peer blocks. *)
Inductive egress_next :=
  | Continue (lbResult : LoadBalancingResult)
  | Return (r : result egressAuthorizationResponse).

Definition dst_name (req : egressAuthorizationRequest) (s : ImportSource) : string * string :=
  (if decide (src_ExportName s = "") then Name (ereq_ImportName req) else src_ExportName s,
   if decide (src_ExportNamespace s = "") then Namespace (ereq_ImportName req) else src_ExportNamespace s).

(** The round after a source is selected and its peer is read. *)
Definition egress_try (req : egressAuthorizationRequest) (srcAttributes : WorkloadAttrs) (imp : Import)
    (lbResult : LoadBalancingResult) (importSource : ImportSource) (pr : Peer) :
    ST (Manager * W) (option (outcome egress_next)) :=
  if decide (IsStatusConditionTrue (peer_Conditions pr) PeerReachable = false ∧ IsDelayed lbResult = false)
  then mret (Some (Done (Continue (Delay lbResult))))
  else
    m ← gets fst;
    let dstAttributes := getDstAttributes (src_ExportName importSource) (src_ExportNamespace importSource)
                           (src_Peer importSource) (imp_Labels imp) (peer_Labels pr) in
    match Decide o_priv o_reg (connectivityPDP m) srcAttributes dstAttributes
            (Namespace (ereq_ImportName req)) with
    | Err err => mret (Some (Done (Return (Err (EWrap "error deciding on an egress connection" err)))))
    | Ok decision =>
        if decide (dd_Decision decision ≠ DecisionAllow) then mret (Some (Done (Continue lbResult)))
        else match peerClient m !! src_Peer importSource with
        | None => mret (Some (Done (Return (Err (ENew ("missing client for peer: " +:+ src_Peer importSource))))))
        | Some cl =>
            let (DstName, DstNamespace) := dst_name req importSource in
            accessToken ← outside (Authorize arrival cl (mkAuthzReq DstName DstNamespace srcAttributes));
            mret match accessToken with
            | None => None
            | Some Panic => Some Panic
            | Some (Done (Err _)) => Some (Done (Continue lbResult))
            | Some (Done (Ok accessToken)) =>
                Some (Done (Return (Ok (mkEgressResp true (RemotePeerClusterName (src_Peer importSource)) accessToken))))
            end
        end
    end.

Definition egress_round (i : nat) (req : egressAuthorizationRequest) (srcAttributes : WorkloadAttrs)
    (imp : Import) (lbResult : LoadBalancingResult) : ST (Manager * W) (option (outcome egress_next)) :=
  m ← gets fst;
  let '(err, (lb, lbResult)) := Select (draw i (sourceCount imp)) (loadBalancer m) lbResult in
  modify (λ s, (set_loadBalancer lb s.1, s.2));;
  match err with
  | Some err => mret (Some (Done (Return (Err (EWrap "cannot select import source" err)))))
  | None =>
      match Get lbResult with
      | Panic | Done None => mret (Some Panic)      (* importSource.Peer of a nil pointer *)
      | Done (Some importSource) =>
          pr ← outside (kGet (mkNN (namespace m) (src_Peer importSource)));
          match pr with
          | Err err => mret (Some (Done (Return (Err (EWrap ("cannot get peer '" +:+ src_Peer importSource +:+ "'") err)))))
          | Ok pr => egress_try req srcAttributes imp lbResult importSource pr
          end
      end
  end.

(** The loop, with [fuel] rounds; [None] when it does not return: a request to the gateways
    of a peer blocks, or the rounds are used up. *)
Fixpoint egress_loop (fuel i : nat) (req : egressAuthorizationRequest) (srcAttributes : WorkloadAttrs)
    (imp : Import) (lbResult : LoadBalancingResult) :
    ST (Manager * W) (option (outcome (result egressAuthorizationResponse))) :=
  match fuel with
  | O => mret None
  | S fuel' =>
      next ← egress_round i req srcAttributes imp lbResult;
      match next with
      | None => mret None
      | Some Panic => mret (Some Panic)
      | Some (Done (Return r)) => mret (Some (Done r))
      | Some (Done (Continue lbResult)) => egress_loop fuel' (S i) req srcAttributes imp lbResult
      end
  end.

Definition authorizeEgress (req : egressAuthorizationRequest) :
    ST (Manager * W) (option (outcome (result egressAuthorizationResponse))) :=
  m ← gets fst;
  let srcAttributes := getSrcAttributes req m in
  if decide (size srcAttributes = 0 ∧ DependsOnClientAttrs (connectivityPDP m) = true) then
    mret (Some (Done (Err (ENew "failed to extract client attributes, however, access policies depend on such attributes"))))
  else
    imp ← outside (kGet (T:=Import) (ereq_ImportName req));
    match imp with
    | Err err => mret (Some (Done (Err (EWrap ("cannot get import " +:+ nn_String (ereq_ImportName req)) err))))
    | Ok imp =>
        egress_loop (2 * length (sources imp) + 1) 0 req srcAttributes imp (NewLoadBalancingResult imp)
    end.

(** ** Ingress *)

Definition getPeerName (m : Manager) : string := peerName m.

Definition authorizeIngress (req : ingressAuthorizationRequest) :
    ST (Manager * W) (result ingressAuthorizationResponse) :=
  m ← gets fst;
  let resp := mkIngressResp false false "" in
  export ← outside (kGet (T:=Export) (mkNN (Namespace (ireq_ServiceName req)) (Name (ireq_ServiceName req))));
  match export with
  | Err err =>
      (* [export] is the zero value here, which has no conditions *)
      if IsNotFound err || negb (IsStatusConditionTrue [] ExportValid) then mret (Ok resp)
      else mret (Err (EWrap ("cannot get export " +:+ nn_String (ireq_ServiceName req)) err))
  | Ok export =>
      let resp := mkIngressResp true false "" in
      if decide (size (ireq_SrcAttributes req) = 0 ∧ DependsOnClientAttrs (connectivityPDP m) = true) then
        mret (Ok resp)
      else
        let dstAttributes := getDstAttributes (exp_Name export) (exp_Namespace export) (getPeerName m)
                               (exp_Labels export) (peerLabels m) in
        match Decide o_priv o_reg (connectivityPDP m) (ireq_SrcAttributes req) dstAttributes
                (Namespace (ireq_ServiceName req)) with
        | Err err => mret (Err (EWrap "error deciding on an ingress connection" err))
        | Ok decision =>
            if decide (dd_Decision decision ≠ DecisionAllow) then mret (Ok resp)
            else
              w ← gets snd;
              match jwt_Build (mkToken (clock_now w + jwtExpirySeconds)
                      (<[ExportNamespaceJWTClaim := ClaimString (Namespace (ireq_ServiceName req))]>
                        {[ ExportNameJWTClaim := ClaimString (Name (ireq_ServiceName req)) ]})) with
              | Err err => mret (Err (EWrap "unable to generate access token" err))
              | Ok token =>
                  match jwkKey m with
                  | None => mret (Err (ENew "jwk key undefined"))
                  | Some jwkKey =>
                      match jwt_Sign jwkKey token with
                      | Err err => mret (Err (EWrap "unable to sign access token" err))
                      | Ok signed => mret (Ok (mkIngressResp true true signed))
                      end
                  end
              end
        end
  end.

(** [claim.(string)] panics on a claim that is not a string. *)
Definition parseAuthorizationHeader (tok : string) : ST (Manager * W) (outcome (result string)) :=
  m ← gets fst;
  w ← gets snd;
  mret match jwkKey m with
  | None => Done (Err (ENew "jwk key undefined"))
  | Some jwkkey =>
      match jwt_ParseString jwkkey (clock_now w) tok with
      | Err err => Done (Err err)
      | Ok parsedToken =>
          match tok_Claims parsedToken !! ExportNameJWTClaim with
          | None => Done (Err (ENew ("token missing '" +:+ ExportNameJWTClaim +:+ "' claim")))
          | Some exportName =>
              match tok_Claims parsedToken !! ExportNamespaceJWTClaim with
              | None => Done (Err (ENew ("token missing '" +:+ ExportNamespaceJWTClaim +:+ "' claim")))
              | Some exportNamespace =>
                  match exportName, exportNamespace with
                  | ClaimString name, ClaimString ns => Done (Ok (ExportClusterName name ns))
                  | _, _ => Panic
                  end
              end
          end
      end
  end.
End authz.
