(* ===== verification/AuthzFacts.v ===== *)
(** * Authorization: termination, soundness and completeness

    The theorems on [Authz.v].  The egress loop ends because the load balancer
    offers each source at most twice; what it allows was allowed by the policies
    and by the remote peer; what an allowed source can serve is allowed. *)
From S2P Require Export Authz PdpFacts.
From stdpp Require Import options.
From Stdlib Require Import ZArith Lia.

(** ** The load balancer inside the loop *)

(** A request in the loop, with a bound on the selections that are left. *)
Inductive lb_state (imp : Import) : LoadBalancingResult → nat → Prop :=
  | lbs_first r tried :
      first_pass imp r tried → length (delayed r) ≤ length tried →
      Forall (λ i, i ∈ tried) (delayed r) →
      lb_state imp r (2 * (length (sources imp) - length tried) + length (delayed r))
  | lbs_second r :
      lbr_imp r = imp → exhausted r →
      Forall (λ i, 0 ≤ i < sourceCount imp)%Z (delayed r) →
      lb_state imp r (length (delayed r)).

Lemma Get_in_range r :
  (0 ≤ currentIndex r < sourceCount (lbr_imp r))%Z →
  ∃ s, Get r = Done (Some s) ∧ s ∈ sources (lbr_imp r).
Proof.
  intros Hr. unfold Get, sourceCount in *. rewrite !decide_False by lia.
  destruct (lookup_lt_is_Some_2 (sources (lbr_imp r)) (Z.to_nat (currentIndex r))) as [s Hs]; [lia|].
  rewrite Hs. exists s. split; [done|]. by eapply list_elem_of_lookup_2.
Qed.

Lemma Get_source r s : Get r = Done (Some s) → s ∈ sources (lbr_imp r).
Proof.
  unfold Get. repeat case_decide; try done.
  destruct (_ !! _) as [s'|] eqn:Hl; [|done]. intros [= ->]. by eapply list_elem_of_lookup_2.
Qed.

Lemma Select_imp d lb r : lbr_imp (Select d lb r).2.2 = lbr_imp r.
Proof.
  destruct (mark_failed_fields r) as (Hi & _ & _). unfold Select, selectRandom, selectRoundRobin, selectStatic.
  rewrite <- Hi. generalize (mark_failed r). clear. intros r.
  repeat case_decide; simpl; try done; [by destruct (delayed r)|by destruct (random_scan _ _ _ _)].
Qed.

Lemma first_pass_length imp r tried : first_pass imp r tried → length tried ≤ length (sources imp).
Proof.
  intros Hfp. assert (Hsub : tried ⊆+ seqZ 0 (sourceCount imp)).
  { apply NoDup_submseteq; [apply Hfp|]. intros i Hi. apply elem_of_seqZ.
    assert (H := fp_range _ _ _ Hfp). rewrite Forall_forall in H. specialize (H i Hi). simpl in H. lia. }
  apply submseteq_length in Hsub. rewrite length_seqZ in Hsub. unfold sourceCount in Hsub. lia.
Qed.

Lemma Delay_first_pass imp r tried : first_pass imp r tried → first_pass imp (Delay r) tried.
Proof. intros []. by split. Qed.

(** What a selection does to the bound: it fails, or it offers a source of the import
    and leaves fewer selections, also if the source is then put off. *)
Definition select_ok (imp : Import) (k : nat) (sel : option error * (LoadBalancer * LoadBalancingResult)) : Prop :=
  (∃ e lb' r', sel = (Some e, (lb', r'))) ∨
  ∃ lb' r' s k', sel = (None, (lb', r')) ∧ Get r' = Done (Some s) ∧ s ∈ sources imp ∧
    lb_state imp r' k' ∧ k' < k ∧ (IsDelayed r' = false → ∃ k'', lb_state imp (Delay r') k'' ∧ k'' < k).

Lemma Select_second imp d lb r :
  lbr_imp r = imp → exhausted r → Forall (λ i, 0 ≤ i < sourceCount imp)%Z (delayed r) →
  select_ok imp (length (delayed r)) (Select d lb r).
Proof.
  intros Hi [Hs Hd] Hr. destruct (mark_failed_fields r) as (Hmi & _ & Hmd).
  unfold Select. rewrite Hmi, decide_True, Hmd by done.
  destruct (delayed r) as [|i rest] eqn:Hdel; [left; by eauto|right].
  apply Forall_cons in Hr as [Hir Hr]. apply Forall_cons in Hd as [Hif Hd].
  assert (Hex := exhausted_next r i rest Hs Hif Hd). rewrite Hi in Hex.
  set (r' := mkLBR imp i (failed (mark_failed r)) rest) in *.
  destruct (Get_in_range r' Hir) as (s & Hg & Hin).
  assert (Hd' : IsDelayed r' = true) by (apply bool_decide_eq_true; simpl; congruence).
  exists lb, r', s, (length rest). rewrite Hi. simpl.
  split_and!; [done..|by apply (lbs_second imp r')|lia|congruence].
Qed.

Lemma Select_lb_state imp d lb r k :
  known_scheme imp → ((0 < sourceCount imp)%Z → (0 ≤ d < sourceCount imp)%Z) → lb_state imp r k →
  select_ok imp k (Select d lb r).
Proof.
  intros Hk Hd [r0 tried Hfp Hlen Hsub|]; [|by apply Select_second].
  assert (Htl := first_pass_length _ _ _ Hfp).
  destruct (decide (length tried = length (sources imp))) as [Heq|Hne].
  { rewrite Heq, Nat.sub_diag. apply Select_second; [apply Hfp| |].
    - apply (exhausted_after_first_pass imp _ tried); [done|unfold sourceCount; lia|done].
    - eapply Forall_impl; [exact Hsub|]. intros i Hi. assert (Hr := fp_range _ _ _ Hfp).
      rewrite Forall_forall in Hr. by apply Hr. }
  right. assert (Hlt : (Z.of_nat (length tried) < sourceCount imp)%Z) by (unfold sourceCount; lia).
  destruct (Select_first_pass imp (mkAttempt lb d false) r0 tried Hk) as (lb' & j & Hsel & Hfp'); try done.
  { apply Hd. lia. }
  simpl in Hsel. set (r' := set_currentIndex j (mark_failed r0)) in *.
  destruct (mark_failed_fields r0) as (_ & _ & Hmd).
  assert (Hdel : delayed r' = delayed r0) by done.
  assert (Hcur : currentIndex r' = j) by done.
  destruct (Get_in_range r') as (s & Hg & Hin).
  { rewrite (fp_imp _ _ _ Hfp'), Hcur. assert (Hr := fp_range _ _ _ Hfp'). by apply Forall_cons in Hr as [? _]. }
  rewrite (fp_imp _ _ _ Hfp') in Hin.
  assert (Hsub' : Forall (λ i, i ∈ j :: tried) (delayed r')).
  { rewrite Hdel. eapply Forall_impl; [exact Hsub|]. set_solver. }
  eexists lb', r', s, _. split_and!; [done..| | |].
  - apply (lbs_first imp r' (j :: tried)); [done|rewrite Hdel; simpl; lia|done].
  - rewrite Hdel. simpl. lia.
  - intros _. eexists. split.
    + apply (lbs_first imp (Delay r') (j :: tried)); [by apply Delay_first_pass| |].
      * unfold Delay; simpl. rewrite length_app, Hmd. simpl. lia.
      * change (delayed (Delay r')) with (delayed r' ++ [j]). apply Forall_app.
        split; [done|]. repeat constructor.
    + unfold Delay; simpl. rewrite length_app, Hmd. simpl. lia.
Qed.

(** A source that is still going to be offered: it was not tried, or it was put off. *)
Definition pending (imp : Import) (i0 : Z) (r : LoadBalancingResult) : Prop :=
  (∃ tried, first_pass imp r tried ∧ i0 ∉ tried) ∨ i0 ∈ delayed r.

Lemma pending_Delay imp i0 r : currentIndex r = i0 ∨ pending imp i0 r → pending imp i0 (Delay r).
Proof.
  intros [<-|[(tried & Hfp & Hn)|Hd]].
  - right. simpl. set_solver.
  - left. exists tried. split; [by apply Delay_first_pass|done].
  - right. simpl. set_solver.
Qed.

Lemma untried_length imp r tried i0 :
  first_pass imp r tried → (0 ≤ i0 < sourceCount imp)%Z → i0 ∉ tried → length tried < length (sources imp).
Proof.
  intros Hfp Hi Hn. assert (Hl := first_pass_length _ _ _ Hfp).
  destruct (decide (length tried = length (sources imp))) as [Heq|]; [exfalso|lia].
  assert (Hp : tried ≡ₚ seqZ 0 (sourceCount imp)).
  { apply permutation_range; [apply Hfp..|]. unfold sourceCount. lia. }
  apply Hn. rewrite Hp. apply elem_of_seqZ. lia.
Qed.

Lemma Select_untried imp i0 d lb r tried :
  known_scheme imp → (0 ≤ d < sourceCount imp)%Z → (0 ≤ i0 < sourceCount imp)%Z →
  first_pass imp r tried → i0 ∉ tried ∨ i0 ∈ delayed r → length tried < length (sources imp) →
  ∃ lb' r', Select d lb r = (None, (lb', r')) ∧ (currentIndex r' = i0 ∨ pending imp i0 r').
Proof.
  intros Hk Hd Hi Hfp Hp Hlt.
  destruct (Select_first_pass imp (mkAttempt lb d false) r tried Hk) as (lb' & j & Hsel & Hfp'); try done.
  { unfold sourceCount. lia. }
  eexists _, _. split; [exact Hsel|]. destruct (decide (j = i0)) as [->|Hne]; [by left|right].
  destruct Hp as [Hn|Hdel]; [left|right].
  - eexists. split; [exact Hfp'|]. set_solver.
  - simpl. by destruct (mark_failed_fields r) as (_ & _ & ->).
Qed.

Lemma Select_pending imp i0 d lb r k :
  known_scheme imp → (0 ≤ d < sourceCount imp)%Z → (0 ≤ i0 < sourceCount imp)%Z →
  lb_state imp r k → pending imp i0 r →
  ∃ lb' r', Select d lb r = (None, (lb', r')) ∧ (currentIndex r' = i0 ∨ pending imp i0 r').
Proof.
  intros Hk Hd Hi Hlb [(tried & Hfp & Hn)|Hdel].
  { eapply Select_untried; [done..|by left|by eapply untried_length]. }
  assert (Hsecond : exhausted r → lbr_imp r = imp →
    ∃ lb' r', Select d lb r = (None, (lb', r')) ∧ (currentIndex r' = i0 ∨ pending imp i0 r')).
  { intros [Hs _] Hir. destruct (mark_failed_fields r) as (Hmi & _ & Hmd).
    unfold Select. rewrite Hmi, decide_True, Hmd by done.
    destruct (delayed r) as [|i rest]; [set_solver|]. eexists _, _. split; [done|]. simpl.
    apply elem_of_cons in Hdel as [->|Hin]; [by left|right; by right]. }
  destruct Hlb as [r tried Hfp Hlen Hsub|r Hir Hex Hr]; [|by apply Hsecond].
  destruct (decide (length tried = length (sources imp))) as [Heq|Hne].
  - apply Hsecond; [|apply Hfp].
    apply (exhausted_after_first_pass imp _ tried); [done|unfold sourceCount; lia|done].
  - assert (Hl := first_pass_length _ _ _ Hfp). eapply Select_untried; [done..|by right|lia].
Qed.

(** ** The egress loop *)
Section egress.
Context {LS : LabelSelectors} {NS : NamespacedNameString} {SC : StatusConditions}.
Context {TL : TLSLib} {EN : Encodings} {JW : JWTLib}.
Context {W : Type} {KI : KubeClient W Import} {KP : KubeClient W Peer} {KE : KubeClient W Export}.
Context {HL : HTTPLib W} {CL : Clock W}.
Context (arrival : W → list jsonClient → schedule) (o_priv o_reg : TierOrder) (draw : nat → Z → Z).

(** [rand.Intn(n)] is in [0, n). *)
Definition intn : Prop := ∀ i n, (0 < n)%Z → (0 ≤ draw i n < n)%Z.

Abbreviation try_ := (egress_try arrival o_priv o_reg).
Abbreviation round_ := (egress_round arrival o_priv o_reg draw).
Abbreviation loop_ := (egress_loop arrival o_priv o_reg draw).

(** What stands behind an allowed response: a source of the import whose peer was
    read, which the policies allow, and whose peer gave the token. *)
Definition egress_allowed (req : egressAuthorizationRequest) (src : WorkloadAttrs) (imp : Import) (m : Manager)
    (resp : egressAuthorizationResponse) : Prop :=
  ∃ s pr cl d w1 w2,
    s ∈ sources imp ∧
    (kGet (mkNN (namespace m) (src_Peer s)) w1).1 = Ok pr ∧
    Decide o_priv o_reg (connectivityPDP m) src
      (getDstAttributes (src_ExportName s) (src_ExportNamespace s) (src_Peer s) (imp_Labels imp) (peer_Labels pr))
      (Namespace (ereq_ImportName req)) = Ok d ∧
    dd_Decision d = DecisionAllow ∧
    peerClient m !! src_Peer s = Some cl ∧
    (Authorize arrival cl (mkAuthzReq (dst_name req s).1 (dst_name req s).2 src) w2).1 =
      Some (Done (Ok (eresp_AccessToken resp))) ∧
    resp = mkEgressResp true (RemotePeerClusterName (src_Peer s)) (eresp_AccessToken resp).

(** The request to the gateways of the peer of a source blocks, and leaves the outside as
    [w']; the peer has several gateways. *)
Definition gateways_block (req : egressAuthorizationRequest) (src : WorkloadAttrs) (imp : Import) (m : Manager) (w' : W) : Prop :=
  ∃ s cl w, s ∈ sources imp ∧ peerClient m !! src_Peer s = Some cl ∧ 1 < length (cl_clients cl) ∧
    sch_blocks (arrival w (cl_clients cl)) = true ∧
    Authorize arrival cl (mkAuthzReq (dst_name req s).1 (dst_name req s).2 src) w = (None, w').

(** The manager after a request: only the round-robin counters changed. *)
Definition same_manager (m m' : Manager) : Prop := ∃ lb, m' = set_loadBalancer lb m.

Lemma same_manager_refl m : same_manager m m.
Proof. exists (loadBalancer m). by destruct m. Qed.
Lemma same_manager_trans m1 m2 m3 : same_manager m1 m2 → same_manager m2 m3 → same_manager m1 m3.
Proof. intros [lb ->] [lb' ->]. by exists lb'. Qed.
Lemma egress_allowed_same req src imp m m' resp :
  same_manager m m' → egress_allowed req src imp m' resp → egress_allowed req src imp m resp.
Proof. by intros [lb ->]. Qed.
Lemma gateways_block_same req src imp m m' w : same_manager m m' → gateways_block req src imp m' w → gateways_block req src imp m w.
Proof. by intros [lb ->]. Qed.

Lemma egress_try_spec req src imp r s pr st :
  s ∈ sources imp → (∃ w, (kGet (mkNN (namespace st.1) (src_Peer s)) w).1 = Ok pr) →
  (try_ req src imp r s pr st).2.1 = st.1 ∧
  match (try_ req src imp r s pr st).1 with
  | Some (Done (Continue r')) => r' = r ∨ (r' = Delay r ∧ IsDelayed r = false)
  | Some (Done (Return (Ok resp))) => egress_allowed req src imp st.1 resp
  | None => gateways_block req src imp st.1 (try_ req src imp r s pr st).2.2
  | _ => True
  end.
Proof.
  intros Hs [w Hw]. unfold egress_try. case_decide as Hd; [split; [done|right; by destruct Hd]|].
  unfold_st. destruct (Decide _ _ _ _ _ _) as [d|e] eqn:Hdec; [|done].
  case_decide as Hal; [by split; [|left]|].
  destruct (peerClient st.1 !! src_Peer s) as [cl|] eqn:Hcl; [|done].
  destruct (dst_name req s) as [n ns] eqn:Hn.
  destruct (Authorize arrival cl _ st.2) as [o w'] eqn:Ho. simpl. split; [done|].
  destruct o as [[[tok|e]|]|]; [|by left|done|].
  - exists s, pr, cl, d, w, st.2. rewrite Hn. simpl. rewrite Ho. split_and!; done.
  - assert ((Authorize arrival cl (mkAuthzReq n ns src) st.2).1 = None) as Hb by by rewrite Ho.
    destruct (Authorize_blocks _ _ _ _ Hb) as [Hlen Hsch]. exists s, cl, st.2. rewrite Hn. by split_and!.
Qed.

Lemma egress_round_spec i req src imp r st :
  lbr_imp r = imp →
  same_manager st.1 (round_ i req src imp r st).2.1 ∧
  match (round_ i req src imp r st).1 with
  | Some (Done (Return (Ok resp))) => egress_allowed req src imp st.1 resp
  | Some (Done (Continue r')) => lbr_imp r' = imp
  | None => gateways_block req src imp st.1 (round_ i req src imp r st).2.2
  | _ => True
  end.
Proof.
  intros Hi. unfold egress_round. unfold_st.
  destruct (Select _ _ r) as [err [lb r']] eqn:Hsel.
  assert (Hsame : same_manager st.1 (set_loadBalancer lb st.1)) by by exists lb.
  destruct err as [err|]; [done|].
  assert (Hi' : lbr_imp r' = imp) by (by apply (f_equal (λ x, lbr_imp x.2.2)) in Hsel; rewrite Select_imp in Hsel; subst).
  destruct (Get r') as [[s|]|] eqn:Hget; [|done..].
  apply Get_source in Hget. rewrite Hi' in Hget.
  cbn [fst snd set_loadBalancer namespace]. destruct (kGet _ _) as [[pr|e] w'] eqn:Hk; [|done].
  destruct (egress_try_spec req src imp r' s pr (set_loadBalancer lb st.1, w')) as [H1 H2].
  { done. } { exists st.2. simpl. by rewrite Hk. }
  destruct (try_ _ _ _ _ _ _ _) as [o st']. simpl in *. rewrite H1. split; [done|].
  destruct o as [[[r''|[resp|]]|]|]; try done. by destruct H2 as [->|[-> _]].
Qed.

Lemma egress_loop_sound fuel i req src imp r st resp :
  lbr_imp r = imp →
  (loop_ fuel i req src imp r st).1 = Some (Done (Ok resp)) → egress_allowed req src imp st.1 resp.
Proof.
  revert i r st. induction fuel as [|fuel IH]; intros i r st Hi; [done|].
  cbn [egress_loop]. unfold_st.
  destruct (egress_round_spec i req src imp r st Hi) as [Hsame Hout].
  destruct (round_ i req src imp r st) as [[[[r'|res]|]|] st']; simpl in *; [|by intros [= ->]|done..].
  intros Hl. eapply egress_allowed_same; [done|]. by eapply IH.
Qed.

(** A round that goes on leaves fewer selections. *)
Lemma egress_round_bound i req src imp r k st r' :
  intn → known_scheme imp → lbr_imp r = imp → lb_state imp r k →
  (round_ i req src imp r st).1 = Some (Done (Continue r')) → ∃ k', lb_state imp r' k' ∧ k' < k.
Proof.
  intros Hin Hk Hi Hlb. unfold egress_round. unfold_st.
  destruct (Select_lb_state imp (draw i (sourceCount imp)) (loadBalancer st.1) r k Hk) as
    [(e & lb' & r1 & ->)|(lb' & r1 & s & k1 & -> & Hget & Hs & Hst & Hlt & Hdel)]; [by apply Hin|done|done|].
  rewrite Hget. cbn [fst snd set_loadBalancer namespace]. destruct (kGet _ _) as [[pr|e] w'] eqn:Hkg; [|done].
  intros Htry.
  destruct (egress_try_spec req src imp r1 s pr (set_loadBalancer lb' st.1, w')) as [_ H2].
  { done. } { exists st.2. simpl. by rewrite Hkg. }
  rewrite Htry in H2. destruct H2 as [->|[-> Hnd]]; [by exists k1|]. by apply Hdel.
Qed.

Lemma egress_loop_terminates fuel i req src imp r k st :
  intn → known_scheme imp → lbr_imp r = imp → lb_state imp r k → k < fuel →
  is_Some (loop_ fuel i req src imp r st).1 ∨ gateways_block req src imp st.1 (loop_ fuel i req src imp r st).2.2.
Proof.
  intros Hin Hk. revert i r k st. induction fuel as [|fuel IH]; intros i r k st Hi Hst Hlt; [lia|].
  cbn [egress_loop]. unfold_st.
  assert (Hb := λ r', egress_round_bound i req src imp r k st r' Hin Hk Hi Hst).
  destruct (egress_round_spec i req src imp r st Hi) as [Hsame Hout].
  destruct (round_ i req src imp r st) as [[[[r'|res]|]|] st']; simpl in *; [|left; by eexists..|by right].
  destruct (Hb r' eq_refl) as (k' & Hk' & Hlt').
  destruct (IH (S i) r' k' st') as [?|Hbl]; [done..|lia|by left|right]. by eapply gateways_block_same.
Qed.

(** An import with a scheme that is none of the three is selected without an index. *)
Lemma egress_round_unknown i req src imp st :
  ¬ known_scheme imp → sources imp ≠ [] →
  (round_ i req src imp (NewLoadBalancingResult imp) st).1 = Some Panic.
Proof.
  intros Hk Hs. unfold egress_round. unfold_st. unfold Select. simpl.
  assert (Hn : (0 < sourceCount imp)%Z) by (unfold sourceCount; destruct (sources imp); [done|simpl; lia]).
  rewrite decide_False by (change (0%Z ≠ sourceCount imp); lia).
  unfold known_scheme in Hk. rewrite !decide_False by set_solver. done.
Qed.

Lemma egress_round_no_sources i req src imp st :
  sources imp = [] → is_Some (loop_ 1 i req src imp (NewLoadBalancingResult imp) st).1.
Proof.
  intros Hs. cbn [egress_loop]. unfold egress_round. unfold_st. unfold Select. simpl.
  rewrite decide_True; [by eexists|]. unfold sourceCount. rewrite Hs. done.
Qed.

Lemma lb_state_new imp : lb_state imp (NewLoadBalancingResult imp) (2 * length (sources imp)).
Proof.
  assert (H := lbs_first imp _ [] (first_pass_new imp)). simpl in H.
  replace (2 * length (sources imp)) with (length (sources imp) - 0 + (length (sources imp) - 0 + 0) + 0) by lia.
  apply H; [lia|constructor].
Qed.

(** C35: the loop of authorizeEgress ends within twice the number of sources of the import
    and one more round, whatever the scheme, the answers of the API server and of the
    peers, and the random numbers; the request does not return only when its last call, to
    the peer of a source of the import with several gateways, blocks in getResponse. *)
Theorem authorizeEgress_terminates req st :
  intn → is_Some (authorizeEgress arrival o_priv o_reg draw req st).1 ∨
         ∃ imp w', kGet (ereq_ImportName req) st.2 = (Ok imp, w') ∧
           gateways_block req (getSrcAttributes req st.1) imp st.1 (authorizeEgress arrival o_priv o_reg draw req st).2.2.
Proof.
  intros Hin. unfold authorizeEgress. unfold_st. case_decide; [left; by eexists|].
  destruct (kGet _ _) as [[imp|e] w']; [|left; by eexists].
  destruct (decide (known_scheme imp)) as [Hk|Hk].
  { destruct (egress_loop_terminates (2 * length (sources imp) + 1) 0 req (getSrcAttributes req st.1) imp
      (NewLoadBalancingResult imp) (2 * length (sources imp)) (st.1, w')) as [?|?];
      [done..|apply lb_state_new|lia|by left|right; by exists imp, w']. }
  left. destruct (decide (sources imp = [])) as [Hs|Hs].
  { rewrite Hs. simpl. by apply egress_round_no_sources. }
  rewrite Nat.add_1_r. cbn [egress_loop]. unfold_st.
  assert (Hr := egress_round_unknown 0 req (getSrcAttributes req st.1) imp (st.1, w') Hk Hs).
  destruct (round_ _ _ _ _ _ _) as [o st']. simpl in Hr. rewrite Hr. by eexists.
Qed.

Lemma authorizeEgress_allowed req st resp st' :
  authorizeEgress arrival o_priv o_reg draw req st = (Some (Done (Ok resp)), st') →
  (∃ imp w', kGet (ereq_ImportName req) st.2 = (Ok imp, w') ∧
             egress_allowed req (getSrcAttributes req st.1) imp st.1 resp) ∧
  (getSrcAttributes req st.1 ≠ ∅ ∨ DependsOnClientAttrs (connectivityPDP st.1) = false).
Proof.
  unfold authorizeEgress. unfold_st. case_decide as Hdep; [done|].
  destruct (kGet _ _) as [[imp|e] w'] eqn:Hk; [|done]. intros Hl. split.
  - exists imp, w'. split; [done|].
    apply (f_equal fst) in Hl. by apply egress_loop_sound in Hl.
  - destruct (DependsOnClientAttrs _); [left|by right]. intros He. apply Hdep. split; [|done].
    rewrite He. apply map_size_empty.
Qed.

(** C3: an egress connection is allowed only to a source of the import that was
    read, which the policy decision point allows with the attributes of the client
    and of the source, and whose peer, a known one, returned the access token; the
    connection is routed to that peer. *)
Theorem authorizeEgress_sound req st resp st' :
  authorizeEgress arrival o_priv o_reg draw req st = (Some (Done (Ok resp)), st') →
  (∃ imp w', kGet (ereq_ImportName req) st.2 = (Ok imp, w') ∧
             egress_allowed req (getSrcAttributes req st.1) imp st.1 resp) ∧
  (getSrcAttributes req st.1 ≠ ∅ ∨ DependsOnClientAttrs (connectivityPDP st.1) = false).
Proof. apply authorizeEgress_allowed. Qed.

(** An import whose load-balancing scheme is none of the three known ones, which
    the resource schema allows, makes the request panic. *)
Theorem unknown_scheme_panics req st imp w' :
  getSrcAttributes req st.1 ≠ ∅ →
  kGet (ereq_ImportName req) st.2 = (Ok imp, w') → sources imp ≠ [] → ¬ known_scheme imp →
  (authorizeEgress arrival o_priv o_reg draw req st).1 = Some Panic.
Proof.
  intros Hsrc Hk Hs Hu. unfold authorizeEgress. unfold_st. rewrite decide_False.
  2: { intros [Hz _]. by apply map_size_empty_iff in Hz. }
  rewrite Hk, Nat.add_1_r. cbn [egress_loop]. unfold_st.
  assert (Hr := egress_round_unknown 0 req (getSrcAttributes req st.1) imp (st.1, w') Hu Hs).
  destruct (round_ _ _ _ _ _ _) as [o st']. simpl in Hr. by rewrite Hr.
Qed.

(** ** Completeness *)

(** What holds of the outside world while the request runs. *)
Context (I : W → Prop).

(** An environment in which a request for [imp] meets no failure besides peers that
    refuse: the peers can be read, and each has a client with a gateway, whose requests
    return (they do not block in [getResponse], as they may with several gateways). *)
Definition egress_env (imp : Import) (m : Manager) : Prop :=
  (∀ s w, s ∈ sources imp → I w →
     ∃ pr, (kGet (T:=Peer) (mkNN (namespace m) (src_Peer s)) w).1 = Ok pr ∧
           I (kGet (T:=Peer) (mkNN (namespace m) (src_Peer s)) w).2) ∧
  pdp_wf (connectivityPDP m) ∧
  (∀ s, s ∈ sources imp → ∃ cl, peerClient m !! src_Peer s = Some cl ∧
     ∀ areq w, I w → (∃ r, (Authorize arrival cl areq w).1 = Some (Done r)) ∧ I (Authorize arrival cl areq w).2).

(** A source that the policies allow and whose peer gives a token whenever asked. *)
Definition egress_source_ok (req : egressAuthorizationRequest) (src : WorkloadAttrs) (imp : Import)
    (m : Manager) (s : ImportSource) : Prop :=
  (∀ w pr d, I w → (kGet (mkNN (namespace m) (src_Peer s)) w).1 = Ok pr →
     Decide o_priv o_reg (connectivityPDP m) src
       (getDstAttributes (src_ExportName s) (src_ExportNamespace s) (src_Peer s) (imp_Labels imp) (peer_Labels pr))
       (Namespace (ereq_ImportName req)) = Ok d → dd_Decision d = DecisionAllow) ∧
  (∀ cl w, I w → peerClient m !! src_Peer s = Some cl →
     ∃ tok, (Authorize arrival cl (mkAuthzReq (dst_name req s).1 (dst_name req s).2 src) w).1 = Some (Done (Ok tok))).

Lemma egress_env_same imp m m' : same_manager m m' → egress_env imp m → egress_env imp m'.
Proof. by intros [lb ->]. Qed.
Lemma egress_source_ok_same req src imp m m' s :
  same_manager m m' → egress_source_ok req src imp m s → egress_source_ok req src imp m' s.
Proof. by intros [lb ->]. Qed.

(** With such an environment a round tries the source it selects: it returns a
    token, puts the source off, or goes on when the source is not a good one. *)
Lemma egress_try_env req src imp r s pr st :
  egress_env imp st.1 → s ∈ sources imp → I st.2 →
  (∃ w, I w ∧ (kGet (mkNN (namespace st.1) (src_Peer s)) w).1 = Ok pr) →
  I (try_ req src imp r s pr st).2.2 ∧
  ((∃ resp, (try_ req src imp r s pr st).1 = Some (Done (Return (Ok resp)))) ∨
   (try_ req src imp r s pr st).1 = Some (Done (Continue (Delay r))) ∨
   ((try_ req src imp r s pr st).1 = Some (Done (Continue r)) ∧ ¬ egress_source_ok req src imp st.1 s)).
Proof.
  intros (_ & Hwf & Hcl) Hs HI (w & Hw & Hpr). unfold egress_try. case_decide as Hd; [split; [done|right; by left]|].
  unfold_st. destruct (Decide_wf o_priv o_reg (connectivityPDP st.1) src
    (getDstAttributes (src_ExportName s) (src_ExportNamespace s) (src_Peer s) (imp_Labels imp) (peer_Labels pr))
    (Namespace (ereq_ImportName req)) Hwf) as (d & Hdec & _).
  rewrite Hdec. case_decide as Hal.
  { split; [done|]. right; right. split; [done|]. intros [Hok _]. by apply Hal, (Hok w pr). }
  destruct (Hcl s Hs) as (cl & Hc & Hnp). rewrite Hc.
  destruct (dst_name req s) as [n ns] eqn:Hn. destruct (Hnp (mkAuthzReq n ns src) st.2 HI) as [[res Hp] HI'].
  destruct (Authorize arrival cl _ st.2) as [o w'] eqn:Ho. simpl in *. subst o. split; [done|].
  destruct res as [tok|e]; [left; by eexists|].
  right; right. split; [done|]. intros [_ Hok]. destruct (Hok cl st.2 HI Hc) as [tok Htok].
  rewrite Hn in Htok. simpl in Htok. rewrite Ho in Htok. done.
Qed.

Lemma Get_index r s : Get r = Done (Some s) → sources (lbr_imp r) !! Z.to_nat (currentIndex r) = Some s.
Proof. unfold Get. repeat case_decide; try done. destruct (_ !! _) as [s'|]; [|done]. by intros [= ->]. Qed.

Lemma egress_loop_complete fuel i req src imp r k st i0 s0 :
  intn → known_scheme imp → lbr_imp r = imp → lb_state imp r k → k < fuel →
  egress_env imp st.1 → I st.2 → sources imp !! Z.to_nat i0 = Some s0 → (0 ≤ i0)%Z →
  egress_source_ok req src imp st.1 s0 → pending imp i0 r →
  ∃ resp, (loop_ fuel i req src imp r st).1 = Some (Done (Ok resp)).
Proof.
  intros Hin Hk. revert i r k st. induction fuel as [|fuel IH]; intros i r k st Hi Hst Hlt Henv HI Hs0 Hi0 Hok Hp; [lia|].
  assert (Hr0 : (0 ≤ i0 < sourceCount imp)%Z).
  { apply lookup_lt_Some in Hs0. unfold sourceCount. lia. }
  assert (Hb := λ r', egress_round_bound i req src imp r k st r' Hin Hk Hi Hst).
  destruct (egress_round_spec i req src imp r st Hi) as [Hsame Himp].
  assert (Hgo : (∃ resp, (round_ i req src imp r st).1 = Some (Done (Return (Ok resp)))) ∨
    ∃ r', (round_ i req src imp r st).1 = Some (Done (Continue r')) ∧ pending imp i0 r' ∧ I (round_ i req src imp r st).2.2).
  { unfold egress_round. unfold_st.
    destruct (Select_lb_state imp (draw i (sourceCount imp)) (loadBalancer st.1) r k Hk) as
      [(e & lb1 & r1 & Hsel)|(lb1 & r1 & s & k1 & Hsel & Hget & Hs & _)]; [by apply Hin|done|..];
    destruct (Select_pending imp i0 (draw i (sourceCount imp)) (loadBalancer st.1) r k Hk) as (lb' & r' & Hsel' & Hp');
      try done; try (apply Hin; lia); [congruence|].
    rewrite Hsel in Hsel'. injection Hsel' as <- <-. rewrite Hsel. cbn beta iota. rewrite Hget.
    cbn [fst snd set_loadBalancer namespace]. destruct Henv as (Hpeers & Hrest).
    destruct (Hpeers s st.2 Hs HI) as (pr & Hpr & HI'). destruct (kGet _ _) as [res w'] eqn:Hkg. simpl in Hpr, HI'. subst res.
    destruct (egress_try_env req src imp r1 s pr (set_loadBalancer lb1 st.1, w')) as [HI2 [Hret|[Hdelay|[Hcont Hbad]]]].
    { by split. } { done. } { done. } { exists st.2. simpl. by rewrite Hkg. }
    - by left.
    - right. eexists. split_and!; [exact Hdelay|by apply pending_Delay|done].
    - right. eexists. split_and!; [exact Hcont| |done]. destruct Hp' as [Hc|]; [exfalso|done].
      apply Get_index in Hget. assert (Hri := Select_imp (draw i (sourceCount imp)) (loadBalancer st.1) r).
      rewrite Hsel in Hri. simpl in Hri. rewrite Hri, Hi, Hc, Hs0 in Hget. injection Hget as ->.
      by apply Hbad. }
  cbn [egress_loop]. unfold_st. destruct (round_ i req src imp r st) as [o st']. simpl in *.
  destruct Hgo as [[resp ->]|(r' & -> & Hp' & HI')]; [by exists resp|].
  destruct (Hb r' eq_refl) as (k' & Hk' & Hlt'). apply (IH (S i) r' k' st'); try done; [lia| |].
  - by eapply egress_env_same.
  - by eapply egress_source_ok_same.
Qed.

(** C22: when one source of the import is allowed by the policies and its peer gives a
    token, the request is allowed, whichever sources are tried before it, whether or
    not its peer is marked reachable, and for every scheme and random numbers, as long
    as the peers of the import can be read and have clients whose requests return: with
    several gateways a request may block ([getResponse_deadlock]). *)
Theorem authorizeEgress_complete req st imp w' s0 :
  intn → known_scheme imp → kGet (ereq_ImportName req) st.2 = (Ok imp, w') → I w' →
  getSrcAttributes req st.1 ≠ ∅ →
  egress_env imp st.1 → s0 ∈ sources imp → egress_source_ok req (getSrcAttributes req st.1) imp st.1 s0 →
  ∃ resp, (authorizeEgress arrival o_priv o_reg draw req st).1 = Some (Done (Ok resp)).
Proof.
  intros Hin Hk Hget HI Hsrc Henv [n0 Hn0]%list_elem_of_lookup_1 Hok. unfold authorizeEgress. unfold_st.
  rewrite decide_False, Hget.
  2: { intros [Hz _]. by apply map_size_empty_iff in Hz. }
  apply (egress_loop_complete _ _ _ _ _ _ (2 * length (sources imp)) _ (Z.of_nat n0) s0); try done.
  - apply lb_state_new.
  - lia.
  - by rewrite Nat2Z.id.
  - lia.
  - left. exists []. split; [apply first_pass_new|set_solver].
Qed.
End egress.

(** ** Attributes *)

#[export] Instance append_inj p : Inj (=) (=) (String.append p).
Proof. intros s1 s2. apply str_app_inj_l. Qed.

Lemma prefix_labels_label prefix labels attrs k v :
  labels !! k = Some v → prefix_labels prefix labels attrs !! (prefix +:+ k) = Some v.
Proof.
  intros Hk. unfold prefix_labels. apply lookup_union_Some_l. by rewrite lookup_kmap by apply _.
Qed.

Lemma prefix_labels_other prefix labels attrs key :
  (∀ k, key ≠ prefix +:+ k) → prefix_labels prefix labels attrs !! key = attrs !! key.
Proof.
  intros Hk. unfold prefix_labels. apply lookup_union_r. apply lookup_kmap_None; [apply _|].
  intros k Heq. by destruct (Hk k).
Qed.

Ltac not_prefixed := let k := fresh in intros k; vm_compute; discriminate.

Section ingress.
Context {LS : LabelSelectors} {NS : NamespacedNameString} {SC : StatusConditions}.
Context {TL : TLSLib} {EN : Encodings} {JW : JWTLib}.
Context {W : Type} {KI : KubeClient W Import} {KP : KubeClient W Peer} {KE : KubeClient W Export}.
Context {HL : HTTPLib W} {CL : Clock W} (o_priv o_reg : TierOrder).

(** C29: the attributes of a client cannot be forged with labels: its namespace, its
    service account and the name of its peer are those of its pod and of the local
    peer, whatever labels the pod and the peer carry, and each label is under its
    own prefix. *)
Theorem getSrcAttributes_faithful req (m : Manager) info :
  getPodInfoByIP (ereq_IP req) m = Some info →
  let attrs := getSrcAttributes req m in
  attrs !! ClientNamespaceLabel = Some (pi_namespace info) ∧
  attrs !! ClientSALabel = Some (pi_serviceAccount info) ∧
  attrs !! PeerNameLabel = Some (peerName m) ∧
  (∀ k v, pi_labels info !! k = Some v → attrs !! (ClientLabelsPrefix +:+ k) = Some v) ∧
  (∀ k v, peerLabels m !! k = Some v → attrs !! (PeerLabelsPrefix +:+ k) = Some v).
Proof.
  intros Hi. unfold getSrcAttributes. rewrite Hi. simpl. split_and!.
  - do 2 (rewrite prefix_labels_other; [|not_prefixed]). done.
  - do 2 (rewrite prefix_labels_other; [|not_prefixed]). done.
  - do 2 (rewrite prefix_labels_other; [|not_prefixed]). done.
  - intros k v Hk. rewrite prefix_labels_other by not_prefixed. by apply prefix_labels_label.
  - intros k v Hk. by apply prefix_labels_label.
Qed.

(** ** Pods *)

(** Every known address belongs to a known pod. *)
Definition pods_inv (m : Manager) : Prop :=
  ∀ ip p, ipToPod m !! ip = Some p → ∃ info, podList m !! p = Some info ∧ pi_name info = Name p ∧
                                            pi_namespace info = Namespace p.

Lemma add_pod_ips_spec p host ips ipm ip q :
  add_pod_ips p host ips ipm !! ip = Some q ↔
  (q = p ∧ ip ∈ ips ∧ ip ≠ host) ∨ (¬ (ip ∈ ips ∧ ip ≠ host) ∧ ipm !! ip = Some q).
Proof.
  revert ipm. induction ips as [|ip' ips IH]; intros ipm; simpl.
  - set_solver.
  - rewrite IH. case_decide as Hh.
    + rewrite lookup_insert_Some, elem_of_cons. destruct (decide (ip' = ip)) as [->|Hne].
      * destruct (decide (ip ∈ ips)); naive_solver.
      * naive_solver.
    + destruct (decide (ip' = host)) as [->|]; [|done]. rewrite elem_of_cons. naive_solver.
Qed.

Lemma addPod_inv pod m : pods_inv m → pods_inv (addPod pod m).
Proof.
  intros Hinv ip p. unfold addPod. simpl. rewrite add_pod_ips_spec.
  assert (Hnew : ∃ info, <[om_key (pod_Meta pod) := mkPodInfo (om_Name (pod_Meta pod)) (om_Namespace (pod_Meta pod))
      (pod_ServiceAccountName pod) (om_Labels (pod_Meta pod))]> (podList m) !! om_key (pod_Meta pod) = Some info ∧
      pi_name info = Name (om_key (pod_Meta pod)) ∧ pi_namespace info = Namespace (om_key (pod_Meta pod))).
  { eexists. by rewrite lookup_insert_eq. }
  intros [(-> & _)|(_ & Hip)]; [done|].
  destruct (decide (p = om_key (pod_Meta pod))) as [->|Hne]; [done|].
  rewrite lookup_insert_ne by done. by apply (Hinv ip).
Qed.

Lemma deletePod_inv p m : pods_inv m → pods_inv (deletePod p m).
Proof.
  intros Hinv ip q. unfold deletePod. simpl. rewrite map_lookup_filter_Some. intros [Hip Hne].
  rewrite lookup_delete_ne; [by apply (Hinv ip)|]. intros ->. by apply Hne.
Qed.

Inductive pod_event := PodAdded (p : Pod) | PodDeleted (n : NamespacedName).
Definition run_pod_event (m : Manager) (e : pod_event) : Manager :=
  match e with PodAdded p => addPod p m | PodDeleted n => deletePod n m end.

(** After any sequence of pod events, the pod found for an address is a pod that
    was added and not deleted since, with its current labels and service account; the
    addresses of a deleted pod are unknown, and a host-network address never maps to
    the pod that shares it. *)
Theorem pod_lookup events ns labels :
  let m := foldl run_pod_event (NewManager ns labels) events in
  pods_inv m ∧
  (∀ ip info, getPodInfoByIP ip m = Some info →
     podList m !! mkNN (pi_namespace info) (pi_name info) = Some info) ∧
  (∀ p ip, ip ∈ pod_PodIPs p → ip ≠ pod_HostIP p →
     getPodInfoByIP ip (addPod p m) =
       Some (mkPodInfo (om_Name (pod_Meta p)) (om_Namespace (pod_Meta p)) (pod_ServiceAccountName p)
               (om_Labels (pod_Meta p)))) ∧
  (∀ p, getPodInfoByIP (pod_HostIP p) (addPod p m) ≠ None → ipToPod m !! pod_HostIP p ≠ None) ∧
  (∀ n ip info, getPodInfoByIP ip (deletePod n m) = Some info → mkNN (pi_namespace info) (pi_name info) ≠ n).
Proof.
  intros m. assert (Hinv : pods_inv m).
  { assert (H0 : pods_inv (NewManager ns labels)) by (intros ip p; simpl; by rewrite lookup_empty).
    unfold m. clear m. revert H0. generalize (NewManager ns labels). induction events as [|e events IH]; intros m Hm; [done|].
    apply IH. destruct e; simpl; [by apply addPod_inv|by apply deletePod_inv]. }
  assert (Hget : ∀ m ip info, pods_inv m → getPodInfoByIP ip m = Some info →
            podList m !! mkNN (pi_namespace info) (pi_name info) = Some info).
  { intros m' ip info Hm'. unfold getPodInfoByIP. destruct (ipToPod m' !! ip) as [q|] eqn:Hq; [|done].
    intros Hi. destruct (Hm' ip q Hq) as (info' & Hi' & Hn & Hns). rewrite Hi in Hi'. injection Hi' as <-.
    rewrite Hn, Hns. by destruct q. }
  split_and!; [done|intros; by eapply Hget| | |].
  - intros p ip Hip Hh. unfold getPodInfoByIP, addPod. simpl.
    assert (Hl : add_pod_ips (om_key (pod_Meta p)) (pod_HostIP p) (pod_PodIPs p) (ipToPod m) !! ip
                 = Some (om_key (pod_Meta p))) by (apply add_pod_ips_spec; by left).
    rewrite Hl. apply lookup_insert_eq.
  - intros p. unfold getPodInfoByIP, addPod. simpl.
    destruct (add_pod_ips _ _ _ _ !! _) as [q|] eqn:Hq; [|done]. intros _.
    apply add_pod_ips_spec in Hq as [(_ & _ & ?)|[_ Hq]]; [done|]. by rewrite Hq.
  - intros n ip info Hi%Hget; [|by apply deletePod_inv]. simpl in Hi.
    by apply lookup_delete_Some in Hi as [? _].
Qed.

(** ** Ingress *)

(** What a granted request went through: the export, the decision, and the signature. *)
Lemma authorizeIngress_allowed `{!JWTLaws} req st resp st' :
  authorizeIngress o_priv o_reg req st = (Ok resp, st') → iresp_Allowed resp = true →
  (∃ export w', kGet (T:=Export) (mkNN (Namespace (ireq_ServiceName req)) (Name (ireq_ServiceName req))) st.2 = (Ok export, w') ∧
     st' = (st.1, w') ∧
     ∃ d, Decide o_priv o_reg (connectivityPDP st.1) (ireq_SrcAttributes req)
            (getDstAttributes (exp_Name export) (exp_Namespace export) (peerName st.1) (exp_Labels export) (peerLabels st.1))
            (Namespace (ireq_ServiceName req)) = Ok d ∧ dd_Decision d = DecisionAllow) ∧
  ServiceExists resp = true ∧
  ∃ key, jwkKey st.1 = Some key ∧
    jwt_Sign key (mkToken (clock_now st'.2 + jwtExpirySeconds)
      (<[ExportNamespaceJWTClaim := ClaimString (Namespace (ireq_ServiceName req))]>
        {[ ExportNameJWTClaim := ClaimString (Name (ireq_ServiceName req)) ]})) = Ok (iresp_AccessToken resp).
Proof.
  unfold authorizeIngress, getPeerName. unfold_st.
  destruct (kGet _ _) as [[export|e] w'] eqn:Hk.
  2: { destruct (_ || _); [|done]. by intros [= <- <-]. }
  case_decide; [by intros [= <- <-]|]. destruct (Decide _ _ _ _ _ _) as [d|e] eqn:Hd; [|done].
  destruct (decide (dd_Decision d ≠ DecisionAllow)) as [|Hal]; [by intros [= <- <-]|].
  destruct (jwt_Build _) as [tok|e] eqn:Hb; [|done]. apply jwt_Build_id in Hb. subst tok.
  destruct (jwkKey st.1) as [key|] eqn:Hkey; [|done].
  destruct (jwt_Sign _ _) as [signed|e] eqn:Hs; [|done].
  intros [= <- <-] _. split_and!; [|done|].
  - exists export, w'. do 2 (split; [done|]). exists d. split; [done|].
    destruct (decide (dd_Decision d = DecisionAllow)); done.
  - by exists key.
Qed.

(** A token that was signed for an export names it, until it expires. *)
Lemma signed_token_accepted `{!JWTLaws} key t name ns tok st :
  jwt_Sign key (mkToken t (<[ExportNamespaceJWTClaim := ClaimString ns]> {[ ExportNameJWTClaim := ClaimString name ]})) = Ok tok →
  jwkKey st.1 = Some key → (clock_now st.2 < t)%Z →
  (parseAuthorizationHeader tok st).1 = Done (Ok (ExportClusterName name ns)).
Proof.
  intros Hs Hk Hc. unfold parseAuthorizationHeader. unfold_st. rewrite Hk, (jwt_round_trip _ _ _ _ Hs) by done. done.
Qed.

(** C19: a request for an exported service is granted only when the export exists and
    the policies allow the remote client; the token it gets, presented before it
    expires to a control plane with the same key, is accepted for exactly that
    service. *)
Theorem ingress_token_round_trip `{!JWTLaws} req st resp st' :
  authorizeIngress o_priv o_reg req st = (Ok resp, st') → iresp_Allowed resp = true →
  (∃ export w', kGet (T:=Export) (mkNN (Namespace (ireq_ServiceName req)) (Name (ireq_ServiceName req))) st.2 = (Ok export, w') ∧
     ∃ d, Decide o_priv o_reg (connectivityPDP st.1) (ireq_SrcAttributes req)
            (getDstAttributes (exp_Name export) (exp_Namespace export) (peerName st.1) (exp_Labels export) (peerLabels st.1))
            (Namespace (ireq_ServiceName req)) = Ok d ∧ dd_Decision d = DecisionAllow) ∧
  ServiceExists resp = true ∧
  ∀ st2, jwkKey st2.1 = jwkKey st.1 → (clock_now st2.2 < clock_now st'.2 + jwtExpirySeconds)%Z →
    (parseAuthorizationHeader (iresp_AccessToken resp) st2).1 =
      Done (Ok (ExportClusterName (Name (ireq_ServiceName req)) (Namespace (ireq_ServiceName req)))).
Proof.
  intros Ha Hal. destruct (authorizeIngress_allowed _ _ _ _ Ha Hal) as ((export & w' & Hk & _ & Hd) & He & key & Hkey & Hs).
  split_and!; [by exists export, w'|done|]. intros st2 Hk2 Hc.
  apply (signed_token_accepted key _ _ _ _ _ Hs); [congruence|done].
Qed.

(** The validity condition of an export is never taken into account: exports that
    differ in their conditions get the same answer, and one that cannot be read, for
    any reason, is answered as one that does not exist. *)
Theorem ingress_ignores_ExportValid `{!StatusConditionsLaws} req m w :
  let key := mkNN (Namespace (ireq_ServiceName req)) (Name (ireq_ServiceName req)) in
  (∀ e1 w', kGet (T:=Export) key w = (Ok e1, w') → ∀ w2 e2,
     kGet (T:=Export) key w2 = (Ok e2, w') → exp_Meta e1 = exp_Meta e2 →
     authorizeIngress o_priv o_reg req (m, w) = authorizeIngress o_priv o_reg req (m, w2)) ∧
  (∀ err w', kGet (T:=Export) key w = (Err err, w') →
     authorizeIngress o_priv o_reg req (m, w) = (Ok (mkIngressResp false false ""), (m, w'))).
Proof.
  intros key. split.
  - intros e1 w' H1 w2 e2 H2 Hm. unfold authorizeIngress. unfold_st. fold key. rewrite H1, H2.
    unfold exp_Name, exp_Namespace, exp_Labels. by rewrite Hm.
  - intros err w' H1. unfold authorizeIngress. unfold_st. fold key. rewrite H1.
    destruct (IsStatusConditionTrue [] ExportValid) eqn:Hc; [|by rewrite orb_true_r].
    apply IsTrue_spec in Hc as (c & Hf & _). apply Find_type in Hf as [Hin _]. set_solver.
Qed.
End ingress.

(** ** Witnesses: a small cluster *)
#[local] Existing Instance ref_labelselectors.
#[local] Existing Instance ref_nn_string.
#[local] Existing Instance ref_encodings.
#[local] Existing Instance ref_tls.

(** Tokens written in clear. *)
Definition claim_code (c : claim) : string + unit :=
  match c with ClaimString s => inl s | ClaimOther => inr tt end.
Definition code_claim (c : string + unit) : claim :=
  match c with inl s => ClaimString s | inr _ => ClaimOther end.
#[export] Instance claim_eq_dec : EqDecision claim.
Proof. solve_decision. Defined.
#[export] Program Instance claim_countable : Countable claim := inj_countable' claim_code code_claim _.
Next Obligation. by intros []. Qed.

Definition ref_jwt : JWTLib := {|
  JwkKey := string; jwk_New := Ok; jwt_Build := Ok;
  jwt_Sign k t := Ok (ref_marshal (k, tok_Expiration t, tok_Claims t));
  jwt_ParseString k now s :=
    match ref_unmarshal s : result (string * Z * gmap string claim) with
    | Ok (k', e, cs) => if decide (k' = k ∧ now < e)%Z then Ok (mkToken e cs) else Err (ENew "invalid token")
    | Err e => Err e
    end
|}.
#[local] Existing Instance ref_jwt.
#[export] Instance ref_jwt_laws : JWTLaws.
Proof.
  split; simpl.
  - by intros t t' [= ->].
  - intros k now t s [= <-] Hn. rewrite ref_unmarshal_marshal, decide_True by done. by destruct t.
Qed.

Record cluster := mkCluster {
  cl_imports : gmap NamespacedName Import; cl_peers : gmap NamespacedName Peer;
  cl_exports : gmap NamespacedName Export; cl_now : Z
}.
Definition cluster_get {T} (f : cluster → gmap NamespacedName T) : KubeClient cluster T := {|
  kGet k c := (match f c !! k with Some x => Ok x | None => Err (EApi ReasonNotFound "not found") end, c);
  kList _ c := (Ok [], c); kCreate x c := (Ok x, c); kUpdate x c := (Ok x, c);
  kStatusUpdate x c := (Ok x, c); kDelete _ c := (None, c)
|}.
#[local] Instance cl_ki : KubeClient cluster Import := cluster_get cl_imports.
#[local] Instance cl_kp : KubeClient cluster Peer := cluster_get cl_peers.
#[local] Instance cl_ke : KubeClient cluster Export := cluster_get cl_exports.
#[local] Instance cl_clock : Clock cluster := {| clock_now := cl_now |}.
#[local] Instance cl_http : HTTPLib cluster :=
  ref_http cluster (DoOk (mkHTTPResponse 200 {[ "X-Access-Token" := "secret" ]} (Ok ""))).

Definition ex_meta (name : string) : ObjectMeta := mkMeta name "default" ∅.
Definition ex_egress_import (scheme : string) : Import :=
  mkImport (ex_meta "web") (mkImportSpec 80 0 [mkSource "peer1" "http" "default"; mkSource "peer2" "http" "default"] scheme) [].
Definition ex_peer (name : string) (status : string) : Peer :=
  mkPeer (mkMeta name "clusterlink-system" ∅) [mkEndpoint "10.0.0.1" 443]
    [mkCondition PeerReachable status "" "" 0 0] ∅.
Definition ex_everything : WorkloadSetOrSelector := mkWSS [] (Some (mkSelector ∅ [])).
Definition ex_only_peer (p : string) : WorkloadSetOrSelector :=
  mkWSS [] (Some (mkSelector {[ PeerNameLabel := p ]} [])).
Definition ex_policies : list AccessPolicy :=
  [mkAccessPolicy (mkNN "default" "allow-peer2") false
     (mkSpec AccessPolicyActionAllow [ex_everything] [ex_only_peer "peer2"])].
Definition ex_tls : ParsedCertData := mkParsedCertData (TL:=ref_tls) "local" "ca" ["local"].
Definition ex_peers : list Peer := [ex_peer "peer1" "True"; ex_peer "peer2" "False"].

Definition ex_cluster (scheme : string) : cluster :=
  mkCluster {[ mkNN "default" "web" := ex_egress_import scheme ]}
    (list_to_map ((λ p, (mkNN "clusterlink-system" (peer_Name p), p)) <$> ex_peers))
    {[ mkNN "default" "http" := mkExport (ex_meta "http") "" 80 [] ]} 100.

Definition ex_pod : Pod := mkPod (mkMeta "client" "default" {[ "app" := "curl" ]}) "sa" ["10.1.0.7"] "192.168.0.1".
Definition add_all {A} (f : A → Manager → Manager) (l : list A) (m : Manager) : Manager :=
  foldl (λ m a, f a m) m l.
Definition ex_manager : Manager :=
  let m0 := (SetPeerCertificates ex_tls (NewManager "clusterlink-system" {[ "site" := "a" ]})).2 in
  let m1 := add_all (λ p m, match AddPeer p m with Done m' => m' | Panic => m end) ex_peers m0 in
  let m2 := add_all (λ p m, (AddAccessPolicy p m).2) ex_policies m1 in
  set_jwkKey "key" (addPod ex_pod m2).

Definition ex_order : TierOrder := mkTierOrder std_ranger rev_ranger.
Definition ex_arrival (_ : cluster) (cs : list jsonClient) : schedule := mkSchedule cs false.
Definition ex_draw (_ : nat) (_ : Z) : Z := 0%Z.
Definition ex_req : egressAuthorizationRequest := mkEgressReq (mkNN "default" "web") "10.1.0.7".

Example ex_egress :
  (authorizeEgress ex_arrival ex_order ex_order ex_draw ex_req (ex_manager, ex_cluster "round-robin")).1 =
    Some (Done (Ok (mkEgressResp true "remote-peer-peer2" "secret"))).
Proof. vm_compute. reflexivity. Qed.

Lemma ex_intn : intn ex_draw.
Proof. intros i n Hn. unfold ex_draw. lia. Qed.

Lemma authorizeEgress_terminates_witness :
  is_Some (authorizeEgress ex_arrival ex_order ex_order ex_draw ex_req (ex_manager, ex_cluster "static")).1.
Proof.
  destruct (authorizeEgress_terminates ex_arrival ex_order ex_order ex_draw ex_req (ex_manager, ex_cluster "static") ex_intn)
    as [H|(imp & w & _ & s & cl & w1 & _ & _ & _ & Hb & _)]; [exact H|discriminate Hb].
Defined.

Lemma authorizeEgress_sound_witness :
  let st := (ex_manager, ex_cluster "round-robin") in
  (∃ imp w', kGet (ereq_ImportName ex_req) st.2 = (Ok imp, w') ∧
     egress_allowed ex_arrival ex_order ex_order ex_req (getSrcAttributes ex_req st.1) imp st.1
       (mkEgressResp true "remote-peer-peer2" "secret")) ∧
  (getSrcAttributes ex_req st.1 ≠ ∅ ∨ DependsOnClientAttrs (connectivityPDP st.1) = false).
Proof.
  eapply (authorizeEgress_sound ex_arrival ex_order ex_order ex_draw ex_req (ex_manager, ex_cluster "round-robin")).
  vm_compute. reflexivity.
Defined.

Lemma unknown_scheme_panics_witness :
  (authorizeEgress ex_arrival ex_order ex_order ex_draw ex_req (ex_manager, ex_cluster "least-conn")).1 = Some Panic.
Proof.
  apply (unknown_scheme_panics ex_arrival ex_order ex_order ex_draw ex_req (ex_manager, ex_cluster "least-conn")
           (ex_egress_import "least-conn") (ex_cluster "least-conn")).
  - apply (bool_decide_unpack (_ ≠ _)). vm_compute. exact I.
  - vm_compute. reflexivity.
  - discriminate.
  - apply (bool_decide_unpack (¬ known_scheme (ex_egress_import "least-conn"))). vm_compute. exact I.
Defined.

Lemma ex_manager_wf : pdp_wf (connectivityPDP ex_manager).
Proof.
  change (connectivityPDP ex_manager) with (run_ops (OpAdd <$> ex_policies) NewPDP). apply run_ops_wf.
Qed.

Definition ex_inv (scheme : string) (c : cluster) : Prop := c = ex_cluster scheme.

Lemma ex_authorize cl areq c :
  length (cl_clients cl) = 1 →
  Authorize ex_arrival cl areq c = (Some (Done (Ok "secret")), c).
Proof.
  unfold Authorize, getResponse. simpl. destruct (cl_clients cl) as [|c1 [|]]; [done| |done]. reflexivity.
Qed.

Lemma ex_env : egress_env ex_arrival (ex_inv "random") (ex_egress_import "random") ex_manager.
Proof.
  assert (Hs : ∀ s, s ∈ sources (ex_egress_import "random") → src_Peer s = "peer1" ∨ src_Peer s = "peer2").
  { intros s. unfold sources. simpl. rewrite !elem_of_cons. set_solver. }
  split_and!; [|apply ex_manager_wf|].
  - intros s w [-> | ->]%Hs ->; eexists; split; reflexivity.
  - intros s [-> | ->]%Hs; (eexists; split; [reflexivity|]); intros areq w ->;
      (rewrite ex_authorize; [split; [by eexists|done]|done]).
Qed.

Lemma authorizeEgress_complete_witness :
  ∃ resp, (authorizeEgress ex_arrival ex_order ex_order ex_draw ex_req (ex_manager, ex_cluster "random")).1 =
    Some (Done (Ok resp)).
Proof.
  apply (authorizeEgress_complete ex_arrival ex_order ex_order ex_draw (ex_inv "random") ex_req
    (ex_manager, ex_cluster "random") (ex_egress_import "random") (ex_cluster "random")
    (mkSource "peer2" "http" "default")).
  - apply ex_intn.
  - apply (bool_decide_unpack (known_scheme (ex_egress_import "random"))). vm_compute. exact I.
  - reflexivity.
  - reflexivity.
  - apply (bool_decide_unpack (_ ≠ _)). vm_compute. exact I.
  - apply ex_env.
  - unfold sources. simpl. set_solver.
  - split.
    + intros w pr d ->. intros [= <-]. vm_compute. by intros [= <-].
    + intros cl w ->. intros [= <-]. exists "secret". reflexivity.
Defined.

Lemma getSrcAttributes_faithful_witness :
  let attrs := getSrcAttributes ex_req ex_manager in
  let info := mkPodInfo "client" "default" "sa" {[ "app" := "curl" ]} in
  attrs !! ClientNamespaceLabel = Some "default" ∧ attrs !! ClientSALabel = Some "sa" ∧
  attrs !! PeerNameLabel = Some "local" ∧
  (∀ k v, pi_labels info !! k = Some v → attrs !! (ClientLabelsPrefix +:+ k) = Some v) ∧
  (∀ k v, peerLabels ex_manager !! k = Some v → attrs !! (PeerLabelsPrefix +:+ k) = Some v).
Proof.
  apply (getSrcAttributes_faithful ex_req ex_manager (mkPodInfo "client" "default" "sa" {[ "app" := "curl" ]})).
  vm_compute. reflexivity.
Defined.

Definition ex_ingress_req : ingressAuthorizationRequest :=
  mkIngressReq (mkNN "default" "http") {[ PeerNameLabel := "peer9" ]}.
Definition ex_ingress_manager : Manager :=
  (AddAccessPolicy (mkAccessPolicy (mkNN "default" "all") false
     (mkSpec AccessPolicyActionAllow [ex_everything] [ex_everything])) ex_manager).2.

Lemma ingress_token_round_trip_witness :
  ∃ resp st', authorizeIngress ex_order ex_order ex_ingress_req (ex_ingress_manager, ex_cluster "") = (Ok resp, st') ∧
  ServiceExists resp = true ∧
  (parseAuthorizationHeader (iresp_AccessToken resp) (ex_ingress_manager, ex_cluster "")).1 =
    Done (Ok "export-default/http").
Proof.
  assert (Hr : ∃ resp st', authorizeIngress ex_order ex_order ex_ingress_req (ex_ingress_manager, ex_cluster "") = (Ok resp, st')
            ∧ iresp_Allowed resp = true ∧ clock_now st'.2 = 100%Z).
  { eexists _, _. split; [vm_compute; reflexivity|]. split; reflexivity. }
  destruct Hr as (resp & st' & Hr & Ha & Hc). exists resp, st'. split; [exact Hr|].
  destruct (ingress_token_round_trip ex_order ex_order ex_ingress_req (ex_ingress_manager, ex_cluster "") resp st' Hr Ha)
    as (_ & He & Ht).
  split; [exact He|]. apply Ht; [reflexivity|]. rewrite Hc. vm_compute. reflexivity.
Defined.

Lemma ingress_ignores_ExportValid_witness :
  authorizeIngress ex_order ex_order (mkIngressReq (mkNN "default" "none") ∅) (ex_ingress_manager, ex_cluster "") =
    (Ok (mkIngressResp false false ""), (ex_ingress_manager, ex_cluster "")).
Proof.
  apply (ingress_ignores_ExportValid ex_order ex_order (mkIngressReq (mkNN "default" "none") ∅) ex_ingress_manager (ex_cluster ""))
    with (err := EApi ReasonNotFound "not found").
  reflexivity.
Defined.

Lemma pod_lookup_witness :
  getPodInfoByIP "10.1.0.7" (addPod ex_pod (NewManager "ns" ∅)) =
    Some (mkPodInfo "client" "default" "sa" {[ "app" := "curl" ]}).
Proof.
  apply (pod_lookup [] "ns" ∅).
  - simpl. set_solver.
  - discriminate.
Defined.
