(* ===== verification/AuthzServer.v ===== *)
(** * The ext_authz server

    [pkg/controlplane/authz/server.go]: what the dataplane is answered for each
    connection.  The nested pointers of a [CheckRequest] are options. *)
From S2P Require Export AuthzFacts.
From stdpp Require Import options.
From Stdlib Require Import ZArith Lia.

Definition bearerSchemaPrefix : string := "Bearer ".

Record AttrHttp := mkAttrHttp { ah_Method : string; ah_Path : string; ah_Headers : gmap string string; ah_Body : string }.
Record AttrRequest := mkAttrRequest { ar_Http : option AttrHttp }.
(** The address is [true] for an Envoy internal address. *)
Record AttrSource := mkAttrSource { as_Address : option bool; as_Principal : string }.
Record Attributes := mkAttributes { att_Source : option AttrSource; att_Request : option AttrRequest }.
Record CheckRequest := mkCheckRequest { cr_Attributes : option Attributes }.

(** The codes of [google.golang.org/genproto/googleapis/rpc/code] and of HTTP. *)
Definition Code_OK : Z := 0.
Definition Code_INVALID_ARGUMENT : Z := 3.
Definition Code_NOT_FOUND : Z := 5.
Definition Code_PERMISSION_DENIED : Z := 7.
Definition Code_INTERNAL : Z := 13.
Definition StatusCode_BadRequest : Z := 400.
Definition StatusCode_Forbidden : Z := 403.
Definition StatusCode_NotFound : Z := 404.
Definition StatusCode_InternalServerError : Z := 500.

Inductive HttpResponse :=
  | OkResponse (headers responseHeaders : list (string * string))
  | DeniedResponse (httpCode : Z) (body : string).
Record CheckResponse := mkCheckResponse { crs_Code : Z; crs_Message : string; crs_HttpResponse : HttpResponse }.

Definition buildAllowedResponse (headers responseHeaders : list (string * string)) : CheckResponse :=
  mkCheckResponse Code_OK "" (OkResponse headers responseHeaders).

Definition buildDeniedResponse (rpcCode httpCode : Z) (message : string) : CheckResponse :=
  mkCheckResponse rpcCode message (DeniedResponse httpCode message).

Definition is_allowed (r : CheckResponse) : bool :=
  match crs_HttpResponse r with OkResponse _ _ => true | DeniedResponse _ _ => false end.

Section server.
Context {LS : LabelSelectors} {NS : NamespacedNameString} {SC : StatusConditions}.
Context {TL : TLSLib} {EN : Encodings} {JW : JWTLib}.
Context {W : Type} {KI : KubeClient W Import} {KP : KubeClient W Peer} {KE : KubeClient W Export}.
Context {HL : HTTPLib W} {CL : Clock W}.
Context (arrival : W → list jsonClient → schedule) (o_priv o_reg : TierOrder) (draw : nat → Z → Z).

Definition encodePeerLabels (m : Manager) : string :=
  base64_encode match json_labels (peerLabels m) with Ok data => data | Err _ => "{}" end.

Definition missing_header (header : string) : CheckResponse :=
  buildDeniedResponse Code_INVALID_ARGUMENT StatusCode_BadRequest ("Missing '" +:+ header +:+ "' header.").

(** The first of the expected headers that is not there. *)
Fixpoint first_missing (headers : gmap string string) (expected : list string) : option string :=
  match expected with
  | [] => None
  | header :: expected' =>
      match headers !! header with
      | None => Some header
      | Some _ => first_missing headers expected'
      end
  end.

Definition internal_error (err : error) : CheckResponse :=
  buildDeniedResponse Code_INTERNAL StatusCode_InternalServerError (error_string err).

(** [None] when [authorizeEgress] does not return. *)
Definition checkEgress (req : AttrHttp) : ST (Manager * W) (option (outcome CheckResponse)) :=
  let headers := ah_Headers req in
  match first_missing headers [ClientIPHeader; ImportNameHeader; ImportNamespaceHeader] with
  | Some header => mret (Some (Done (missing_header header)))
  | None =>
      let ns := default "" (headers !! ImportNamespaceHeader) in
      let name := default "" (headers !! ImportNameHeader) in
      resp ← authorizeEgress arrival o_priv o_reg draw
               (mkEgressReq (mkNN ns name) (default "" (headers !! ClientIPHeader)));
      mret match resp with
      | None => None
      | Some Panic => Some Panic
      | Some (Done (Err err)) => Some (Done (internal_error err))
      | Some (Done (Ok resp)) =>
          if negb (eresp_Allowed resp) then
            Some (Done (buildDeniedResponse Code_PERMISSION_DENIED StatusCode_Forbidden
                          ("Access denied for '" +:+ ns +:+ "/" +:+ name +:+ "'.")))
          else
            Some (Done (buildAllowedResponse
              [(TargetClusterHeader, RemotePeerCluster resp);
               (AuthorizationHeader, bearerSchemaPrefix +:+ eresp_AccessToken resp)] []))
      end
  end.

Definition checkServiceAccessRequest (req : AttrHttp) : ST (Manager * W) (outcome CheckResponse) :=
  match ah_Headers req !! AuthorizationHeader with
  | None => mret (Done (missing_header AuthorizationHeader))
  | Some authorization =>
      if negb (HasPrefix authorization bearerSchemaPrefix) then
        mret (Done (buildDeniedResponse Code_INVALID_ARGUMENT StatusCode_BadRequest
                      "Authorization header is not using the bearer scheme."))
      else
        targetCluster ← parseAuthorizationHeader (TrimPrefix authorization bearerSchemaPrefix);
        mret match targetCluster with
        | Panic => Panic
        | Done (Err err) =>
            Done (buildDeniedResponse Code_PERMISSION_DENIED StatusCode_Forbidden (error_string err))
        | Done (Ok targetCluster) =>
            Done (buildAllowedResponse [(TargetClusterHeader, targetCluster)] [])
        end
  end.

Definition checkAuthorizationRequest (req : AttrHttp) : ST (Manager * W) CheckResponse :=
  match json_parse_authz_request (ah_Body req) with
  | Err err => mret (buildDeniedResponse Code_INVALID_ARGUMENT StatusCode_BadRequest (error_string err))
  | Ok authzReq =>
      resp ← authorizeIngress o_priv o_reg
               (mkIngressReq (mkNN (areq_ServiceNamespace authzReq) (areq_ServiceName authzReq))
                             (areq_SrcAttributes authzReq));
      let svc := areq_ServiceNamespace authzReq +:+ "/" +:+ areq_ServiceName authzReq in
      mret match resp with
      | Err err => internal_error err
      | Ok resp =>
          if negb (ServiceExists resp) then
            buildDeniedResponse Code_NOT_FOUND StatusCode_NotFound ("Exported service '" +:+ svc +:+ "' not found.")
          else if negb (iresp_Allowed resp) then
            buildDeniedResponse Code_PERMISSION_DENIED StatusCode_Forbidden ("Permission denied for '" +:+ svc +:+ "'.")
          else buildAllowedResponse [] [(AccessTokenHeader, iresp_AccessToken resp)]
      end
  end.

Definition checkIngress (req : AttrHttp) : ST (Manager * W) (outcome CheckResponse) :=
  if decide (ah_Method req = "GET" ∧ ah_Path req = HeartbeatPath) then
    m ← gets fst;
    mret (Done (buildAllowedResponse [] [(PeerLabelsCustomHeader, encodePeerLabels m)]))
  else if decide (ah_Method req = "POST" ∧ ah_Path req = RemotePeerAuthorizationPath) then
    resp ← checkAuthorizationRequest req; mret (Done resp)
  else if decide (ah_Method req = "CONNECT") then checkServiceAccessRequest req
  else mret (Done (buildDeniedResponse Code_INVALID_ARGUMENT StatusCode_BadRequest
                    ("No handler defined for " +:+ ah_Method req +:+ " " +:+ ah_Path req +:+ "."))).

(** The source and the HTTP request, unless a pointer on the way is nil. *)
Definition request_parts (req : option CheckRequest) : option (AttrSource * AttrHttp) :=
  match req with
  | Some (mkCheckRequest (Some (mkAttributes (Some s) (Some (mkAttrRequest (Some h)))))) => Some (s, h)
  | _ => None
  end.

Definition server_Check (req : option CheckRequest) : ST (Manager * W) (option (outcome (result CheckResponse))) :=
  match request_parts req with
  | None => mret (Some (Done (Err (ENew "invalid check request"))))
  | Some (source, httpReq) =>
      if decide (as_Address source = Some true) then
        resp ← checkEgress httpReq;
        mret match resp with
        | None => None | Some Panic => Some Panic | Some (Done r) => Some (Done (Ok r))
        end
      else
        resp ← checkIngress httpReq;
        mret match resp with Panic => Some Panic | Done r => Some (Done (Ok r)) end
  end.

(** ** Two control planes *)

(** C36: the token handed out for an authorization request is the key to exactly the
    requested export: a CONNECT that bears it before it expires is allowed and routed
    to the cluster of that export, by a control plane with the same key. *)
Theorem authorization_then_access `{!JWTLaws} `{!EncodingsLaws} areq body req st tok st' :
  json_authz_request areq = Ok body →
  ah_Method req = "POST" → ah_Path req = RemotePeerAuthorizationPath → ah_Body req = body →
  checkIngress req st = (Done (buildAllowedResponse [] [(AccessTokenHeader, tok)]), st') →
  ∀ req2 st2,
    ah_Method req2 = "CONNECT" →
    ah_Headers req2 !! AuthorizationHeader = Some (bearerSchemaPrefix +:+ tok) →
    jwkKey st2.1 = jwkKey st.1 → (clock_now st2.2 < clock_now st'.2 + jwtExpirySeconds)%Z →
    (checkIngress req2 st2).1 =
      Done (buildAllowedResponse
              [(TargetClusterHeader, ExportClusterName (areq_ServiceName areq) (areq_ServiceNamespace areq))] []).
Proof.
  intros Hj Hm Hp Hb. unfold checkIngress at 1. rewrite Hm, Hp. simpl.
  unfold checkAuthorizationRequest. rewrite Hb, (json_authz_round_trip _ _ Hj). unfold_st.
  destruct (authorizeIngress _ _ _ st) as [[resp|err] st1] eqn:Ha; [|done].
  destruct (ServiceExists resp) eqn:He; [|done]. destruct (iresp_Allowed resp) eqn:Hal; [|done].
  intros [= Htok <-] req2 st2 Hm2 Hh Hk Hc.
  destruct (authorizeIngress_allowed _ _ _ _ _ _ Ha Hal) as (_ & _ & key & Hkey & Hs).
  pose proof (signed_token_accepted _ _ _ _ _ st2 Hs (eq_trans Hk Hkey) Hc) as Ht.
  unfold checkIngress. rewrite Hm2. rewrite !decide_False, decide_True by (done || by intros [[=] _]).
  unfold checkServiceAccessRequest. rewrite Hh, HasPrefix_app, TrimPrefix_app. unfold_st. cbn [negb]. cbv beta iota.
  rewrite <- Htok. destruct (parseAuthorizationHeader (iresp_AccessToken resp) st2) as [o st2'].
  simpl in Ht. by subst o.
Qed.

(** What each kind of request needs to be allowed, and its answer. *)
Definition egress_granted (h : AttrHttp) (st : Manager * W) (r : CheckResponse) (st' : Manager * W) : Prop :=
  ∃ ip name ns resp,
    ah_Headers h !! ClientIPHeader = Some ip ∧ ah_Headers h !! ImportNameHeader = Some name ∧
    ah_Headers h !! ImportNamespaceHeader = Some ns ∧
    authorizeEgress arrival o_priv o_reg draw (mkEgressReq (mkNN ns name) ip) st = (Some (Done (Ok resp)), st') ∧
    eresp_Allowed resp = true ∧
    r = buildAllowedResponse [(TargetClusterHeader, RemotePeerCluster resp);
                              (AuthorizationHeader, bearerSchemaPrefix +:+ eresp_AccessToken resp)] [].
Definition heartbeat_granted (h : AttrHttp) (st : Manager * W) (r : CheckResponse) (st' : Manager * W) : Prop :=
  ah_Method h = "GET" ∧ ah_Path h = HeartbeatPath ∧ st' = st ∧
  r = buildAllowedResponse [] [(PeerLabelsCustomHeader, encodePeerLabels st.1)].
Definition authorization_granted (h : AttrHttp) (st : Manager * W) (r : CheckResponse) (st' : Manager * W) : Prop :=
  ah_Method h = "POST" ∧ ah_Path h = RemotePeerAuthorizationPath ∧
  ∃ areq resp,
    json_parse_authz_request (ah_Body h) = Ok areq ∧
    authorizeIngress o_priv o_reg
      (mkIngressReq (mkNN (areq_ServiceNamespace areq) (areq_ServiceName areq)) (areq_SrcAttributes areq)) st = (Ok resp, st') ∧
    ServiceExists resp = true ∧ iresp_Allowed resp = true ∧
    r = buildAllowedResponse [] [(AccessTokenHeader, iresp_AccessToken resp)].
Definition access_granted (h : AttrHttp) (st : Manager * W) (r : CheckResponse) (st' : Manager * W) : Prop :=
  ah_Method h = "CONNECT" ∧
  ∃ tok cluster,
    ah_Headers h !! AuthorizationHeader = Some (bearerSchemaPrefix +:+ tok) ∧
    parseAuthorizationHeader tok st = (Done (Ok cluster), st') ∧
    r = buildAllowedResponse [(TargetClusterHeader, cluster)] [].

Lemma first_missing_none headers expected :
  first_missing headers expected = None → ∀ k, k ∈ expected → ∃ v, headers !! k = Some v.
Proof.
  induction expected as [|h expected IH]; simpl; [by intros _ k ?%not_elem_of_nil|].
  destruct (headers !! h) as [v|] eqn:Hh; [|done]. intros Hm k [->|Hk]%elem_of_cons; [by exists v|by apply IH].
Qed.

#[local] Ltac refused := left; do 3 eexists; split; [|reflexivity]; done.

(** A request is refused with an error code, or it is what its kind needs. *)
Lemma checkEgress_granted h st r st' :
  checkEgress h st = (Some (Done r), st') →
  (∃ code status msg, code ≠ Code_OK ∧ r = buildDeniedResponse code status msg) ∨ egress_granted h st r st'.
Proof.
  unfold checkEgress. destruct (first_missing _ _) eqn:Hm; [intros [= <- <-]; refused|].
  pose proof (first_missing_none _ _ Hm) as Hh.
  destruct (Hh ClientIPHeader) as [ip Hip]; [set_solver|]. destruct (Hh ImportNameHeader) as [name Hname]; [set_solver|].
  destruct (Hh ImportNamespaceHeader) as [ns Hns]; [set_solver|]. rewrite Hip, Hname, Hns. unfold_st. cbn [default].
  destruct (authorizeEgress _ _ _ _ _ st) as [[[[resp|err]|]|] st1] eqn:Ha; try done; [|intros [= <- <-]; refused].
  destruct (eresp_Allowed resp) eqn:Hal; intros [= <- <-]; [right|refused].
  exists ip, name, ns, resp. by split_and!.
Qed.
Lemma checkAuthorizationRequest_granted h st r st' :
  ah_Method h = "POST" → ah_Path h = RemotePeerAuthorizationPath → checkAuthorizationRequest h st = (r, st') →
  (∃ code status msg, code ≠ Code_OK ∧ r = buildDeniedResponse code status msg) ∨ authorization_granted h st r st'.
Proof.
  intros Hm Hp. unfold checkAuthorizationRequest. unfold_st.
  destruct (json_parse_authz_request _) as [areq|e] eqn:Hj; [|intros [= <- <-]; refused].
  destruct (authorizeIngress _ _ _ st) as [[resp|err] st1] eqn:Ha; [|intros [= <- <-]; refused].
  destruct (ServiceExists resp) eqn:He; [|intros [= <- <-]; refused].
  destruct (iresp_Allowed resp) eqn:Hal; intros [= <- <-]; [right|refused].
  split_and!; [done..|]. exists areq, resp. by split_and!.
Qed.
Lemma checkServiceAccessRequest_granted h st r st' :
  ah_Method h = "CONNECT" → checkServiceAccessRequest h st = (Done r, st') →
  (∃ code status msg, code ≠ Code_OK ∧ r = buildDeniedResponse code status msg) ∨ access_granted h st r st'.
Proof.
  intros Hm. unfold checkServiceAccessRequest. unfold_st.
  destruct (_ !! _) as [a|] eqn:Hh; [|intros [= <- <-]; refused].
  destruct (HasPrefix a bearerSchemaPrefix) eqn:Hp; cbn [negb]; [|intros [= <- <-]; refused].
  apply HasPrefix_spec in Hp as [tok ->]. rewrite TrimPrefix_app in *.
  destruct (parseAuthorizationHeader tok st) as [[[c|e]|] st1] eqn:Ht; try done; intros [= <- <-]; [right|refused].
  split; [done|]. exists tok, c. by split_and!.
Qed.

(** C20: whatever the request, the answer is a refusal with an error code, or the request
    is one of four, and the answer says what it was granted: from an internal address, an
    egress request, whose client and import are those of its headers, that
    [authorizeEgress] allows, routed to the chosen peer with its token; from elsewhere, a
    GET of the heartbeat path, answered with the labels of this peer; a POST of the
    authorization path whose body asks for a service that exists and is allowed, answered
    with its token; or a CONNECT whose own bearer token is valid, routed to the cluster
    that the token names. *)
Theorem Check_refuses req st r st' :
  server_Check req st = (Some (Done (Ok r)), st') →
  ∃ source h, request_parts req = Some (source, h) ∧
  ((∃ code status msg, code ≠ Code_OK ∧ r = buildDeniedResponse code status msg) ∨
   (as_Address source = Some true ∧ egress_granted h st r st') ∨
   (as_Address source ≠ Some true ∧
    (heartbeat_granted h st r st' ∨ authorization_granted h st r st' ∨ access_granted h st r st'))).
Proof.
  unfold server_Check. destruct (request_parts req) as [[source h]|]; [|done]. intros H.
  exists source, h. split; [done|]. revert H. case_decide as Hs; unfold_st.
  - destruct (checkEgress h st) as [[[r1|]|] st1] eqn:He; [|done..]. intros [= <- <-].
    destruct (checkEgress_granted h st r1 st1 He); auto.
  - unfold checkIngress. case_decide as Hget.
    { unfold_st. intros [= <- <-]. destruct Hget. right; right. split; [done|]. by left. }
    case_decide as Hpost.
    + unfold_st. destruct (checkAuthorizationRequest h st) as [r1 st1] eqn:Ha. intros [= <- <-].
      destruct Hpost. destruct (checkAuthorizationRequest_granted h st r1 st1); auto 6.
    + case_decide as Hcon; [|unfold_st; intros [= <- <-]; refused].
      destruct (checkServiceAccessRequest h st) as [[r1|] st1] eqn:Ha; [|done]. intros [= <- <-].
      destruct (checkServiceAccessRequest_granted h st r1 st1); auto 6.
Qed.
End server.

(** ** Witnesses *)
#[local] Existing Instance ref_labelselectors.
#[local] Existing Instance ref_nn_string.
#[local] Existing Instance ref_encodings.
#[local] Existing Instance ref_tls.
#[local] Existing Instance ref_jwt.
#[local] Existing Instance cl_ki.
#[local] Existing Instance cl_kp.
#[local] Existing Instance cl_ke.
#[local] Existing Instance cl_clock.
#[local] Existing Instance cl_http.

Definition ex_areq : AuthorizationRequest := mkAuthzReq "http" "default" {[ PeerNameLabel := "peer9" ]}.
Definition ex_body : string :=
  match json_authz_request ex_areq with Ok b => b | Err _ => "" end.
Definition ex_post : AttrHttp := mkAttrHttp "POST" RemotePeerAuthorizationPath ∅ ex_body.
Definition ex_token : string :=
  match (authorizeIngress ex_order ex_order ex_ingress_req (ex_ingress_manager, ex_cluster "")).1 with
  | Ok r => iresp_AccessToken r | Err _ => "" end.
Definition ex_connect : AttrHttp :=
  mkAttrHttp "CONNECT" "" {[ AuthorizationHeader := bearerSchemaPrefix +:+ ex_token ]} "".

Lemma authorization_then_access_witness :
  (checkIngress ex_order ex_order ex_connect (ex_ingress_manager, ex_cluster "")).1 =
    Done (buildAllowedResponse [(TargetClusterHeader, "export-default/http")] []).
Proof.
  apply (authorization_then_access ex_order ex_order ex_areq ex_body ex_post
           (ex_ingress_manager, ex_cluster "") ex_token (ex_ingress_manager, ex_cluster "")).
  - reflexivity.
  - reflexivity.
  - reflexivity.
  - reflexivity.
  - vm_compute. reflexivity.
  - reflexivity.
  - reflexivity.
  - reflexivity.
  - vm_compute. reflexivity.
Defined.

Definition ex_check : option CheckRequest :=
  Some (mkCheckRequest (Some (mkAttributes (Some (mkAttrSource (Some false) "")) (Some (mkAttrRequest (Some ex_post)))))).
Lemma Check_refuses_witness :
  let r := buildAllowedResponse [] [(AccessTokenHeader, ex_token)] in
  (∃ code status msg, code ≠ Code_OK ∧ r = buildDeniedResponse code status msg) ∨
  (as_Address (mkAttrSource (Some false) "") = Some true ∧
   egress_granted ex_arrival ex_order ex_order ex_draw ex_post (ex_ingress_manager, ex_cluster "") r (ex_ingress_manager, ex_cluster "")) ∨
  (as_Address (mkAttrSource (Some false) "") ≠ Some true ∧
   (heartbeat_granted ex_post (ex_ingress_manager, ex_cluster "") r (ex_ingress_manager, ex_cluster "") ∨
    authorization_granted ex_order ex_order ex_post (ex_ingress_manager, ex_cluster "") r (ex_ingress_manager, ex_cluster "") ∨
    access_granted ex_post (ex_ingress_manager, ex_cluster "") r (ex_ingress_manager, ex_cluster ""))).
Proof.
  destruct (Check_refuses ex_arrival ex_order ex_order ex_draw ex_check (ex_ingress_manager, ex_cluster "")
           (buildAllowedResponse [] [(AccessTokenHeader, ex_token)]) (ex_ingress_manager, ex_cluster ""))
    as (source & h & Hparts & H); [vm_compute; reflexivity|].
  injection Hparts as <- <-. exact H.
Defined.
