(* ===== verification/ApiServer.v ===== *)
(** * An API server in memory

    An instance of the laws of [K8s.v]: each kind of object is a map in a record,
    reached by a getter and a setter.  It is what the theorems about handlers are
    evaluated on. *)
From S2P Require Export K8s.
From stdpp Require Import options.

(** A kind of object inside a world. *)
Class Store (W T : Type) := {
  st_get : W → gmap NamespacedName T;
  st_set : gmap NamespacedName T → W → W
}.
Definition well_keyed {T} `{KubeObject T} (m : gmap NamespacedName T) : Prop :=
  map_Forall (λ k x, kKey x = k) m.
(** The objects of a map that are under their own keys. *)
Definition keyed {T} `{KubeObject T} (m : gmap NamespacedName T) : gmap NamespacedName T :=
  filter (λ kx, kKey kx.2 = kx.1) m.

Class StoreLaws (W T : Type) `{!KubeObject T} `{!Store W T} := {
  get_set m w : well_keyed m → st_get (st_set m w) = m;
  get_keys w : well_keyed (st_get w)
}.

Lemma keyed_well_keyed {T} `{KubeObject T} (m : gmap NamespacedName T) : well_keyed (keyed m).
Proof. intros k x Hx. by apply map_lookup_filter_Some in Hx as [_ Hx]. Qed.
Lemma keyed_id {T} `{KubeObject T} (m : gmap NamespacedName T) : well_keyed m → keyed m = m.
Proof. intros Hm. apply map_filter_id. intros k x Hx. by apply Hm. Qed.
Lemma well_keyed_insert {T} `{KubeObject T} (m : gmap NamespacedName T) x :
  well_keyed m → well_keyed (<[kKey x := x]> m).
Proof. intros Hm k y. rewrite lookup_insert_Some. intros [[<- <-]|[_ Hy]]; [done|by apply Hm]. Qed.
Lemma well_keyed_delete {T} `{KubeObject T} (m : gmap NamespacedName T) k :
  well_keyed m → well_keyed (delete k m).
Proof. intros Hm k' y. rewrite lookup_delete_Some. intros [_ Hy]. by apply Hm. Qed.
(** The setter of [T] does not touch the objects of [T']. *)
Class StoreFrame (W T T' : Type) `{!Store W T} `{!Store W T'} := {
  get_set_other m w : st_get (T:=T') (st_set (T:=T) m w) = st_get w
}.

Definition not_found : error := EApi ReasonNotFound "not found".
Definition already_exists : error := EApi ReasonAlreadyExists "already exists".

Section client.
Context {W T : Type} `{KO : !KubeObject T} `{ST0 : !Store W T}.

Definition selected (o : ListOptions) (x : T) : Prop :=
  lo_Labels o ⊆ kLabels x ∧ (∀ ns, lo_Namespace o = Some ns → Namespace (kKey x) = ns).
#[export] Instance selected_dec o x : Decision (selected o x).
Proof.
  destruct (lo_Namespace o) as [ns|] eqn:Hn.
  - destruct (decide (lo_Labels o ⊆ kLabels x ∧ Namespace (kKey x) = ns)) as [[H1 H2]|Hno].
    + left. split; [done|]. rewrite Hn. congruence.
    + right. intros [H1 H2]. apply Hno. split; [done|]. by apply H2.
  - destruct (decide (lo_Labels o ⊆ kLabels x)) as [H1|Hno].
    + left. split; [done|]. by rewrite Hn.
    + right. by intros [H1 _].
Defined.

Definition mem_Get (k : NamespacedName) : ST W (result T) := λ w,
  (match st_get w !! k with Some x => Ok x | None => Err not_found end, w).
Definition mem_List (o : ListOptions) : ST W (result (list T)) := λ w,
  (Ok (filter (selected o) (map_to_list (st_get w)).*2), w).
Definition mem_Create (x : T) : ST W (result T) := λ w,
  match st_get w !! kKey x with
  | Some _ => (Err already_exists, w)
  | None => (Ok x, st_set (<[kKey x := x]> (st_get w)) w)
  end.
Definition mem_Update (x : T) : ST W (result T) := λ w,
  match st_get w !! kKey x with
  | Some _ => (Ok x, st_set (<[kKey x := x]> (st_get w)) w)
  | None => (Err not_found, w)
  end.
Definition mem_Delete (k : NamespacedName) : ST W (option error) := λ w,
  match st_get w !! k with
  | Some _ => (None, st_set (delete k (st_get w)) w)
  | None => (Some not_found, w)
  end.

Definition mem_client : KubeClient W T := {|
  kGet := mem_Get; kList := mem_List; kCreate := mem_Create; kUpdate := mem_Update;
  kStatusUpdate := mem_Update; kDelete := mem_Delete
|}.

Context `{SL : !StoreLaws W T}.
#[local] Existing Instance mem_client.

Definition mem_laws : KubeClientLaws W T.
Proof using SL.
  refine {| kView := st_get |}; simpl.
  - done.
  - intros k w x. unfold mem_Get. simpl. destruct (st_get w !! k); [by intros [= ->]|done].
  - intros k w x Hx. by apply (get_keys w).
  - intros k w e. unfold mem_Get. simpl. by destruct (st_get w !! k).
  - done.
  - intros o w xs [= <-] x. rewrite list_elem_of_filter, list_elem_of_fmap. split.
    + intros [[H1 H2] ([k y] & -> & Hy%elem_of_map_to_list)]. simpl in *.
      split_and!; [by rewrite (get_keys w k y Hy : kKey y = k)|done..].
    + intros (Hx & H1 & H2). split; [done|]. exists (kKey x, x). by rewrite elem_of_map_to_list.
  - intros x w. unfold mem_Create. destruct (st_get w !! kKey x) eqn:Hx; simpl; [by left|right].
    by rewrite get_set by apply well_keyed_insert, get_keys.
  - intros x w y. unfold mem_Create. destruct (st_get w !! kKey x); simpl; [done|].
    intros _. rewrite get_set by apply well_keyed_insert, get_keys. apply lookup_insert_eq.
  - intros x w. unfold mem_Update. destruct (st_get w !! kKey x); simpl; [right|by left].
    by rewrite get_set by apply well_keyed_insert, get_keys.
  - intros x w y. unfold mem_Update. destruct (st_get w !! kKey x); simpl; [|done].
    intros _. rewrite get_set by apply well_keyed_insert, get_keys. apply lookup_insert_eq.
  - intros x w Hx. unfold mem_Update. rewrite Hx. split; [by eexists|done].
  - intros k w. unfold mem_Delete. destruct (st_get w !! k); simpl; [right|by left].
    by rewrite get_set by apply well_keyed_delete, get_keys.
  - intros k w. unfold mem_Delete. destruct (st_get w !! k); simpl; [|done].
    intros _. rewrite get_set by apply well_keyed_delete, get_keys. apply lookup_delete_eq.
  - intros k w e. unfold mem_Delete. destruct (st_get w !! k) eqn:Hk; simpl; done.
Defined.
End client.

Lemma mem_frame (W T T' : Type) `{KO : !KubeObject T} `{KO' : !KubeObject T'} `{S1 : !Store W T} `{S2 : !Store W T'}
    `{SL : !StoreLaws W T'} `{SF : !StoreFrame W T T'} :
  @KubeFrame W T T' mem_client _ mem_client mem_laws.
Proof.
  split; simpl; intros; unfold mem_Get, mem_List, mem_Create, mem_Update, mem_Delete; simpl; try done;
    case_match; simpl; try done; apply get_set_other.
Qed.

(** ** A world of several kinds of objects: the product of their maps *)
Definition store_here {T W} `{KO : !KubeObject T} : Store (gmap NamespacedName T * W) T :=
  {| st_get w := keyed w.1; st_set m w := (m, w.2) |}.
Definition store_there {X W T} {ST0 : Store W T} : Store (X * W) T :=
  {| st_get w := st_get w.2; st_set m w := (w.1, st_set m w.2) |}.

Lemma here_laws {T W} `{KO : !KubeObject T} : @StoreLaws (gmap NamespacedName T * W) T KO store_here.
Proof. split; simpl; [intros; by apply keyed_id|intros; apply keyed_well_keyed]. Qed.
Lemma there_laws {X W T} `{KO : !KubeObject T} {ST0 : Store W T} {SL : StoreLaws W T} :
  @StoreLaws (X * W) T KO store_there.
Proof. split; simpl; [intros; by apply get_set|intros; apply get_keys]. Qed.

Lemma frame_here_there {T T' W} `{KO : !KubeObject T} {ST0 : Store W T'} :
  @StoreFrame (gmap NamespacedName T * W) T T' store_here store_there.
Proof. by split. Qed.
Lemma frame_there_here {T T' W} `{KO : !KubeObject T'} {ST0 : Store W T} :
  @StoreFrame (gmap NamespacedName T' * W) T T' store_there store_here.
Proof. by split. Qed.
Lemma frame_there_there {X T T' W} {S1 : Store W T} {S2 : Store W T'} {SF : StoreFrame W T T'} :
  @StoreFrame (X * W) T T' store_there store_there.
Proof. split. simpl. intros. apply get_set_other. Qed.
