(* ===== verification/Control.v ===== *)
(** * The control manager

    [pkg/controlplane/control/manager.go]: it keeps, for each import, a leased
    listener port and the Kubernetes services or endpoint slices that lead to the
    dataplane, for each export a validity condition, and the secret of the token
    signing key.  A handler runs on the manager's state and the outside world [W]
    (the API server).  The peer monitors embedded in the manager are in
    [PeerMonitor.v]. *)
From S2P Require Export Ports Jwks.
From stdpp Require Import options.
From Stdlib Require Import Ascii ZArith Lia.
#[local] Arguments String.append !_ _ / : simpl nomatch.

Definition AppName : string := "clusterlink.net".
Definition LabelManagedBy : string := "app.kubernetes.io/managed-by".
Definition LabelImportName : string := "clusterlink.net/import-name".
Definition LabelImportNamespace : string := "clusterlink.net/import-namespace".
Definition LabelDPEndpointSliceName : string := "clusterlink.net/dataplane-endpointslice-name".
(** [discv1.LabelServiceName], [discv1.LabelManagedBy]. *)
Definition discv1_LabelServiceName : string := "kubernetes.io/service-name".
Definition discv1_LabelManagedBy : string := "endpointslice.kubernetes.io/managed-by".

(** ** Kubernetes objects *)
Record ServicePort := mkServicePort { sp_Protocol : string; sp_Port : Z; sp_TargetPort : Z }.
Record Service := mkService {
  svc_Meta : ObjectMeta; svc_Type : string; svc_ExternalName : string;
  svc_Selector : gmap string string; svc_Ports : list ServicePort
}.
Definition ServiceTypeClusterIP : string := "ClusterIP".
Definition ServiceTypeExternalName : string := "ExternalName".
Definition ProtocolTCP : string := "TCP".

Record EndpointConditions := mkEndpointConditions {
  ec_Ready : option bool; ec_Serving : option bool; ec_Terminating : option bool
}.
Record SliceEndpoint := mkSliceEndpoint { se_Addresses : list string; se_Conditions : EndpointConditions }.
Record EndpointPort := mkEndpointPort { epp_Port : option Z; epp_Protocol : option string }.
Record EndpointSlice := mkEndpointSlice {
  es_Meta : ObjectMeta; es_AddressType : string; es_Endpoints : list SliceEndpoint; es_Ports : list EndpointPort
}.
Definition AddressTypeIPv4 : string := "IPv4".

#[export] Instance Service_object : KubeObject Service :=
  {| kKey s := om_key (svc_Meta s); kLabels s := om_Labels (svc_Meta s) |}.
#[export] Instance EndpointSlice_object : KubeObject EndpointSlice :=
  {| kKey s := om_key (es_Meta s); kLabels s := om_Labels (es_Meta s) |}.

(** ** Errors: [conflictingServiceError] and the like match any error of their type *)
Definition is_conflictingService (e : error) : bool :=
  match e with EConflictingService _ _ => true | _ => false end.
Definition is_importServiceNotExist (e : error) : bool :=
  match e with EImportServiceNotExist _ => true | _ => false end.
Definition is_exportServiceNotExist (e : error) : bool :=
  match e with EExportServiceNotExist _ => true | _ => false end.

(** ** Names of import endpoint slices *)
Record importEndpointSliceName := mkIESN { iesn_importName : string; iesn_dataplane : string }.

Definition iesn_Get (n : importEndpointSliceName) : string :=
  "clusterlink-" +:+ Itoa (Z.of_nat (String.length (iesn_importName n))) +:+ "-" +:+
  iesn_importName n +:+ "-" +:+ iesn_dataplane n.

Definition iesn_Parse (s : string) : option importEndpointSliceName :=
  match SplitN 3 "-"%char s with
  | [c0; c1; c2] =>
      if decide (c0 ≠ "clusterlink") then None
      else match Atoi c1 with
      | None => None
      | Some importNameLength =>
          if decide ((importNameLength <= 0)%Z ∨ (importNameLength >= Z.of_nat (String.length c2))%Z) then None
          else
            let importName := str_take (Z.to_nat importNameLength) c2 in
            let dataplane := str_drop (Z.to_nat (importNameLength + 1)) c2 in
            if decide (dataplane ≠ "") then Some (mkIESN importName dataplane) else None
      end
  | _ => None
  end.

(** ** Comparisons *)
Section conditions.
Context {SC : StatusConditions}.
Definition conditionChanged (conditions : list Condition) (cond : Condition) : bool :=
  match FindStatusCondition conditions (cond_Type cond) with
  | None => true
  | Some oldCond =>
      if decide (cond_Status oldCond ≠ cond_Status cond) then true
      else if decide (cond_Reason oldCond ≠ cond_Reason cond) then true
      else bool_decide (cond_Message oldCond ≠ cond_Message cond)
  end.
End conditions.

Definition boolPointerChanged (b1 b2 : option bool) : bool :=
  match b1 with
  | Some x => match b2 with None => true | Some y => bool_decide (x ≠ y) end
  | None => bool_decide (b2 ≠ None)
  end.

Fixpoint ports_changed (ps1 ps2 : list ServicePort) : bool :=
  match ps1, ps2 with
  | p1 :: ps1', p2 :: ps2' =>
      if decide (sp_Protocol p1 ≠ sp_Protocol p2) then true
      else if decide (sp_Port p1 ≠ sp_Port p2) then true
      else if decide (sp_TargetPort p1 ≠ sp_TargetPort p2) then true
      else ports_changed ps1' ps2'
  | _, _ => false
  end.

(** Whether the selector loop returns does not depend on the order. *)
Definition serviceChanged (svc1 svc2 : Service) : bool :=
  if decide (svc_Type svc1 ≠ svc_Type svc2) then true
  else if decide (svc_ExternalName svc1 ≠ svc_ExternalName svc2) then true
  else if decide (size (svc_Selector svc1) ≠ size (svc_Selector svc2)) then true
  else if existsb (λ kv, bool_decide (svc_Selector svc2 !! kv.1 ≠ Some kv.2)) (map_to_list (svc_Selector svc1)) then true
  else if decide (length (svc_Ports svc1) ≠ length (svc_Ports svc2)) then true
  else ports_changed (svc_Ports svc1) (svc_Ports svc2).

Definition endpoint_changed (e1 e2 : SliceEndpoint) : bool :=
  if decide (length (se_Addresses e1) ≠ length (se_Addresses e2)) then true
  else if existsb (λ p, bool_decide (p.1 ≠ p.2)) (zip (se_Addresses e1) (se_Addresses e2)) then true
  else if boolPointerChanged (ec_Ready (se_Conditions e1)) (ec_Ready (se_Conditions e2)) then true
  else if boolPointerChanged (ec_Serving (se_Conditions e1)) (ec_Serving (se_Conditions e2)) then true
  else boolPointerChanged (ec_Terminating (se_Conditions e1)) (ec_Terminating (se_Conditions e2)).

Definition endpointSliceChanged (s1 s2 : EndpointSlice) : bool :=
  if decide (es_AddressType s1 ≠ es_AddressType s2) then true
  else if decide (om_Labels (es_Meta s1) ≠ om_Labels (es_Meta s2)) then true
  else if decide (length (es_Endpoints s1) ≠ length (es_Endpoints s2)) then true
  else existsb (λ p, endpoint_changed p.1 p.2) (zip (es_Endpoints s1) (es_Endpoints s2)).

Definition checkServiceLabels (service : Service) (importName : NamespacedName) : bool :=
  let labels := om_Labels (svc_Meta service) in
  bool_decide (labels !! LabelManagedBy = Some AppName ∧
               labels !! LabelImportName = Some (Name importName) ∧
               labels !! LabelImportNamespace = Some (Namespace importName)).

(** ** Service names: [crypto/md5] in hexadecimal and [k8s.io/utils/strings.ShortenString] *)
Class ServiceNames := { md5_hex : string → string; ShortenString : string → nat → string }.

Definition SystemServiceName `{ServiceNames} (name : NamespacedName) : string :=
  "import-" +:+ ShortenString (Name name) 10 +:+ "-" +:+ ShortenString (Namespace name) 10 +:+ "-" +:+
  md5_hex (Namespace name +:+ "/" +:+ Name name).

(** ** The manager *)
Record Manager := mkManager {
  namespace : string;
  ports : portManager;
  serviceToImport : gmap string NamespacedName
}.
Definition NewManager (ns : string) : Manager := mkManager ns newPortManager ∅.

Definition set_TargetPort (p : Z) (imp : Import) : Import :=
  mkImport (imp_Meta imp)
    (mkImportSpec (imp_Port (imp_Spec imp)) p (imp_Sources (imp_Spec imp)) (imp_LBScheme (imp_Spec imp)))
    (imp_Conditions imp).
Definition set_imp_Conditions (cs : list Condition) (imp : Import) : Import :=
  mkImport (imp_Meta imp) (imp_Spec imp) cs.
Definition set_exp_Conditions (cs : list Condition) (e : Export) : Export :=
  mkExport (exp_Meta e) (exp_Host e) (exp_Port e) cs.

Definition label_of (labels : gmap string string) (key : string) : string := default "" (labels !! key).

Section control.
Context {NS : NamespacedNameString} {SC : StatusConditions} {SN : ServiceNames} {EN : Encodings}.
Context {W : Type} {KI : KubeClient W Import} {KE : KubeClient W Export} {KS : KubeClient W Service}.
Context {KL : KubeClient W EndpointSlice} {KC : KubeClient W Secret} {CL : Clock W} {RB : RandBytes W}.
(** The random numbers of a port lease. *)
Context (draw : W → nat → Z).

(** A handler step that uses the port leases only. *)
Definition with_ports {A} (f : ST portManager A) : ST (Manager * W) A := λ s,
  let (a, p) := f (ports s.1) in (a, (mkManager (namespace s.1) p (serviceToImport s.1), s.2)).

Definition allocateTargetPort (imp : Import) : ST (Manager * W) (option error * Import) :=
  let name := imp_key imp in
  w ← gets snd;
  leasedPort ← with_ports (Lease (draw w) name (imp_TargetPort (imp_Spec imp)));
  match leasedPort with
  | Err err => mret (Some (EWrap "cannot generate listening port" err), imp)
  | Ok leasedPort =>
      if decide (imp_TargetPort (imp_Spec imp) = 0)%Z then
        let imp := set_TargetPort leasedPort imp in
        r ← outside (kUpdate imp);
        match r with
        | Err err => with_ports (Release name);; mret (Some err, imp)
        | Ok imp => mret (None, imp)
        end
      else mret (None, imp)
  end.

(** *** Services *)

Definition import_labels (imp : Import) (labels : gmap string string) : gmap string string :=
  <[LabelImportNamespace := imp_Namespace imp]>
    (<[LabelImportName := imp_Name imp]> (<[LabelManagedBy := AppName]> labels)).

Definition set_svc_Labels (labels : gmap string string) (s : Service) : Service :=
  mkService (mkMeta (om_Name (svc_Meta s)) (om_Namespace (svc_Meta s)) labels)
    (svc_Type s) (svc_ExternalName s) (svc_Selector s) (svc_Ports s).

(** Create or update a service, unless it is not the import's own. *)
Definition putImportService (importName : NamespacedName) (service : Service) : ST (Manager * W) (option error) :=
  let serviceName := om_key (svc_Meta service) in
  oldService ← outside (kGet (T:=Service) serviceName);
  match oldService with
  | Err err =>
      if negb (IsNotFound err) then mret (Some err)
      else r ← outside (kCreate service); mret (err_of r)
  | Ok oldService =>
      if negb (checkServiceLabels oldService importName) then
        mret (Some (EConflictingService serviceName (label_of (om_Labels (svc_Meta oldService)) LabelManagedBy)))
      else if negb (serviceChanged oldService service) then mret None
      else r ← outside (kUpdate service); mret (err_of r)
  end.

Definition addImportService (imp : Import) (service : Service) : ST (Manager * W) (option error) :=
  let service := set_svc_Labels (import_labels imp (om_Labels (svc_Meta service))) service in
  let importName := imp_key imp in
  (if decide (imp_Namespace imp ≠ om_Namespace (svc_Meta service)) then
     modify (λ s, (mkManager (namespace s.1) (ports s.1)
                     (<[om_Name (svc_Meta service) := importName]> (serviceToImport s.1)), s.2))
   else mret tt);;
  putImportService importName service.

Definition deleteImportService (service imp : NamespacedName) : ST (Manager * W) (option error) :=
  oldService ← outside (kGet (T:=Service) service);
  match oldService with
  | Err err => if negb (IsNotFound err) then mret (Some err) else mret None
  | Ok oldService =>
      if negb (checkServiceLabels oldService imp) then mret None
      else
        err ← outside (kDelete (T:=Service) service);
        match err with
        | Some err => mret (Some err)
        | None =>
            (if decide (label_of (om_Labels (svc_Meta oldService)) LabelImportNamespace ≠ Namespace imp) then
               modify (λ s, (mkManager (namespace s.1) (ports s.1)
                               (delete (Name service) (serviceToImport s.1)), s.2))
             else mret tt);;
            mret None
        end
  end.

(** *** Endpoint slices *)

Definition import_endpoint_slice (imp : Import) (dataplaneEndpointSlice : EndpointSlice) : EndpointSlice :=
  let dp := om_Name (es_Meta dataplaneEndpointSlice) in
  mkEndpointSlice
    (mkMeta (iesn_Get (mkIESN (imp_Name imp) dp)) (imp_Namespace imp)
       (<[discv1_LabelServiceName := imp_Name imp]>
         (<[discv1_LabelManagedBy := AppName]> {[ LabelDPEndpointSliceName := dp ]})))
    AddressTypeIPv4 (es_Endpoints dataplaneEndpointSlice)
    [mkEndpointPort (Some (imp_TargetPort (imp_Spec imp))) (Some ProtocolTCP)].

Definition checkImportEndpointSlice (imp : Import) (dataplaneEndpointSlice : EndpointSlice) :
    ST (Manager * W) (option error) :=
  let slice := import_endpoint_slice imp dataplaneEndpointSlice in
  old ← outside (kGet (T:=EndpointSlice) (om_key (es_Meta slice)));
  match old with
  | Err err =>
      if negb (IsNotFound err) then mret (Some err)
      else r ← outside (kCreate slice); mret (err_of r)
  | Ok old =>
      if negb (endpointSliceChanged slice old) then mret None
      else r ← outside (kUpdate slice); mret (err_of r)
  end.

Fixpoint for_err {A} (f : A → ST (Manager * W) (option error)) (l : list A) : ST (Manager * W) (option error) :=
  match l with
  | [] => mret None
  | a :: l' => check! (f a) in (for_err f l')
  end.

Definition addImportEndpointSlices (imp : Import) : ST (Manager * W) (option error) :=
  svc ← outside (kGet (T:=Service) (imp_key imp));
  match svc with
  | Err err => if IsNotFound err then mret (Some (EImportServiceNotExist (imp_key imp))) else mret (Some err)
  | Ok _ =>
      m ← gets fst;
      dps ← outside (kList (T:=EndpointSlice)
                      (mkListOptions (Some (namespace m)) {[ discv1_LabelServiceName := IngressSvcName ]}));
      match dps with
      | Err err => mret (Some err)
      | Ok dps => for_err (checkImportEndpointSlice imp) dps
      end
  end.

(** Delete and ignore that it is not there. *)
Definition delete_slice (k : NamespacedName) : ST (Manager * W) (option error) :=
  err ← outside (kDelete (T:=EndpointSlice) k);
  mret match err with
       | Some err => if IsNotFound err then None else Some err
       | None => None
       end.

Definition deleteImportEndpointSlices (imp : NamespacedName) : ST (Manager * W) (option error) :=
  slices ← outside (kList (T:=EndpointSlice) (mkListOptions (Some (Namespace imp))
             (<[discv1_LabelManagedBy := AppName]> {[ discv1_LabelServiceName := Name imp ]})));
  match slices with
  | Err err => mret (Some err)
  | Ok slices => for_err (λ s, delete_slice (om_key (es_Meta s))) slices
  end.

(** *** Imports *)

Definition mkCond (type status reason message : string) : Condition := mkCondition type status reason message 0 0.

Definition is_merge (imp : Import) : bool := bool_decide (label_of (imp_Labels imp) LabelImportMerge = "true").

Definition import_service_name (ns : string) (imp : Import) : string :=
  if decide (imp_Namespace imp ≠ ns) then SystemServiceName (imp_key imp) else imp_Name imp.

Definition systemService (ns : string) (imp : Import) : Service :=
  mkService (mkMeta (import_service_name ns imp) ns ∅) ServiceTypeClusterIP ""
    {[ "app" := dataplane_Name ]}
    [mkServicePort ProtocolTCP (imp_Port (imp_Spec imp)) (imp_TargetPort (imp_Spec imp))].

Definition userService (ns : string) (imp : Import) : Service :=
  mkService (mkMeta (imp_Name imp) (imp_Namespace imp) ∅) ServiceTypeExternalName
    (import_service_name ns imp +:+ "." +:+ ns +:+ ".svc.cluster.local") ∅ [].

(** After the target port is leased. *)
Definition addImport_services (imp : Import) : ST (Manager * W) (option error) :=
  if is_merge imp then addImportEndpointSlices imp
  else
    check! (deleteImportEndpointSlices (imp_key imp)) in
    (m ← gets fst;
     check! (addImportService imp (systemService (namespace m) imp)) in
     (if decide (imp_Namespace imp = namespace m) then mret None
      else addImportService imp (userService (namespace m) imp))).

(** The body before the deferred call: the error, the import and the condition of
    the target port. *)
Definition addImport_body (imp : Import) : ST (Manager * W) (option error * Import * Condition) :=
  '(err, imp) ← allocateTargetPort imp;
  match err with
  | Some err =>
      mret (Some err, imp, mkCond ImportTargetPortValid ConditionFalse "Error" (error_string err))
  | None =>
      err ← addImport_services imp;
      mret (err, imp, mkCond ImportTargetPortValid ConditionTrue "Leased" "")
  end.

Definition import_error_terminal (e : error) : bool :=
  error_is is_conflictingService e || error_is is_conflictingTargetPort e ||
  error_is is_importServiceNotExist e.

Definition terminal_if (p : error → bool) (err : option error) : option error :=
  match err with
  | Some e => if p e then Some (ETerminal e) else Some e
  | None => None
  end.

(** The deferred call. *)
Definition addImport_defer (err : option error) (imp : Import) (targetPortValidCond : Condition) :
    ST (Manager * W) (option error) :=
  let serviceValidCond :=
    match err with
    | None => mkCond ImportServiceValid ConditionTrue "Valid" ""
    | Some e => mkCond ImportServiceValid ConditionFalse "Error" (error_string e)
    end in
  let conditions := imp_Conditions imp in
  if conditionChanged conditions serviceValidCond || conditionChanged conditions targetPortValidCond then
    w ← gets snd;
    let conditions := SetStatusCondition (clock_now w) conditions targetPortValidCond in
    let conditions := SetStatusCondition (clock_now w) conditions serviceValidCond in
    r ← outside (kStatusUpdate (set_imp_Conditions conditions imp));
    match r with
    | Err statusError => mret (match err with None => Some statusError | Some e => Some e end)
    | Ok _ => mret (terminal_if import_error_terminal err)
    end
  else mret (terminal_if import_error_terminal err).

Definition addImport (imp : Import) : ST (Manager * W) (option error) :=
  '(err, imp, cond) ← addImport_body imp;
  addImport_defer err imp cond.

Definition deleteImport (name : NamespacedName) : ST (Manager * W) (option error) :=
  m ← gets fst;
  err0 ← deleteImportService name name;
  err1 ← (if decide (Namespace name ≠ namespace m)
          then deleteImportService (mkNN (namespace m) (SystemServiceName name)) name
          else mret None);
  err2 ← deleteImportEndpointSlices name;
  with_ports (Release name);;
  mret (errors_Join [err0; err1; err2]).

(** *** Exports *)

Definition addExport_body (export : Export) : ST (Manager * W) (option error) :=
  if decide (exp_Host export ≠ "") then mret None
  else
    let name := om_key (exp_Meta export) in
    svc ← outside (kGet (T:=Service) name);
    mret match svc with
         | Err err => if negb (IsNotFound err) then Some err else Some (EExportServiceNotExist name)
         | Ok _ => None
         end.

Definition addExport_defer (err : option error) (export : Export) : ST (Manager * W) (option error) :=
  let validCond :=
    match err with
    | None => mkCond ExportValid ConditionTrue "Verified" ""
    | Some e => mkCond ExportValid ConditionFalse "Error" (error_string e)
    end in
  if conditionChanged (exp_Conditions export) validCond then
    w ← gets snd;
    r ← outside (kStatusUpdate (set_exp_Conditions
           (SetStatusCondition (clock_now w) (exp_Conditions export) validCond) export));
    match r with
    | Err statusError => mret (match err with None => Some statusError | Some e => Some e end)
    | Ok _ => mret (terminal_if (error_is is_exportServiceNotExist) err)
    end
  else mret (terminal_if (error_is is_exportServiceNotExist) err).

Definition addExport (export : Export) : ST (Manager * W) (option error) :=
  err ← addExport_body export; addExport_defer err export.

(** *** Services *)

Definition checkExportService (name : NamespacedName) : ST (Manager * W) (option error) :=
  export ← outside (kGet (T:=Export) name);
  match export with
  | Err err => if negb (IsNotFound err) then mret (Some err) else mret None
  | Ok export => addExport export
  end.

Definition checkImportService (name : NamespacedName) : ST (Manager * W) (option error) :=
  imp ← outside (kGet (T:=Import) name);
  check! (match imp with
          | Err err => if negb (IsNotFound err) then mret (Some err) else mret None
          | Ok imp => addImport imp
          end) in
  (m ← gets fst;
   if decide (Namespace name ≠ namespace m) then mret None
   else match serviceToImport m !! Name name with
   | None => mret None
   | Some name =>
       imp ← outside (kGet (T:=Import) name);
       match imp with
       | Err err => if negb (IsNotFound err) then mret (Some err) else mret None
       | Ok imp => addImport imp
       end
   end).

Definition addService (service : Service) : ST (Manager * W) (option error) :=
  check! (checkImportService (om_key (svc_Meta service))) in
  (checkExportService (om_key (svc_Meta service))).

Definition deleteService (name : NamespacedName) : ST (Manager * W) (option error) :=
  check! (checkImportService name) in (checkExportService name).

(** *** Endpoint slice events *)

Definition checkEndpointSlice (ns endpointSliceName : string) : ST (Manager * W) (option error) :=
  match iesn_Parse endpointSliceName with
  | None => mret None
  | Some parsed =>
      imp ← outside (kGet (T:=Import) (mkNN ns (iesn_importName parsed)));
      match imp with
      | Err err =>
          if negb (IsNotFound err) then mret (Some err) else delete_slice (mkNN ns endpointSliceName)
      | Ok imp =>
          if negb (is_merge imp) then delete_slice (mkNN ns endpointSliceName)
          else
            m ← gets fst;
            dp ← outside (kGet (T:=EndpointSlice) (mkNN (namespace m) (iesn_dataplane parsed)));
            match dp with
            | Err err =>
                if negb (IsNotFound err) then mret (Some err) else delete_slice (mkNN ns endpointSliceName)
            | Ok dp => checkImportEndpointSlice imp dp
            end
      end
  end.

Definition addEndpointSlice (endpointSlice : EndpointSlice) : ST (Manager * W) (option error) :=
  m ← gets fst;
  let meta := es_Meta endpointSlice in
  if decide (label_of (om_Labels meta) discv1_LabelServiceName = IngressSvcName ∧
             om_Namespace meta = namespace m) then
    imps ← outside (kList (T:=Import) (mkListOptions None {[ LabelImportMerge := "true" ]}));
    match imps with
    | Err err => mret (Some err)
    | Ok imps => for_err (λ imp, checkImportEndpointSlice imp endpointSlice) imps
    end
  else checkEndpointSlice (om_Namespace meta) (om_Name meta).

Definition deleteEndpointSlice (name : NamespacedName) : ST (Manager * W) (option error) :=
  check! (checkEndpointSlice (Namespace name) (Name name)) in
  (m ← gets fst;
   if decide (Namespace name ≠ namespace m) then mret None
   else
     slices ← outside (kList (T:=EndpointSlice) (mkListOptions None
                (<[discv1_LabelManagedBy := AppName]> {[ LabelDPEndpointSliceName := Name name ]})));
     match slices with
     | Err err => mret (Some err)
     | Ok slices => for_err (λ s, delete_slice (om_key (es_Meta s))) slices
     end).

(** *** The secret of the signing key *)

(** The end of [checkJWKSecret]: generate a key, and create or update the secret. *)
Definition writeJWKSecret (create : bool) : ST (Manager * W) (option error) :=
  m ← gets fst;
  data ← outside generateJWKSecret;
  match data with
  | Err err => mret (Some (EWrap "cannot generate JWK secret" err))
  | Ok data =>
      let newSecret := newJWKSecret (namespace m) data in
      r ← outside (if create then kCreate newSecret else kUpdate newSecret);
      mret (err_of r)
  end.

(** The test is [err == nil]: without an error [IsNotFound(nil)] is false and [nil] is
    returned; with an error the secret is the zero value. *)
Definition checkJWKSecret (name : NamespacedName) : ST (Manager * W) (option error) :=
  m ← gets fst;
  if decide (Namespace name ≠ namespace m ∨ Name name ≠ JWKSecretName) then mret None
  else
    secret ← outside (kGet (T:=Secret) (mkNN (namespace m) JWKSecretName));
    match secret with
    | Ok _ => mret None
    | Err err =>
        match ParseJWKSSecret (mkSecret (mkMeta "" "" ∅) ∅) with
        | Ok _ => mret None
        | Err _ => writeJWKSecret false
        end
    end.

Definition addSecret (secret : Secret) : ST (Manager * W) (option error) :=
  checkJWKSecret (om_key (sec_Meta secret)).
Definition deleteSecret (name : NamespacedName) : ST (Manager * W) (option error) := checkJWKSecret name.

Definition CreateJWKSSecret : ST (Manager * W) (option error) :=
  data ← outside generateJWKSecret;
  match data with
  | Err err => mret (Some (EWrap "cannot generate JWKS secret" err))
  | Ok data =>
      m ← gets fst;
      r ← outside (kCreate (newJWKSecret (namespace m) data));
      mret match r with
           | Err err => if negb (IsAlreadyExists err) then Some err else None
           | Ok _ => None
           end
  end.
End control.
