(* ===== verification/ControlFacts.v ===== *)
(** * Control: what the handlers do to the cluster

    The theorems on [Control.v], against the laws of the API server in [K8s.v]. *)
From S2P Require Export Control ApiServer.
From stdpp Require Import options.
From Stdlib Require Import Ascii ZArith Lia.

(** ** Names of import endpoint slices *)

Lemma cut_sep c x y : str_in c x = false → cut c (x +:+ String c "" +:+ y) = Some (x, y).
Proof. apply cut_app. Qed.

(** The name of an import endpoint slice is parsed back into the name of the import
    and the name of the dataplane endpoint slice, although both may contain dashes. *)
Theorem iesn_round_trip n :
  iesn_importName n ≠ "" → iesn_dataplane n ≠ "" →
  (Z.of_nat (String.length (iesn_importName n)) < 9223372036854775808)%Z →
  iesn_Parse (iesn_Get n) = Some n.
Proof.
  destruct n as [name dp]. simpl. intros Hn Hd Hl. unfold iesn_Parse, iesn_Get. cbn [iesn_importName iesn_dataplane].
  change ("clusterlink-" +:+ ?s) with ("clusterlink" +:+ "-" +:+ s).
  set (len := Z.of_nat (String.length name)).
  assert (Hc : str_in "-"%char (Itoa len) = false) by (apply Itoa_no_char; [lia|done]).
  cbn [SplitN]. rewrite cut_sep by done. rewrite cut_sep by done.
  cbn [decide]. rewrite decide_False by (intros H; by apply H).
  rewrite Atoi_Itoa by lia. rewrite decide_False.
  2: { rewrite !str_length_app. unfold len. destruct name; [done|]. simpl. lia. }
  subst len. rewrite Nat2Z.id, str_take_app.
  replace (Z.to_nat (Z.of_nat (String.length name) + 1)) with (String.length (name +:+ "-")) by (rewrite str_length_app; simpl; lia).
  rewrite (str_app_assoc name "-" dp), str_drop_app. by rewrite decide_True.
Qed.

(** ** Comparisons *)

Lemma ports_changed_refl ps : ports_changed ps ps = false.
Proof. induction ps as [|p ps IH]; simpl; [done|]. by rewrite !decide_False by (intros H; by apply H). Qed.

Lemma serviceChanged_refl s : serviceChanged s s = false.
Proof.
  unfold serviceChanged. rewrite !decide_False by (intros H; by apply H).
  assert (Hs : existsb (λ kv : string * string, bool_decide (svc_Selector s !! kv.1 ≠ Some kv.2))
                 (map_to_list (svc_Selector s)) = false).
  { apply not_true_iff_false. intros (kv & Hin & Hb)%existsb_exists.
    apply bool_decide_eq_true in Hb. apply Hb. apply elem_of_map_to_list.
    destruct kv. by apply list_elem_of_In. }
  rewrite Hs. apply ports_changed_refl.
Qed.

(** The spec fields the comparison looks at. *)
Definition same_service_spec (s1 s2 : Service) : Prop :=
  svc_Type s1 = svc_Type s2 ∧ svc_ExternalName s1 = svc_ExternalName s2 ∧
  svc_Selector s1 = svc_Selector s2 ∧ svc_Ports s1 = svc_Ports s2.

Lemma ports_changed_false ps1 ps2 :
  length ps1 = length ps2 → ports_changed ps1 ps2 = false → ps1 = ps2.
Proof.
  revert ps2. induction ps1 as [|[a b c] ps1 IH]; intros [|[a' b' c'] ps2]; simpl; try done.
  intros [= Hl]. repeat case_decide; try done. intros Hp. f_equal; [congruence|by apply IH].
Qed.

Lemma serviceChanged_spec s1 s2 : serviceChanged s1 s2 = false ↔ same_service_spec s1 s2.
Proof.
  split.
  - unfold serviceChanged. repeat case_decide; try done;
      destruct (existsb _ _) eqn:Hs; try done. intros Hp.
    split_and!; try done.
    + apply map_eq. intros k. apply option_eq. intros v.
      assert (Hle : svc_Selector s1 ⊆ svc_Selector s2).
      { apply map_subseteq_spec. intros k' v' Hk.
        apply dec_stable. intros Hne. apply not_true_iff_false in Hs. apply Hs.
        apply existsb_exists. exists (k', v'). split; [by apply list_elem_of_In, elem_of_map_to_list|].
        by apply bool_decide_eq_true. }
      assert (Heq : svc_Selector s1 = svc_Selector s2).
      { apply map_subseteq_size_eq; [done|]. lia. }
      by rewrite Heq.
    + by apply ports_changed_false.
  - intros (H1 & H2 & H3 & H4). assert (H := serviceChanged_refl s1). unfold serviceChanged in *.
    by rewrite <- H1, <- H2, <- H3, <- H4.
Qed.

Lemma checkServiceLabels_import_labels imp s :
  checkServiceLabels (set_svc_Labels (import_labels imp (om_Labels (svc_Meta s))) s) (imp_key imp) = true.
Proof.
  apply bool_decide_eq_true. unfold import_labels. simpl.
  split_and!; repeat (rewrite lookup_insert_ne by discriminate); apply lookup_insert_eq.
Qed.

Lemma elem_of_zip_same {A} (l : list A) x y : (x, y) ∈ zip l l → x = y.
Proof. induction l as [|a l IH]; simpl; [set_solver|]. intros [[= -> ->]|?]%elem_of_cons; auto. Qed.

(** ** Leases *)

Lemma Lease_ok d n port pm p :
  (Lease d n port pm).1 = Ok p →
  leasesByName (Lease d n port pm).2 !! n = Some p ∧ (port ≠ 0%Z → p = port).
Proof.
  unfold Lease. case_decide as Hz.
  - unfold leaseWithRandomPort. case_decide; [done|]. case_decide as Hd; simpl; intros [= <-].
    + split; [|done]. destruct (leasesByName pm !! n) as [q|] eqn:Hq; simpl in *; [done|lia].
    + split; [|done]. apply lookup_insert_eq.
  - unfold leaseWithSpecificPort. destruct (leasesByPort pm !! port) as [o|]; [case_decide|]; simpl;
      intros [= <-]; (split; [apply lookup_insert_eq|done]).
Qed.

Lemma Release_free n pm : leasesByName (Release n pm).2 !! n = None.
Proof. unfold Release. destruct (leasesByName pm !! n) eqn:H; simpl; [apply lookup_delete_eq|done]. Qed.

(** [for ... { if err := f(x); err != nil { return err } }]. *)
Lemma keeps_for_err {W A} (R : Control.Manager * W → Control.Manager * W → Prop) `{!PreOrder R}
    (f : A → ST (Control.Manager * W) (option error)) l :
  (∀ a, keeps R (f a)) → keeps R (for_err f l).
Proof. intros Hf. induction l; simpl; keeps_tac. Qed.
Ltac keeps_all := repeat (keeps_step || (refine (keeps_for_err _ _ _ _); intros)).

(** ** Services *)
Section services.
Context {NS : NamespacedNameString} {SC : StatusConditions} {SN : ServiceNames}.
Context {W : Type} {KI : KubeClient W Import} {KS : KubeClient W Service} {KL : KubeClient W EndpointSlice} {CL : Clock W}.
Context {SL : KubeClientLaws W Service} {EL : KubeClientLaws W EndpointSlice}.
Context {FIS : KubeFrame W Import Service} {FES : KubeFrame W EndpointSlice Service}.
Context {FSE : KubeFrame W Service EndpointSlice} {FIE : KubeFrame W Import EndpointSlice}.
#[local] Set Default Proof Using "All".

Abbreviation state := (Manager * W)%type.
Abbreviation services st := (kView (T:=Service) (snd (st : state))).
Abbreviation slices st := (kView (T:=EndpointSlice) (snd (st : state))).

(** The services that are not the import's own stay as they are. *)
Definition keeps_foreign (n : NamespacedName) (st st' : state) : Prop :=
  ∀ k s, services st !! k = Some s → checkServiceLabels s n = false → services st' !! k = Some s.
#[export] Instance keeps_foreign_preorder n : PreOrder (keeps_foreign n).
Proof. split; [by intros st k s|]. intros x y z Hxy Hyz k s Hk Hs. by apply Hyz; [apply Hxy|]. Qed.

(** The services stay as they are. *)
Definition keeps_services (st st' : state) : Prop := services st' = services st.
#[export] Instance keeps_services_preorder : PreOrder keeps_services.
Proof. split; [by intros st|]. intros x y z Hxy Hyz. unfold keeps_services in *. congruence. Qed.

(** The port leases and the namespace stay as they are. *)
Definition keeps_leases (st st' : state) : Prop :=
  ports st'.1 = ports st.1 ∧ namespace st'.1 = namespace st.1.
#[export] Instance keeps_leases_preorder : PreOrder keeps_leases.
Proof. split; [by intros st|]. intros x y z [] []. split; congruence. Qed.

Lemma services_foreign {A} n (f : ST state A) : keeps keeps_services f → keeps (keeps_foreign n) f.
Proof. intros Hf st k s Hk _. by rewrite Hf. Qed.

Lemma outside_leases {A} (f : ST W A) : keeps keeps_leases (outside f).
Proof. intros st. unfold_st. by destruct (f st.2). Qed.

Lemma outside_services {A} (f : ST W A) :
  (∀ w, kView (T:=Service) (f w).2 = kView w) → keeps keeps_services (outside f).
Proof. intros Hf st. unfold_st. specialize (Hf st.2). by destruct (f st.2). Qed.

Lemma with_ports_services {A} (f : ST portManager A) : keeps keeps_services (with_ports (W:=W) f).
Proof. intros st. unfold with_ports. by destruct (f _). Qed.

Lemma modify_leases (f : state → state) : (∀ st, keeps_leases st (f st)) → keeps keeps_leases (modify f).
Proof. intros Hf st. apply Hf. Qed.
Lemma modify_services (f : state → state) : (∀ st, (f st).2 = st.2) → keeps keeps_services (modify f).
Proof. intros Hf st. unfold keeps_services, modify; simpl. by rewrite Hf. Qed.

Hint Resolve outside_leases with_ports_services : clink.
Hint Extern 1 (keeps keeps_services (outside _)) => apply outside_services; intros : clink.
Hint Resolve frame_get frame_list frame_create frame_update frame_status frame_delete : clink.
Hint Resolve kGet_view kList_view : clink.

(** *** addImportService and deleteImportService *)

Lemma putImportService_foreign n svc :
  checkServiceLabels svc n = true → keeps (keeps_foreign n) (putImportService n svc).
Proof.
  intros Hsvc st k s Hk Hs. unfold putImportService. unfold_st.
  set (key := om_key (svc_Meta svc)). assert (Hv := kGet_view (T:=Service) key st.2).
  assert (Hok := kGet_ok (T:=Service) key st.2).
  destruct (kGet _ st.2) as [[old|err] w']; simpl in *.
  - specialize (Hok old eq_refl). destruct (checkServiceLabels old n) eqn:Hl; simpl; [|by rewrite Hv].
    destruct (serviceChanged old svc); simpl; [|by rewrite Hv].
    assert (Hu := kUpdate_view svc w'). destruct (kUpdate svc w') as [r w2]. simpl in *.
    destruct Hu as [->| ->]; rewrite ?Hv; [done|].
    rewrite lookup_insert_ne; [done|]. intros <-. unfold key in *. congruence.
  - destruct (IsNotFound err) eqn:Hnf; simpl; [|by rewrite Hv].
    assert (Hu := kCreate_view svc w'). destruct (kCreate svc w') as [r w2]. simpl in *.
    destruct Hu as [->|[Hn ->]]; rewrite ?Hv; [done|].
    rewrite lookup_insert_ne; [done|]. intros <-. unfold key in *. congruence.
Qed.

Lemma addImportService_foreign imp service : keeps (keeps_foreign (imp_key imp)) (addImportService imp service).
Proof.
  unfold addImportService. refine (keeps_bind _ _ _ _ _); [|intros _].
  - case_decide; [|refine (keeps_ret _ _)]. by apply services_foreign, modify_services.
  - apply putImportService_foreign, checkServiceLabels_import_labels.
Qed.

Lemma deleteImportService_foreign k0 n : keeps (keeps_foreign n) (deleteImportService k0 n).
Proof.
  intros st k s Hk Hs. unfold deleteImportService. unfold_st.
  assert (Hv := kGet_view (T:=Service) k0 st.2). assert (Hok := kGet_ok (T:=Service) k0 st.2).
  destruct (kGet _ st.2) as [[old|err] w']; simpl in *; [|destruct (IsNotFound err); simpl; by rewrite Hv].
  specialize (Hok old eq_refl). destruct (checkServiceLabels old n) eqn:Hl; simpl; [|by rewrite Hv].
  assert (Hd := kDelete_view (T:=Service) k0 w'). destruct (kDelete k0 w') as [err w2]. simpl in *.
  assert (Hw2 : kView w2 !! k = Some s).
  { destruct Hd as [->| ->]; rewrite Hv; [done|]. rewrite lookup_delete_ne; [done|]. intros ->. congruence. }
  destruct err; simpl; [done|]. by destruct (decide _).
Qed.

(** When deleting reports no error, no own service is left under the name. *)
Lemma deleteImportService_ok k0 n st :
  (deleteImportService k0 n st).1 = None →
  let st' := (deleteImportService k0 n st).2 in
  (∀ s, services st' !! k0 = Some s → checkServiceLabels s n = false) ∧
  (∀ k, k ≠ k0 → services st' !! k = services st !! k).
Proof.
  unfold deleteImportService. unfold_st.
  assert (Hv := kGet_view (T:=Service) k0 st.2). assert (Hok := kGet_ok (T:=Service) k0 st.2).
  assert (Hno := kGet_notfound (T:=Service) k0 st.2).
  destruct (kGet _ st.2) as [[old|err] w']; simpl in *.
  2: { destruct (IsNotFound err) eqn:Hnf; simpl; [|done]. rewrite Hv. intros _.
       split; [|done]. by rewrite (Hno err eq_refl Hnf). }
  specialize (Hok old eq_refl). destruct (checkServiceLabels old n) eqn:Hl; simpl.
  2: { intros _. rewrite Hv. split; [|done]. rewrite Hok. by intros s [= <-]. }
  assert (Hd := kDelete_view (T:=Service) k0 w'). assert (Hdok := kDelete_ok (T:=Service) k0 w').
  destruct (kDelete k0 w') as [[err|] w2]; simpl in *; [done|].
  assert (Hgoal : (∀ s, kView w2 !! k0 = Some s → checkServiceLabels s n = false) ∧
                  (∀ k, k ≠ k0 → kView w2 !! k = kView (T:=Service) st.2 !! k)).
  { rewrite (Hdok eq_refl). split; [done|]. intros k Hk.
    destruct Hd as [->| ->]; rewrite Hv; [done|]. by rewrite lookup_delete_ne. }
  by destruct (decide _).
Qed.

(** What is stored when adding a service reports no error. *)
Lemma putImportService_ok n svc st :
  checkServiceLabels svc n = true → (putImportService n svc st).1 = None →
  let st' := (putImportService n svc st).2 in
  (∃ s, services st' !! om_key (svc_Meta svc) = Some s ∧ checkServiceLabels s n = true ∧
        same_service_spec s svc) ∧
  (∀ k, k ≠ om_key (svc_Meta svc) → services st' !! k = services st !! k).
Proof.
  intros Hsvc. unfold putImportService. unfold_st. set (key := om_key (svc_Meta svc)).
  assert (Hv := kGet_view (T:=Service) key st.2). assert (Hok := kGet_ok (T:=Service) key st.2).
  destruct (kGet _ st.2) as [[old|err] w']; simpl in *.
  - specialize (Hok old eq_refl). destruct (checkServiceLabels old n) eqn:Hl; simpl; [|done].
    destruct (serviceChanged old svc) eqn:Hch; simpl.
    + assert (Hu := kUpdate_view svc w'). assert (Huok := kUpdate_ok svc w').
      destruct (kUpdate svc w') as [[y|e] w2]; simpl in *; [|done]. intros _. split.
      * exists svc. split_and!; [by eapply Huok|done|done..].
      * intros k Hk. destruct Hu as [->| ->]; [by rewrite Hv|]. by rewrite lookup_insert_ne, Hv.
    + intros _. split; [|by rewrite Hv]. exists old. rewrite Hv.
      split_and!; [done..|]. by apply serviceChanged_spec in Hch.
  - destruct (IsNotFound err); simpl; [|done].
    assert (Hu := kCreate_view svc w'). assert (Huok := kCreate_ok svc w').
    destruct (kCreate svc w') as [[y|e] w2]; simpl in *; [|done]. intros _. split.
    + exists svc. split_and!; [by eapply Huok|done|done..].
    + intros k Hk. destruct Hu as [->|[_ ->]]; [by rewrite Hv|]. by rewrite lookup_insert_ne, Hv.
Qed.

Lemma addImportService_ok imp service st :
  (addImportService imp service st).1 = None →
  let st' := (addImportService imp service st).2 in
  (∃ s, services st' !! om_key (svc_Meta service) = Some s ∧ checkServiceLabels s (imp_key imp) = true ∧
        same_service_spec s service) ∧
  (∀ k, k ≠ om_key (svc_Meta service) → services st' !! k = services st !! k).
Proof.
  unfold addImportService. unfold_st.
  set (svc := set_svc_Labels _ service). intros Hn.
  destruct (decide _); exact (putImportService_ok _ svc _ (checkServiceLabels_import_labels imp service) Hn).
Qed.

(** *** The other calls *)


Lemma delete_slice_services k : keeps keeps_services (delete_slice k).
Proof. unfold delete_slice. keeps_tac. Qed.
Lemma delete_slice_leases k : keeps keeps_leases (delete_slice k).
Proof. unfold delete_slice. keeps_tac. Qed.
Hint Resolve delete_slice_services delete_slice_leases : clink.

Lemma checkImportEndpointSlice_services imp dp : keeps keeps_services (checkImportEndpointSlice imp dp).
Proof. unfold checkImportEndpointSlice. keeps_tac. Qed.
Lemma checkImportEndpointSlice_leases imp dp : keeps keeps_leases (checkImportEndpointSlice imp dp).
Proof. unfold checkImportEndpointSlice. keeps_tac. Qed.
Hint Resolve checkImportEndpointSlice_services checkImportEndpointSlice_leases : clink.

Lemma deleteImportEndpointSlices_services n : keeps keeps_services (deleteImportEndpointSlices n).
Proof. unfold deleteImportEndpointSlices. keeps_all. Qed.
Lemma deleteImportEndpointSlices_leases n : keeps keeps_leases (deleteImportEndpointSlices n).
Proof. unfold deleteImportEndpointSlices. keeps_all. Qed.
Lemma addImportEndpointSlices_services imp : keeps keeps_services (addImportEndpointSlices imp).
Proof. unfold addImportEndpointSlices. keeps_all. Qed.
Lemma addImportEndpointSlices_leases imp : keeps keeps_leases (addImportEndpointSlices imp).
Proof. unfold addImportEndpointSlices. keeps_all. Qed.
Hint Resolve deleteImportEndpointSlices_services deleteImportEndpointSlices_leases
  addImportEndpointSlices_services addImportEndpointSlices_leases : clink.

Lemma addImportService_leases imp svc : keeps keeps_leases (addImportService imp svc).
Proof.
  unfold addImportService, putImportService. refine (keeps_bind _ _ _ _ _); [|intros _; keeps_tac].
  case_decide; [|refine (keeps_ret _ _)]. by apply modify_leases.
Qed.
Hint Resolve addImportService_leases addImportService_foreign : clink.
Lemma addImport_services_leases imp : keeps keeps_leases (addImport_services imp).
Proof. unfold addImport_services. keeps_tac. Qed.
Hint Extern 2 (keeps (keeps_foreign _) _) => apply services_foreign : clink.
Lemma addImport_services_foreign imp : keeps (keeps_foreign (imp_key imp)) (addImport_services imp).
Proof. unfold addImport_services. keeps_tac. Qed.
Lemma addImport_defer_services err imp cond : keeps keeps_services (addImport_defer err imp cond).
Proof. unfold addImport_defer. keeps_tac. Qed.
Lemma addImport_defer_leases err imp cond : keeps keeps_leases (addImport_defer err imp cond).
Proof. unfold addImport_defer. keeps_tac. Qed.

(** *** Imports *)
Section imports.
Context (draw : W → nat → Z).
(** The response to an update has the metadata and the spec that were sent. *)
Hypothesis update_response : ∀ i w i', (kUpdate (T:=Import) i w).1 = Ok i' →
  imp_Meta i' = imp_Meta i ∧ imp_Spec i' = imp_Spec i.

Lemma allocateTargetPort_spec imp st :
  let r := allocateTargetPort draw imp st in
  imp_Meta r.1.2 = imp_Meta imp ∧ services r.2 = services st ∧ namespace r.2.1 = namespace st.1 ∧
  (r.1.1 = None → ∃ p, imp_Spec r.1.2 = imp_Spec (set_TargetPort p imp) ∧
     leasesByName (ports r.2.1) !! imp_key imp = Some p ∧
     (imp_TargetPort (imp_Spec imp) ≠ 0%Z → p = imp_TargetPort (imp_Spec imp))).
Proof.
  unfold allocateTargetPort, with_ports. unfold_st.
  assert (Hl := Lease_ok (draw st.2) (imp_key imp) (imp_TargetPort (imp_Spec imp)) (ports st.1)).
  destruct (Lease _ _ _ (ports st.1)) as [[p|e] pm]; cbn [fst snd] in *; [|by split_and!].
  destruct (Hl p eq_refl) as [Hlk Hp]. case_decide as Hz; cbn [fst snd ports namespace serviceToImport].
  - assert (Hfr := frame_update (T':=Service) (set_TargetPort p imp) st.2).
    assert (Hur := update_response (set_TargetPort p imp) st.2).
    destruct (kUpdate _ st.2) as [[i'|e] w2]; cbn [fst snd ports namespace] in *.
    + destruct (Hur i' eq_refl) as [Hm Hs]. split_and!; [done..|]. intros _. exists p. by rewrite Hs.
    + destruct (Release _ pm). by split_and!.
  - split_and!; [done..|]. intros _. exists p. split_and!; [|done|done].
    rewrite (Hp Hz). unfold set_TargetPort. simpl. by destruct (imp_Spec imp).
Qed.

(** C24: a service in the cluster that does not carry the labels of the import is left as
    it is by adding, updating or deleting the import, also when the handler fails:
    ClusterLink never overwrites or deletes a service of somebody else. *)
Theorem foreign_services_untouched imp n st k s :
  services st !! k = Some s →
  (checkServiceLabels s (imp_key imp) = false → services (addImport draw imp st).2 !! k = Some s) ∧
  (checkServiceLabels s n = false → services (deleteImport n st).2 !! k = Some s).
Proof.
  intros Hk. split; intros Hs.
  - unfold addImport, addImport_body. unfold_st.
    destruct (allocateTargetPort_spec imp st) as (Hm & Hsv & _).
    destruct (allocateTargetPort _ imp st) as [[err imp'] st1]. cbn [fst snd] in *.
    assert (Hk1 : services st1 !! k = Some s) by by rewrite Hsv.
    destruct err as [e|]; cbn [fst snd]; [by rewrite addImport_defer_services|].
    assert (Hkey : imp_key imp' = imp_key imp) by (unfold imp_key; by rewrite Hm).
    assert (Hf := addImport_services_foreign imp' st1 k s Hk1). rewrite Hkey in Hf. specialize (Hf Hs).
    destruct (addImport_services imp' st1) as [err st2]. cbn [fst snd] in *.
    by rewrite addImport_defer_services.
  - assert (Hkeep : keeps (keeps_foreign n) (deleteImport n)); [|by apply Hkeep].
    unfold deleteImport. keeps_tac; try apply deleteImportService_foreign.
Qed.

Lemma import_ext ns i1 i2 :
  imp_Meta i1 = imp_Meta i2 → imp_Spec i1 = imp_Spec i2 →
  imp_key i1 = imp_key i2 ∧ is_merge i1 = is_merge i2 ∧ imp_Namespace i1 = imp_Namespace i2 ∧
  systemService ns i1 = systemService ns i2 ∧ userService ns i1 = userService ns i2.
Proof.
  intros Hm Hs. unfold systemService, userService, import_service_name, is_merge, imp_key, imp_Labels,
    imp_Namespace, imp_Name. rewrite Hm, Hs. split_and!; done.
Qed.

(** The own services of an import that is not a merge import. *)
Definition import_services_ok (ns : string) (imp : Import) (st : state) : Prop :=
  (∃ s, services st !! om_key (svc_Meta (systemService ns imp)) = Some s ∧
        checkServiceLabels s (imp_key imp) = true ∧ same_service_spec s (systemService ns imp)) ∧
  (imp_Namespace imp ≠ ns →
   ∃ s, services st !! om_key (svc_Meta (userService ns imp)) = Some s ∧
        checkServiceLabels s (imp_key imp) = true ∧ same_service_spec s (userService ns imp)).

Lemma addImport_services_ok imp st :
  is_merge imp = false → (addImport_services imp st).1 = None →
  import_services_ok (namespace st.1) imp (addImport_services imp st).2.
Proof.
  intros Hmg. unfold addImport_services. rewrite Hmg. unfold_st.
  assert (Hl1 := deleteImportEndpointSlices_leases (imp_key imp) st).
  destruct (deleteImportEndpointSlices _ st) as [[e|] st1]; cbn [fst snd] in *; [done|].
  destruct Hl1 as [_ Hns]. rewrite <- Hns. set (ns := namespace st1.1).
  assert (Hok := addImportService_ok imp (systemService ns imp) st1).
  destruct (addImportService imp (systemService ns imp) st1) as [[e|] st2]; cbn [fst snd] in *; [done|].
  destruct (Hok eq_refl) as [Hsys _]. case_decide as Hin; cbn [fst snd]; [by split|].
  assert (Hok2 := addImportService_ok imp (userService ns imp) st2).
  destruct (addImportService imp (userService ns imp) st2) as [err st3]; cbn [fst snd] in *.
  intros ->. destruct (Hok2 eq_refl) as [Husr Hrest]. split; [|done].
  destruct Hsys as (s & Hs & Hlab). exists s. split; [|done].
  rewrite Hrest; [done|]. intros Heq. apply (f_equal Namespace) in Heq. simpl in Heq. congruence.
Qed.

Lemma addImport_defer_none err imp cond st : (addImport_defer err imp cond st).1 = None → err = None.
Proof.
  destruct err as [e|]; [|done]. unfold addImport_defer. case_match; unfold_st; [|by simpl; case_match].
  destruct (kStatusUpdate _ _) as [[|] w]; simpl; [by case_match|done].
Qed.

(** C25: when addImport reports no error, the import holds a lease on the target port it
    was given (the one of its spec, if that names one), and, unless it is a merge
    import, the cluster has its own service to the dataplane on that port, and its own
    alias service in the import's namespace when that is another one. *)
Theorem addImport_ok imp st :
  (addImport draw imp st).1 = None →
  let st' := (addImport draw imp st).2 in
  ∃ p, leasesByName (ports st'.1) !! imp_key imp = Some p ∧
    (imp_TargetPort (imp_Spec imp) ≠ 0%Z → p = imp_TargetPort (imp_Spec imp)) ∧
    (is_merge imp = false → import_services_ok (namespace st.1) (set_TargetPort p imp) st').
Proof.
  unfold addImport, addImport_body. unfold_st.
  destruct (allocateTargetPort_spec imp st) as (Hm & Hsv & Hns & Hp).
  destruct (allocateTargetPort _ imp st) as [[err imp'] st1]. cbn [fst snd] in *.
  destruct err as [e|]; cbn [fst snd]; [by intros ?%addImport_defer_none|].
  destruct (Hp eq_refl) as (p & Hspec & Hlease & Hport).
  assert (Hl2 := addImport_services_leases imp' st1). assert (Hpost := addImport_services_ok imp' st1).
  destruct (addImport_services imp' st1) as [err st2]. cbn [fst snd] in *.
  intros Hnone. assert (Herr := addImport_defer_none _ _ _ _ Hnone). subst err.
  set (cond := mkCond _ _ _ _) in *.
  assert (Hl3 := addImport_defer_leases None imp' cond st2).
  assert (Hs3 := addImport_defer_services None imp' cond st2). unfold keeps_services in Hs3.
  destruct Hl2 as [Hl2 _], Hl3 as [Hl3 _]. exists p. rewrite Hl3, Hl2. split_and!; [done|done|].
  intros Hmg. destruct (import_ext (namespace st1.1) imp' (set_TargetPort p imp) Hm Hspec) as (Hk & Hmg' & Hn & Hsys & Husr).
  assert (Hmi : is_merge imp' = false) by (rewrite Hmg'; exact Hmg).
  specialize (Hpost Hmi eq_refl). unfold import_services_ok in *.
  rewrite Hs3, <- Hns, <- Hk, <- Hn, <- Hsys, <- Husr. exact Hpost.
Qed.
End imports.

(** *** Deleting an import *)

Lemma delete_slice_ok k st :
  (delete_slice k st).1 = None →
  slices (delete_slice k st).2 !! k = None ∧
  (∀ k', slices (delete_slice k st).2 !! k' = None ∨ slices (delete_slice k st).2 !! k' = slices st !! k').
Proof.
  unfold delete_slice. unfold_st. assert (Hv := kDelete_view (T:=EndpointSlice) k st.2).
  assert (Hok := kDelete_ok (T:=EndpointSlice) k st.2). assert (Hno := kDelete_notfound (T:=EndpointSlice) k st.2).
  destruct (kDelete k st.2) as [err w']. cbn [fst snd] in *. intros Hn. split.
  - destruct err as [e|]; [|by apply Hok]. destruct (IsNotFound e) eqn:He; [|done]. by eapply Hno.
  - intros k'. destruct Hv as [->| ->]; [by right|].
    destruct (decide (k = k')) as [->|]; [left; apply lookup_delete_eq|right; by apply lookup_delete_ne].
Qed.

Lemma delete_slices_ok (l : list EndpointSlice) st :
  let f := for_err (λ s, delete_slice (om_key (es_Meta s))) l in
  (f st).1 = None →
  (∀ s, s ∈ l → slices (f st).2 !! om_key (es_Meta s) = None) ∧
  (∀ k, slices (f st).2 !! k = None ∨ slices (f st).2 !! k = slices st !! k).
Proof.
  simpl. revert st. induction l as [|s l IH]; intros st; simpl.
  { intros _. split; [set_solver|]. intros k. by right. }
  unfold_st. assert (Hd := delete_slice_ok (om_key (es_Meta s)) st).
  destruct (delete_slice _ st) as [[e|] st1]; cbn [fst snd] in *; [done|]. intros Hn.
  destruct (Hd eq_refl) as [Hgone Hk1]. destruct (IH st1 Hn) as [Hall Hk2]. split.
  - intros s' [->|Hin]%elem_of_cons; [|by apply Hall].
    destruct (Hk2 (om_key (es_Meta s))) as [->| ->]; done.
  - intros k. destruct (Hk2 k) as [->| ->]; [by left|]. apply Hk1.
Qed.

(** The slices that were made for an import. *)
Definition slice_of (n : NamespacedName) (x : EndpointSlice) : Prop :=
  Namespace (om_key (es_Meta x)) = Namespace n ∧
  <[discv1_LabelManagedBy := AppName]> {[ discv1_LabelServiceName := Name n ]} ⊆ om_Labels (es_Meta x).

Lemma deleteImportEndpointSlices_ok n st :
  (deleteImportEndpointSlices n st).1 = None →
  ∀ k x, slices (deleteImportEndpointSlices n st).2 !! k = Some x → ¬ slice_of n x.
Proof.
  unfold deleteImportEndpointSlices. unfold_st.
  set (o := mkListOptions _ _). assert (Hv := kList_view (T:=EndpointSlice) o st.2).
  assert (Hok := kList_ok (T:=EndpointSlice) o st.2).
  destruct (kList o st.2) as [[l|e] w']; cbn [fst snd] in *; [|done].
  intros Hn k x Hx [Hns Hlab]. destruct (delete_slices_ok l (st.1, w') Hn) as [Hall Hk].
  assert (Hkey := kView_key _ _ _ Hx). cbn [kKey EndpointSlice_object] in Hkey.
  destruct (Hk k) as [H1|H1]; [congruence|]. cbn [snd] in H1. rewrite H1, Hv in Hx.
  assert (Hin : x ∈ l).
  { apply (Hok l eq_refl). cbn [kKey kLabels EndpointSlice_object]. rewrite Hkey. split_and!; [done|done|].
    intros ns [= <-]. by rewrite <- Hkey. }
  specialize (Hall x Hin). rewrite Hkey, H1 in Hall. cbn [snd] in Hall. rewrite Hv in Hall. congruence.
Qed.

Lemma outside_slices {A} (f : ST W A) :
  (∀ w, kView (T:=EndpointSlice) (f w).2 = kView w) → ∀ st, slices (outside f st).2 = slices st.
Proof. intros Hf st. unfold_st. specialize (Hf st.2). by destruct (f st.2). Qed.

(** C26: after deleteImport the target port of the import is free, whatever failed; and
    when no error is reported, neither of its services and none of its endpoint slices
    is left in the cluster. *)
Theorem deleteImport_ok n st :
  let st' := (deleteImport n st).2 in
  leasesByName (ports st'.1) !! n = None ∧
  ((deleteImport n st).1 = None →
   (∀ s, services st' !! n = Some s → checkServiceLabels s n = false) ∧
   (Namespace n ≠ namespace st.1 → ∀ s, services st' !! mkNN (namespace st.1) (SystemServiceName n) = Some s →
      checkServiceLabels s n = false) ∧
   (∀ k x, slices st' !! k = Some x → ¬ slice_of n x)).
Proof.
  unfold deleteImport. unfold_st. set (sys := mkNN (namespace st.1) (SystemServiceName n)).
  assert (H0 := deleteImportService_ok n n st).
  destruct (deleteImportService n n st) as [err0 st0]; cbn [fst snd] in *.
  assert (H1 : let call := (if decide (Namespace n ≠ namespace st.1) then deleteImportService sys n else λ s, (None, s)) st0 in
    call.1 = None →
    (Namespace n ≠ namespace st.1 → ∀ s, services call.2 !! sys = Some s → checkServiceLabels s n = false) ∧
    services call.2 !! n = services st0 !! n).
  { cbv zeta. case_decide as Hns; [|done]. intros Hn. destruct (deleteImportService_ok sys n st0 Hn) as [Hs Hk].
    split; [done|]. apply Hk. intros Heq. apply Hns. by rewrite Heq. }
  destruct ((if decide (Namespace n ≠ namespace st.1) then deleteImportService sys n else λ s, (None, s)) st0)
    as [err1 st1]; cbn [fst snd] in *.
  assert (H2 := deleteImportEndpointSlices_ok n st1). assert (Hsv := deleteImportEndpointSlices_services n st1).
  destruct (deleteImportEndpointSlices n st1) as [err2 st2]; cbn [fst snd] in *.
  unfold with_ports. assert (Hfree := Release_free n (ports st2.1)).
  destruct (Release n (ports st2.1)) as [u pm]; cbn [fst snd ports] in *. split; [done|].
  intros Hj%errors_Join_none. rewrite !Forall_cons in Hj. destruct Hj as (-> & -> & -> & _).
  destruct (H0 eq_refl) as [Hs0 _]. destruct (H1 eq_refl) as [Hs1 Hn1]. rewrite Hsv, Hn1.
  split_and!; [done|done|]. by apply H2.
Qed.

(** *** The map from system services to imports *)

(** Deleting an import never removes its entry from the map of system services:
    after the label check of deleteImportService the test that guards the removal
    can not hold. *)
Theorem serviceToImport_never_shrinks n st :
  serviceToImport (deleteImport n st).2.1 = serviceToImport st.1.
Proof using Type.
  set (R := λ st st' : state, serviceToImport st'.1 = serviceToImport st.1).
  assert (HR : PreOrder R). { split; [by intros ?|]. intros x y z Hxy Hyz. unfold R in *. congruence. }
  assert (Ho : ∀ A (f : ST W A), keeps R (outside f)). { intros A f s. unfold R, outside. by destruct (f s.2). }
  assert (Hs : ∀ k, keeps R (deleteImportService k n)).
  { intros k s. unfold R, deleteImportService. unfold_st.
    destruct (kGet _ s.2) as [[old|e] w']; [|by case_match]. destruct (checkServiceLabels old n) eqn:Hl; [|done].
    cbn [negb]. destruct (kDelete _ _) as [[e|] w2]; [done|]. cbn [fst snd]. rewrite decide_False; [done|].
    unfold checkServiceLabels in Hl. apply bool_decide_eq_true in Hl as (_ & _ & Hns).
    unfold label_of. rewrite Hns. simpl. intros H. by apply H. }
  assert (Hd : ∀ k, keeps R (delete_slice k)).
  { intros k. unfold delete_slice. refine (keeps_bind _ _ _ _ _); [apply Ho|intros; refine (keeps_ret _ _)]. }
  assert (Hsl : keeps R (deleteImportEndpointSlices n)).
  { unfold deleteImportEndpointSlices. refine (keeps_bind _ _ _ _ _); [apply Ho|intros r].
    case_match; [|refine (keeps_ret _ _)]. refine (keeps_for_err _ _ _ _). intros s. apply Hd. }
  assert (Hw : ∀ A (f : ST portManager A), keeps R (with_ports f)).
  { intros A f s. unfold R, with_ports. by destruct (f _). }
  assert (Hk : keeps R (deleteImport n)); [|apply Hk].
  unfold deleteImport. keeps_tac; try apply Hs; try apply Hsl; apply Hw.
Qed.

(** *** Stale ports *)

(** An import endpoint slice whose port is not the target port of the import any
    more is not corrected: the comparison does not look at the ports. *)
Theorem stale_slice_port_kept imp dp st st1 :
  let slice := import_endpoint_slice imp dp in
  ∀ old, kGet (om_key (es_Meta slice)) st.2 = (Ok old, st1) →
  es_AddressType old = es_AddressType slice → om_Labels (es_Meta old) = om_Labels (es_Meta slice) →
  es_Endpoints old = es_Endpoints slice →
  checkImportEndpointSlice imp dp st = (None, (st.1, st1)).
Proof using Type.
  intros slice old Hg H1 H2 H3. unfold checkImportEndpointSlice. unfold_st. fold slice. rewrite Hg.
  assert (Hch : endpointSliceChanged slice old = false).
  { unfold endpointSliceChanged. rewrite H1, H2, H3. rewrite !decide_False by (intros H; by apply H).
    apply not_true_iff_false. intros ([e1 e2] & Hin & Hc)%existsb_exists. simpl in Hc.
    assert (He : e1 = e2).
    { apply list_elem_of_In, elem_of_zip_same in Hin. done. }
    subst e2. revert Hc. unfold endpoint_changed. rewrite !decide_False by (intros H; by apply H).
    assert (Hb : ∀ b, boolPointerChanged b b = false) by (intros [[]|]; done). rewrite !Hb.
    destruct (existsb _ _) eqn:Hx; [|done]. apply existsb_exists in Hx as ([a b] & Hin2 & Hab).
    apply list_elem_of_In, elem_of_zip_same in Hin2. apply bool_decide_eq_true in Hab. done. }
  by rewrite Hch.
Qed.
End services.

(** ** The secret of the signing key *)
Section secret.
Context {EN : Encodings} {W : Type} {KC : KubeClient W Secret} {RB : RandBytes W} {CL : KubeClientLaws W Secret}.
Hypothesis rand_frame : ∀ n w, kView (T:=Secret) (rand_Read n w).2 = kView w.

(** The check of the signing key does the opposite of what it says: a secret that
    exists is never parsed, so a bad one is never replaced; and a secret that is
    missing is updated, not created, so the handler fails and it stays missing. *)
Theorem checkJWKSecret_inverted (st : Manager * W) :
  let name := mkNN (namespace st.1) JWKSecretName in
  (∀ s w', kGet (T:=Secret) name st.2 = (Ok s, w') → checkJWKSecret name st = (None, (st.1, w'))) ∧
  (∀ e w', kGet (T:=Secret) name st.2 = (Err e, w') → kView (T:=Secret) st.2 !! name = None →
     (checkJWKSecret name st).1 ≠ None ∧ kView (T:=Secret) (checkJWKSecret name st).2.2 !! name = None).
Proof using All.
  intros name. assert (Hname : ¬ (Namespace name ≠ namespace st.1 ∨ Name name ≠ JWKSecretName)).
  { simpl. by intros [H|H]. }
  unfold checkJWKSecret. unfold_st. rewrite !decide_False by done. fold name. split.
  - intros s w' Hg. by rewrite Hg.
  - intros e w' Hg Hmiss. rewrite Hg. assert (Hv := kGet_view (T:=Secret) name st.2). rewrite Hg in Hv.
    cbn [snd] in Hv. unfold ParseJWKSSecret. cbn [sec_Data]. rewrite lookup_empty.
    unfold writeJWKSecret. unfold_st. unfold generateJWKSecret. unfold_st.
    assert (Hr := rand_frame 32 w'). destruct (rand_Read 32 w') as [[b|e'] w2]; cbn [fst snd] in *.
    2: { split; [done|]. by rewrite Hr, Hv. }
    set (new := newJWKSecret _ _). assert (Hn : kView w2 !! kKey new = None) by (rewrite Hr, Hv; done).
    destruct (kUpdate_missing new w2 Hn) as [[e' He'] Hu].
    destruct (kUpdate new w2) as [r w3]; cbn [fst snd] in *. subst r. split; [done|]. by rewrite Hu.
Qed.
End secret.

(** ** Status conditions *)
Section status.
Context {NS : NamespacedNameString} `{SCL : StatusConditionsLaws}.

Lemma same_condition_unchanged cs c c' :
  FindStatusCondition cs (cond_Type c) = Some c' → same_condition c' c → conditionChanged cs c = false.
Proof using All.
  intros Hf (_ & H2 & H3 & H4). unfold conditionChanged. rewrite Hf, H2, H3, H4.
  rewrite !decide_False by (intros Hx; by apply Hx).
  apply bool_decide_eq_false. intros Hx. by apply Hx.
Qed.

(** A condition that was set is not seen as changed, and setting another one does
    not undo it: a reconciliation that finds the same state again does not write the
    status again. *)
Theorem status_settles now cs c1 c2 :
  cond_Type c1 ≠ cond_Type c2 →
  let cs' := SetStatusCondition now (SetStatusCondition now cs c1) c2 in
  conditionChanged cs' c1 = false ∧ conditionChanged cs' c2 = false.
Proof using All.
  intros Hne cs'. split.
  - destruct (Find_Set_eq now cs c1) as (c' & Hf & Hs).
    apply (same_condition_unchanged _ _ c'); [|done]. unfold cs'. by rewrite Find_Set_ne.
  - destruct (Find_Set_eq now (SetStatusCondition now cs c1) c2) as (c' & Hf & Hs).
    by apply (same_condition_unchanged _ _ c').
Qed.
End status.

(** ** Witnesses: a cluster in memory *)
Record kube := mkKube {
  kube_imports : gmap NamespacedName Import;
  kube_services : gmap NamespacedName Service;
  kube_slices : gmap NamespacedName EndpointSlice;
  kube_secrets : gmap NamespacedName Secret
}.
#[local] Instance kube_imp : Store kube Import :=
  {| st_get w := keyed (kube_imports w); st_set m w := mkKube m (kube_services w) (kube_slices w) (kube_secrets w) |}.
#[local] Instance kube_svc : Store kube Service :=
  {| st_get w := keyed (kube_services w); st_set m w := mkKube (kube_imports w) m (kube_slices w) (kube_secrets w) |}.
#[local] Instance kube_slice : Store kube EndpointSlice :=
  {| st_get w := keyed (kube_slices w); st_set m w := mkKube (kube_imports w) (kube_services w) m (kube_secrets w) |}.
#[local] Instance kube_secret : Store kube Secret :=
  {| st_get w := keyed (kube_secrets w); st_set m w := mkKube (kube_imports w) (kube_services w) (kube_slices w) m |}.
#[local] Instance kube_svc_laws : StoreLaws kube Service.
Proof. split; simpl; intros; [by apply keyed_id|apply keyed_well_keyed]. Qed.
#[local] Instance kube_slice_laws : StoreLaws kube EndpointSlice.
Proof. split; simpl; intros; [by apply keyed_id|apply keyed_well_keyed]. Qed.
#[local] Instance kube_secret_laws : StoreLaws kube Secret.
Proof. split; simpl; intros; [by apply keyed_id|apply keyed_well_keyed]. Qed.

#[local] Existing Instance ref_nn_string.
#[local] Existing Instance ref_encodings.
#[local] Instance kube_ki : KubeClient kube Import := mem_client.
#[local] Instance kube_ks : KubeClient kube Service := mem_client.
#[local] Instance kube_kl : KubeClient kube EndpointSlice := mem_client.
#[local] Instance kube_kc : KubeClient kube Secret := mem_client.
#[local] Instance kube_svc_client : KubeClientLaws kube Service := mem_laws.
#[local] Instance kube_slice_client : KubeClientLaws kube EndpointSlice := mem_laws.
#[local] Instance kube_secret_client : KubeClientLaws kube Secret := mem_laws.
#[local] Instance kube_f1 : KubeFrame kube Import Service.
Proof. apply mem_frame. split. done. Qed.
#[local] Instance kube_f2 : KubeFrame kube EndpointSlice Service.
Proof. apply mem_frame. split. done. Qed.
#[local] Instance kube_f3 : KubeFrame kube Service EndpointSlice.
Proof. apply mem_frame. split. done. Qed.
#[local] Instance kube_f4 : KubeFrame kube Import EndpointSlice.
Proof. apply mem_frame. split. done. Qed.
#[local] Instance kube_clock : Clock kube := {| clock_now _ := 7%Z |}.
#[local] Instance kube_rand : RandBytes kube := {| rand_Read _ := mret (Ok "0123456789abcdef0123456789abcdef") |}.
#[local] Instance kube_names : ServiceNames := {| md5_hex s := s; ShortenString s n := str_take n s |}.

Definition ex_zero (_ : kube) (_ : nat) : Z := 0%Z.
Definition ex_imp : Import :=
  mkImport (mkMeta "web" "default" ∅) (mkImportSpec 80 0 [mkSource "peer1" "web" "default"] "") [].
Definition ex_foreign : Service :=
  mkService (mkMeta "web" "default" ∅) ServiceTypeClusterIP "" {[ "app" := "mine" ]} [].
Definition ex_kube (svcs : list Service) : kube :=
  mkKube {[ mkNN "default" "web" := ex_imp ]} (list_to_map ((λ s, (kKey s, s)) <$> svcs)) ∅ ∅.
Definition ex_mgr : Manager := NewManager "clusterlink-system".

Lemma ex_update_response i (w : kube) i' :
  (kUpdate (T:=Import) i w).1 = Ok i' → imp_Meta i' = imp_Meta i ∧ imp_Spec i' = imp_Spec i.
Proof.
  unfold kUpdate, kube_ki, mem_client, mem_Update. case_match; simpl; [|done]. by intros [= <-].
Qed.

(** The import is refused the service of somebody else, and leaves it alone. *)
Example ex_conflict :
  (addImport ex_zero ex_imp (ex_mgr, ex_kube [ex_foreign])).1 =
    Some (ETerminal (EConflictingService (mkNN "default" "web") "")).
Proof. vm_compute. reflexivity. Qed.

Lemma foreign_services_untouched_witness :
  kView (T:=Service) (addImport ex_zero ex_imp (ex_mgr, ex_kube [ex_foreign])).2.2 !! mkNN "default" "web" = Some ex_foreign.
Proof.
  assert (Hk : kView (T:=Service) (ex_mgr, ex_kube [ex_foreign]).2 !! mkNN "default" "web" = Some ex_foreign)
    by (vm_compute; reflexivity).
  destruct (foreign_services_untouched ex_zero ex_update_response ex_imp (mkNN "default" "web")
              (ex_mgr, ex_kube [ex_foreign]) (mkNN "default" "web") ex_foreign Hk) as [Hadd _].
  apply Hadd. vm_compute. reflexivity.
Defined.

Lemma addImport_ok_witness :
  let st' := (addImport ex_zero ex_imp (ex_mgr, ex_kube [])).2 in
  ∃ p, leasesByName (ports st'.1) !! imp_key ex_imp = Some p ∧
    (imp_TargetPort (imp_Spec ex_imp) ≠ 0%Z → p = imp_TargetPort (imp_Spec ex_imp)) ∧
    (is_merge ex_imp = false → import_services_ok "clusterlink-system" (set_TargetPort p ex_imp) st').
Proof.
  apply (addImport_ok ex_zero ex_update_response ex_imp (ex_mgr, ex_kube [])). vm_compute. reflexivity.
Defined.

Lemma deleteImport_ok_witness :
  let st := (addImport ex_zero ex_imp (ex_mgr, ex_kube [])).2 in
  leasesByName (ports (deleteImport (mkNN "default" "web") st).2.1) !! mkNN "default" "web" = None ∧
  ∀ s, kView (T:=Service) (deleteImport (mkNN "default" "web") st).2.2 !! mkNN "default" "web" = Some s →
       checkServiceLabels s (mkNN "default" "web") = false.
Proof.
  destruct (deleteImport_ok (mkNN "default" "web") (addImport ex_zero ex_imp (ex_mgr, ex_kube [])).2) as [Hl Hs].
  assert (Hn : (deleteImport (mkNN "default" "web") (addImport ex_zero ex_imp (ex_mgr, ex_kube [])).2).1 = None)
    by (vm_compute; reflexivity).
  destruct (Hs Hn) as [Hs1 _]. split; [exact Hl|exact Hs1].
Defined.

Definition ex_dp : EndpointSlice :=
  mkEndpointSlice (mkMeta "clusterlink-x1" "clusterlink-system" ∅) AddressTypeIPv4
    [mkSliceEndpoint ["10.0.0.9"] (mkEndpointConditions (Some true) None None)] [].
Definition ex_stale : EndpointSlice :=
  let s := import_endpoint_slice ex_imp ex_dp in
  mkEndpointSlice (es_Meta s) (es_AddressType s) (es_Endpoints s) [mkEndpointPort (Some 9999%Z) (Some ProtocolTCP)].
Definition ex_stale_kube : kube := mkKube ∅ ∅ {[ om_key (es_Meta ex_stale) := ex_stale ]} ∅.
Lemma ex_stale_get : kGet (om_key (es_Meta (import_endpoint_slice ex_imp ex_dp))) ex_stale_kube = (Ok ex_stale, ex_stale_kube).
Proof. vm_compute. reflexivity. Qed.
Lemma stale_slice_port_kept_witness :
  checkImportEndpointSlice ex_imp ex_dp (ex_mgr, ex_stale_kube) = (None, (ex_mgr, ex_stale_kube)).
Proof.
  exact (stale_slice_port_kept ex_imp ex_dp (ex_mgr, ex_stale_kube) ex_stale_kube ex_stale
           ex_stale_get eq_refl eq_refl eq_refl).
Defined.

Lemma ex_rand_frame n (w : kube) : kView (T:=Secret) (rand_Read n w).2 = kView w.
Proof. done. Qed.
Lemma checkJWKSecret_inverted_witness :
  (checkJWKSecret (mkNN "clusterlink-system" "jwk") (ex_mgr, ex_kube [])).1 ≠ None.
Proof.
  destruct (checkJWKSecret_inverted ex_rand_frame (ex_mgr, ex_kube [])) as [_ Hmissing].
  destruct (Hmissing not_found (ex_kube [])) as [Hn _]; [vm_compute; reflexivity..|]. exact Hn.
Defined.

Lemma iesn_round_trip_witness :
  iesn_Parse (iesn_Get (mkIESN "my-web-svc" "clusterlink-abc-1")) = Some (mkIESN "my-web-svc" "clusterlink-abc-1").
Proof. apply iesn_round_trip; vm_compute; congruence. Defined.

Lemma status_settles_witness :
  let cs' := SetStatusCondition 7 (SetStatusCondition 7 [] (mkCond ImportTargetPortValid "True" "Leased" ""))
               (mkCond ImportServiceValid "True" "Valid" "") in
  conditionChanged cs' (mkCond ImportTargetPortValid "True" "Leased" "") = false ∧
  conditionChanged cs' (mkCond ImportServiceValid "True" "Valid" "") = false.
Proof. apply (status_settles 7 []). discriminate. Defined.
