(* ===== verification/Envoy.v ===== *)
(** * The Envoy resources the control plane and the data plane exchange

    The message types of [github.com/envoyproxy/go-control-plane], with the fields
    the sources use; the encoders of protobuf messages and the linear cache are
    interfaces.  A nil message is [None]; a Go [uint32] field is a [Z]. *)
From S2P Require Export Net.
From stdpp Require Import options.
From Stdlib Require Import ZArith Lia.

(** ** Messages *)

(** [core.SocketAddress]. *)
Record SocketAddress := mkSocketAddress { sa_Address : string; sa_PortValue : Z }.
(** [core.Address]; [None] is an address of another kind. *)
Record Address := mkAddress { addr_SocketAddress : option SocketAddress }.

Record EndpointMsg := mkEndpointMsg { epm_Address : option Address; epm_Hostname : string }.
(** [endpoint.LbEndpoint]; [None] is a host identifier of another kind. *)
Record LbEndpoint := mkLbEndpoint { lbe_Endpoint : option EndpointMsg }.
(** [endpoint.LocalityLbEndpoints]; a nil [LbEndpoint] is not decoded from a message. *)
Record LocalityLbEndpoints := mkLocality { loc_LbEndpoints : list LbEndpoint }.
Record ClusterLoadAssignment := mkAssignment {
  cla_ClusterName : string; cla_Endpoints : list LocalityLbEndpoints
}.

(** [core.ConfigSource] of the aggregated discovery service; nanoseconds. *)
Record ConfigSource := mkConfigSource { cs_InitialFetchTimeout : Z }.
Record SdsSecretConfig := mkSds { sds_Name : string; sds_SdsConfig : ConfigSource }.
Record UpstreamTlsContext := mkUpstreamTls {
  Sni : string;
  TlsCertificateSdsSecretConfigs : list SdsSecretConfig;
  ValidationContextSdsSecretConfig : option SdsSecretConfig
}.

(** [core.HeaderValueOption]. *)
Record HeaderValueOption := mkHeaderOption { hvo_Key : string; hvo_Value : string; hvo_KeepEmptyValue : bool }.
Record TunnelingConfig := mkTunneling { tun_Hostname : string; tun_HeadersToAdd : list HeaderValueOption }.
Record TcpProxy := mkTcpProxy {
  tp_StatPrefix : string; tp_Cluster : string; tp_TunnelingConfig : option TunnelingConfig
}.

(** [core.DataSource]; [None] when no bytes are embedded. *)
Record DataSource := mkDataSource { ds_InlineBytes : option string }.
Inductive SecretType :=
  | Secret_TlsCertificate (CertificateChain PrivateKey : option DataSource)
  | Secret_ValidationContext (TrustedCa : option DataSource)
  | Secret_Other.
Record TLSSecret := mkTLSSecret { tsec_Name : string; tsec_Type : SecretType }.

Inductive DiscoveryType := STATIC | STRICT_DNS.

(** ** [anypb.New] of the messages that are embedded in others *)
Class AnyPB := {
  Any : Type;
  any_New_dns : result Any;                    (* an empty GetAddrInfoDnsResolverConfig *)
  any_New_tls : UpstreamTlsContext → result Any;
  any_New_tcp_proxy : TcpProxy → result Any
}.

Section messages.
Context {AP : AnyPB}.

Record Cluster := mkCluster {
  cl_Name : string;
  cl_ConnectTimeout : Z;
  cl_DnsRefreshRate : Z;
  cl_Type : DiscoveryType;
  cl_TypedDnsResolverConfig : option (string * Any);
  cl_LoadAssignment : option ClusterLoadAssignment;
  cl_TransportSocket : option (string * Any)
}.

Record Filter := mkFilter { flt_Name : string; flt_TypedConfig : option Any }.
Record Listener := mkListener {
  ln_Name : string; ln_Address : option Address; ln_FilterChains : list (list Filter)
}.

(** The targets of a cluster, where every level is there: address, port, host name. *)
Definition lbe_target (e : LbEndpoint) : option (string * Z * string) :=
  ep ← lbe_Endpoint e; a ← epm_Address ep; sa ← addr_SocketAddress a;
  Some (sa_Address sa, sa_PortValue sa, epm_Hostname ep).
Definition cluster_targets (c : Cluster) : option (list (string * Z * string)) :=
  cla ← cl_LoadAssignment c;
  match cla_Endpoints cla with
  | [loc] => mapM lbe_target (loc_LbEndpoints loc)
  | _ => None
  end.
End messages.

(** ** A stream of resources: [anypb.UnmarshalTo], and how the cache sends them *)
Class ResourceCodec {AP : AnyPB} := {
  Resource : Type;
  UnmarshalCluster : Resource → result Cluster;
  UnmarshalListener : Resource → result Listener;
  UnmarshalSecret : Resource → result TLSSecret;
  MarshalCluster : Cluster → Resource;
  MarshalListener : Listener → Resource;
  MarshalSecret : TLSSecret → Resource
}.
Class ResourceCodecLaws {AP : AnyPB} `{!ResourceCodec} := {
  cluster_round_trip c : UnmarshalCluster (MarshalCluster c) = Ok c;
  listener_round_trip l : UnmarshalListener (MarshalListener l) = Ok l;
  secret_round_trip s : UnmarshalSecret (MarshalSecret s) = Ok s
}.

(** ** [cache.LinearCache] *)
Class LinearCache (R : Type) := {
  Cache : Type;
  NewLinearCache : Cache;
  UpdateResource : string → R → ST Cache (option error);
  DeleteResource : string → ST Cache (option error);
  GetResources : Cache → gmap string R
}.
Arguments Cache R {_}.
Arguments NewLinearCache {R _}.

(** A call that fails leaves the resources as they were, or has its effect (when
    only the notification of the watches failed). *)
Class LinearCacheLaws (R : Type) `{!LinearCache R} := {
  new_resources : GetResources NewLinearCache = ∅;
  update_resources n r c :
    GetResources (UpdateResource n r c).2 = <[n := r]> (GetResources c) ∨
    GetResources (UpdateResource n r c).2 = GetResources c ∧ (UpdateResource n r c).1 ≠ None;
  delete_resources n c :
    GetResources (DeleteResource n c).2 = delete n (GetResources c) ∨
    GetResources (DeleteResource n c).2 = GetResources c ∧ (DeleteResource n c).1 ≠ None
}.

(** ** Reference instances *)
Inductive ref_any := RefDns | RefTls (c : UpstreamTlsContext) | RefTcpProxy (p : TcpProxy).
Definition ref_anypb : AnyPB := {|
  Any := ref_any; any_New_dns := Ok RefDns;
  any_New_tls c := Ok (RefTls c); any_New_tcp_proxy p := Ok (RefTcpProxy p)
|}.

Inductive ref_resource :=
  | RefCluster (c : @Cluster ref_anypb) | RefListener (l : @Listener ref_anypb) | RefSecret (s : TLSSecret).
Definition ref_codec : @ResourceCodec ref_anypb := {|
  Resource := ref_resource;
  UnmarshalCluster r := match r with RefCluster c => Ok c | _ => Err (ENew "mismatched message type") end;
  UnmarshalListener r := match r with RefListener l => Ok l | _ => Err (ENew "mismatched message type") end;
  UnmarshalSecret r := match r with RefSecret s => Ok s | _ => Err (ENew "mismatched message type") end;
  MarshalCluster := RefCluster; MarshalListener := RefListener; MarshalSecret := RefSecret
|}.
#[export] Instance ref_codec_laws : @ResourceCodecLaws ref_anypb ref_codec.
Proof. by split. Qed.

Definition ref_cache (R : Type) : LinearCache R := {|
  Cache := gmap string R; NewLinearCache := ∅;
  UpdateResource n r c := (None, <[n := r]> c);
  DeleteResource n c := (None, delete n c);
  GetResources := id
|}.
#[export] Instance ref_cache_laws R : @LinearCacheLaws R (ref_cache R).
Proof. split; simpl; auto. Qed.
