(* ===== verification/Xds.v ===== *)
(** * The xDS manager of the control plane

    [pkg/controlplane/xds/manager.go]: peers and exports become clusters, imports
    become listeners, and the certificates become secrets, in three linear caches
    that the data planes subscribe to. *)
From S2P Require Export Envoy.
From stdpp Require Import options.
From Stdlib Require Import ZArith Lia.

(** [time.Second]. *)
Definition Second : Z := 1000000000.
(** [wellknown.TransportSocketTLS], [wellknown.TCPProxy]. *)
Definition TransportSocketTLS : string := "envoy.transport_sockets.tls".
Definition TCPProxy_name : string := "envoy.filters.network.tcp_proxy".

Section xds.
Context {SC : StatusConditions} {AP : AnyPB}.
Context {LC : LinearCache Cluster} {LL : LinearCache Listener} {LS : LinearCache TLSSecret}.

Record Manager := mkManager {
  clusters : Cache Cluster; listeners : Cache Listener; secrets : Cache TLSSecret
}.
Definition NewManager : Manager := mkManager NewLinearCache NewLinearCache NewLinearCache.

Definition with_clusters {A} (f : ST (Cache Cluster) A) : ST Manager A := λ m,
  let (a, c) := f (clusters m) in (a, mkManager c (listeners m) (secrets m)).
Definition with_listeners {A} (f : ST (Cache Listener) A) : ST Manager A := λ m,
  let (a, c) := f (listeners m) in (a, mkManager (clusters m) c (secrets m)).
Definition with_secrets {A} (f : ST (Cache TLSSecret) A) : ST Manager A := λ m,
  let (a, c) := f (secrets m) in (a, mkManager (clusters m) (listeners m) c).

Definition lb_endpoint (hostname : string) (ep : Endpoint) : LbEndpoint :=
  mkLbEndpoint (Some (mkEndpointMsg
    (Some (mkAddress (Some (mkSocketAddress (ep_Host ep) (wrap32 (ep_Port ep)))))) hostname)).

Definition makeEndpointsCluster (name : string) (endpoints : list Endpoint) (hostname : string) : result Cluster :=
  let lbEndpoints := map (lb_endpoint hostname) endpoints in
  match any_New_dns with
  | Err err => Err err
  | Ok pb => Ok (mkCluster name Second Second STRICT_DNS
                   (Some ("envoy.network.dns_resolver.getaddrinfo", pb))
                   (Some (mkAssignment name [mkLocality lbEndpoints])) None)
  end.

Definition makeAddressCluster (name addr : string) (port : Z) (hostname : string) : result Cluster :=
  makeEndpointsCluster name [mkEndpoint addr port] hostname.

Definition makeTCPProxyFilter (clusterName statPrefix : string) (tunnelingConfig : TunnelingConfig) : result Filter :=
  match any_New_tcp_proxy (mkTcpProxy ("tcp-proxy-" +:+ statPrefix) clusterName (Some tunnelingConfig)) with
  | Err err => Err err
  | Ok pb => Ok (mkFilter TCPProxy_name (Some pb))
  end.

Definition set_TransportSocket (ts : string * Any) (c : Cluster) : Cluster :=
  mkCluster (cl_Name c) (cl_ConnectTimeout c) (cl_DnsRefreshRate c) (cl_Type c)
            (cl_TypedDnsResolverConfig c) (cl_LoadAssignment c) (Some ts).

Definition sdsConfig : ConfigSource := mkConfigSource Second.
Definition peer_tlsConfig (peer : Peer) : UpstreamTlsContext :=
  mkUpstreamTls (peer_Name peer) [mkSds CertificateSecret sdsConfig] (Some (mkSds ValidationSecret sdsConfig)).

Definition AddPeer (peer : Peer) : ST Manager (option error) :=
  let clusterName := RemotePeerClusterName (peer_Name peer) in
  match makeEndpointsCluster clusterName (peer_Gateways peer) (peer_Name peer +:+ ":443") with
  | Err err => mret (Some err)
  | Ok epc =>
      match any_New_tls (peer_tlsConfig peer) with
      | Err err => mret (Some err)
      | Ok pb =>
          let epc := set_TransportSocket (TransportSocketTLS, pb) epc in
          with_clusters (UpdateResource clusterName epc)
      end
  end.

Definition DeletePeer (name : string) : ST Manager (option error) :=
  with_clusters (DeleteResource (RemotePeerClusterName name)).

(** The address of an exported service. *)
Definition export_host (export : Export) : string :=
  if decide (exp_Host export = "")
  then exp_Name export +:+ "." +:+ exp_Namespace export +:+ ".svc.cluster.local"
  else exp_Host export.

Definition AddExport (export : Export) : ST Manager (option error) :=
  let clusterName := ExportClusterName (exp_Name export) (exp_Namespace export) in
  match makeAddressCluster clusterName (export_host export) (exp_Port export) "" with
  | Err err => mret (Some err)
  | Ok cc => with_clusters (UpdateResource clusterName cc)
  end.

Definition DeleteExport (name : NamespacedName) : ST Manager (option error) :=
  with_clusters (DeleteResource (ExportClusterName (Name name) (Namespace name))).

(** The headers Envoy adds to the tunnel request of an imported service. *)
Definition import_tunnel (imp : Import) : TunnelingConfig :=
  mkTunneling "egress-router:443"
    [mkHeaderOption ImportNameHeader (imp_Name imp) true;
     mkHeaderOption ImportNamespaceHeader (imp_Namespace imp) true;
     mkHeaderOption ClientIPHeader "%DOWNSTREAM_REMOTE_ADDRESS_WITHOUT_PORT%" true].

Definition AddImport (imp : Import) : ST Manager (option error) :=
  if negb (IsStatusConditionTrue (imp_Conditions imp) ImportTargetPortValid) then mret None
  else
    let listenerName := ImportListenerName (imp_Name imp) (imp_Namespace imp) in
    match makeTCPProxyFilter EgressRouterCluster (imp_Name imp) (import_tunnel imp) with
    | Err err => mret (Some err)
    | Ok tcpProxyFilter =>
        let ln := mkListener listenerName
                    (Some (mkAddress (Some (mkSocketAddress "0.0.0.0" (wrap32 (imp_TargetPort (imp_Spec imp)))))))
                    [[tcpProxyFilter]] in
        with_listeners (UpdateResource listenerName ln)
    end.

Definition DeleteImport (name : NamespacedName) : ST Manager (option error) :=
  with_listeners (DeleteResource (ImportListenerName (Name name) (Namespace name))).

Definition certificate_secret (raw : RawCertData) : TLSSecret :=
  mkTLSSecret CertificateSecret
    (Secret_TlsCertificate (Some (mkDataSource (Some (raw_certificate raw))))
                           (Some (mkDataSource (Some (raw_key raw))))).
Definition validation_secret (raw : RawCertData) : TLSSecret :=
  mkTLSSecret ValidationSecret (Secret_ValidationContext (Some (mkDataSource (Some (raw_ca raw))))).

Definition SetPeerCertificates (rawCertData : RawCertData) : ST Manager (option error) :=
  let certificateSecret := certificate_secret rawCertData in
  err ← with_secrets (UpdateResource (tsec_Name certificateSecret) certificateSecret);
  match err with
  | Some err => mret (Some (EWrap "error setting certificate secret" err))
  | None =>
      let validationSecret := validation_secret rawCertData in
      err ← with_secrets (UpdateResource (tsec_Name validationSecret) validationSecret);
      mret ((λ err, EWrap "error setting validation secret" err) <$> err)
  end.

(** *** controllers.go: the handlers of the watched objects *)
Inductive event :=
  | ExportAdded (e : Export) | ExportDeleted (n : NamespacedName)
  | PeerAdded (p : Peer) | PeerDeleted (n : NamespacedName)
  | ImportAdded (i : Import) | ImportDeleted (n : NamespacedName).

Definition handle (ev : event) : ST Manager (option error) :=
  match ev with
  | ExportAdded e => AddExport e
  | ExportDeleted n => DeleteExport n
  | PeerAdded p => AddPeer p
  | PeerDeleted n => DeletePeer (Name n)
  | ImportAdded i => AddImport i
  | ImportDeleted n => DeleteImport n
  end.

(** The handlers run one after the other; a failed one is run again by a later event. *)
Fixpoint handle_all (evs : list event) : ST Manager (list (option error)) :=
  match evs with
  | [] => mret []
  | ev :: evs' => err ← handle ev; errs ← handle_all evs'; mret (err :: errs)
  end.
End xds.
