(* ===== verification/XdsFacts.v ===== *)
(** * The caches of the xDS manager are its peers, exports and imports

    The caches refine three tables: the peers, the exports and the imports, as they were
    last added.  No listener is promised for an import without a valid target port. *)
From S2P Require Export Xds.
From stdpp Require Import options.
From Stdlib Require Import ZArith Lia.

#[local] Set Default Proof Using "Type".

(** ** The tables *)
Record tables := mkTables {
  t_peers : gmap string Peer;
  t_exports : gmap NamespacedName Export;
  t_imports : gmap NamespacedName Import
}.
Definition exp_key (e : Export) : NamespacedName := om_key (exp_Meta e).

Section facts.
Context {SC : StatusConditions} {AP : AnyPB}.
Context {LC : LinearCache Cluster} {LL : LinearCache Listener} {LS : LinearCache TLSSecret}.

Definition table_step (ev : event) (t : tables) : tables :=
  match ev with
  | ExportAdded e => mkTables (t_peers t) (<[exp_key e := e]> (t_exports t)) (t_imports t)
  | ExportDeleted n => mkTables (t_peers t) (delete n (t_exports t)) (t_imports t)
  | PeerAdded p => mkTables (<[peer_Name p := p]> (t_peers t)) (t_exports t) (t_imports t)
  | PeerDeleted n => mkTables (delete (Name n) (t_peers t)) (t_exports t) (t_imports t)
  | ImportAdded i => mkTables (t_peers t) (t_exports t) (<[imp_key i := i]> (t_imports t))
  | ImportDeleted n => mkTables (t_peers t) (t_exports t) (delete n (t_imports t))
  end.

(** An event whose handler succeeds has its effect on the tables; one whose handler
    fails has its effect or none. *)
Inductive table_run : list event → list (option error) → tables → tables → Prop :=
  | run_nil t : table_run [] [] t t
  | run_effect ev evs err errs t t' :
      table_run evs errs (table_step ev t) t' → table_run (ev :: evs) (err :: errs) t t'
  | run_failed ev evs err errs t t' :
      table_run evs errs t t' → table_run (ev :: evs) (Some err :: errs) t t'.

(** ** What stands for a peer, an export, an import *)
Definition gateway_target (p : Peer) (ep : Endpoint) : string * Z * string :=
  (ep_Host ep, wrap32 (ep_Port ep), peer_Name p +:+ ":443").

(** Connections to a peer's gateways, with TLS for the name of the peer and the
    certificates of this peer. *)
Definition cluster_of_peer (p : Peer) (c : Cluster) : Prop :=
  cl_Name c = RemotePeerClusterName (peer_Name p) ∧
  cluster_targets c = Some (map (gateway_target p) (peer_Gateways p)) ∧
  ∃ ctx pb, any_New_tls ctx = Ok pb ∧ cl_TransportSocket c = Some (TransportSocketTLS, pb) ∧
    Sni ctx = peer_Name p ∧ map sds_Name (TlsCertificateSdsSecretConfigs ctx) = [CertificateSecret] ∧
    sds_Name <$> ValidationContextSdsSecretConfig ctx = Some ValidationSecret.

(** Plain connections to the service. *)
Definition cluster_of_export (e : Export) (c : Cluster) : Prop :=
  cl_Name c = ExportClusterName (exp_Name e) (exp_Namespace e) ∧
  cluster_targets c = Some [(export_host e, wrap32 (exp_Port e), "")] ∧
  cl_TransportSocket c = None.

(** A listener on the target port that tunnels to the egress router with the import's name. *)
Definition listener_of_import (i : Import) (l : Listener) : Prop :=
  ln_Name l = ImportListenerName (imp_Name i) (imp_Namespace i) ∧
  ln_Address l = Some (mkAddress (Some (mkSocketAddress "0.0.0.0" (wrap32 (imp_TargetPort (imp_Spec i)))))) ∧
  ∃ pb, ln_FilterChains l = [[mkFilter TCPProxy_name (Some pb)]] ∧
    any_New_tcp_proxy (mkTcpProxy ("tcp-proxy-" +:+ imp_Name i) EgressRouterCluster
                         (Some (import_tunnel i))) = Ok pb.

Definition listener_for (n : NamespacedName) (i : Import) (l : Listener) : Prop :=
  imp_key i = n ∧ listener_of_import i l.
(** What is published for an import: the listener that stands for it when its target port
    is valid.  As long as it is not, no listener is promised, and one that is there is that
    of the same import with the valid port it had. *)
Definition import_published (n : NamespacedName) (oi : option Import) (ol : option Listener) : Prop :=
  match oi with
  | None => ol = None
  | Some i =>
      if IsStatusConditionTrue (imp_Conditions i) ImportTargetPortValid
      then ∃ l, ol = Some l ∧ listener_for n i l
      else ∀ l, ol = Some l → ∃ j, IsStatusConditionTrue (imp_Conditions j) ImportTargetPortValid = true ∧ listener_for n j l
  end.

Definition cluster_key (k : string) : Prop :=
  (∃ p, k = RemotePeerClusterName p) ∨
  (∃ n, no_slash (Namespace n) ∧ k = ExportClusterName (Name n) (Namespace n)).

(** The caches hold what stands for the tables, under the names the other components use. *)
Record represents (m : Manager) (t : tables) : Prop := mkRepresents {
  rep_peers p : option_Forall2 cluster_of_peer (t_peers t !! p)
                  (GetResources (clusters m) !! RemotePeerClusterName p);
  rep_exports n : no_slash (Namespace n) → option_Forall2 cluster_of_export (t_exports t !! n)
                  (GetResources (clusters m) !! ExportClusterName (Name n) (Namespace n));
  rep_no_more k c : GetResources (clusters m) !! k = Some c → cluster_key k;
  rep_imports n : no_slash (Namespace n) → import_published n (t_imports t !! n)
                  (GetResources (listeners m) !! ImportListenerName (Name n) (Namespace n));
  rep_no_more_listeners k l : GetResources (listeners m) !! k = Some l →
    ∃ n, no_slash (Namespace n) ∧ k = ImportListenerName (Name n) (Namespace n)
}.

(** Namespaces are DNS labels. *)
Definition event_ok (ev : event) : Prop :=
  match ev with
  | ExportAdded e => no_slash (exp_Namespace e)
  | ImportAdded i => no_slash (imp_Namespace i)
  | ExportDeleted n | ImportDeleted n => no_slash (Namespace n)
  | PeerAdded _ | PeerDeleted _ => True
  end.

(** ** The clusters and listeners that are built *)
Lemma endpoints_targets hostname eps :
  mapM lbe_target (map (lb_endpoint hostname) eps) =
  Some (map (λ ep, (ep_Host ep, wrap32 (ep_Port ep), hostname)) eps).
Proof. induction eps as [|ep eps IH]; [done|]. cbn. by rewrite IH. Qed.

Lemma makeEndpointsCluster_spec name eps hostname c :
  makeEndpointsCluster name eps hostname = Ok c →
  cl_Name c = name ∧ cl_TransportSocket c = None ∧
  cluster_targets c = Some (map (λ ep, (ep_Host ep, wrap32 (ep_Port ep), hostname)) eps).
Proof.
  unfold makeEndpointsCluster. destruct any_New_dns; [|done]. intros [= <-].
  split_and!; [done..|]. apply endpoints_targets.
Qed.

(** ** Effect of a call on a cache *)
Section effects.
Context {LCL : LinearCacheLaws Cluster} {LLL : LinearCacheLaws Listener}.

(** [m'] is [m] with the cache of clusters changed at one name. *)
Definition cluster_change (k : string) (oc : option Cluster) (m m' : Manager) : Prop :=
  GetResources (clusters m') = partial_alter (λ _, oc) k (GetResources (clusters m)) ∧
  listeners m' = listeners m.
Definition listener_change (k : string) (ol : option Listener) (m m' : Manager) : Prop :=
  GetResources (listeners m') = partial_alter (λ _, ol) k (GetResources (listeners m)) ∧
  clusters m' = clusters m.
Definition same_resources (m m' : Manager) : Prop :=
  GetResources (clusters m') = GetResources (clusters m) ∧
  GetResources (listeners m') = GetResources (listeners m).

#[local] Ltac cache_effect law cache :=
  unfold with_clusters, with_listeners, cluster_change, listener_change, same_resources;
  let H := fresh in pose proof law as H; revert H;
  match goal with |- context [match ?call cache with _ => _ end] => destruct (call cache) end;
  simpl; intros [?|[? ?]]; [left|right]; auto.

Lemma update_cluster_effect k c m :
  let r := with_clusters (UpdateResource k c) m in
  cluster_change k (Some c) m r.2 ∨ same_resources m r.2 ∧ r.1 ≠ None.
Proof using All. cache_effect (update_resources k c (clusters m)) (clusters m). Qed.
Lemma delete_cluster_effect k m :
  let r := with_clusters (DeleteResource k) m in
  cluster_change k None m r.2 ∨ same_resources m r.2 ∧ r.1 ≠ None.
Proof using All. cache_effect (delete_resources k (clusters m)) (clusters m). Qed.
Lemma update_listener_effect k l m :
  let r := with_listeners (UpdateResource k l) m in
  listener_change k (Some l) m r.2 ∨ same_resources m r.2 ∧ r.1 ≠ None.
Proof using All. cache_effect (update_resources k l (listeners m)) (listeners m). Qed.
Lemma delete_listener_effect k m :
  let r := with_listeners (DeleteResource k) m in
  listener_change k None m r.2 ∨ same_resources m r.2 ∧ r.1 ≠ None.
Proof using All. cache_effect (delete_resources k (listeners m)) (listeners m). Qed.

(** ** The representation after a change *)
Lemma rep_same m m' t : represents m t → same_resources m m' → represents m' t.
Proof using Type. intros [H1 H2 H3 H4 H5] [Hc Hl]. split; rewrite ?Hc, ?Hl; auto. Qed.

Lemma rep_peer m m' t p op oc :
  represents m t → cluster_change (RemotePeerClusterName p) oc m m' →
  option_Forall2 cluster_of_peer op oc →
  represents m' (mkTables (partial_alter (λ _, op) p (t_peers t)) (t_exports t) (t_imports t)).
Proof using Type.
  intros [H1 H2 H3 H4 H5] [Hc Hl] Ho. split; simpl; rewrite ?Hc, ?Hl; try done.
  - intros q. destruct (decide (p = q)) as [<-|Hq]; [by rewrite !lookup_partial_alter_eq|].
    rewrite !lookup_partial_alter_ne by (done || by intros ?%RemotePeerClusterName_inj). apply H1.
  - intros n Hn. rewrite lookup_partial_alter_ne by done. by apply H2.
  - intros k c. destruct (decide (k = RemotePeerClusterName p)) as [->|Hk]; [left; eauto|].
    rewrite lookup_partial_alter_ne by done. apply H3.
Qed.

Lemma rep_export m m' t n oe oc :
  no_slash (Namespace n) →
  represents m t → cluster_change (ExportClusterName (Name n) (Namespace n)) oc m m' →
  option_Forall2 cluster_of_export oe oc →
  represents m' (mkTables (t_peers t) (partial_alter (λ _, oe) n (t_exports t)) (t_imports t)).
Proof using Type.
  intros Hns [H1 H2 H3 H4 H5] [Hc Hl] Ho. split; simpl; rewrite ?Hc, ?Hl; try done.
  - intros q. rewrite lookup_partial_alter_ne by done. apply H1.
  - intros n' Hn'. destruct (decide (n = n')) as [<-|Hq]; [by rewrite !lookup_partial_alter_eq|].
    rewrite !lookup_partial_alter_ne; [by apply H2| |done].
    intros [??]%ExportClusterName_inj'; [|done..]. destruct n, n'; simpl in *; congruence.
  - intros k c. destruct (decide (k = ExportClusterName (Name n) (Namespace n))) as [->|Hk]; [right; eauto|].
    rewrite lookup_partial_alter_ne by done. apply H3.
Qed.

Lemma rep_import m m' t n oi ol :
  no_slash (Namespace n) →
  represents m t → listener_change (ImportListenerName (Name n) (Namespace n)) ol m m' →
  import_published n oi ol →
  represents m' (mkTables (t_peers t) (t_exports t) (partial_alter (λ _, oi) n (t_imports t))).
Proof using Type.
  intros Hns [H1 H2 H3 H4 H5] [Hl Hc] Ho. split; simpl; rewrite ?Hc, ?Hl; try done.
  - intros n' Hn'. destruct (decide (n = n')) as [<-|Hq]; [by rewrite !lookup_partial_alter_eq|].
    rewrite !lookup_partial_alter_ne; [by apply H4| |done].
    intros [??]%ImportListenerName_inj'; [|done..]. destruct n, n'; simpl in *; congruence.
  - intros k l. destruct (decide (k = ImportListenerName (Name n) (Namespace n))) as [->|Hk]; [eauto|].
    rewrite lookup_partial_alter_ne by done. apply H5.
Qed.

(** A listener that is published is that of an import with a valid port. *)
Lemma published_before n oi l : import_published n oi (Some l) →
  ∃ j, IsStatusConditionTrue (imp_Conditions j) ImportTargetPortValid = true ∧ listener_for n j l.
Proof using Type.
  destruct oi as [i|]; [|done]. simpl. destruct (IsStatusConditionTrue _ _) eqn:Hv; [|by auto].
  intros (l' & [= <-] & Hl). by exists i.
Qed.
Lemma listener_change_none k m : listener_change k (GetResources (listeners m) !! k) m m.
Proof using Type.
  split; [|done]. apply map_eq. intros j. destruct (decide (j = k)) as [->|Hj];
    [by rewrite lookup_partial_alter_eq|by rewrite lookup_partial_alter_ne].
Qed.

(** ** One handler *)

(** What the handler of an event may do: its effect, or nothing and an error. *)
Definition simulates (ev : event) (t : tables) (e : option error) (m' : Manager) : Prop :=
  represents m' (table_step ev t) ∨ represents m' t ∧ e ≠ None.

Lemma AddPeer_simulates p m t :
  represents m t → let r := AddPeer p m in simulates (PeerAdded p) t r.1 r.2.
Proof using All.
  intros Hr. unfold AddPeer, simulates. destruct (makeEndpointsCluster _ _ _) as [epc|e] eqn:Hm; [|by right].
  destruct (any_New_tls _) as [pb|e] eqn:Ha; [|by right].
  destruct (update_cluster_effect (RemotePeerClusterName (peer_Name p))
    (set_TransportSocket (TransportSocketTLS, pb) epc) m) as [Hc|[Hs He]]; [left|right; eauto using rep_same].
  apply (rep_peer _ _ _ _ (Some p) _ Hr Hc). constructor.
  apply makeEndpointsCluster_spec in Hm as (Hn & _ & Ht). split; [done|]. split; [done|].
  by eexists (peer_tlsConfig p), pb.
Qed.

Lemma AddExport_simulates e m t :
  no_slash (exp_Namespace e) →
  represents m t → let r := AddExport e m in simulates (ExportAdded e) t r.1 r.2.
Proof using All.
  intros Hns Hr. unfold AddExport, simulates, makeAddressCluster.
  destruct (makeEndpointsCluster _ _ _) as [cc|err] eqn:Hm; [|by right].
  destruct (update_cluster_effect (ExportClusterName (exp_Name e) (exp_Namespace e)) cc m)
    as [Hc|[Hs He]]; [left|right; eauto using rep_same].
  apply (rep_export _ _ _ (exp_key e) (Some e) _ Hns Hr Hc). constructor.
  by apply makeEndpointsCluster_spec in Hm as (Hn & Hts & Ht).
Qed.

Lemma AddImport_simulates i m t :
  no_slash (imp_Namespace i) →
  represents m t → let r := AddImport i m in simulates (ImportAdded i) t r.1 r.2.
Proof using All.
  intros Hns Hr. unfold AddImport, simulates. simpl. destruct (IsStatusConditionTrue _ _) eqn:Hv; simpl; [|left].
  2:{ apply (rep_import m m t (imp_key i) (Some i) _ Hns Hr (listener_change_none _ m)).
      simpl. rewrite Hv. intros l Hl.
      apply (published_before (imp_key i) (t_imports t !! imp_key i)). rewrite <- Hl. exact (rep_imports _ _ Hr (imp_key i) Hns). }
  unfold makeTCPProxyFilter. destruct (any_New_tcp_proxy _) as [pb|err] eqn:Ha; [|by right].
  match goal with |- context [with_listeners (UpdateResource ?k ?l) m] =>
    destruct (update_listener_effect k l m) as [Hc|[Hs He]] end; [left|right; eauto using rep_same].
  apply (rep_import _ _ _ (imp_key i) (Some i) _ Hns Hr Hc). simpl. rewrite Hv. eexists. split; [done|].
  split; [done|]. split; [done|]. split; [done|]. by exists pb.
Qed.

Lemma handle_simulates ev m t :
  event_ok ev → represents m t → let r := handle ev m in simulates ev t r.1 r.2.
Proof using All.
  intros Hok Hr. destruct ev as [e|n|p|n|i|n]; simpl in Hok |- *.
  - by apply AddExport_simulates.
  - destruct (delete_cluster_effect (ExportClusterName (Name n) (Namespace n)) m) as [Hc|[Hs He]];
      [left|right; eauto using rep_same]. apply (rep_export _ _ _ n None _ Hok Hr Hc). constructor.
  - by apply AddPeer_simulates.
  - destruct (delete_cluster_effect (RemotePeerClusterName (Name n)) m) as [Hc|[Hs He]];
      [left|right; eauto using rep_same]. apply (rep_peer _ _ _ (Name n) None _ Hr Hc). constructor.
  - by apply AddImport_simulates.
  - destruct (delete_listener_effect (ImportListenerName (Name n) (Namespace n)) m) as [Hc|[Hs He]];
      [left|right; eauto using rep_same]. by apply (rep_import _ _ _ n None _ Hok Hr Hc).
Qed.

Lemma handle_all_simulates evs m t :
  Forall event_ok evs → represents m t →
  ∃ t', table_run evs (handle_all evs m).1 t t' ∧ represents (handle_all evs m).2 t'.
Proof using All.
  intros Hok. revert m t. induction Hok as [|ev evs Hev Hok IH]; intros m t Hr; cbn [handle_all].
  { exists t. split; [constructor|done]. }
  unfold_st. pose proof (handle_simulates ev m t Hev Hr) as Hs.
  destruct (handle ev m) as [err m1]. simpl in Hs.
  destruct Hs as [Hr1|[Hr1 Hne]]; destruct (IH m1 _ Hr1) as (t' & Hrun & Hrep);
    destruct (handle_all evs m1) as [errs m2]; simpl in *; exists t'; (split; [|done]).
  - by constructor.
  - destruct err; [by apply run_failed|done].
Qed.

(** A listener comes from an import that was added with a valid port. *)
Definition listener_from (ev : event) (k : string) (l : Listener) : Prop :=
  ∃ j, ev = ImportAdded j ∧ IsStatusConditionTrue (imp_Conditions j) ImportTargetPortValid = true ∧
    k = ImportListenerName (imp_Name j) (imp_Namespace j) ∧ listener_of_import j l.

Lemma cluster_call_listeners k oc (m m' : Manager) (e : option error) :
  cluster_change k oc m m' ∨ same_resources m m' ∧ e ≠ None → GetResources (listeners m') = GetResources (listeners m).
Proof using Type. intros [[_ ->]|[[_ H] _]]; done. Qed.

Lemma handle_listeners ev m k l :
  GetResources (listeners (handle ev m).2) !! k = Some l →
  GetResources (listeners m) !! k = Some l ∨ listener_from ev k l.
Proof using All.
  destruct ev as [e|n|p|n|i|n]; simpl.
  - unfold AddExport, makeAddressCluster. destruct (makeEndpointsCluster _ _ _) as [cc|err]; [|by left].
    rewrite (cluster_call_listeners _ _ _ _ _ (update_cluster_effect _ cc m)). by left.
  - unfold DeleteExport. rewrite (cluster_call_listeners _ _ _ _ _ (delete_cluster_effect _ m)). by left.
  - unfold AddPeer. destruct (makeEndpointsCluster _ _ _) as [epc|e]; [|by left]. destruct (any_New_tls _) as [pb|e]; [|by left].
    rewrite (cluster_call_listeners _ _ _ _ _ (update_cluster_effect _ _ m)). by left.
  - unfold DeletePeer. rewrite (cluster_call_listeners _ _ _ _ _ (delete_cluster_effect _ m)). by left.
  - unfold AddImport. destruct (IsStatusConditionTrue _ _) eqn:Hv; simpl; [|by left].
    unfold makeTCPProxyFilter. destruct (any_New_tcp_proxy _) as [pb|err] eqn:Ha; [|by left].
    match goal with |- context [with_listeners (UpdateResource ?k ?l) m] =>
      destruct (update_listener_effect k l m) as [[-> _]|[[_ ->] _]] end; [|by left].
    intros [[<- [= <-]]|[_ ?]]%lookup_partial_alter_Some; [right|by left].
    exists i. split_and!; [done..|]. split; [done|]. split; [done|]. by exists pb.
  - unfold DeleteImport. destruct (delete_listener_effect (ImportListenerName (Name n) (Namespace n)) m) as [[-> _]|[[_ ->] _]]; [|by left].
    intros [[_ [=]]|[_ ?]]%lookup_partial_alter_Some. by left.
Qed.
Lemma handle_all_listeners evs m k l :
  GetResources (listeners (handle_all evs m).2) !! k = Some l →
  GetResources (listeners m) !! k = Some l ∨ ∃ ev, ev ∈ evs ∧ listener_from ev k l.
Proof using All.
  revert m. induction evs as [|ev evs IH]; intros m; cbn [handle_all]; [by left|]. unfold_st.
  pose proof (handle_listeners ev m k l) as Hh. destruct (handle ev m) as [err m1]. specialize (IH m1).
  destruct (handle_all evs m1) as [errs m2]. simpl in *. intros Hl.
  destruct (IH Hl) as [Hl'|(ev' & Hin & Hf)]; [destruct (Hh Hl') as [?|?]; [by left|]|]; right;
    [exists ev|exists ev']; (split; [|done]); by constructor.
Qed.

(** The tables are keyed by the names of their objects. *)
Definition tables_keyed (t : tables) : Prop :=
  map_Forall (λ p peer, peer_Name peer = p) (t_peers t) ∧
  map_Forall (λ n e, exp_key e = n) (t_exports t) ∧
  map_Forall (λ n i, imp_key i = n) (t_imports t).

Lemma table_step_keyed ev t : tables_keyed t → tables_keyed (table_step ev t).
Proof using Type.
  intros (H1 & H2 & H3). destruct ev; simpl; try case_match; unfold tables_keyed; simpl;
    split_and!; try done; (by apply map_Forall_delete) || by apply map_Forall_insert_2.
Qed.
Lemma table_run_keyed evs errs t t' : table_run evs errs t t' → tables_keyed t → tables_keyed t'.
Proof using Type. induction 1; auto using table_step_keyed. Qed.

Lemma table_run_ok evs errs t t' :
  table_run evs errs t t' → Forall (eq None) errs → t' = foldl (λ t ev, table_step ev t) t evs.
Proof using Type. induction 1; intros Hf; [done|inversion Hf; auto..]; done. Qed.

(** A cluster is stored under its own name. *)
Lemma represents_cluster_name m t k c :
  represents m t → tables_keyed t → GetResources (clusters m) !! k = Some c → cl_Name c = k.
Proof using Type.
  intros [H1 H2 H3 _ _] (K1 & K2 & _) Hc.
  destruct (H3 k c Hc) as [[p ->]|(n & Hn & ->)].
  - specialize (H1 p). rewrite Hc in H1. inversion H1 as [peer c' [Hname _] Hp|]; subst.
    rewrite Hname. by rewrite (K1 p peer).
  - specialize (H2 n Hn). rewrite Hc in H2. inversion H2 as [e c' [Hname _] He|]; subst.
    rewrite Hname. by rewrite <- (K2 n e).
Qed.

Lemma handlers_tables evs :
  Forall event_ok evs →
  let r := handle_all evs NewManager in
  ∃ t, table_run evs r.1 (mkTables ∅ ∅ ∅) t ∧ tables_keyed t ∧ represents r.2 t.
Proof using All.
  intros Hok. destruct (handle_all_simulates evs NewManager (mkTables ∅ ∅ ∅) Hok) as (t & Hrun & Hrep).
  2:{ exists t. split_and!; [done| |done]. eapply table_run_keyed; [done|]. split_and!; apply map_Forall_empty. }
  split; simpl; intros *; rewrite !new_resources, ?lookup_empty; try done; constructor.
Qed.

(** C8: after any sequence of events, in which any handler may fail, the caches hold
    what stands for the peers, exports and imports that were added and not deleted since,
    as they were last added, and nothing else: peers and exports under distinct cluster
    names, with the gateways, the host and the TLS identity the other side expects; a
    listener on its target port for an import that has a valid one.  For an import without
    a valid target port no listener is promised, and the one of the valid port it had
    before may still be there ([stale_listener_kept]): every listener is that of an import
    that was added with a valid port. *)
Theorem handlers_refine_tables evs :
  Forall event_ok evs →
  let r := handle_all evs NewManager in
  (∃ t, table_run evs r.1 (mkTables ∅ ∅ ∅) t ∧ tables_keyed t ∧ represents r.2 t) ∧
  ∀ k l, GetResources (listeners r.2) !! k = Some l → ∃ ev, ev ∈ evs ∧ listener_from ev k l.
Proof using All.
  intros Hok. split; [by apply handlers_tables|]. intros k l [Hl|?]%handle_all_listeners; [|done].
  simpl in Hl. by rewrite new_resources, lookup_empty in Hl.
Qed.
Lemma handled_ok evs :
  Forall event_ok evs → Forall (eq None) (handle_all evs NewManager).1 →
  let t := foldl (λ t ev, table_step ev t) (mkTables ∅ ∅ ∅) evs in
  represents (handle_all evs NewManager).2 t ∧ tables_keyed t.
Proof using All.
  intros Hok Hf. destruct (handlers_tables evs Hok) as (t & Hrun & Hk & Hr).
  by rewrite <- (table_run_ok _ _ _ _ Hrun Hf).
Qed.
End effects.

(** The listener of an import whose target port became invalid stays: [AddImport] only skips it. *)
Lemma stale_listener_kept (i : Import) m :
  IsStatusConditionTrue (imp_Conditions i) ImportTargetPortValid = false → AddImport i m = (None, m).
Proof using Type. intros Hc. unfold AddImport. by rewrite Hc. Qed.
End facts.

(** ** Witness *)
#[local] Existing Instance ref_anypb.
#[local] Instance x_clusters : LinearCache Cluster := ref_cache Cluster.
#[local] Instance x_listeners : LinearCache Listener := ref_cache Listener.
#[local] Instance x_secrets : LinearCache TLSSecret := ref_cache TLSSecret.

Definition x_peer : Peer := mkPeer (mkMeta "east" "clusterlink" ∅) [mkEndpoint "10.0.0.1" 443; mkEndpoint "10.0.0.2" 443] [] ∅.
Definition x_export : Export := mkExport (mkMeta "http" "default" ∅) "" 80 [].
Definition x_import : Import :=
  mkImport (mkMeta "web" "default" ∅) (mkImportSpec 80 5000 [] "static")
    [mkCondition ImportTargetPortValid ConditionTrue "" "" 0 0].
Definition x_events : list event :=
  [PeerAdded x_peer; ExportAdded x_export; ImportAdded x_import; ExportDeleted (mkNN "default" "old")].

Lemma handlers_refine_tables_witness :
  let r := handle_all x_events NewManager in
  (∃ t, table_run x_events r.1 (mkTables ∅ ∅ ∅) t ∧ tables_keyed t ∧ represents r.2 t) ∧
  ∀ k l, GetResources (listeners r.2) !! k = Some l → ∃ ev, ev ∈ x_events ∧ listener_from ev k l.
Proof. apply (handlers_refine_tables x_events). repeat constructor. Defined.
