(* ===== verification/Dataplane.v ===== *)
(** * The Go data plane: clusters, secrets, and the two directions of a connection

    [pkg/dataplane/server/{dataplane,server,forwarder}.go] and the part of
    [listener.go] that serves an accepted connection.  The state is the cluster map
    and the TLS configuration that the xDS fetchers maintain; the listeners are in
    [Listeners.v].  The outside world [W] is the control plane behind the
    authorization client, and the network. *)
From S2P Require Export Xds AuthzServer.
From stdpp Require Import options.
From Stdlib Require Import Ascii ZArith Lia.

(** ** What the data plane is connected to *)

(** The authorization client.  The answer is [None] when the response carries
    another kind of HTTP response. *)
Class AuthzClient (W : Type) := {
  authz_Check : CheckRequest → ST W (result (option HttpResponse))
}.

(** Connections. *)
Class DataplaneNet {TL : TLSLib} (W : Type) := {
  Conn : Type;
  (** [net.DialTimeout] with a second. *)
  net_Dial : string → ST W (result Conn);
  (** [Hijack], clearing the deadlines, and the empty write that probes the connection. *)
  http_Hijack : ST W (result Conn);
  conn_SetDeadline : Conn → ST W (option error);
  conn_Write : Conn → string → ST W (option error);
  tls_Dial : string → TLSConfig → ST W (result Conn);
  (** [client.Do] of a CONNECT to a URL over an established connection: the status code. *)
  connect_Do : Conn → TLSConfig → string → Header → ST W (result Z)
}.

Definition StatusOK : Z := 200.
Definition StatusBadRequest : Z := 400.
Definition StatusForbidden : Z := 403.
Definition StatusInternalServerError : Z := 500.
Definition crlf : string := String (ascii_of_nat 13) (String (ascii_of_nat 10) "").

(** A request as [net/http] hands it over; [None] without a verified peer certificate. *)
Record IngressRequest := mkIngressRequest {
  irq_PeerDNSNames : option (list string);
  irq_Method : string; irq_Path : string; irq_Header : Header; irq_Body : result string
}.

Section dataplane.
Context {TL : TLSLib} {AP : AnyPB}.

(** ** dataplane.go *)
Record Dataplane := mkDataplane {
  dp_clusters : gmap string Cluster;
  dp_tlsConfig : TLSConfig
}.
Definition NewDataplane : Dataplane :=
  mkDataplane ∅ (mkTLSConfig VersionTLS12 [] None RequireAndVerifyClientCert None "").

Definition not_in_cluster_map {A} (name : string) : result A :=
  Err (ENew ("unable to find " +:+ name +:+ " in cluster map")).

(** [LoadAssignment.GetEndpoints()[0].LbEndpoints[0].GetEndpoint()], about to be dereferenced. *)
Definition first_endpoint (c : Cluster) : outcome EndpointMsg :=
  match cl_LoadAssignment c with
  | None => Panic
  | Some cla =>
      match cla_Endpoints cla with
      | [] => Panic
      | loc :: _ =>
          match loc_LbEndpoints loc with
          | mkLbEndpoint (Some ep) :: _ => Done ep
          | _ => Panic
          end
      end
  end.

(** The getters of a nil socket address return the zero values. *)
Definition socket_of (a : option Address) : string * Z :=
  match a ≫= addr_SocketAddress with
  | Some sa => (sa_Address sa, sa_PortValue sa)
  | None => ("", 0%Z)
  end.

Definition GetClusterTarget (name : string) (d : Dataplane) : outcome (result string) :=
  match dp_clusters d !! name with
  | None => Done (not_in_cluster_map name)
  | Some c =>
      match first_endpoint c with
      | Panic => Panic
      | Done ep =>
          let (addr, port) := socket_of (epm_Address ep) in
          Done (Ok (addr +:+ ":" +:+ Itoa port))
      end
  end.

Definition GetClusterHostname (name : string) (d : Dataplane) : outcome (result string) :=
  match dp_clusters d !! name with
  | None => Done (not_in_cluster_map name)
  | Some c => match first_endpoint c with Panic => Panic | Done ep => Done (Ok (epm_Hostname ep)) end
  end.

Definition GetClusterHost (name : string) (d : Dataplane) : outcome (result string) :=
  match GetClusterHostname name d with
  | Panic => Panic
  | Done (Err err) => Done (Err err)
  | Done (Ok hostname) =>
      Done match SplitHostPort hostname with
           | Err err => Err (EWrap ("cluster hostname '" +:+ hostname +:+ "' cannot be parsed") err)
           | Ok (host, _) => Ok host
           end
  end.

Definition AddCluster (c : Cluster) (d : Dataplane) : Dataplane :=
  mkDataplane (<[cl_Name c := c]> (dp_clusters d)) (dp_tlsConfig d).
Definition RemoveCluster (name : string) (d : Dataplane) : Dataplane :=
  mkDataplane (delete name (dp_clusters d)) (dp_tlsConfig d).

Definition set_tlsConfig (c : TLSConfig) (d : Dataplane) : Dataplane := mkDataplane (dp_clusters d) c.

Definition addCertificateSecret (secret : TLSSecret) : ST Dataplane (option error) :=
  match tsec_Type secret with
  | Secret_TlsCertificate CertificateChain PrivateKey =>
      match CertificateChain with
      | None => mret (Some (ENew "no certificate chain"))
      | Some certChain =>
      match ds_InlineBytes certChain with
      | None => mret (Some (ENew "no certificate chain bytes embedded"))
      | Some certBytes =>
      match PrivateKey with
      | None => mret (Some (ENew "no private key"))
      | Some privateKey =>
      match ds_InlineBytes privateKey with
      | None => mret (Some (ENew "no private key bytes embedded"))
      | Some keyBytes =>
      match X509KeyPair certBytes keyBytes with
      | Err err => mret (Some (EWrap "error parsing certificate" err))
      | Ok certificate =>
          modify (λ d, let c := dp_tlsConfig d in
            set_tlsConfig (mkTLSConfig (MinVersion c) [certificate] (ClientCAs c) (ClientAuth c)
                                       (RootCAs c) (ServerName c)) d);;
          mret None
      end end end end end
  | _ => mret (Some (ENew "not a TLS certificate secret"))
  end.

Definition addValidationSecret (secret : TLSSecret) : ST Dataplane (option error) :=
  match tsec_Type secret with
  | Secret_ValidationContext TrustedCa =>
      match TrustedCa with
      | None => mret (Some (ENew "no trusted CA"))
      | Some trustedCa =>
      match ds_InlineBytes trustedCa with
      | None => mret (Some (ENew "no CA bytes embedded"))
      | Some caBytes =>
      match AppendCertsFromPEM caBytes with
      | None => mret (Some (ENew "error parsing CA"))
      | Some caCertPool =>
          modify (λ d, let c := dp_tlsConfig d in
            set_tlsConfig (mkTLSConfig (MinVersion c) (Certificates c) (Some caCertPool) (ClientAuth c)
                                       (Some caCertPool) (ServerName c)) d);;
          mret None
      end end end
  | _ => mret (Some (ENew "not a validation context secret"))
  end.

Definition AddSecret (secret : TLSSecret) : ST Dataplane (option error) :=
  if decide (tsec_Name secret = CertificateSecret) then addCertificateSecret secret
  else if decide (tsec_Name secret = ValidationSecret) then addValidationSecret secret
  else mret (Some (ENew ("unknown secret: " +:+ tsec_Name secret))).

(** ** server.go: a connection from a remote peer *)
Context {W : Type} {AC : AuthzClient W} {DN : DataplaneNet W}.

(** How a request ends: an answer, or two connections whose bytes are forwarded. *)
Inductive ingress_end :=
  | Respond (status : Z) (headers : Header) (body : string)
  | Forward (appConn peerConn : Conn).

(** [http.Error]. *)
Definition http_Error (msg : string) (code : Z) : outcome ingress_end := Done (Respond code ∅ msg).
Definition hijacking_failed : error → result Conn := λ err, Err (EWrap "hijacking failed" err).

Definition hijackConn : ST W (result Conn) :=
  peerConn ← http_Hijack;
  match peerConn with
  | Err err => mret (hijacking_failed err)
  | Ok peerConn =>
      err ← conn_SetDeadline peerConn;
      match err with
      | Some err => mret (Err (EWrap "failed to clear deadlines on connection" err))
      | None =>
          err ← conn_Write peerConn "";
          match err with
          | Some err => mret (Err (EWrap "failed to write to connection" err))
          | None =>
              conn_Write peerConn ("HTTP/1.1 200 OK" +:+ crlf +:+ "Content-Type: text/plain" +:+ crlf +:+ crlf);;
              mret (Ok peerConn)
          end
      end
  end.

Context {NS : NamespacedNameString}.

(** The first of the headers with the key. *)
Definition find_header (headers : list (string * string)) (key : string) : option string :=
  snd <$> (list_find (λ h, h.1 = key) headers ≫= λ ih, Some ih.2).

Definition routeIngress (r : IngressRequest) (headers responseHeaders : list (string * string)) :
    ST (Dataplane * W) (outcome ingress_end) :=
  if decide (irq_Method r ≠ "CONNECT") then
    mret (Done (Respond StatusOK
      (foldl (λ h kv, <[CanonicalHeaderKey kv.1 := kv.2]> h) ∅ responseHeaders) ""))
  else
    let targetCluster := default "" (find_header headers TargetClusterHeader) in
    d ← gets fst;
    match GetClusterTarget targetCluster d with
    | Panic => mret Panic
    | Done (Err err) => mret (http_Error (error_string err) StatusInternalServerError)
    | Done (Ok serviceTarget) =>
        appConn ← outside (net_Dial serviceTarget);
        match appConn with
        | Err err => mret (http_Error (error_string err) StatusInternalServerError)
        | Ok appConn =>
            peerConn ← outside hijackConn;
            mret match peerConn with
                 | Err err => http_Error "hijacking failed" StatusInternalServerError
                 | Ok peerConn => Done (Forward appConn peerConn)
                 end
        end
    end.

(** The request of the authorization check. *)
Definition ingress_check (r : IngressRequest) (principal body : string) : CheckRequest :=
  let value := Header_Get (irq_Header r) AuthorizationHeader in
  let headers := if decide (value = "") then ∅ else {[ AuthorizationHeader := value ]} in
  mkCheckRequest (Some (mkAttributes (Some (mkAttrSource None principal))
    (Some (mkAttrRequest (Some (mkAttrHttp (irq_Method r) (irq_Path r) headers body)))))).

Definition dataplaneIngressAuthorize (r : IngressRequest) : ST (Dataplane * W) (outcome ingress_end) :=
  match irq_PeerDNSNames r with
  | None | Some [] =>
      mret (http_Error "certificate does not contain a valid DNS name for the peer gateway" StatusBadRequest)
  | Some (principal :: _) =>
      match irq_Body r with
      | Err err => mret (http_Error ("Unable to read response body: " +:+ error_string err +:+ ".")
                                    StatusInternalServerError)
      | Ok body =>
          resp ← outside (authz_Check (ingress_check r principal body));
          match resp with
          | Err err => mret (http_Error (error_string err) StatusInternalServerError)
          | Ok (Some (OkResponse headers responseHeaders)) => routeIngress r headers responseHeaders
          | Ok (Some (DeniedResponse _ body)) => mret (http_Error body StatusForbidden)
          | Ok None => mret (http_Error "Unknown authorization response." StatusInternalServerError)
          end
      end
  end.

(** ** listener.go: a connection of a local workload to an imported service *)

(** The request of the authorization check; [name] is "namespace/name". *)
Definition egress_check (ns name sourceIP : string) : CheckRequest :=
  mkCheckRequest (Some (mkAttributes (Some (mkAttrSource (Some true) ""))
    (Some (mkAttrRequest (Some (mkAttrHttp "" ""
      (<[ImportNamespaceHeader := ns]> (<[ImportNameHeader := name]> {[ ClientIPHeader := sourceIP ]})) "")))))).

(** The last of the headers with each key: the target cluster and the token. *)
Definition egress_headers (headers : list (string * string)) : string * string :=
  foldl (λ acc h,
    if decide (h.1 = TargetClusterHeader) then (h.2, acc.2)
    else if decide (h.1 = AuthorizationHeader) then (acc.1, h.2) else acc) ("", "") headers.

(** The second component is missing, and its use panics, in a name without a slash. *)
Definition getEgressAuth (name sourceIP : string) : ST W (outcome (result (string * string))) :=
  match SplitN 2 "/" name with
  | ns :: svc :: _ =>
      resp ← authz_Check (egress_check ns svc sourceIP);
      mret (Done match resp with
      | Err err => Err err
      | Ok (Some (DeniedResponse _ body)) => Err (ENew ("egress connection denied: " +:+ body))
      | Ok None => Err (ENew "unknown authorization response")
      | Ok (Some (OkResponse headers _)) =>
          let (targetCluster, accessToken) := egress_headers headers in
          if decide (targetCluster = "") then Err (ENew "missing target cluster")
          else if decide (accessToken = "") then Err (ENew "missing access token")
          else Ok (targetCluster, accessToken)
      end)
  | _ => mret Panic
  end.

(** How an accepted connection ends: closed, or forwarded. *)
Inductive egress_end :=
  | Closed (err : error)
  | Forwarding (peerConn : Conn).

Definition initiateEgressConnection (targetCluster authToken : string) (tlsConfig : TLSConfig) :
    ST (Dataplane * W) (outcome egress_end) :=
  d ← gets fst;
  match GetClusterTarget targetCluster d with
  | Panic => mret Panic
  | Done (Err err) => mret (Done (Closed err))
  | Done (Ok target) =>
  match GetClusterHostname targetCluster d with
  | Panic => mret Panic
  | Done (Err err) => mret (Done (Closed err))
  | Done (Ok targetHostname) =>
      let url := "https://" +:+ targetHostname in
      peerConn ← outside (tls_Dial target tlsConfig);
      match peerConn with
      | Err err => mret (Done (Closed err))
      | Ok peerConn =>
          resp ← outside (connect_Do peerConn tlsConfig url {[ CanonicalHeaderKey AuthorizationHeader := authToken ]});
          mret (Done match resp with
          | Err err => Closed err
          | Ok status =>
              if decide (status ≠ StatusOK) then
                Closed (ENew ("got HTTP " +:+ Itoa status +:+ " while trying to establish dataplane connection"))
              else Forwarding peerConn
          end)
      end
  end end.

(** One round of [serveEgressConnections], for a connection from [remoteAddr]. *)
Definition serve_connection (name remoteAddr : string) : ST (Dataplane * W) (outcome egress_end) :=
  auth ← outside (getEgressAuth name (before ":" remoteAddr));
  match auth with
  | Panic => mret Panic
  | Done (Err err) => mret (Done (Closed err))
  | Done (Ok (targetPeer, accessToken)) =>
      d ← gets fst;
      match GetClusterHost targetPeer d with
      | Panic => mret Panic
      | Done (Err err) => mret (Done (Closed err))
      | Done (Ok targetHost) =>
          let c := dp_tlsConfig d in
          let tlsConfig := mkTLSConfig (MinVersion c) (Certificates c) (ClientCAs c) (ClientAuth c)
                                       (RootCAs c) targetHost in
          initiateEgressConnection targetPeer accessToken tlsConfig
      end
  end.
End dataplane.
Arguments Respond {_ _ _}.
Arguments Forward {_ _ _}.
Arguments Closed {_ _ _}.
Arguments Forwarding {_ _ _}.
