(* ===== verification/Fetcher.v ===== *)
(** * The xDS fetchers of the data plane

    [pkg/dataplane/client/{fetcher,xds}.go]: what a fetcher does with the clusters
    and the secrets it receives, its loop, and the channel that makes the fetcher of
    listeners wait for the one of clusters.  The pass over listeners is in
    [Listeners.v]. *)
From S2P Require Export Dataplane.
From stdpp Require Import options.
From Stdlib Require Import ZArith Lia.

Section fetcher.
Context {TL : TLSLib} {AP : AnyPB} {RC : ResourceCodec}.

(** ** fetcher.go *)

(** The first loop of [handleClusters]: the names seen, and the error that stops it. *)
Fixpoint add_clusters (resources : list Resource) (seen : gset string) :
    ST Dataplane (result (gset string)) :=
  match resources with
  | [] => mret (Ok seen)
  | r :: resources' =>
      match UnmarshalCluster r with
      | Err err => mret (Err err)
      | Ok c => modify (AddCluster c);; add_clusters resources' ({[ cl_Name c ]} ∪ seen)
      end
  end.

Definition remove_clusters (names : list string) (seen : gset string) (d : Dataplane) : Dataplane :=
  foldl (λ d cn, if decide (cn ∈ seen) then d else RemoveCluster cn d) d names.

Definition handleClusters (order : ranger string Cluster) (resources : list Resource) :
    ST Dataplane (option error) :=
  clusters ← add_clusters resources ∅;
  match clusters with
  | Err err => mret (Some err)
  | Ok clusters =>
      modify (λ d, remove_clusters (order (dp_clusters d)).*1 clusters d);;
      mret None
  end.

Fixpoint handleSecrets (resources : list Resource) : ST Dataplane (option error) :=
  match resources with
  | [] => mret None
  | res :: resources' =>
      match UnmarshalSecret res with
      | Err err => mret (Some err)
      | Ok secret =>
          err ← AddSecret secret;
          match err with
          | Some err => mret (Some (EWrap ("error adding secret " +:+ tsec_Name secret) err))
          | None => handleSecrets resources'
          end
      end
  end.

(** A fetcher of clusters or secrets.  [Run] handles one response after the other
    until [Fetch] fails; the error of a handler is logged, and the response is
    acknowledged all the same. *)
Inductive resourceType := ClusterType | SecretType.
Definition handle_resources (order : ranger string Cluster) (t : resourceType) (rs : list Resource) :
    ST Dataplane (option error) :=
  match t with ClusterType => handleClusters order rs | SecretType => handleSecrets rs end.

Record fetcher := mkFetcher { f_ready : bool; f_acks : nat }.

Fixpoint fetcher_Run (order : ranger string Cluster) (t : resourceType) (fetches : list (result (list Resource))) :
    ST (fetcher * Dataplane) (option error) :=
  match fetches with
  | [] => mret None                                  (* waiting in Fetch *)
  | Err err :: _ => mret (Some err)
  | Ok rs :: fetches' =>
      modify (λ s, (mkFetcher true (f_acks s.1), s.2));;
      outside (handle_resources order t rs);;
      modify (λ s, (mkFetcher (f_ready s.1) (S (f_acks s.1)), s.2));;
      fetcher_Run order t fetches'
  end.
End fetcher.

(** ** xds.go: the order of the fetchers of clusters and listeners

    [runFetcher] reconnects forever.  After each connection the fetcher of clusters
    sends on [clustersReady], which has room for one value, and the fetcher of
    listeners receives from it; then the fetcher runs until its stream fails. *)
Inductive fetcher_pc := Connecting | AtChannel | Running.
Record xds_client := mkXds { xc_cluster : fetcher_pc; xc_listener : fetcher_pc; clustersReady : nat }.
Definition NewXDSClient : xds_client := mkXds Connecting Connecting 0.

(** [InitConnect] fails and is tried again, or succeeds; [Run] ends when the stream fails. *)
Inductive runFetcher : xds_client → xds_client → Prop :=
  | cluster_connects l n : runFetcher (mkXds Connecting l n) (mkXds AtChannel l n)
  | cluster_sends l : runFetcher (mkXds AtChannel l 0) (mkXds Running l 1)
  | cluster_stops l n : runFetcher (mkXds Running l n) (mkXds Connecting l n)
  | listener_connects c n : runFetcher (mkXds c Connecting n) (mkXds c AtChannel n)
  | listener_receives c n : runFetcher (mkXds c AtChannel (S n)) (mkXds c Running n)
  | listener_stops c n : runFetcher (mkXds c Running n) (mkXds c Connecting n).

(** The stream of the listener fetcher does not fail. *)
Inductive listener_stays : xds_client → xds_client → Prop :=
  | stays s s' : runFetcher s s' → (xc_listener s = Running → xc_listener s' = Running) → listener_stays s s'.
(** The stream of the cluster fetcher does not fail. *)
Inductive cluster_stays : xds_client → xds_client → Prop :=
  | cstays s s' : runFetcher s s' → (xc_cluster s = Running → xc_cluster s' = Running) → cluster_stays s s'.

(** ** A fetcher that reconnects alone

    The channel holds one value per connection of the fetcher of clusters: a fetcher of
    listeners whose stream fails while the one of clusters goes on waits for a value
    that is never sent, and a fetcher of clusters that reconnects twice while the one
    of listeners goes on waits for room that is never made. *)
Theorem lone_reconnect_blocks :
  (∃ s, rtc cluster_stays NewXDSClient s ∧ xc_listener s = AtChannel ∧ xc_cluster s = Running ∧
        ∀ s', rtc cluster_stays s s' → s' = s) ∧
  (∃ s, rtc listener_stays NewXDSClient s ∧ xc_cluster s = AtChannel ∧ xc_listener s = Running ∧
        ∀ s', rtc listener_stays s s' → s' = s).
Proof.
  split.
  - exists (mkXds Running AtChannel 0). split_and!; try done.
    + do 6 (eapply rtc_l; [constructor; [constructor|done]|]). apply rtc_refl.
    + intros s'. apply (rtc_preserves cluster_stays (λ s, s = mkXds Running AtChannel 0)); [|done].
      intros x y [x' y' Hxy Hs] ->. inversion Hxy; subst; by specialize (Hs eq_refl).
  - exists (mkXds AtChannel Running 1). split_and!; try done.
    + do 2 (eapply rtc_l; [constructor; [apply cluster_connects || apply cluster_sends|done]|]).
      do 2 (eapply rtc_l; [constructor; [apply listener_connects || apply listener_receives|done]|]).
      do 5 (eapply rtc_l; [constructor; [apply cluster_stops || apply cluster_connects || apply cluster_sends|done]|]).
      apply rtc_refl.
    + intros s'. apply (rtc_preserves listener_stays (λ s, s = mkXds AtChannel Running 1)); [|done].
      intros x y [x' y' Hxy Hs] ->. inversion Hxy; subst; by specialize (Hs eq_refl).
Qed.
