(* ===== verification/DataplaneFacts.v ===== *)
(** * Connections through the data plane

    The clusters of the control plane reach the data plane; a connection of a local
    workload asks for its own import and reaches a gateway of the peer it was
    authorized for; a connection of a remote peer reaches the export of its token. *)
From S2P Require Export Fetcher XdsFacts.
From stdpp Require Import options.
From Stdlib Require Import Ascii ZArith Lia.

#[local] Set Default Proof Using "Type".

Section fetch.
Context {TL : TLSLib} {AP : AnyPB} {RC : ResourceCodec}.

(** ** Reconciliation of the cluster map *)

(** The clusters of a response by name; the last one with a name counts. *)
Definition fetched (cs : list Cluster) : gmap string Cluster :=
  list_to_map (reverse ((λ c, (cl_Name c, c)) <$> cs)).

Lemma fetched_cons c cs : fetched (c :: cs) = fetched cs ∪ {[ cl_Name c := c ]}.
Proof.
  unfold fetched. rewrite fmap_cons, reverse_cons, list_to_map_app. simpl. by rewrite insert_empty.
Qed.
Lemma fetched_lookup cs k c : fetched cs !! k = Some c → c ∈ cs ∧ cl_Name c = k.
Proof.
  unfold fetched. intros Hk%elem_of_list_to_map_2. rewrite elem_of_reverse, list_elem_of_fmap in Hk.
  destruct Hk as (? & [= -> ->] & ?). done.
Qed.

(** The resources [rs] are the messages of [cs]. *)
Definition messages {A} (unmarshal : Resource → result A) (rs : list Resource) (cs : list A) : Prop :=
  Forall2 (λ r c, unmarshal r = Ok c) rs cs.

Lemma add_clusters_app rs1 cs1 rs2 seen d :
  messages UnmarshalCluster rs1 cs1 →
  add_clusters (rs1 ++ rs2) seen d =
  add_clusters rs2 (list_to_set (cl_Name <$> reverse cs1) ∪ seen)
    (mkDataplane (fetched cs1 ∪ dp_clusters d) (dp_tlsConfig d)).
Proof.
  intros Hm. revert seen d. induction Hm as [|r c rs cs Hr Hm IH]; intros seen d; simpl.
  { destruct d. simpl. unfold fetched. simpl. by rewrite (left_id_L ∅ (∪)), (left_id_L ∅ (∪)). }
  rewrite Hr. unfold_st. rewrite IH. simpl. f_equal.
  - rewrite reverse_cons, fmap_app, list_to_set_app_L. simpl. set_solver.
  - f_equal. by rewrite fetched_cons, <- (assoc_L (∪)), <- insert_union_singleton_l.
Qed.

Lemma remove_clusters_spec names seen d :
  dp_tlsConfig (remove_clusters names seen d) = dp_tlsConfig d ∧
  ∀ k, dp_clusters (remove_clusters names seen d) !! k =
       if decide (k ∈ names ∧ k ∉ seen) then None else dp_clusters d !! k.
Proof.
  unfold remove_clusters. revert d. induction names as [|n names IH]; intros d.
  { split; [done|]. intros k. rewrite decide_False; [done|]. set_solver. }
  cbn [foldl]. destruct (IH (if decide (n ∈ seen) then d else RemoveCluster n d)) as [Ht Hk].
  split; [rewrite Ht; by case_decide|]. intros k. rewrite Hk.
  destruct (decide (n ∈ seen)) as [Hs|Hs]; simpl.
  - repeat case_decide; set_solver.
  - destruct (decide (k = n)) as [->|Hne].
    + rewrite lookup_delete_eq. repeat case_decide; set_solver.
    + rewrite lookup_delete_ne by done. repeat case_decide; set_solver.
Qed.

Lemma fetched_dom cs : dom (fetched cs) = list_to_set (cl_Name <$> reverse cs).
Proof.
  unfold fetched. rewrite dom_list_to_map_L, <- fmap_reverse, <- list_fmap_compose. done.
Qed.

Lemma handleClusters_lemma order rs1 cs1 rs2 d :
  messages UnmarshalCluster rs1 cs1 →
  match rs2 with
  | [] => handleClusters order (rs1 ++ rs2) d = (None, mkDataplane (fetched cs1) (dp_tlsConfig d))
  | r :: _ => ∀ err, UnmarshalCluster r = Err err →
      handleClusters order (rs1 ++ rs2) d =
        (Some err, mkDataplane (fetched cs1 ∪ dp_clusters d) (dp_tlsConfig d))
  end.
Proof.
  intros Hm. destruct rs2 as [|r rs2].
  - unfold handleClusters. unfold_st. rewrite (add_clusters_app _ _ [] _ _ Hm). simpl. unfold_st. f_equal.
    match goal with |- remove_clusters ?ns ?sn ?d0 = _ =>
      destruct (remove_clusters_spec ns sn d0) as [Ht Hk]; destruct (remove_clusters ns sn d0) as [cl t] end.
    simpl in *. subst t. f_equal. apply map_eq. intros k. rewrite Hk, (right_id_L ∅ (∪)), <- fetched_dom.
    destruct (fetched cs1 !! k) as [c|] eqn:Hc.
    + rewrite decide_False; [by apply lookup_union_Some_l|].
      intros [_ Hd]. apply Hd. by eapply elem_of_dom_2.
    + destruct (dp_clusters d !! k) as [c|] eqn:Hd.
      * rewrite decide_True; [done|]. split; [|by apply not_elem_of_dom].
        apply list_elem_of_fmap. exists (k, c). split; [done|].
        apply elem_of_range. by rewrite lookup_union_r.
      * case_decide; [done|]. by rewrite lookup_union_r.
  - intros err Hr. unfold handleClusters. unfold_st. rewrite (add_clusters_app _ _ (r :: rs2) _ _ Hm).
    simpl. by rewrite Hr.
Qed.

(** A response whose resources all decode makes the cluster map exactly the
    clusters of the response, whatever the map held and in whatever order it is
    visited; a response with an undecodable resource is applied up to that resource,
    its error is returned, and no cluster is removed. *)
Theorem handleClusters_reconciles order rs1 cs1 rs2 d :
  messages UnmarshalCluster rs1 cs1 →
  match rs2 with
  | [] => handleClusters order (rs1 ++ rs2) d = (None, mkDataplane (fetched cs1) (dp_tlsConfig d))
  | r :: _ => ∀ err, UnmarshalCluster r = Err err →
      handleClusters order (rs1 ++ rs2) d =
        (Some err, mkDataplane (fetched cs1 ∪ dp_clusters d) (dp_tlsConfig d))
  end.
Proof. apply handleClusters_lemma. Qed.

(** ** The clusters of the control plane, in the data plane *)
Lemma fetched_all cs (G : gmap string Cluster) :
  (∀ k c, G !! k = Some c → cl_Name c = k) → cs ≡ₚ (map_to_list G).*2 → fetched cs = G.
Proof.
  intros HG Hp. unfold fetched.
  assert ((λ c, (cl_Name c, c)) <$> cs ≡ₚ map_to_list G) as Hl.
  { rewrite Hp, <- list_fmap_compose. apply Permutation_refl'.
    etrans; [|apply list_fmap_id]. apply list_fmap_ext. intros i [k c] Hi. simpl.
    f_equal. apply HG. apply elem_of_map_to_list. by eapply list_elem_of_lookup_2. }
  rewrite <- (list_to_map_to_list G). apply list_to_map_proper.
  - rewrite reverse_Permutation, Hl. apply NoDup_fst_map_to_list.
  - by rewrite reverse_Permutation, Hl.
Qed.

Lemma messages_marshal `{!ResourceCodecLaws} cs : messages UnmarshalCluster (MarshalCluster <$> cs) cs.
Proof. unfold messages. induction cs; simpl; constructor; auto using cluster_round_trip. Qed.

(** The first of the targets is the endpoint that is used. *)
Lemma first_target c a p h ts :
  cluster_targets c = Some ((a, p, h) :: ts) →
  ∃ ep, first_endpoint c = Done ep ∧ socket_of (epm_Address ep) = (a, p) ∧ epm_Hostname ep = h.
Proof.
  unfold cluster_targets, first_endpoint. destruct (cl_LoadAssignment c) as [cla|]; [|done]. simpl.
  destruct (cla_Endpoints cla) as [|[lbes] [|]]; try done. simpl. destruct lbes as [|[oep] lbes]; [done|].
  simpl. destruct oep as [[[[[sa|]]|] h']|]; simpl; try done.
  destruct (mapM lbe_target lbes); [|done]. simpl. intros [= <- <- <- _]. by eexists.
Qed.

Section views.
Context {LC : LinearCache Cluster} {LL : LinearCache Listener} {LS : LinearCache TLSSecret}.
Context {LCL : LinearCacheLaws Cluster}.
Context {SC : StatusConditions}.

Definition address (host : string) (port : Z) : string := host +:+ ":" +:+ Itoa (wrap32 port).

Lemma peer_cluster_view m t d p c :
  represents m t → tables_keyed t → dp_clusters d = GetResources (clusters m) →
  dp_clusters d !! RemotePeerClusterName p = Some c →
  ∃ peer, t_peers t !! p = Some peer ∧ peer_Name peer = p ∧ cluster_of_peer peer c.
Proof.
  intros Hr (K1 & _) Hd. rewrite Hd. intros Hc. pose proof (rep_peers _ _ Hr p) as H. rewrite Hc in H.
  inversion H as [peer c' Hcl Hp|]; subst. exists peer. split_and!; [done| |done]. by apply K1.
Qed.
Lemma export_cluster_view m t d n c :
  represents m t → dp_clusters d = GetResources (clusters m) → no_slash (Namespace n) →
  dp_clusters d !! ExportClusterName (Name n) (Namespace n) = Some c →
  ∃ e, t_exports t !! n = Some e ∧ cluster_of_export e c.
Proof.
  intros Hr Hd Hn. rewrite Hd. intros Hc. pose proof (rep_exports _ _ Hr n Hn) as H. rewrite Hc in H.
  inversion H as [e c' Hcl Hp|]; subst. eauto.
Qed.

Lemma peer_endpoint peer c :
  cluster_of_peer peer c →
  match peer_Gateways peer with
  | [] => first_endpoint c = Panic
  | g :: _ => ∃ ep, first_endpoint c = Done ep ∧
      socket_of (epm_Address ep) = (ep_Host g, wrap32 (ep_Port g)) ∧ epm_Hostname ep = peer_Name peer +:+ ":443"
  end.
Proof.
  intros (_ & Ht & _). destruct (peer_Gateways peer) as [|g gs]; [|by eapply first_target].
  unfold cluster_targets in Ht. unfold first_endpoint. destruct (cl_LoadAssignment c) as [cla|]; [|done].
  simpl in Ht. destruct (cla_Endpoints cla) as [|[lbes] [|]]; try done. simpl in *.
  destruct lbes as [|lbe lbes]; [done|]. simpl in Ht. destruct (lbe_target lbe); [|done].
  simpl in Ht. by destruct (mapM lbe_target lbes).
Qed.

Lemma plain_443 : plain_host "443".
Proof. by repeat split. Qed.

(** Once the clusters of the control plane's cache were received, the data plane
    connects to a peer at its first gateway under the TLS name of the peer, to an
    export at its host and port, and to nothing that is not in the tables. *)
Theorem clusters_reach_dataplane `{!ResourceCodecLaws} order m t cs d :
  represents m t → tables_keyed t → cs ≡ₚ (map_to_list (GetResources (clusters m))).*2 →
  let d' := (handleClusters order (MarshalCluster <$> cs) d).2 in
  dp_clusters d' = GetResources (clusters m) ∧
  (∀ p, match t_peers t !! p with
        | None => GetClusterTarget (RemotePeerClusterName p) d' = Done (not_in_cluster_map (RemotePeerClusterName p))
        | Some peer => match peer_Gateways peer with
            | [] => GetClusterTarget (RemotePeerClusterName p) d' = Panic
            | g :: _ =>
                GetClusterTarget (RemotePeerClusterName p) d' = Done (Ok (address (ep_Host g) (ep_Port g))) ∧
                (plain_host p → GetClusterHost (RemotePeerClusterName p) d' = Done (Ok p))
            end
        end) ∧
  (∀ n, no_slash (Namespace n) →
        let k := ExportClusterName (Name n) (Namespace n) in
        match t_exports t !! n with
        | None => GetClusterTarget k d' = Done (not_in_cluster_map k)
        | Some e => GetClusterTarget k d' = Done (Ok (address (export_host e) (exp_Port e)))
        end).
Proof.
  intros Hr Hk Hcs. cbv zeta.
  assert (fetched cs = GetResources (clusters m)) as Hf.
  { apply fetched_all; [|done]. intros k c. by apply (represents_cluster_name m t). }
  pose proof (handleClusters_lemma order _ cs [] d (messages_marshal cs)) as Hd. cbv iota in Hd.
  rewrite app_nil_r in Hd. rewrite Hd, Hf. clear Hd. cbn [snd].
  set (d' := mkDataplane _ _). assert (dp_clusters d' = GetResources (clusters m)) as Hd' by done.
  split; [done|]. split.
  - intros p. pose proof (rep_peers _ _ Hr p) as Hp. unfold GetClusterTarget, GetClusterHost, GetClusterHostname.
    rewrite Hd'. destruct Hk as (K1 & _). revert Hp.
    destruct (t_peers t !! p) as [peer|] eqn:Ht; inversion 1 as [? c Hc|]; subst; [|done].
    rewrite <- (K1 p peer Ht). pose proof (peer_endpoint peer c Hc) as He.
    destruct (peer_Gateways peer) as [|g gs]; [by rewrite He|].
    destruct He as (ep & -> & -> & ->). split; [done|]. intros Hplain.
    change (":443") with (":" +:+ "443"). by rewrite SplitHostPort_plain.
  - intros n Hn. pose proof (rep_exports _ _ Hr n Hn) as He. unfold GetClusterTarget. rewrite Hd'. revert He.
    destruct (t_exports t !! n) as [e|]; inversion 1 as [? c Hc|]; subst; [|done].
    destruct Hc as (_ & Ht & _). apply first_target in Ht as (ep & -> & -> & _). done.
Qed.
End views.
End fetch.

(** ** Connections *)
Section connections.
Context {LS : LabelSelectors} {NS : NamespacedNameString} {SC : StatusConditions}.
Context {TL : TLSLib} {EN : Encodings} {JW : JWTLib}.
Context {V : Type} {KI : KubeClient V Import} {KP : KubeClient V Peer} {KE : KubeClient V Export}.
Context {HL : HTTPLib V} {CLK : Clock V}.
Context (arrival : V → list jsonClient → schedule) (o_priv o_reg : TierOrder) (draw : nat → Z → Z).
Context {AP : AnyPB} {LC : LinearCache Cluster} {LL : LinearCache Listener} {LSC : LinearCache TLSSecret}.
Context {W : Type} {AC : AuthzClient W} {DN : DataplaneNet W}.

(** What the data plane sees of the answer of the control plane.  A control plane that
    panics or does not return gives no answer: the call ends, if ever, with an error. *)
Definition rpc_answer (r : option (outcome (result CheckResponse))) : result (option HttpResponse) :=
  match r with
  | Some (Done (Ok r)) => Ok (Some (crs_HttpResponse r))
  | Some (Done (Err e)) => Err e
  | _ => Err (ENew "connection closed")
  end.

(** The authorization client talks to the control plane whose state and world are a
    view of the data plane's world. *)
Variable cp : W → Authz.Manager * V.
Definition connected : Prop := ∀ req w,
  (authz_Check req w).1 = rpc_answer (server_Check arrival o_priv o_reg draw (Some req) (cp w)).1.
Hypothesis Hconn : connected.

Lemma listener_components name ns :
  no_slash ns →
  SplitN 2 "/" (TrimPrefix (ImportListenerName name ns) ImportListenerPrefix) = [ns; name].
Proof.
  intros Hns. unfold ImportListenerName. rewrite TrimPrefix_app. simpl.
  change ("/" +:+ name) with (String "/" name). by rewrite cut_app.
Qed.

(** The answer to the request of a connection to the import [ns/name]. *)
Lemma egress_check_answer ns name ip st :
  (server_Check arrival o_priv o_reg draw (Some (egress_check ns name ip)) st).1 =
  match (authorizeEgress arrival o_priv o_reg draw (mkEgressReq (mkNN ns name) ip) st).1 with
  | None => None
  | Some Panic => Some Panic
  | Some (Done (Err err)) => Some (Done (Ok (internal_error err)))
  | Some (Done (Ok resp)) =>
      Some (Done (Ok
        (if eresp_Allowed resp then
           buildAllowedResponse [(TargetClusterHeader, RemotePeerCluster resp);
                                 (AuthorizationHeader, bearerSchemaPrefix +:+ eresp_AccessToken resp)] []
         else buildDeniedResponse Code_PERMISSION_DENIED StatusCode_Forbidden
                ("Access denied for '" +:+ ns +:+ "/" +:+ name +:+ "'."))))
  end.
Proof using Type.
  unfold server_Check, egress_check. cbn [request_parts as_Address]. rewrite decide_True by done.
  unfold checkEgress. cbn [ah_Headers].
  set (h := <[ImportNamespaceHeader := ns]> _).
  replace (first_missing h _) with (@None string) by reflexivity.
  replace (default "" (h !! ImportNamespaceHeader)) with ns by reflexivity.
  replace (default "" (h !! ImportNameHeader)) with name by reflexivity.
  replace (default "" (h !! ClientIPHeader)) with ip by reflexivity.
  unfold mret, ST_ret, mbind, ST_bind.
  destruct (authorizeEgress _ _ _ _ _ st) as [[[[resp|err]|]|] st1]; try done. simpl.
  by destruct (eresp_Allowed resp).
Qed.

Lemma getEgressAuth_spec name ns ip w target tok :
  no_slash ns →
  let o := (getEgressAuth (TrimPrefix (ImportListenerName name ns) ImportListenerPrefix) ip w).1 in
  o ≠ Panic ∧
  (o = Done (Ok (target, tok)) ↔
   ∃ resp, (authorizeEgress arrival o_priv o_reg draw (mkEgressReq (mkNN ns name) ip) (cp w)).1
             = Some (Done (Ok resp)) ∧
           eresp_Allowed resp = true ∧ RemotePeerCluster resp = target ∧ target ≠ "" ∧
           tok = bearerSchemaPrefix +:+ eresp_AccessToken resp).
Proof using Hconn.
  intros Hns. cbv zeta. unfold getEgressAuth. rewrite listener_components by done. unfold_st.
  pose proof (Hconn (egress_check ns name ip) w) as Ha. rewrite egress_check_answer in Ha.
  destruct (authz_Check _ w) as [r w']. simpl in Ha. subst r. simpl.
  destruct (authorizeEgress _ _ _ _ _ _).1 as [[[resp|err]|]|];
    try (split; [done|]; split; [done|]; by intros (? & ? & _)).
  destruct (eresp_Allowed resp) eqn:Hal;
    [|split; [done|]; split; [done|]; intros (? & [= <-] & ? & _); congruence].
  cbn [rpc_answer crs_HttpResponse buildAllowedResponse].
  replace (egress_headers _) with (RemotePeerCluster resp, bearerSchemaPrefix +:+ eresp_AccessToken resp) by done.
  split; [done|]. case_decide as He; (split; [|intros (? & [= <-] & _ & <- & ? & ->)]); try done.
  intros [= <- <-]. by exists resp.
Qed.

(** A connection accepted by the listener of an import is authorized for exactly
    that import and the address it came from: the data plane gets a target and a token
    if and only if the control plane allows the connection, and they are the peer and
    the token of the authorization. *)
Theorem egress_asks_for_its_import name ns ip w target tok :
  no_slash ns →
  let o := (getEgressAuth (TrimPrefix (ImportListenerName name ns) ImportListenerPrefix) ip w).1 in
  o ≠ Panic ∧
  (o = Done (Ok (target, tok)) ↔
   ∃ resp, (authorizeEgress arrival o_priv o_reg draw (mkEgressReq (mkNN ns name) ip) (cp w)).1
             = Some (Done (Ok resp)) ∧
           eresp_Allowed resp = true ∧ RemotePeerCluster resp = target ∧ target ≠ "" ∧
           tok = bearerSchemaPrefix +:+ eresp_AccessToken resp).
Proof using Hconn. apply getEgressAuth_spec. Qed.

Lemma host_443 p : plain_host p → SplitHostPort (p +:+ ":443") = Ok (p, "443").
Proof using Type. intros Hp. change (":443") with (":" +:+ "443"). apply SplitHostPort_plain; [done|]. apply plain_443. Qed.

(** A cluster through which a TLS server name is found stands for a peer. *)
Lemma hostname_cluster m t d k host :
  represents m t → tables_keyed t → dp_clusters d = GetResources (clusters m) →
  map_Forall (λ p _, plain_host p) (t_peers t) →
  GetClusterHost k d = Done (Ok host) →
  ∃ p peer g gs, t_peers t !! p = Some peer ∧ peer_Gateways peer = g :: gs ∧
    k = RemotePeerClusterName p ∧ host = p ∧
    GetClusterTarget k d = Done (Ok (address (ep_Host g) (ep_Port g))) ∧
    GetClusterHostname k d = Done (Ok (p +:+ ":443")).
Proof using Type.
  intros Hr Hk Hd Hplain. unfold GetClusterHost, GetClusterHostname, GetClusterTarget.
  destruct (dp_clusters d !! k) as [c|] eqn:Hc; [|done].
  pose proof Hc as Hkey. rewrite Hd in Hkey. apply (rep_no_more _ _ Hr) in Hkey as [[p ->]|(n & Hn & ->)].
  - destruct (peer_cluster_view m t d p c) as (peer & Ht & Hname & Hcl); [done..|].
    pose proof (peer_endpoint peer c Hcl) as He.
    destruct (peer_Gateways peer) as [|g gs] eqn:Hg; [by rewrite He|].
    destruct He as (ep & -> & Hs & ->). rewrite Hname, host_443 by (by eapply (Hplain p)).
    intros [= <-]. exists p, peer, g, gs. by rewrite Hs.
  - destruct (export_cluster_view m t d n c) as (e & Ht & (_ & Hts & _)); [done..|].
    apply first_target in Hts as (ep & -> & _ & ->). done.
Qed.

Lemma egress_forwarded m t name ns remoteAddr d w conn st' :
  no_slash ns → represents m t → tables_keyed t → dp_clusters d = GetResources (clusters m) →
  map_Forall (λ p _, plain_host p) (t_peers t) →
  serve_connection (TrimPrefix (ImportListenerName name ns) ImportListenerPrefix) remoteAddr (d, w)
    = (Done (Forwarding conn), st') →
  ∃ resp p peer g gs cfg w1 w2,
    (authorizeEgress arrival o_priv o_reg draw
       (mkEgressReq (mkNN ns name) (before ":" remoteAddr)) (cp w)).1 = Some (Done (Ok resp)) ∧
    eresp_Allowed resp = true ∧ RemotePeerCluster resp = RemotePeerClusterName p ∧
    t_peers t !! p = Some peer ∧ peer_Gateways peer = g :: gs ∧
    ServerName cfg = p ∧ RootCAs cfg = RootCAs (dp_tlsConfig d) ∧
    (tls_Dial (address (ep_Host g) (ep_Port g)) cfg w1).1 = Ok conn ∧
    (connect_Do conn cfg ("https://" +:+ p +:+ ":443")
       {[ CanonicalHeaderKey AuthorizationHeader := bearerSchemaPrefix +:+ eresp_AccessToken resp ]} w2).1 = Ok StatusOK.
Proof using Hconn.
  intros Hns Hr Hk Hd Hplain. unfold serve_connection. unfold_st.
  pose proof (λ target tok, getEgressAuth_spec name ns (before ":" remoteAddr) w target tok Hns) as Ha.
  destruct (getEgressAuth _ _ w) as [auth w1]. simpl in Ha.
  destruct auth as [[[target tok]|err]|]; try done.
  destruct (proj1 (proj2 (Ha target tok)) eq_refl) as (resp & Hauth & Hal & Hrp & Hne & Htok). clear Ha.
  cbn [fst snd].
  destruct (GetClusterHost target d) as [[host|err]|] eqn:Hh; try done.
  destruct (hostname_cluster m t d target host) as (p & peer & g & gs & Ht & Hg & -> & -> & Htgt & Hhn); [done..|].
  set (cfg := mkTLSConfig _ _ _ _ _ _). unfold initiateEgressConnection. unfold_st. rewrite Htgt, Hhn. cbn [fst snd].
  destruct (tls_Dial (address _ _) cfg w1) as [[c|err] w2] eqn:Hdial; [|done]. cbn [fst snd].
  match goal with |- context [connect_Do c cfg ?u ?h w2] => destruct (connect_Do c cfg u h w2) as [[status|err] w3] eqn:Hdo end; [|done].
  destruct (decide (status ≠ StatusOK)) as [|Hs%dec_stable]; [done|]. intros [= <- _].
  exists resp, p, peer, g, gs, cfg, w1, w2. rewrite Hdial, <- Htok, Hdo, Hs. done.
Qed.

(** C6: a connection of a local workload is forwarded only if the control plane allows
    it for the import of the listener and the address it came from; it is then tunnelled
    to the first gateway of the peer the control plane chose, verified under the name of
    that peer, in a CONNECT that carries the token of that peer. *)
Theorem egress_reaches_its_peer m t name ns remoteAddr d w conn st' :
  no_slash ns → represents m t → tables_keyed t → dp_clusters d = GetResources (clusters m) →
  map_Forall (λ p _, plain_host p) (t_peers t) →
  serve_connection (TrimPrefix (ImportListenerName name ns) ImportListenerPrefix) remoteAddr (d, w)
    = (Done (Forwarding conn), st') →
  ∃ resp p peer g gs cfg w1 w2,
    (authorizeEgress arrival o_priv o_reg draw
       (mkEgressReq (mkNN ns name) (before ":" remoteAddr)) (cp w)).1 = Some (Done (Ok resp)) ∧
    eresp_Allowed resp = true ∧ RemotePeerCluster resp = RemotePeerClusterName p ∧
    t_peers t !! p = Some peer ∧ peer_Gateways peer = g :: gs ∧
    ServerName cfg = p ∧ RootCAs cfg = RootCAs (dp_tlsConfig d) ∧
    (tls_Dial (address (ep_Host g) (ep_Port g)) cfg w1).1 = Ok conn ∧
    (connect_Do conn cfg ("https://" +:+ p +:+ ":443")
       {[ CanonicalHeaderKey AuthorizationHeader := bearerSchemaPrefix +:+ eresp_AccessToken resp ]} w2).1 = Ok StatusOK.
Proof using Hconn. apply egress_forwarded. Qed.

(** ** Connections of remote peers *)
Lemma parse_cluster_name tok st c :
  (parseAuthorizationHeader tok st).1 = Done (Ok c) → ∃ name ns, c = ExportClusterName name ns.
Proof using Type.
  unfold parseAuthorizationHeader. unfold_st. repeat case_match; try done; intros [= <-]; eauto.
Qed.

(** The answer to a CONNECT. *)
Lemma ingress_check_answer r principal body st :
  irq_Method r = "CONNECT" →
  ∀ headers responseHeaders,
    rpc_answer (server_Check arrival o_priv o_reg draw (Some (ingress_check r principal body)) st).1 =
      Ok (Some (OkResponse headers responseHeaders)) →
    ∃ tok c, Header_Get (irq_Header r) AuthorizationHeader = bearerSchemaPrefix +:+ tok ∧
      (parseAuthorizationHeader tok st).1 = Done (Ok c) ∧ headers = [(TargetClusterHeader, c)].
Proof using Type.
  intros Hm headers rh. unfold server_Check, ingress_check. cbn [request_parts as_Address].
  rewrite decide_False by done. unfold checkIngress. cbn [ah_Method ah_Path]. rewrite Hm.
  rewrite decide_False by (intros [[=] _]). rewrite decide_False by (intros [[=] _]). rewrite decide_True by done.
  unfold checkServiceAccessRequest. cbn [ah_Headers]. unfold_st.
  set (value := Header_Get _ _). destruct (decide (value = "")) as [|Hne]; [done|].
  rewrite lookup_singleton_eq. cbn [negb].
  destruct (HasPrefix value bearerSchemaPrefix) eqn:Hp; [|done]. cbn [negb].
  apply HasPrefix_spec in Hp as [tok Htok]. rewrite Htok, TrimPrefix_app. unfold_st.
  destruct (parseAuthorizationHeader tok st) as [[[c|e]|] st1] eqn:Hparse; try done.
  intros [= <- <-]. exists tok, c. by rewrite Hparse.
Qed.

Lemma find_target c : default "" (find_header [(TargetClusterHeader, c)] TargetClusterHeader) = c.
Proof using Type. done. Qed.

(** C4: a connection from outside reaches a local service only with a bearer token that
    the control plane accepts for an export, and the service it reaches is that export,
    at the host and port the export declares. *)
Theorem ingress_needs_a_token m t r d w app peer st' :
  represents m t → dp_clusters d = GetResources (clusters m) →
  dataplaneIngressAuthorize r (d, w) = (Done (Forward app peer), st') →
  ∃ tok n e w1,
    irq_Method r = "CONNECT" ∧
    Header_Get (irq_Header r) AuthorizationHeader = bearerSchemaPrefix +:+ tok ∧
    (parseAuthorizationHeader tok (cp w)).1 = Done (Ok (ExportClusterName (Name n) (Namespace n))) ∧
    t_exports t !! n = Some e ∧
    (net_Dial (address (export_host e) (exp_Port e)) w1).1 = Ok app.
Proof using Hconn.
  intros Hr Hd. unfold dataplaneIngressAuthorize.
  destruct (irq_PeerDNSNames r) as [[|principal names]|]; try done.
  destruct (irq_Body r) as [body|err]; [|done]. unfold_st.
  pose proof (Hconn (ingress_check r principal body) w) as Ha.
  destruct (authz_Check _ w) as [resp w1]. simpl in Ha.
  destruct resp as [[[headers rh|code b]|]|err]; try done. unfold routeIngress.
  destruct (decide (irq_Method r ≠ "CONNECT")) as [|Hm%dec_stable]; [done|].
  destruct (ingress_check_answer r principal body (cp w) Hm headers rh) as (tok & c & Htok & Hparse & ->); [done|].
  rewrite find_target. unfold_st. cbn [fst snd]. unfold GetClusterTarget.
  destruct (dp_clusters d !! c) as [cluster|] eqn:Hc; [|done].
  pose proof Hc as Hkey. rewrite Hd in Hkey. apply (rep_no_more _ _ Hr) in Hkey.
  destruct (parse_cluster_name _ _ _ Hparse) as (name & ns & ->).
  destruct Hkey as [[p Hp]|(n & Hn & Heq)]; [by apply export_not_remote_peer in Hp|].
  rewrite Heq in Hc, Hparse. destruct (export_cluster_view m t d n cluster) as (e & He & (_ & Ht & _)); [done..|].
  apply first_target in Ht as (ep & -> & -> & _). cbv beta iota. fold (address (export_host e) (exp_Port e)). cbn [fst snd].
  destruct (net_Dial (address (export_host e) (exp_Port e)) w1) as [[a|err] w2] eqn:Hdial; [|done]. cbn [fst snd].
  destruct (hijackConn w2) as [[pc|err] w3]; [|done]. intros [= <- _].
  exists tok, n, e, w1. by rewrite Hdial.
Qed.

(** The source address of a connection is cut at its first colon: that of a workload
    with an IPv6 address is the opening bracket and its first group. *)
Lemma ipv6_source_cut group rest port :
  str_in ":" group = false →
  before ":" (("[" +:+ group) +:+ String ":" (rest +:+ "]:" +:+ port)) = "[" +:+ group.
Proof using Type. intros Hg. apply before_app. exact Hg. Qed.
End connections.

(** ** Witnesses: the small cluster of [AuthzFacts.v] behind the data plane *)
#[local] Existing Instance ref_labelselectors.
#[local] Existing Instance ref_nn_string.
#[local] Existing Instance ref_encodings.
#[local] Existing Instance ref_tls.
#[local] Existing Instance ref_jwt.
#[local] Existing Instance cl_ki.
#[local] Existing Instance cl_kp.
#[local] Existing Instance cl_ke.
#[local] Existing Instance cl_clock.
#[local] Existing Instance cl_http.
#[local] Existing Instance ref_anypb.
#[local] Existing Instance ref_codec.
#[local] Existing Instance x_clusters.
#[local] Existing Instance x_listeners.
#[local] Existing Instance x_secrets.

(** The data plane's world is the control plane; connections are named by their address. *)
Definition dp_world : Type := Authz.Manager * cluster.
#[local] Instance dp_authz : AuthzClient dp_world := {|
  authz_Check req w :=
    (rpc_answer (server_Check ex_arrival ex_order ex_order ex_draw (Some req) w).1, w)
|}.
#[local] Instance dp_net : DataplaneNet dp_world := {|
  Conn := string;
  net_Dial addr := mret (Ok addr);
  http_Hijack := mret (Ok "remote");
  conn_SetDeadline _ := mret None;
  conn_Write _ _ := mret None;
  tls_Dial addr _ := mret (Ok addr);
  connect_Do _ _ _ _ := mret (Ok StatusOK)
|}.
Lemma dp_connected : connected ex_arrival ex_order ex_order ex_draw id.
Proof. by intros req w. Qed.

Definition dp_events : list event :=
  map PeerAdded ex_peers ++ [ExportAdded (mkExport (ex_meta "http") "" 80 [])].
Definition dp_manager : Manager := (handle_all dp_events NewManager).2.
Definition dp_tables : tables := foldl (λ t ev, table_step ev t) (mkTables ∅ ∅ ∅) dp_events.
Lemma dp_represents : represents dp_manager dp_tables ∧ tables_keyed dp_tables.
Proof.
  apply handled_ok; [repeat constructor|vm_compute; repeat constructor].
Qed.
Definition dp_state : Dataplane := mkDataplane (GetResources (clusters dp_manager)) (dp_tlsConfig NewDataplane).

Lemma clusters_reach_dataplane_witness :
  dp_clusters (handleClusters std_ranger (MarshalCluster <$> (map_to_list (GetResources (clusters dp_manager))).*2)
                 NewDataplane).2 = GetResources (clusters dp_manager).
Proof.
  exact (proj1 (clusters_reach_dataplane std_ranger dp_manager dp_tables _ NewDataplane
                  (proj1 dp_represents) (proj2 dp_represents) (Permutation_refl _))).
Defined.

(** How a connection ended, as a boolean that is cheap to evaluate. *)
Definition egress_to {T} (x : outcome (@egress_end ref_tls dp_world dp_net) * T) (c : string) : bool :=
  match x.1 with Done (Forwarding c') => bool_decide ((c' : string) = c) | _ => false end.
Lemma egress_to_eq {T} (x : _ * T) c : egress_to x c = true → x = (Done (Forwarding (c : Conn)), x.2).
Proof.
  unfold egress_to. destruct x as [[[e|c']|] s]; try done. simpl.
  by intros ->%bool_decide_eq_true.
Qed.
Definition ingress_to {T} (x : outcome (@ingress_end ref_tls dp_world dp_net) * T) (c c2 : string) : bool :=
  match x.1 with
  | Done (Forward c' c2') => bool_decide ((c' : string) = c ∧ (c2' : string) = c2)
  | _ => false end.
Lemma ingress_to_eq {T} (x : _ * T) c c2 :
  ingress_to x c c2 = true → x = (Done (Forward (c : Conn) (c2 : Conn)), x.2).
Proof.
  unfold ingress_to. destruct x as [[[? ? ?|c' c2']|] s]; try done. simpl.
  by intros [-> ->]%bool_decide_eq_true.
Qed.

Definition dp_garbage : ref_resource := RefSecret (mkTLSSecret "x" Secret_Other).
Lemma handleClusters_reconciles_witness :
  handleClusters std_ranger ([] ++ [dp_garbage]) dp_state =
    (Some (ENew "mismatched message type"),
     mkDataplane (fetched [] ∪ dp_clusters dp_state) (dp_tlsConfig dp_state)).
Proof.
  exact (handleClusters_reconciles std_ranger [] [] [dp_garbage] dp_state (List.Forall2_nil _) _ eq_refl).
Defined.

Definition dp_egress_world : dp_world := (ex_manager, ex_cluster "round-robin").
Definition dp_listener : string := TrimPrefix (ImportListenerName "web" "default") ImportListenerPrefix.

Lemma egress_asks_for_its_import_witness :
  (getEgressAuth dp_listener "10.1.0.7" dp_egress_world).1 = Done (Ok ("remote-peer-peer2", "Bearer secret")).
Proof.
  destruct (egress_asks_for_its_import ex_arrival ex_order ex_order ex_draw id dp_connected
              "web" "default" "10.1.0.7" dp_egress_world "remote-peer-peer2" "Bearer secret" eq_refl)
    as [_ [_ H]]. apply H. clear H.
  exists (mkEgressResp true "remote-peer-peer2" "secret").
  split; [vm_compute; reflexivity|]. repeat split. discriminate.
Defined.

Lemma dp_plain : map_Forall (λ p (_ : Peer), plain_host p) (t_peers dp_tables).
Proof. apply map_Forall_to_list. vm_compute. repeat constructor. Qed.

Lemma egress_reaches_its_peer_witness :
  ∃ resp p peer cfg, eresp_Allowed resp = true ∧ RemotePeerCluster resp = RemotePeerClusterName p ∧
    t_peers dp_tables !! p = Some peer ∧ ServerName cfg = p.
Proof.
  destruct (egress_reaches_its_peer ex_arrival ex_order ex_order ex_draw id dp_connected
    dp_manager dp_tables "web" "default" "10.1.0.7:5555" dp_state dp_egress_world
    ("10.0.0.1:443" : @Conn ref_tls dp_world dp_net)
    (serve_connection dp_listener "10.1.0.7:5555" (dp_state, dp_egress_world)).2 eq_refl
    (proj1 dp_represents) (proj2 dp_represents) eq_refl dp_plain)
    as (resp & p & peer & g & gs & cfg & w1 & w2 & _ & Ha & Hp & Ht & _ & Hs & _).
  - apply egress_to_eq. vm_compute. reflexivity.
  - exists resp, p, peer, cfg. repeat split; assumption.
Defined.

Definition dp_ingress_world : dp_world := (ex_ingress_manager, ex_cluster "").
Definition dp_connect : IngressRequest :=
  mkIngressRequest (Some ["peer9"]) "CONNECT" ""
    {[ "Authorization" := bearerSchemaPrefix +:+ ex_token ]} (Ok "").

Lemma ingress_needs_a_token_witness :
  ∃ tok n e, (parseAuthorizationHeader tok dp_ingress_world).1
               = Done (Ok (ExportClusterName (Name n) (Namespace n))) ∧ t_exports dp_tables !! n = Some e.
Proof.
  destruct (ingress_needs_a_token ex_arrival ex_order ex_order ex_draw id dp_connected
    dp_manager dp_tables dp_connect dp_state dp_ingress_world
    ("http.default.svc.cluster.local:80" : @Conn ref_tls dp_world dp_net) "remote"
    (dataplaneIngressAuthorize dp_connect (dp_state, dp_ingress_world)).2
    (proj1 dp_represents) eq_refl) as (tok & n & e & w1 & _ & _ & Hp & He & _).
  - apply ingress_to_eq. vm_compute. reflexivity.
  - exists tok, n, e. split; [exact Hp|exact He].
Defined.
