(* ===== verification/EndToEnd.v ===== *)
(** * A connection across two peers

    The control planes, the data planes and the network put together: what a connection
    of a workload to an imported service goes through until it reaches a service of
    another peer.  Every peer runs the code of this library; the only assumption about
    the network is that a request to the gateways of a peer is answered by the data plane
    of that peer, as mutual TLS ensures. *)
From S2P Require Export DataplaneFacts.
From stdpp Require Import options.
From Stdlib Require Import Ascii ZArith Lia.

Section peers.
Context {LS : LabelSelectors} {NS : NamespacedNameString} {SC : StatusConditions}.
Context {TL : TLSLib} {EN : Encodings} {JW : JWTLib}.
Context {V : Type} {KI : KubeClient V Import} {KP : KubeClient V Peer} {KE : KubeClient V Export}.
Context {HL : HTTPLib V} {CLK : Clock V}.
Context (arrival : V → list jsonClient → schedule) (draw : nat → Z → Z).
Context {AP : AnyPB} {LC : LinearCache Cluster} {LL : LinearCache Listener} {LSC : LinearCache TLSSecret}.
Context {W : Type} {AC : AuthzClient W} {DN : DataplaneNet W}.
(** The control plane behind a data plane, and the visiting orders of the policy maps. *)
Variable cp : W → Authz.Manager * V.
Context (o_priv o_reg : TierOrder).

(** ** The data plane of the remote peer *)
Section remote.
Hypothesis Hconn : connected arrival o_priv o_reg draw cp.

(** What follows the authorization of a CONNECT. *)
Definition forward_to (serviceTarget : string) : ST W ingress_end :=
  appConn ← net_Dial serviceTarget;
  match appConn with
  | Err err => mret (Respond StatusInternalServerError ∅ (error_string err))
  | Ok appConn =>
      peerConn ← hijackConn;
      mret match peerConn with
           | Err err => Respond StatusInternalServerError ∅ "hijacking failed"
           | Ok peerConn => Forward appConn peerConn
           end
  end.

(** A CONNECT with a token that names an export is forwarded to that export, and refused
    when there is none any more. *)
Lemma connect_reaches_export m t r principal names body n tok d w :
  represents m t → dp_clusters d = GetResources (clusters m) → no_slash (Namespace n) →
  irq_Method r = "CONNECT" → irq_PeerDNSNames r = Some (principal :: names) → irq_Body r = Ok body →
  Header_Get (irq_Header r) AuthorizationHeader = bearerSchemaPrefix +:+ tok →
  (parseAuthorizationHeader tok (cp w)).1 = Done (Ok (ExportClusterName (Name n) (Namespace n))) →
  let w1 := (authz_Check (ingress_check r principal body) w).2 in
  dataplaneIngressAuthorize r (d, w) =
    match t_exports t !! n with
    | Some e => let '(o, w2) := forward_to (address (export_host e) (exp_Port e)) w1 in (Done o, (d, w2))
    | None =>
        (http_Error (error_string (ENew ("unable to find " +:+ ExportClusterName (Name n) (Namespace n) +:+ " in cluster map")))
           StatusInternalServerError, (d, w1))
    end.
Proof using Hconn.
  intros Hr Hd Hn Hm Hp Hb Hh Ht w1. unfold dataplaneIngressAuthorize. rewrite Hp, Hb. unfold_st.
  pose proof (Hconn (ingress_check r principal body) w) as Ha. subst w1.
  destruct (authz_Check _ w) as [resp w1]. cbn [fst snd] in *.
  assert (resp = Ok (Some (OkResponse [(TargetClusterHeader, ExportClusterName (Name n) (Namespace n))] []))) as ->.
  { rewrite Ha. unfold server_Check, ingress_check. cbn [request_parts as_Address]. rewrite decide_False by done.
    unfold checkIngress. cbn [ah_Method ah_Path]. rewrite Hm.
    rewrite decide_False by (intros [[=] _]). rewrite decide_False by (intros [[=] _]). rewrite decide_True by done.
    unfold checkServiceAccessRequest. cbn [ah_Headers]. rewrite Hh.
    rewrite decide_False by discriminate.
    rewrite lookup_singleton_eq, HasPrefix_app, TrimPrefix_app. cbn [negb]. unfold_st.
    destruct (parseAuthorizationHeader tok (cp w)) as [o st2]. simpl in Ht. by subst o. }
  unfold routeIngress. rewrite decide_False by tauto. rewrite find_target. unfold_st. cbn [fst snd].
  unfold GetClusterTarget. rewrite Hd. pose proof (rep_exports _ _ Hr n Hn) as He. revert He.
  destruct (t_exports t !! n) as [e|]; inversion 1 as [? c Hc|]; subst; [|done].
  destruct Hc as (_ & Hts & _). apply first_target in Hts as (ep & -> & -> & _). cbv beta iota.
  fold (address (export_host e) (exp_Port e)). unfold forward_to. unfold_st.
  destruct (net_Dial _ w1) as [[a|err] w2]; [|done]. cbn [fst snd]. by destruct (hijackConn w2) as [[pc|err] w3].
Qed.

(** A request for access that is answered with success was granted, and the answer
    carries the token. *)
Lemma post_granted `{!EncodingsLaws} r areq body st status hdr b :
  json_authz_request areq = Ok body →
  irq_Method r = "POST" → irq_Path r = RemotePeerAuthorizationPath → irq_Body r = Ok body →
  (dataplaneIngressAuthorize r st).1 = Done (Respond status hdr b) → status = StatusOK →
  ∃ resp st',
    authorizeIngress o_priv o_reg
      (mkIngressReq (mkNN (areq_ServiceNamespace areq) (areq_ServiceName areq)) (areq_SrcAttributes areq)) (cp st.2)
      = (Ok resp, st') ∧
    iresp_Allowed resp = true ∧ Header_Get hdr AccessTokenHeader = iresp_AccessToken resp.
Proof using Hconn.
  intros Hj Hm Hp Hb. unfold dataplaneIngressAuthorize.
  destruct (irq_PeerDNSNames r) as [[|principal names]|]; try by intros [= <- _ _]. rewrite Hb. unfold_st.
  pose proof (Hconn (ingress_check r principal body) st.2) as Ha. destruct (authz_Check _ st.2) as [resp w1].
  cbn [fst snd] in *. subst resp. unfold server_Check, ingress_check. cbn [request_parts as_Address].
  rewrite decide_False by done. unfold checkIngress. cbn [ah_Method ah_Path ah_Headers ah_Body]. rewrite Hm, Hp.
  rewrite decide_False by (intros [[=] _]). rewrite decide_True by done.
  unfold checkAuthorizationRequest. cbn [ah_Body]. rewrite (json_authz_round_trip _ _ Hj). unfold_st.
  destruct (authorizeIngress _ _ _ (cp st.2)) as [[resp|err] st1] eqn:Hauth; [|by intros [= <- _ _]].
  destruct (ServiceExists resp); [|by intros [= <- _ _]].
  destruct (iresp_Allowed resp) eqn:Hal; [|by intros [= <- _ _]]. cbn [negb rpc_answer crs_HttpResponse buildAllowedResponse fst snd].
  unfold routeIngress. rewrite decide_True by (by rewrite Hm). unfold_st. intros [= _ <- _] _.
  exists resp, st1. split; [done|]. split; [done|]. unfold Header_Get. simpl. by rewrite lookup_insert_eq.
Qed.
End remote.

(** ** The network *)

(** A gateway answers what the data plane of its peer answers, in one of the states the
    peer is in.  [net/http] adds headers of its own. *)
Definition served_by (at_ : Dataplane * W → Prop) (c : jsonClient) : Prop :=
  ∀ method path ct body v r v' b,
    http_Do (jc_config c) (mkHTTPRequest method (jc_serverURL c +:+ path) ct body) v = (DoOk r, v') →
    hresp_Body r = Ok b →
    ∃ rq st hdr text, at_ st ∧ irq_Method rq = method ∧ irq_Path rq = path ∧ irq_Body rq = Ok body ∧
      (dataplaneIngressAuthorize rq st).1 = Done (Respond (hresp_StatusCode r) hdr text) ∧
      Header_Get (hresp_Header r) AccessTokenHeader = Header_Get hdr AccessTokenHeader.

Lemma jsonapi_Post_served at_ c path body v r :
  served_by at_ c → (jsonapi_Post c path body v).1 = Ok r →
  ∃ rq st hdr text, at_ st ∧ irq_Method rq = "POST" ∧ irq_Path rq = path ∧ irq_Body rq = Ok body ∧
    (dataplaneIngressAuthorize rq st).1 = Done (Respond (Status r) hdr text) ∧
    Header_Get (Headers r) AccessTokenHeader = Header_Get hdr AccessTokenHeader.
Proof.
  intros Hs. unfold jsonapi_Post, jsonapi_do. destruct (NewRequest_check _ _); [done|]. cbn [default]. unfold_st.
  set (rq := mkHTTPRequest _ _ _ _).
  assert (Hgo : ∀ x w1, (match x with
      | DoErr e => Err (EWrap "unable to perform http request" (do_error e))
      | DoOk r => match hresp_Body r with
                  | Err err => Err (EWrap "unable to read response body" err)
                  | Ok b => Ok (mkResponse (hresp_StatusCode r) (hresp_Header r) b)
                  end
      end : result Response) = Ok r → (∃ v0, http_Do (jc_config c) rq v0 = (x, w1)) →
    ∃ rq st hdr text, at_ st ∧ irq_Method rq = "POST" ∧ irq_Path rq = path ∧ irq_Body rq = Ok body ∧
      (dataplaneIngressAuthorize rq st).1 = Done (Respond (Status r) hdr text) ∧
      Header_Get (Headers r) AccessTokenHeader = Header_Get hdr AccessTokenHeader).
  { intros [hr|e] w1 Hx [v0 Hv]; [|done]. destruct (hresp_Body hr) as [b|err] eqn:Hb; [|done]. injection Hx as <-.
    by eapply Hs. }
  destruct (http_Do _ rq v) as [[hr|e] v1] eqn:H1.
  - intros Hx. cbn [fst] in Hx. by eapply Hgo; eauto.
  - destruct (do_timeout e).
    + destruct (CloseIdleConnections _ v1) as [[] v2]. destruct (http_Do _ rq v2) as [x v3] eqn:H2.
      intros Hx. cbn [fst] in Hx. by eapply Hgo; eauto.
    + done.
Qed.

Lemma collect_some rs : ∀ e r, collect e rs = Ok (Some r) → Ok r ∈ rs.
Proof.
  induction rs as [|[r'|err] rs IH]; intros e r; simpl; [by destruct e|by intros [= ->]; left|].
  intros H. right. by eapply IH.
Qed.
Lemma responses_elem (f : jsonClient → ST V (result Response)) cs : ∀ v x, x ∈ (responses f cs v).1 → ∃ c v1, c ∈ cs ∧ (f c v1).1 = x.
Proof.
  induction cs as [|c cs IH]; intros v x; simpl; unfold_st; [by intros []%not_elem_of_nil|].
  destruct (f c v) as [r v1] eqn:Hf. specialize (IH v1). destruct (responses f cs v1) as [rs v2]. simpl.
  intros [->|Hx]%elem_of_cons; [exists c, v; rewrite Hf; split; [left|done]|].
  destruct (IH x Hx) as (c' & v' & ? & ?). exists c', v'. split; [by right|done].
Qed.

(** Every client that is asked belongs to the peer. *)
Hypothesis Harrival : ∀ v cs, sch_order (arrival v cs) ⊆ cs.
Lemma getResponse_some c (f : jsonClient → ST V (result Response)) v r : (getResponse arrival c f v).1 = Some (Ok (Some r)) →
  ∃ cl v1, cl ∈ cl_clients c ∧ (f cl v1).1 = Ok r.
Proof using Harrival.
  unfold getResponse.
  assert (Hmany : ∀ cs, collect None (responses f (sch_order (arrival v cs)) v).1 = Ok (Some r) → ∃ cl v1, cl ∈ cs ∧ (f cl v1).1 = Ok r).
  { intros cs (c' & v1 & Hc & Hf)%collect_some%responses_elem. exists c', v1. split; [by eapply Harrival|done]. }
  destruct (cl_clients c) as [|cl [|cl' cs]].
  - unfold getS. unfold_st. specialize (Hmany []). destruct (responses _ _ _) as [rs v']. cbn [fst].
    destruct (_ && _); [done|]. intros [= H]. by apply Hmany.
  - unfold_st. destruct (f cl v) as [x v1] eqn:Hf. simpl. destruct x; [|done]. intros [= ->]. exists cl, v.
    rewrite Hf. split; [by left|done].
  - unfold getS. unfold_st. specialize (Hmany (cl :: cl' :: cs)). destruct (responses _ _ _) as [rs v']. cbn [fst].
    destruct (_ && _); [done|]. intros [= H]. by apply Hmany.
Qed.

(** A token that a peer hands out comes from its control plane, which granted the request. *)
Lemma Authorize_served `{!EncodingsLaws} at_ c areq v tok :
  connected arrival o_priv o_reg draw cp → Forall (served_by at_) (cl_clients c) →
  (Authorize arrival c areq v).1 = Some (Done (Ok tok)) →
  ∃ st resp st', at_ st ∧
    authorizeIngress o_priv o_reg
      (mkIngressReq (mkNN (areq_ServiceNamespace areq) (areq_ServiceName areq)) (areq_SrcAttributes areq)) (cp st.2)
      = (Ok resp, st') ∧
    iresp_Allowed resp = true ∧ iresp_AccessToken resp = tok.
Proof using Harrival.
  intros Hc Hs. unfold Authorize. destruct (json_authz_request areq) as [body|err] eqn:Hj; [|done]. unfold_st.
  pose proof (getResponse_some c (λ client, jsonapi_Post client RemotePeerAuthorizationPath body) v) as Hg.
  destruct (getResponse _ _ _ v) as [[[[r|]|err]|] v1]; [|done..]. cbn [fst] in *.
  unfold authorize_answer. simpl. destruct (decide (Status r ≠ 200%Z)) as [|Hst%dec_stable]; [done|]. intros [= <-].
  destruct (Hg r eq_refl) as (cl & v2 & Hcl & Hr). rewrite Forall_forall in Hs.
  destruct (jsonapi_Post_served at_ cl _ _ _ _ (Hs cl Hcl) Hr) as (rq & st & hdr & text & Ha & Hm & Hp & Hb & Hd & Hh).
  destruct (post_granted Hc rq areq body st _ hdr text Hj Hm Hp Hb Hd Hst) as (resp & st' & Hi & Hal & Ht).
  exists st, resp, st'. split_and!; [done..|]. congruence.
Qed.
End peers.

(** ** From a workload to a service of another peer *)
Section crossing.
Context {LS : LabelSelectors} {NS : NamespacedNameString} {SC : StatusConditions}.
Context {TL : TLSLib} {EN : Encodings} {EL : EncodingsLaws} {JW : JWTLib} {JL : JWTLaws}.
Context {V : Type} {KI : KubeClient V Import} {KP : KubeClient V Peer} {KE : KubeClient V Export}.
Context {HL : HTTPLib V} {CLK : Clock V}.
Context (arrival : V → list jsonClient → schedule) (o_priv o_reg : TierOrder) (draw : nat → Z → Z).
Context {AP : AnyPB} {LC : LinearCache Cluster} {LL : LinearCache Listener} {LSC : LinearCache TLSSecret}.
Context {W : Type} {AC : AuthzClient W} {DN : DataplaneNet W}.
Variable cp : W → Authz.Manager * V.

(** The policies of a control plane allow a client a service. *)
Definition policies_allow (m : Authz.Manager) (src dst : WorkloadAttrs) (ns : string) : Prop :=
  ∃ d, Decide o_priv o_reg (connectivityPDP m) src dst ns = Ok d ∧ dd_Decision d = DecisionAllow.

(** A control plane with the key, before the deadline, lets a CONNECT that bears the token
    through, and its data plane forwards it to the export, where that export still is. *)
Definition opens_export (tok : string) (n : NamespacedName) (key : option JwkKey) (deadline : Z) : Prop :=
  ∀ m t d w r principal names body,
    represents m t → dp_clusters d = GetResources (clusters m) →
    jwkKey (cp w).1 = key → (clock_now (cp w).2 < deadline)%Z →
    irq_Method r = "CONNECT" → irq_PeerDNSNames r = Some (principal :: names) → irq_Body r = Ok body →
    Header_Get (irq_Header r) AuthorizationHeader = bearerSchemaPrefix +:+ tok →
    let w1 := (authz_Check (ingress_check r principal body) w).2 in
    dataplaneIngressAuthorize r (d, w) =
      match t_exports t !! n with
      | Some e => let '(o, w2) := forward_to (address (export_host e) (exp_Port e)) w1 in (Done o, (d, w2))
      | None =>
          (http_Error (error_string (ENew ("unable to find " +:+ ExportClusterName (Name n) (Namespace n) +:+ " in cluster map")))
             StatusInternalServerError, (d, w1))
      end.

(** The states each peer is in. *)
Variable at_ : string → Dataplane * W → Prop.
Hypothesis Hconn : connected arrival o_priv o_reg draw cp.
Hypothesis Harrival : ∀ v cs, sch_order (arrival v cs) ⊆ cs.

(** What a request that is allowed for egress went through at the remote peer. *)
Lemma egress_crosses req st resp st' imp v1 :
  (∀ p cl, peerClient st.1 !! p = Some cl → Forall (served_by (at_ p)) (cl_clients cl)) →
  kGet (ereq_ImportName req) st.2 = (Ok imp, v1) →
  authorizeEgress arrival o_priv o_reg draw req st = (Some (Done (Ok resp)), st') →
  let src := getSrcAttributes req st.1 in
  ∃ s pr v2 stB export v3 key,
    let n := mkNN (dst_name req s).2 (dst_name req s).1 in
    s ∈ sources imp ∧ RemotePeerCluster resp = RemotePeerClusterName (src_Peer s) ∧
    (kGet (mkNN (namespace st.1) (src_Peer s)) v2).1 = Ok pr ∧
    policies_allow st.1 src
      (getDstAttributes (src_ExportName s) (src_ExportNamespace s) (src_Peer s) (imp_Labels imp) (peer_Labels pr))
      (Namespace (ereq_ImportName req)) ∧
    at_ (src_Peer s) stB ∧ kGet (T:=Export) n (cp stB.2).2 = (Ok export, v3) ∧
    policies_allow (cp stB.2).1 src
      (getDstAttributes (exp_Name export) (exp_Namespace export) (peerName (cp stB.2).1) (exp_Labels export)
         (peerLabels (cp stB.2).1)) (Namespace n) ∧
    jwkKey (cp stB.2).1 = Some key ∧
    jwt_Sign key (mkToken (clock_now v3 + jwtExpirySeconds)
      (<[ExportNamespaceJWTClaim := ClaimString (Namespace n)]> {[ ExportNameJWTClaim := ClaimString (Name n) ]}))
      = Ok (eresp_AccessToken resp).
Proof using Hconn Harrival EL JL.
  intros Hserved Hk Ha. apply authorizeEgress_allowed in Ha as [(imp' & v' & Hk' & Hal) _].
  rewrite Hk in Hk'. injection Hk' as <- <-.
  destruct Hal as (s & pr & cl & d & v2 & v3 & Hs & Hpr & Hd & Hal & Hcl & Htok & Hresp).
  destruct (Authorize_served arrival draw cp o_priv o_reg Harrival (at_ (src_Peer s)) cl _ _ _ Hconn (Hserved _ _ Hcl) Htok)
    as (stB & respB & stB' & Hat & HauthB & HalB & HtokB).
  destruct (authorizeIngress_allowed _ _ _ _ _ _ HauthB HalB) as ((export & v4 & Hexp & Hst' & HdB) & _ & key & Hkey & Hsign).
  cbn [areq_ServiceNamespace areq_ServiceName areq_SrcAttributes ireq_ServiceName ireq_SrcAttributes Namespace Name] in *.
  rewrite Hst', HtokB in Hsign.
  exists s, pr, v2, stB, export, v4, key. rewrite Hresp.
  split_and!; try done. by exists d.
Qed.

(** C2: when the data plane of a peer forwards the connection of a local workload to an
    import, then the policies of the local peer allow the workload one of the sources of
    the import; the peer of that source exported the service and its policies allow the
    workload, with the attributes of the local peer; and the connection is a tunnel to
    that peer, verified under its name, with a token that opens exactly this export there
    for five seconds. *)
Theorem connection_crosses_peers m t name ns remoteAddr d w conn st' :
  (∀ p cl, peerClient (cp w).1 !! p = Some cl → Forall (served_by (at_ p)) (cl_clients cl)) →
  no_slash ns → represents m t → tables_keyed t → dp_clusters d = GetResources (clusters m) →
  map_Forall (λ p _, plain_host p) (t_peers t) →
  serve_connection (TrimPrefix (ImportListenerName name ns) ImportListenerPrefix) remoteAddr (d, w)
    = (Done (Forwarding conn), st') →
  let req := mkEgressReq (mkNN ns name) (before ":" remoteAddr) in
  let src := getSrcAttributes req (cp w).1 in
  ∃ imp v1 s pr v2 stB export v3 tok g gs peer cfg w1 w2,
    let n := mkNN (dst_name req s).2 (dst_name req s).1 in
    kGet (mkNN ns name) (cp w).2 = (Ok imp, v1) ∧ s ∈ sources imp ∧
    (kGet (mkNN (namespace (cp w).1) (src_Peer s)) v2).1 = Ok pr ∧
    policies_allow (cp w).1 src
      (getDstAttributes (src_ExportName s) (src_ExportNamespace s) (src_Peer s) (imp_Labels imp) (peer_Labels pr)) ns ∧
    at_ (src_Peer s) stB ∧ kGet (T:=Export) n (cp stB.2).2 = (Ok export, v3) ∧
    policies_allow (cp stB.2).1 src
      (getDstAttributes (exp_Name export) (exp_Namespace export) (peerName (cp stB.2).1) (exp_Labels export)
         (peerLabels (cp stB.2).1)) (Namespace n) ∧
    t_peers t !! src_Peer s = Some peer ∧ peer_Gateways peer = g :: gs ∧ ServerName cfg = src_Peer s ∧
    (tls_Dial (address (ep_Host g) (ep_Port g)) cfg w1).1 = Ok conn ∧
    (connect_Do conn cfg ("https://" +:+ src_Peer s +:+ ":443")
       {[ CanonicalHeaderKey AuthorizationHeader := bearerSchemaPrefix +:+ tok ]} w2).1 = Ok StatusOK ∧
    (no_slash (Namespace n) →
     opens_export tok n (jwkKey (cp stB.2).1) (clock_now v3 + jwtExpirySeconds)).
Proof using Hconn Harrival EL JL.
  intros Hserved Hns Hr Hk Hd Hplain Hserve req src.
  destruct (egress_forwarded arrival o_priv o_reg draw cp Hconn m t name ns remoteAddr d w conn st' Hns Hr Hk Hd Hplain Hserve)
    as (resp & p & peer & g & gs & cfg & w1 & w2 & Hauth & _ & Hrp & Hp & Hg & Hsn & _ & Hdial & Hdo).
  fold req in Hauth. destruct (authorizeEgress arrival o_priv o_reg draw req (cp w)) as [o stA] eqn:Ha. cbn [fst] in Hauth.
  subst o. destruct (authorizeEgress_allowed _ _ _ _ _ _ _ _ Ha) as [(imp & v1 & Himp & _) _].
  destruct (egress_crosses req (cp w) resp stA imp v1 Hserved Himp Ha)
    as (s & pr & v2 & stB & export & v3 & key & Hs & Hrs & Hpr & HA & Hat & Hexp & HB & Hkey & Hsign).
  assert (src_Peer s = p) as <- by (rewrite Hrs in Hrp; by apply RemotePeerClusterName_inj).
  exists imp, v1, s, pr, v2, stB, export, v3, (eresp_AccessToken resp), g, gs, peer, cfg, w1, w2.
  split_and!; try done. intros Hn. intros m2 t2 d2 w3 r principal names body Hr2 Hd2 Hk2 Hc2 Hm Hpn Hb Hh.
  eapply connect_reaches_export; try done.
  eapply signed_token_accepted; [exact Hsign|by rewrite Hk2|done].
Qed.
End crossing.

(** ** Witness: two peers, with the clusters of [DataplaneFacts.v]

    The gateways of both peers are at one address, where the data plane of the second
    peer answers. *)
#[local] Existing Instance ref_labelselectors.
#[local] Existing Instance ref_nn_string.
#[local] Existing Instance ref_encodings.
#[local] Existing Instance ref_tls.
#[local] Existing Instance ref_jwt.
#[local] Existing Instance cl_ki.
#[local] Existing Instance cl_kp.
#[local] Existing Instance cl_ke.
#[local] Existing Instance cl_clock.
#[local] Existing Instance ref_anypb.
#[local] Existing Instance ref_codec.
#[local] Existing Instance x_clusters.
#[local] Existing Instance x_listeners.
#[local] Existing Instance x_secrets.
#[local] Existing Instance dp_net.

Definition xp_gateway : string := "https://10.0.0.1:443".
Definition xp_remote : Dataplane * dp_world := (dp_state, dp_ingress_world).
Definition xp_request (method path body : string) : IngressRequest :=
  mkIngressRequest (Some ["local"]) method path ∅ (Ok body).
Definition xp_answer (rq : IngressRequest) : do_result :=
  match (dataplaneIngressAuthorize (AC:=dp_authz) rq xp_remote).1 with
  | Done (Respond status hdr text) => DoOk (mkHTTPResponse status hdr (Ok text))
  | _ => DoErr (mkDoError (ENew "connection closed") false)
  end.
#[local] Instance xp_http : HTTPLib cluster := {|
  NewRequest_check _ _ := None;
  http_Do _ rq v :=
    (match strip_prefix xp_gateway (hreq_URL rq) with
     | Some path => xp_answer (xp_request (hreq_Method rq) path (hreq_Body rq))
     | None => DoErr (mkDoError (ENew "no such host") false)
     end, v);
  CloseIdleConnections _ v := (tt, v)
|}.
#[local] Instance xp_authz : AuthzClient dp_world := {|
  authz_Check req w := (rpc_answer (server_Check ex_arrival ex_order ex_order ex_draw (Some req) w).1, w)
|}.
Lemma xp_same_answer rq st : dataplaneIngressAuthorize (AC:=xp_authz) rq st = dataplaneIngressAuthorize (AC:=dp_authz) rq st.
Proof.
  unfold dataplaneIngressAuthorize. destruct (irq_PeerDNSNames rq) as [[|name ?]|]; [done| |done].
  destruct (irq_Body rq) as [body|err]; [|done].
  assert (∀ w, authz_Check (AuthzClient := xp_authz) (ingress_check rq name body) w =
               authz_Check (AuthzClient := dp_authz) (ingress_check rq name body) w) as Hc.
  { intros w. unfold authz_Check, xp_authz, dp_authz. by do 3 f_equal. }
  unfold_st. by rewrite Hc.
Qed.
Definition xp_at (_ : string) (st : Dataplane * dp_world) : Prop := st = xp_remote.
Lemma xp_served p cfg : served_by (xp_at p) (mkJsonClient cfg xp_gateway).
Proof.
  intros method path ct body v r v' b. cbn [jc_config jc_serverURL]. unfold http_Do. cbn -[xp_answer xp_gateway].
  rewrite strip_prefix_app. unfold xp_answer. intros H Hb. exists (xp_request method path body), xp_remote.
  rewrite xp_same_answer. destruct (dataplaneIngressAuthorize _ _).1 as [[status hdr text|? ?]|]; [|done..].
  injection H as <- <-. injection Hb as <-. by exists hdr, text.
Qed.
Lemma xp_all_served p cl : peerClient (id dp_egress_world).1 !! p = Some cl → Forall (served_by (xp_at p)) (cl_clients cl).
Proof.
  assert (map_Forall (λ _ cl, Forall (λ c, jc_serverURL c = xp_gateway) (cl_clients cl)) (peerClient ex_manager)) as H
    by (apply map_Forall_to_list, (bool_decide_unpack _); vm_compute; exact I).
  intros Hcl%H. eapply Forall_impl; [exact Hcl|]. intros [cfg url] Hu. simpl in Hu. rewrite Hu. apply xp_served.
Qed.
Lemma xp_connected : connected ex_arrival ex_order ex_order ex_draw id.
Proof. by intros req w. Qed.

Lemma connection_crosses_peers_witness :
  ∃ imp s export tok (stB : dp_world), s ∈ sources imp ∧ (dst_name (mkEgressReq (mkNN "default" "web") "10.1.0.7") s).1 = exp_Name export ∧
    opens_export id tok (mkNN "default" "http") (jwkKey (id stB).1) 105.
Proof.
  destruct (connection_crosses_peers ex_arrival ex_order ex_order ex_draw id xp_at xp_connected (λ _ cs, reflexivity cs)
    dp_manager dp_tables "web" "default" "10.1.0.7:5555" dp_state dp_egress_world
    ("10.0.0.1:443" : @Conn ref_tls dp_world dp_net)
    (serve_connection dp_listener "10.1.0.7:5555" (dp_state, dp_egress_world)).2 xp_all_served eq_refl
    (proj1 dp_represents) (proj2 dp_represents) eq_refl dp_plain)
    as (imp & v1 & s & pr & v2 & stB & export & v3 & tok & g & gs & peer & cfg & w1 & w2 & Himp & Hs & _ & _ & Hat & Hexp & _ & _ & _ & _ & _ & _ & Ho).
  - apply egress_to_eq. vm_compute. reflexivity.
  - exists imp, s, export, tok, stB.2. split; [exact Hs|]. injection Himp as <- _.
    assert (Hn : dst_name (mkEgressReq (mkNN "default" "web") "10.1.0.7") s = ("http", "default")).
    { unfold sources in Hs. simpl in Hs. apply elem_of_cons in Hs as [->|Hs]; [reflexivity|].
      apply list_elem_of_singleton in Hs as ->. reflexivity. }
    change (before ":" "10.1.0.7:5555") with "10.1.0.7" in *.
    rewrite Hn in Hexp, Ho. rewrite Hat in Hexp. injection Hexp as <- <-. rewrite Hn. split; [reflexivity|].
    exact (Ho eq_refl).
Defined.
