(* ===== verification/EnvoyConf.v ===== *)
(** * The bootstrap configuration of the Envoy data plane

    [cmd/cl-dataplane/app/envoyconf.go] and [envoy.go]: a YAML template is filled in and
    given to Envoy on its command line.  A configuration is the tree its text spells; a
    plain scalar is its text, and a value of the template is one plain scalar (the ID of the
    data plane is a UUID, the host of the control plane a host name).  What Envoy does with
    it is not modelled; the theorems say that the configuration is closed and that no
    request gets to a router without the control plane being asked. *)
From S2P Require Export AuthzServer Xds Paths.
From stdpp Require Import options.
From Stdlib Require Import ZArith Lia.

#[local] Set Default Proof Using "Type".

(** ** YAML *)
Inductive yaml := YVal (v : string) | YMap (fields : list (string * yaml)) | YSeq (items : list yaml).

Fixpoint yassoc (key : string) (fields : list (string * yaml)) : option yaml :=
  match fields with
  | [] => None
  | (k, v) :: fields' => if decide (k = key) then Some v else yassoc key fields'
  end.
Definition yget (key : string) (y : yaml) : option yaml :=
  match y with YMap fields => yassoc key fields | _ => None end.
Fixpoint ypath (path : list string) (y : yaml) : option yaml :=
  match path with
  | [] => Some y
  | key :: path' => match yget key y with Some y' => ypath path' y' | None => None end
  end.
Definition ytext (path : list string) (y : yaml) : option string :=
  match ypath path y with Some (YVal v) => Some v | _ => None end.
Definition yitems (path : list string) (y : yaml) : list yaml :=
  match ypath path y with Some (YSeq items) => items | _ => [] end.

(** All trees inside a tree, each with the key it is under. *)
Fixpoint ysubtrees (key : string) (y : yaml) : list (string * yaml) :=
  (key, y) ::
  match y with
  | YVal _ => []
  | YMap fields => (fix go l := match l with [] => [] | (k, v) :: l' => ysubtrees k v ++ go l' end) fields
  | YSeq items => (fix go l := match l with [] => [] | v :: l' => ysubtrees "" v ++ go l' end) items
  end.
Definition yfilter (f : string → yaml → bool) (y : yaml) : list yaml :=
  snd <$> filter (λ ky, f ky.1 ky.2 = true) (ysubtrees "" y).
(** The scalars under a key, anywhere. *)
Definition yvalues (key : string) (y : yaml) : list string :=
  omap (λ v, match v with YVal s => Some s | _ => None end) (yfilter (λ k _, bool_decide (k = key)) y).
Definition ytype (y : yaml) : string := default "" (ytext ["@type"] y).

(** ** envoyconf.go *)
Section template.
(** The values of the template, as they are printed. *)
Context (args : gmap string string).
Definition no_value : string := "<no value>".
(** [{{.key}}] *)
Definition arg (key : string) : yaml := YVal (default no_value (args !! key)).

Definition controlplane_grpc : yaml :=
  YMap [
    ("envoy_grpc", YMap [
        ("cluster_name", arg "controlplaneCluster");
        ("retry_policy", YMap [("retry_back_off", YMap [("base_interval", YVal "0.5s"); ("max_interval", YVal "1s")])])])].
Definition ads_source : yaml := YMap [("resource_api_version", YVal "V3"); ("initial_fetch_timeout", YVal "1s"); ("ads", YMap [])].
Definition router_filter : yaml :=
  YMap [
    ("name", YVal "envoy.filters.http.router");
    ("typed_config", YMap [("@type", YVal "type.googleapis.com/envoy.extensions.filters.http.router.v3.Router")])].
Definition authorization_only : yaml := YMap [("patterns", YSeq [YMap [("exact", arg "authorizationHeader")]])].
Definition envoy_node : yaml :=
  YMap [("id", arg "dataplaneID"); ("cluster", YVal "cl-dataplane")].
Definition envoy_admin : yaml :=
  YMap [
    ("address", YMap [("socket_address", YMap [("address", YVal "127.0.0.1"); ("port_value", arg "adminPort")])])].
Definition envoy_bootstrap_extensions : yaml :=
  YSeq [
    YMap [
      ("name", YVal "envoy.bootstrap.internal_listener");
      ("typed_config", YMap [
          ("@type", YVal "type.googleapis.com/envoy.extensions.bootstrap.internal_listener.v3.InternalListener")])]].
Definition envoy_layered_runtime : yaml :=
  YMap [
    ("layers", YSeq [
        YMap [
          ("name", YVal "static_layer");
          ("static_layer", YMap [("overload", YMap [("global_downstream_max_connections", YVal "50000")])])]])].
Definition envoy_dynamic_resources : yaml :=
  YMap [
    ("ads_config", YMap [
        ("api_type", YVal "DELTA_GRPC");
        ("transport_api_version", YVal "V3");
        ("grpc_services", YSeq [controlplane_grpc])]);
    ("lds_config", ads_source);
    ("cds_config", ads_source)].
Definition controlplane_cluster : yaml :=
  YMap [
    ("name", arg "controlplaneCluster");
    ("type", YVal "LOGICAL_DNS");
    ("dns_refresh_rate", YVal "1s");
    ("connect_timeout", YVal "1s");
    ("typed_dns_resolver_config", YMap [
        ("name", YVal "envoy.network.dns_resolver.getaddrinfo");
        ("typed_config", YMap [
            ("@type", YVal "type.googleapis.com/envoy.extensions.network.dns_resolver.getaddrinfo.v3.GetAddrInfoDnsResolverConfig")])]);
    ("typed_extension_protocol_options", YMap [
        ("envoy.extensions.upstreams.http.v3.HttpProtocolOptions", YMap [
            ("@type", YVal "type.googleapis.com/envoy.extensions.upstreams.http.v3.HttpProtocolOptions");
            ("explicit_http_config", YMap [("http2_protocol_options", YMap [])])])]);
    ("load_assignment", YMap [
        ("cluster_name", arg "controlplaneCluster");
        ("endpoints", YSeq [
            YMap [
              ("lb_endpoints", YSeq [
                  YMap [
                    ("endpoint", YMap [
                        ("address", YMap [
                            ("socket_address", YMap [("address", arg "controlplaneHost"); ("port_value", arg "controlplanePort")])])])]])]])]);
    ("transport_socket", YMap [
        ("name", YVal "envoy.transport_sockets.tls");
        ("typed_config", YMap [
            ("@type", YVal "type.googleapis.com/envoy.extensions.transport_sockets.tls.v3.UpstreamTlsContext");
            ("max_session_keys", YVal "0");
            ("common_tls_context", YMap [
                ("tls_certificates", YSeq [
                    YMap [
                      ("certificate_chain", YMap [("filename", arg "certificateFile")]);
                      ("private_key", YMap [("filename", arg "keyFile")])]]);
                ("validation_context", YMap [("trusted_ca", YMap [("filename", arg "caFile")])])])])])].
Definition egress_cluster : yaml :=
  YMap [
    ("name", arg "egressRouterCluster");
    ("connect_timeout", YVal "1s");
    ("typed_extension_protocol_options", YMap [
        ("envoy.extensions.upstreams.http.v3.HttpProtocolOptions", YMap [
            ("@type", YVal "type.googleapis.com/envoy.extensions.upstreams.http.v3.HttpProtocolOptions");
            ("explicit_http_config", YMap [("http2_protocol_options", YMap [("max_outbound_frames", YVal "50000")])])])]);
    ("load_assignment", YMap [
        ("cluster_name", arg "egressRouterCluster");
        ("endpoints", YSeq [
            YMap [
              ("lb_endpoints", YSeq [
                  YMap [
                    ("endpoint", YMap [
                        ("address", YMap [
                            ("envoy_internal_address", YMap [("server_listener_name", arg "egressRouterListener")])])])]])]])])].
Definition egress_listener : yaml :=
  YMap [
    ("name", arg "egressRouterListener");
    ("internal_listener", YMap []);
    ("filter_chains", YSeq [
        YMap [
          ("filters", YSeq [
              YMap [
                ("name", YVal "envoy.filters.network.http_connection_manager");
                ("typed_config", YMap [
                    ("@type", YVal "type.googleapis.com/envoy.extensions.filters.network.http_connection_manager.v3.HttpConnectionManager");
                    ("stat_prefix", YVal "hcm-egress");
                    ("route_config", YMap [
                        ("virtual_hosts", YSeq [
                            YMap [
                              ("name", YVal "egress");
                              ("domains", YSeq [YVal "*"]);
                              ("routes", YSeq [
                                  YMap [
                                    ("match", YMap [("connect_matcher", YMap [])]);
                                    ("route", YMap [
                                        ("cluster_header", arg "targetClusterHeader");
                                        ("auto_host_rewrite", YVal "true")])]])]])]);
                    ("upgrade_configs", YSeq [YMap [("upgrade_type", YVal "CONNECT")]]);
                    ("http_filters", YSeq [
                        YMap [
                          ("name", YVal "envoy.filters.http.ext_authz");
                          ("typed_config", YMap [
                              ("@type", YVal "type.googleapis.com/envoy.extensions.filters.http.ext_authz.v3.ExtAuthz");
                              ("grpc_service", controlplane_grpc);
                              ("clear_route_cache", YVal "true");
                              ("transport_api_version", YVal "V3")])];
                        router_filter])])]])]])].
Definition ingress_tls : yaml :=
  YMap [
    ("name", YVal "envoy.transport_sockets.tls");
    ("typed_config", YMap [
        ("@type", YVal "type.googleapis.com/envoy.extensions.transport_sockets.tls.v3.DownstreamTlsContext");
        ("require_client_certificate", YVal "true");
        ("common_tls_context", YMap [
            ("tls_certificate_sds_secret_configs", YSeq [YMap [("name", arg "certificateSecret"); ("sds_config", ads_source)]]);
            ("validation_context_sds_secret_config", YMap [("name", arg "validationSecret"); ("sds_config", ads_source)])])])].
Definition ingress_authz : yaml :=
  YMap [
    ("name", YVal "composite");
    ("typed_config", YMap [
        ("@type", YVal "type.googleapis.com/envoy.extensions.common.matching.v3.ExtensionWithMatcher");
        ("extension_config", YMap [
            ("name", YVal "composite");
            ("typed_config", YMap [("@type", YVal "type.googleapis.com/envoy.extensions.filters.http.composite.v3.Composite")])]);
        ("matcher", YMap [
            ("on_no_match", YMap [
                ("action", YMap [
                    ("name", YVal "action-no-match");
                    ("typed_config", YMap [
                        ("@type", YVal "type.googleapis.com/envoy.extensions.filters.http.composite.v3.ExecuteFilterAction");
                        ("typed_config", YMap [
                            ("name", YVal "envoy.filters.http.ext_authz");
                            ("typed_config", YMap [
                                ("@type", YVal "type.googleapis.com/envoy.extensions.filters.http.ext_authz.v3.ExtAuthz");
                                ("grpc_service", controlplane_grpc);
                                ("clear_route_cache", YVal "true");
                                ("include_peer_certificate", YVal "true");
                                ("with_request_body", YMap [("max_request_bytes", YVal "65536")]);
                                ("transport_api_version", YVal "V3");
                                ("allowed_headers", authorization_only)])])])])]);
            ("matcher_list", YMap [
                ("matchers", YSeq [
                    YMap [
                      ("predicate", YMap [
                          ("single_predicate", YMap [
                              ("input", YMap [
                                  ("name", YVal "method-matcher");
                                  ("typed_config", YMap [
                                      ("@type", YVal "type.googleapis.com/envoy.type.matcher.v3.HttpRequestHeaderMatchInput");
                                      ("header_name", YVal ":method")])]);
                              ("value_match", YMap [("exact", YVal "CONNECT"); ("ignore_case", YVal "true")])])]);
                      ("on_match", YMap [
                          ("action", YMap [
                              ("name", YVal "connect-action");
                              ("typed_config", YMap [
                                  ("@type", YVal "type.googleapis.com/envoy.extensions.filters.http.composite.v3.ExecuteFilterAction");
                                  ("typed_config", YMap [
                                      ("name", YVal "envoy.filters.http.ext_authz");
                                      ("typed_config", YMap [
                                          ("@type", YVal "type.googleapis.com/envoy.extensions.filters.http.ext_authz.v3.ExtAuthz");
                                          ("grpc_service", controlplane_grpc);
                                          ("clear_route_cache", YVal "true");
                                          ("include_peer_certificate", YVal "true");
                                          ("transport_api_version", YVal "V3");
                                          ("allowed_headers", authorization_only)])])])])])]])])])])].
Definition ingress_listener : yaml :=
  YMap [
    ("name", arg "ingressRouterListener");
    ("address", YMap [("socket_address", YMap [("address", YVal "0.0.0.0"); ("port_value", arg "dataplaneListenPort")])]);
    ("filter_chains", YSeq [
        YMap [
          ("transport_socket", ingress_tls);
          ("filters", YSeq [
              YMap [
                ("name", YVal "envoy.filters.network.http_connection_manager");
                ("typed_config", YMap [
                    ("@type", YVal "type.googleapis.com/envoy.extensions.filters.network.http_connection_manager.v3.HttpConnectionManager");
                    ("stat_prefix", YVal "hcm-ingress");
                    ("route_config", YMap [
                        ("virtual_hosts", YSeq [
                            YMap [
                              ("name", YVal "ingress");
                              ("domains", YSeq [YVal "*"]);
                              ("routes", YSeq [
                                  YMap [
                                    ("match", YMap [("connect_matcher", YMap [])]);
                                    ("route", YMap [
                                        ("cluster_header", arg "targetClusterHeader");
                                        ("upgrade_configs", YSeq [
                                            YMap [("upgrade_type", YVal "CONNECT"); ("connect_config", YMap [])]])])];
                                  YMap [
                                    ("match", YMap [("prefix", YVal "/")]);
                                    ("direct_response", YMap [("status", YVal "200")])]])]])]);
                    ("upgrade_configs", YSeq [YMap [("upgrade_type", YVal "CONNECT")]]);
                    ("http_filters", YSeq [ingress_authz; router_filter])])]])]])].

Definition envoyConfigurationTemplate : yaml :=
  YMap [
    ("node", envoy_node);
    ("admin", envoy_admin);
    ("bootstrap_extensions", envoy_bootstrap_extensions);
    ("layered_runtime", envoy_layered_runtime);
    ("dynamic_resources", envoy_dynamic_resources);
    ("static_resources", YMap [
        ("clusters", YSeq [controlplane_cluster; egress_cluster]);
        ("listeners", YSeq [egress_listener; ingress_listener])])].
End template.

(** ** envoy.go *)
Definition ControlplaneCluster : string := "controlplane".
Definition EgressRouterListener : string := "egress-router".
Definition IngressRouterListener : string := "ingress-router".
Definition envoyPath : string := "/usr/local/bin/envoy".
Definition adminPort : Z := 1500.

Record EnvoyOptions := mkEnvoyOptions { eo_ControlplaneHost : string; eo_LogFile : string; eo_LogLevel : string }.

Definition envoyConfArgs (o : EnvoyOptions) (dataplaneID : string) : gmap string string :=
  list_to_map [
    ("dataplaneID", dataplaneID);
    ("adminPort", Itoa adminPort);
    ("controlplaneHost", eo_ControlplaneHost o);
    ("controlplanePort", Itoa controlplane_ListenPort);
    ("dataplaneListenPort", Itoa dataplane_ListenPort);
    ("certificateFile", dp_CertificateFile);
    ("keyFile", dp_KeyFile);
    ("caFile", CAFile);
    ("controlplaneCluster", ControlplaneCluster);
    ("egressRouterCluster", EgressRouterCluster);
    ("egressRouterListener", EgressRouterListener);
    ("ingressRouterListener", IngressRouterListener);
    ("certificateSecret", CertificateSecret);
    ("validationSecret", ValidationSecret);
    ("authorizationHeader", AuthorizationHeader);
    ("targetClusterHeader", TargetClusterHeader)].

(** An argument of the command: a word, or the text of the configuration. *)
Inductive envoy_arg := EnvoyArg (s : string) | EnvoyConfig (conf : yaml).

(** [exec.Command(...).Run()]. *)
Class EnvoyProcess (W : Type) := exec_Run : string → list envoy_arg → ST W (option error).

Definition runEnvoy {W} `{EnvoyProcess W} (o : EnvoyOptions) (dataplaneID : string) : ST W (option error) :=
  let envoyConf := envoyConfigurationTemplate (envoyConfArgs o dataplaneID) in
  let args := [EnvoyArg "--log-level"; EnvoyArg (eo_LogLevel o); EnvoyArg "--config-yaml"; EnvoyConfig envoyConf] in
  let args := if decide (eo_LogFile o ≠ "") then args ++ [EnvoyArg "--log-path"; EnvoyArg (eo_LogFile o)] else args in
  exec_Run envoyPath args.

(** ** What is to hold of a configuration *)
Definition type_prefix : string := "type.googleapis.com/envoy.extensions.".
Definition is_type (name : string) (y : yaml) : bool := bool_decide (ytype y = type_prefix +:+ name).

Definition connection_managers : yaml → list yaml :=
  yfilter (λ _, is_type "filters.network.http_connection_manager.v3.HttpConnectionManager").

(** The filter asks the control plane, and a request is refused when it can not. *)
Definition asks_authz (f : yaml) : bool :=
  match yget "typed_config" f with
  | Some tc =>
      is_type "filters.http.ext_authz.v3.ExtAuthz" tc &&
      bool_decide (ytext ["grpc_service"; "envoy_grpc"; "cluster_name"] tc = Some ControlplaneCluster) &&
      bool_decide (ytext ["failure_mode_allow"] tc ≠ Some "true")
  | None => false
  end.
(** What an action of a matcher executes. *)
Definition action_asks (on : yaml) : bool :=
  match ypath ["action"; "typed_config"; "typed_config"] on with Some f => asks_authz f | None => false end.
(** A composite filter asks when it does whether or not a matcher matches. *)
Definition asks_controlplane (f : yaml) : bool :=
  asks_authz f ||
  match yget "typed_config" f with
  | Some tc =>
      is_type "common.matching.v3.ExtensionWithMatcher" tc &&
      match ypath ["matcher"; "on_no_match"] tc with Some on => action_asks on | None => false end &&
      forallb (λ m, match yget "on_match" m with Some on => action_asks on | None => false end)
        (yitems ["matcher"; "matcher_list"; "matchers"] tc)
  | None => false
  end.
Definition is_router (f : yaml) : bool :=
  match yget "typed_config" f with Some tc => is_type "filters.http.router.v3.Router" tc | None => false end.
(** The first filter asks, and the router is the last. *)
Definition guarded (hcm : yaml) : bool :=
  match yitems ["http_filters"] hcm with
  | [f; r] => asks_controlplane f && is_router r
  | _ => false
  end.

(** The routes of a connection manager. *)
Definition routes (hcm : yaml) : list yaml :=
  yitems ["route_config"; "virtual_hosts"] hcm ≫= yitems ["routes"].
(** A route goes to the cluster that the answer of the control plane names, or nowhere. *)
Definition route_ok (r : yaml) : bool :=
  match yget "route" r with
  | Some rt => bool_decide (ytext ["cluster_header"] rt = Some TargetClusterHeader)
  | None => match yget "direct_response" r with Some _ => true | None => false end
  end.

(** A listener is not reachable from outside, or it demands a certificate of the client. *)
Definition listener_ok (l : yaml) : bool :=
  match yget "internal_listener" l, yget "address" l with
  | Some _, None => true
  | _, _ => forallb (λ c, bool_decide (ytext ["transport_socket"; "typed_config"; "require_client_certificate"] c = Some "true"))
              (yitems ["filter_chains"] l)
  end.

Definition static_clusters (conf : yaml) : list yaml := yitems ["static_resources"; "clusters"] conf.
Definition static_listeners (conf : yaml) : list yaml := yitems ["static_resources"; "listeners"] conf.
Definition names (l : list yaml) : list string := omap (ytext ["name"]) l.
(** The secrets that are fetched from the control plane. *)
Definition sds_names (conf : yaml) : list string :=
  names (yfilter (λ _ y, match yget "sds_config" y with Some _ => true | None => false end) conf).

(** ** Theorems *)

(** Every request of the Envoy data plane is decided by the control plane: in
    each HTTP connection manager (there are two) the filter before the router asks it, over
    the authorization service and whatever the method of the request is, and refuses when
    it does not answer; each route goes to the cluster that the answer names; and a
    listener that is reachable from outside demands a client certificate. *)
Theorem envoy_asks_the_control_plane o dataplaneID :
  let conf := envoyConfigurationTemplate (envoyConfArgs o dataplaneID) in
  length (connection_managers conf) = 2 ∧
  Forall (λ hcm, guarded hcm = true ∧ Forall (λ r, route_ok r = true) (routes hcm)) (connection_managers conf) ∧
  Forall (λ l, listener_ok l = true) (static_listeners conf).
Proof. destruct o as [host file level]. vm_compute. repeat constructor. Qed.

(** All scalars. *)
Definition texts (conf : yaml) : list string :=
  omap (λ ky : string * yaml, match ky.2 with YVal s => Some s | _ => None end) (ysubtrees "" conf).

(** The headers a listener of an import adds to its tunnel; Envoy replaces the commands in
    their values. *)
Definition tunnel_headers (substitute : string → string) (t : TunnelingConfig) : gmap string string :=
  list_to_map ((λ h, (hvo_Key h, substitute (hvo_Value h))) <$> tun_HeadersToAdd t).

(** C23: the configuration is well-formed together with what the control plane publishes:
    every value of the template is given, every cluster, listener and secret that is
    referred to is defined, the secrets being those the xDS manager sets; and a connection
    to a listener of an import goes to the cluster of the internal listener, with exactly
    the headers from which the authorization server takes the import and the address of the
    client. *)
Theorem envoy_configuration_closed o dataplaneID raw imp substitute ip :
  eo_ControlplaneHost o ≠ no_value → dataplaneID ≠ no_value →
  substitute "%DOWNSTREAM_REMOTE_ADDRESS_WITHOUT_PORT%" = ip →
  substitute (imp_Name imp) = imp_Name imp → substitute (imp_Namespace imp) = imp_Namespace imp →
  let conf := envoyConfigurationTemplate (envoyConfArgs o dataplaneID) in
  let headers := tunnel_headers substitute (import_tunnel imp) in
  no_value ∉ texts conf ∧
  yvalues "cluster_name" conf ⊆ names (static_clusters conf) ∧
  yvalues "server_listener_name" conf ⊆ names (static_listeners conf) ∧
  sds_names conf = [tsec_Name (certificate_secret raw); tsec_Name (validation_secret raw)] ∧
  (∃ c l, c ∈ static_clusters conf ∧ ytext ["name"] c = Some EgressRouterCluster ∧
     yvalues "server_listener_name" c = [EgressRouterListener] ∧
     l ∈ static_listeners conf ∧ ytext ["name"] l = Some EgressRouterListener ∧ is_Some (yget "internal_listener" l)) ∧
  first_missing headers [ClientIPHeader; ImportNameHeader; ImportNamespaceHeader] = None ∧
  headers !! ImportNameHeader = Some (imp_Name imp) ∧ headers !! ImportNamespaceHeader = Some (imp_Namespace imp) ∧
  headers !! ClientIPHeader = Some ip.
Proof.
  intros Hhost Hid Hip Hn Hns. cbv zeta.
  assert (tunnel_headers substitute (import_tunnel imp) =
    <[ImportNameHeader := imp_Name imp]> (<[ImportNamespaceHeader := imp_Namespace imp]> {[ ClientIPHeader := ip ]})) as ->.
  { unfold tunnel_headers, import_tunnel. cbn [tun_HeadersToAdd fmap list_fmap hvo_Key hvo_Value]. by rewrite Hip, Hn, Hns. }
  destruct o as [host file level]. simpl in Hhost. split_and!.
  - assert (Forall (λ s, s ≠ no_value)
      (texts (envoyConfigurationTemplate (envoyConfArgs (mkEnvoyOptions host file level) dataplaneID)))) as Hall
      by (vm_compute; repeat constructor; done).
    intros Hin. by eapply Forall_forall in Hall; [|exact Hin].
  - vm_compute. intros x Hx. set_solver.
  - vm_compute. intros x Hx. set_solver.
  - vm_compute. reflexivity.
  - exists (egress_cluster (envoyConfArgs (mkEnvoyOptions host file level) dataplaneID)),
      (egress_listener (envoyConfArgs (mkEnvoyOptions host file level) dataplaneID)).
    split; [right; left|]. split; [vm_compute; reflexivity|]. split; [vm_compute; reflexivity|].
    split; [left|]. split; [vm_compute; reflexivity|]. by eexists.
  - vm_compute. reflexivity.
  - by rewrite lookup_insert_eq.
  - by rewrite lookup_insert_ne, lookup_insert_eq.
  - by rewrite !lookup_insert_ne, lookup_singleton_eq.
Qed.

(** ** Witness *)
Definition ev_options : EnvoyOptions := mkEnvoyOptions "cl-controlplane" "" "info".
Definition ev_import : Import := mkImport (mkMeta "web" "default" ∅) (mkImportSpec 80 5000 [] "") [].
Definition ev_substitute (s : string) : string :=
  if decide (s = "%DOWNSTREAM_REMOTE_ADDRESS_WITHOUT_PORT%") then "10.1.0.7" else s.

Lemma envoy_configuration_closed_witness :
  no_value ∉ texts (envoyConfigurationTemplate (envoyConfArgs ev_options "5b2f0f8a-8d8e-4b53-9df8-0a0e6a6c0d11")) ∧
  tunnel_headers ev_substitute (import_tunnel ev_import) !! ClientIPHeader = Some "10.1.0.7".
Proof.
  destruct (envoy_configuration_closed ev_options "5b2f0f8a-8d8e-4b53-9df8-0a0e6a6c0d11" (mkRawCertData "cert" "key" "ca")
    ev_import ev_substitute "10.1.0.7") as (H & _ & _ & _ & _ & _ & _ & _ & Hip); [discriminate..|reflexivity|reflexivity|reflexivity|].
  split; [exact H|exact Hip].
Defined.
