(* ===== verification/Listeners.v ===== *)
(** * The listeners of the data plane

    [AddListener], [RemoveListener] ([dataplane.go]), [CreateListener]
    ([listener.go]) and [handleListeners] ([fetcher.go]) as a step relation: the
    goroutine of the listener fetcher, and a goroutine per call of [CreateListener]
    that holds an open acceptor until it receives from the channel of its name.
    Channels are unbuffered; [make] appends to the list of channels made so far,
    with the name they were made for. *)
From S2P Require Export Dataplane.
From stdpp Require Import options.
From Stdlib Require Import ZArith Lia.

Section listeners.
Context {AP : AnyPB} {RC : ResourceCodec}.

(** The address and port a listener asks for. *)
Definition listen_on (l : Listener) : string * Z := socket_of (ln_Address l).
Definition listener_name (l : Listener) : string := TrimPrefix (ln_Name l) ImportListenerPrefix.

(** ** The goroutines of [CreateListener] *)
Inductive goroutine :=
  | Starting (name : string) (a : string * Z)           (* about to make its channel *)
  | Listening (name : string) (a : string * Z)          (* about to call net.Listen *)
  | Accepting (name : string) (a : string * Z)          (* acceptor open, about to read the channel map *)
  | Waiting (name : string) (a : string * Z) (c : nat)  (* acceptor open, receiving from the channel *)
  | Closing (name : string) (a : string * Z)            (* acceptor open, received, about to close it *)
  | Returned.

(** The goroutine will have, or has, an acceptor open until it receives; one that has
    received only closes it. *)
Definition live (g : goroutine) : option (string * (string * Z)) :=
  match g with
  | Starting n a | Listening n a | Accepting n a | Waiting n a _ => Some (n, a)
  | Closing _ _ | Returned => None
  end.
(** The acceptor of the goroutine is open. *)
Definition accepts (g : goroutine) : option (string * (string * Z)) :=
  match g with Accepting n a | Waiting n a _ | Closing n a => Some (n, a) | _ => None end.
(** The goroutine has received from its channel. *)
Definition told_to_stop (g : goroutine) : Prop :=
  match g with Closing _ _ => True | _ => False end.

(** ** The goroutine of the fetcher

    [seen] is the set of the names of the resources so far; a nil channel, on which a
    send blocks forever, is [None]. *)
Inductive fetcher_state :=
  | Idle
  | Adding (resources : list Resource) (seen : gset string)
  | SendAdd (c : option nat) (l : Listener) (resources : list Resource) (seen : gset string)
  | Removing (names : list string)
  | SendRemove (c : option nat) (name : string) (names : list string).

Record state := mkState {
  fpc : fetcher_state;
  dp_listeners : gmap string Listener;
  listenerEnd : gmap string nat;
  channels : list string;
  goroutines : list goroutine
}.
Definition initial : state := mkState Idle ∅ ∅ [] [].

(** The tail of [AddListener]: the new entry and its goroutine. *)
Definition install (l : Listener) (rest : list Resource) (seen : gset string) (s : state) : state :=
  mkState (Adding rest ({[ listener_name l ]} ∪ seen))
          (<[listener_name l := l]> (dp_listeners s)) (listenerEnd s) (channels s)
          (goroutines s ++ [Starting (listener_name l) (listen_on l)]).

Definition set_pc (p : fetcher_state) (s : state) : state :=
  mkState p (dp_listeners s) (listenerEnd s) (channels s) (goroutines s).
Definition set_goroutine (i : nat) (g : goroutine) (s : state) : state :=
  mkState (fpc s) (dp_listeners s) (listenerEnd s) (channels s) (<[i := g]> (goroutines s)).

(** A step of the fetcher.  [Fetch] returns any resources. *)
Inductive fetcher_step : state → state → Prop :=
  | fetch rs s :
      fpc s = Idle → fetcher_step s (set_pc (Adding rs ∅) s)
  | add_undecodable r rs seen err s :
      fpc s = Adding (r :: rs) seen → UnmarshalListener r = Err err →
      fetcher_step s (set_pc Idle s)
  | add_unchanged r rs seen l le s :
      fpc s = Adding (r :: rs) seen → UnmarshalListener r = Ok l →
      dp_listeners s !! listener_name l = Some le → listen_on l = listen_on le →
      fetcher_step s (set_pc (Adding rs ({[ listener_name l ]} ∪ seen)) s)
  | add_changed r rs seen l le s :
      fpc s = Adding (r :: rs) seen → UnmarshalListener r = Ok l →
      dp_listeners s !! listener_name l = Some le → listen_on l ≠ listen_on le →
      fetcher_step s (set_pc (SendAdd (listenerEnd s !! listener_name l) l rs seen) s)
  | add_new r rs seen l s :
      fpc s = Adding (r :: rs) seen → UnmarshalListener r = Ok l →
      dp_listeners s !! listener_name l = None →
      fetcher_step s (install l rs seen s)
  | added_all seen (order : ranger string Listener) s :
      fpc s = Adding [] seen →
      fetcher_step s (set_pc (Removing (filter (λ n, n ∉ seen) (order (dp_listeners s)).*1)) s)
  | remove name names s :
      fpc s = Removing (name :: names) →
      fetcher_step s (mkState (SendRemove (listenerEnd s !! name) name names)
                        (delete name (dp_listeners s)) (listenerEnd s) (channels s) (goroutines s))
  | removed_all s :
      fpc s = Removing [] → fetcher_step s (set_pc Idle s).

(** A goroutine receives what the fetcher sends. *)
Inductive rendezvous : state → state → Prop :=
  | ended_for_add i n a c l rs seen s :
      fpc s = SendAdd (Some c) l rs seen → goroutines s !! i = Some (Waiting n a c) →
      rendezvous s (install l rs seen (set_goroutine i (Closing n a) s))
  | ended_for_remove i n a c name names s :
      fpc s = SendRemove (Some c) name names → goroutines s !! i = Some (Waiting n a c) →
      rendezvous s (set_pc (Removing names) (set_goroutine i (Closing n a) s)).

(** A step of [CreateListener], other than a failure of [net.Listen]. *)
Inductive goroutine_step (i : nat) : state → state → Prop :=
  | make_channel n a s :
      goroutines s !! i = Some (Starting n a) →
      goroutine_step i s
        (mkState (fpc s) (dp_listeners s) (<[n := length (channels s)]> (listenerEnd s))
                 (channels s ++ [n]) (<[i := Listening n a]> (goroutines s)))
  | listen n a s :
      goroutines s !! i = Some (Listening n a) → goroutine_step i s (set_goroutine i (Accepting n a) s)
  | receive n a c s :
      goroutines s !! i = Some (Accepting n a) → listenerEnd s !! n = Some c →
      goroutine_step i s (set_goroutine i (Waiting n a c) s)
  | close_acceptor n a s :
      goroutines s !! i = Some (Closing n a) → goroutine_step i s (set_goroutine i Returned s).

(** [net.Listen] fails, for one because the port is in use: the goroutine returns. *)
Inductive listen_fails (i : nat) (n : string) : state → state → Prop :=
  | listen_failed a s :
      goroutines s !! i = Some (Listening n a) → listen_fails i n s (set_goroutine i Returned s).

Inductive step : state → state → Prop :=
  | step_fetcher s s' : fetcher_step s s' → step s s'
  | step_rendezvous s s' : rendezvous s s' → step s s'
  | step_goroutine i s s' : goroutine_step i s s' → step s s'
  | step_listen_fails i n s s' : listen_fails i n s s' → step s s'.

Definition steps : state → state → Prop := rtc step.
Definition reachable (s : state) : Prop := steps initial s.

(** The name whose goroutine the fetcher is telling to end. *)
Definition sending (p : fetcher_state) : option (string * option nat) :=
  match p with
  | SendAdd c l _ _ => Some (listener_name l, c)
  | SendRemove c n _ => Some (n, c)
  | _ => None
  end.
(** The listener that is being removed is no longer in the map. *)
Definition removing (p : fetcher_state) : option string :=
  match p with SendRemove _ n _ => Some n | _ => None end.
End listeners.
