(* ===== verification/ListenersFacts.v ===== *)
(** * What the data plane listens on, under every interleaving

    An invariant of the listeners, their channels and goroutines; an open acceptor
    stands for a current listener; and the two ways the fetcher of listeners is
    blocked forever. *)
From S2P Require Export Listeners.
From stdpp Require Import options.
From Stdlib Require Import ZArith Lia.

#[local] Set Default Proof Using "Type".

Section facts.
Context {AP : AnyPB} {RC : ResourceCodec}.

(** Goroutine [i] has, or will have, the acceptor of [n]. *)
Definition holds (s : state) (i : nat) (n : string) (a : string * Z) : Prop :=
  ∃ g, goroutines s !! i = Some g ∧ live g = Some (n, a).

Record inv (s : state) : Prop := mkInv {
  inv_current i n a : holds s i n a →
    (∃ l, dp_listeners s !! n = Some l ∧ listen_on l = a) ∨ removing (fpc s) = Some n;
  inv_unique i j n a a' : holds s i n a → holds s j n a' → i = j;
  inv_waiting i n a c : goroutines s !! i = Some (Waiting n a c) → channels s !! c = Some n;
  inv_end n c : listenerEnd s !! n = Some c → channels s !! c = Some n;
  inv_sending n c : sending (fpc s) = Some (n, Some c) → channels s !! c = Some n;
  inv_target n c : sending (fpc s) = Some (n, c) →
    is_Some (dp_listeners s !! n) ∨ removing (fpc s) = Some n
}.

(** ** Preservation *)
Lemma holds_set_goroutine s i g g' j n a :
  goroutines s !! i = Some g → live g' = live g ∨ live g' = None →
  holds (set_goroutine i g' s) j n a → holds s j n a ∧ (j = i → live g' = Some (n, a)).
Proof.
  intros Hi Hg (g0 & Hj & Hl). simpl in Hj. destruct (decide (j = i)) as [->|Hne].
  - rewrite list_lookup_insert_eq in Hj by (by eapply lookup_lt_Some). injection Hj as <-.
    split; [|done]. exists g. split; [done|]. destruct Hg as [<-|Hg]; [done|congruence].
  - rewrite list_lookup_insert_ne in Hj by done. split; [by exists g0|done].
Qed.

Lemma inv_set_goroutine s i g g' :
  inv s → goroutines s !! i = Some g → live g' = live g ∨ live g' = None →
  (∀ n a c, g' = Waiting n a c → channels s !! c = Some n) → inv (set_goroutine i g' s).
Proof.
  intros [H1 H2 H3 H4 H5 H6] Hi Hg Hw.
  assert (∀ j n a, holds (set_goroutine i g' s) j n a → holds s j n a) as Hold.
  { intros j n a Hj. by eapply holds_set_goroutine in Hj as [? _]. }
  split; simpl; auto.
  - intros j n a Hj. apply (H1 j n a). auto.
  - intros j k n a a' Hj Hk. apply (H2 j k n a a'); auto.
  - intros j n a c. destruct (decide (j = i)) as [->|Hne].
    + rewrite list_lookup_insert_eq by (by eapply lookup_lt_Some). intros [= ->]. by eapply Hw.
    + rewrite list_lookup_insert_ne by done. apply H3.
Qed.

Lemma inv_set_pc s p :
  inv s → (∀ i n a, holds s i n a → removing (fpc s) = Some n → removing p = Some n) →
  (∀ n c, sending p = Some (n, Some c) → channels s !! c = Some n) →
  (∀ n c, sending p = Some (n, c) → is_Some (dp_listeners s !! n) ∨ removing p = Some n) →
  inv (set_pc p s).
Proof.
  intros [H1 H2 H3 H4 H5 H6] Hr Hs Ht. split; simpl; auto.
  - intros i n a Hi. destruct (H1 i n a Hi) as [?|?]; [by left|right; by eapply Hr].
Qed.

Lemma inv_install l rest seen s :
  inv s → (∀ i n a, holds s i n a → removing (fpc s) ≠ Some n) →
  (∀ i a, ¬ holds s i (listener_name l) a) → inv (install l rest seen s).
Proof.
  intros [H1 H2 H3 H4 H5 H6] Hr Hno.
  assert (∀ i n a, holds (install l rest seen s) i n a →
    holds s i n a ∧ n ≠ listener_name l ∨
    i = length (goroutines s) ∧ n = listener_name l ∧ a = listen_on l) as Hold.
  { intros i n a (g & Hg & Hl). simpl in Hg. apply lookup_app_Some in Hg as [Hg|[Hlen Hg]].
    - left. assert (holds s i n a) as Hh by (by exists g). split; [done|]. intros ->. by eapply Hno.
    - apply list_lookup_singleton_Some in Hg as [Hz <-]. injection Hl as <- <-. right. split; [lia|done]. }
  split; simpl; try done.
  - intros i n a [[Hi Hn]|(-> & -> & ->)]%Hold; left.
    + destruct (H1 i n a Hi) as [?|?]; [by rewrite lookup_insert_ne|by eapply Hr in Hi].
    + exists l. by rewrite lookup_insert_eq.
  - intros i j n a a' [[Hi Hn]|(? & ? & _)]%Hold [[Hj Hn']|(? & ? & _)]%Hold; try congruence.
    by apply (H2 i j n a a').
  - intros i n a c [Hg|[_ Hg]]%lookup_app_Some; [by eapply H3|].
    by apply list_lookup_singleton_Some in Hg as [_ [=]].
Qed.

(** After the fetcher was received by goroutine [i], nothing is left of its name. *)
Lemma rendezvous_clears s i n a c name :
  inv s → sending (fpc s) = Some (name, Some c) → goroutines s !! i = Some (Waiting n a c) →
  n = name ∧ inv (set_goroutine i (Closing n a) s) ∧
  ∀ j a', ¬ holds (set_goroutine i (Closing n a) s) j name a'.
Proof.
  intros Hinv Hs Hi. pose proof (inv_waiting _ Hinv _ _ _ _ Hi) as Hc.
  pose proof (inv_sending _ Hinv _ _ Hs) as Hc'. assert (n = name) as -> by congruence.
  split; [done|]. split; [by apply (inv_set_goroutine _ _ (Waiting name a c)); auto|].
  intros j a' Hj. eapply (holds_set_goroutine s i _ (Closing name a)) in Hj as [Hj Hne]; [|done|by right].
  assert (j = i) as ->; [|by specialize (Hne eq_refl)].
  eapply (inv_unique _ Hinv); [done|]. by exists (Waiting name a c).
Qed.

Lemma fetcher_step_inv s s' : fetcher_step s s' → inv s → inv s'.
Proof.
  intros Hst Hinv. destruct Hst as [rs s Hpc|r rs seen err s Hpc Hu|r rs seen l le s Hpc Hu Hl Ha
    |r rs seen l le s Hpc Hu Hl Ha|r rs seen l s Hpc Hu Hl|seen order s Hpc|name names s Hpc|s Hpc].
  all: try (apply inv_set_pc; [done|by rewrite Hpc|done|done]).
  - apply inv_set_pc; [done|by rewrite Hpc| |].
    + intros n c [= <- Hc]. by apply (inv_end _ Hinv).
    + intros n c [= <- _]. left. by rewrite Hl.
  - apply inv_install; [done|by rewrite Hpc|]. intros i a Hi.
    destruct (inv_current _ Hinv _ _ _ Hi) as [(? & ? & _)|Hr]; [congruence|by rewrite Hpc in Hr].
  - destruct Hinv as [H1 H2 H3 H4 H5 H6]. rewrite Hpc in *. split; simpl; try done.
    + intros i n a Hi. destruct (decide (n = name)) as [->|Hn]; [by right|left].
      rewrite lookup_delete_ne by done. by destruct (H1 i n a Hi).
    + intros n c [= <- Hc]. by apply H4.
    + intros n c [= <- _]. by right.
Qed.

Lemma rendezvous_inv s s' : rendezvous s s' → inv s → inv s'.
Proof.
  intros Hst Hinv. destruct Hst as [i n a c l rs seen s Hpc Hi|i n a c name names s Hpc Hi].
  - destruct (rendezvous_clears s i n a c (listener_name l)) as (-> & Hinv' & Hno); [done|by rewrite Hpc|done|].
    apply inv_install; [done| |done]. simpl. by rewrite Hpc.
  - destruct (rendezvous_clears s i n a c name) as (-> & Hinv' & Hno); [done|by rewrite Hpc|done|].
    apply inv_set_pc; [done| |done|done]. simpl. rewrite Hpc. intros j n' a' Hj [= <-]. by eapply Hno in Hj.
Qed.

Lemma goroutine_step_inv i s s' : goroutine_step i s s' → inv s → inv s'.
Proof.
  intros Hst Hinv. destruct Hst as [n a s Hi|n a s Hi|n a c s Hi Hc|n a s Hi].
  2-4: eapply inv_set_goroutine; [done|done|by (left + right)|];
       intros n' a' c' [=]; subst; by apply (inv_end _ Hinv).
  destruct (inv_set_goroutine s i _ (Listening n a) Hinv Hi) as [H1 H2 H3 H4 H5 H6]; [by left|done|].
  assert (∀ c m, channels s !! c = Some m → (channels s ++ [n]) !! c = Some m) as Hc.
  { intros c m Hm. apply lookup_app_Some. by left. }
  split; simpl in *; eauto.
  intros m c [[<- <-]|[_ ?]]%lookup_insert_Some; [|eauto].
  by rewrite lookup_app_r, Nat.sub_diag.
Qed.

Lemma step_inv s s' : step s s' → inv s → inv s'.
Proof.
  intros [? ? H|? ? H|i ? ? H|i n ? ? H] Hinv.
  - by eapply fetcher_step_inv. - by eapply rendezvous_inv. - by eapply goroutine_step_inv.
  - destruct H as [a s0 Hi]. by apply (inv_set_goroutine _ _ (Listening n a)); [| |right|].
Qed.

Lemma steps_inv s s' : steps s s' → inv s → inv s'.
Proof. induction 1; eauto using step_inv. Qed.

Lemma initial_inv : inv initial.
Proof. by split; try done; intros ? ? ? (? & [=] & _) || intros ? ? ? ? ? (? & [=] & _). Qed.
Lemma reachable_inv s : reachable s → inv s.
Proof. intros Hs. eapply steps_inv; [done|apply initial_inv]. Qed.

(** ** A listener whose goroutine is gone *)

(** Nobody will receive for [n], which the fetcher believes to be listening. *)
Definition orphaned (n : string) (s : state) : Prop :=
  (∀ i a, ¬ holds s i n a) ∧ (is_Some (dp_listeners s !! n) ∨ removing (fpc s) = Some n).

Lemma orphaned_set_goroutine n s i g g' :
  goroutines s !! i = Some g → live g' = live g ∨ live g' = None →
  orphaned n s → orphaned n (set_goroutine i g' s).
Proof.
  intros Hi Hg [Hno Hl]. split; [|done]. intros j a Hj.
  eapply holds_set_goroutine in Hj as [Hj _]; [|done..]. by eapply Hno.
Qed.

Lemma goroutine_step_orphaned n i s s' :
  goroutine_step i s s' → orphaned n s → orphaned n s' ∧ fpc s' = fpc s.
Proof.
  intros Hst Ho. destruct Hst as [m a s Hi|m a s Hi|m a c s Hi Hc|m a s Hi].
  2-4: split; [|done]; eapply orphaned_set_goroutine; [done|by (left + right)|done].
  split; [|done]. exact (orphaned_set_goroutine n s i _ (Listening m a) Hi (or_introl eq_refl) Ho).
Qed.

Lemma listen_fails_orphaned n i m s s' :
  listen_fails i m s s' → orphaned n s → orphaned n s' ∧ fpc s' = fpc s.
Proof.
  intros [a st Hi] Ho. split; [|done]. by eapply orphaned_set_goroutine; [done|right|].
Qed.

Lemma fetcher_step_orphaned n s s' :
  fetcher_step s s' → orphaned n s → orphaned n s' ∧ sending (fpc s) = None.
Proof.
  intros Hst [Hno Hl].
  destruct Hst as [rs s Hpc|r rs seen err s Hpc Hu|r rs seen l le s Hpc Hu Hln Ha
    |r rs seen l le s Hpc Hu Hln Ha|r rs seen l s Hpc Hu Hln|seen order s Hpc|name names s Hpc|s Hpc];
    rewrite Hpc in *; (split; [|done]); destruct Hl as [Hl|[=]]; try (split; [exact Hno|by left]).
  - destruct (decide (listener_name l = n)) as [<-|Hne]; [by destruct Hl; congruence|].
    split; simpl; [|left; by rewrite lookup_insert_ne]. intros i a (g & Hg & Hlive).
    apply lookup_app_Some in Hg as [Hg|[_ Hg]]; [eapply Hno; by exists g|].
    apply list_lookup_singleton_Some in Hg as [_ <-]. injection Hlive as Hn _. done.
  - split; [exact Hno|]. simpl. destruct (decide (name = n)) as [->|Hne]; [by right|left].
    by rewrite lookup_delete_ne.
Qed.

Lemma rendezvous_orphaned n s s' :
  rendezvous s s' → inv s → orphaned n s → orphaned n s' ∧ ∀ c, sending (fpc s) ≠ Some (n, c).
Proof.
  intros Hst Hinv Ho. destruct Hst as [i m a c l rs seen s Hpc Hi|i m a c name names s Hpc Hi].
  - destruct (rendezvous_clears s i m a c (listener_name l)) as (-> & _ & _); [done|by rewrite Hpc|done|].
    assert (listener_name l ≠ n) as Hne.
    { intros <-. eapply (proj1 Ho i a). by eexists (Waiting _ _ _). }
    rewrite Hpc. split; [|by intros c' [= ? _]].
    destruct (orphaned_set_goroutine n s i _ (Closing (listener_name l) a) Hi) as [Hno Hl]; [by right|done|].
    simpl in Hl. rewrite Hpc in Hl. destruct Hl as [Hl|[=]].
    split; simpl; [|left; by rewrite lookup_insert_ne]. intros j b (g & Hg & Hlive).
    apply lookup_app_Some in Hg as [Hg|[_ Hg]]; [eapply Hno; by exists g|].
    apply list_lookup_singleton_Some in Hg as [_ <-]. by injection Hlive as Hn _.
  - destruct (rendezvous_clears s i m a c name) as (-> & _ & _); [done|by rewrite Hpc|done|].
    assert (name ≠ n) as Hne.
    { intros <-. eapply (proj1 Ho i a). by eexists (Waiting _ _ _). }
    rewrite Hpc. split; [|by intros c' [= ? _]].
    destruct (orphaned_set_goroutine n s i _ (Closing name a) Hi) as [Hno Hl]; [by right|done|].
    simpl in Hl. rewrite Hpc in Hl. destruct Hl as [Hl|[=]]; [|done]. split; [done|by left].
Qed.

Lemma step_orphaned n s s' :
  step s s' → inv s → orphaned n s →
  orphaned n s' ∧ ∀ c, sending (fpc s) = Some (n, c) → fpc s' = fpc s.
Proof.
  intros [? ? H|? ? H|i ? ? H|i m ? ? H] Hinv Ho.
  - apply (fetcher_step_orphaned n) in H as [? Hs]; [|done]. split; [done|]. intros c. by rewrite Hs.
  - apply (rendezvous_orphaned n) in H as [? Hs]; [|done..]. split; [done|]. intros c Hc. by apply Hs in Hc.
  - apply (goroutine_step_orphaned n) in H as [? ?]; [|done]. auto.
  - apply (listen_fails_orphaned n) in H as [? ?]; [|done]. auto.
Qed.

Lemma steps_orphaned n s s' :
  steps s s' → inv s → orphaned n s →
  inv s' ∧ orphaned n s' ∧ ∀ c, sending (fpc s) = Some (n, c) → fpc s' = fpc s.
Proof.
  induction 1 as [s|s s1 s' Hst Hrun IH]; intros Hinv Ho; [done|].
  pose proof (step_inv _ _ Hst Hinv) as Hinv1. destruct (step_orphaned n _ _ Hst Hinv Ho) as [Ho1 Hpc].
  destruct (IH Hinv1 Ho1) as (? & ? & Hpc'). split_and!; [done..|].
  intros c Hc. rewrite (Hpc' c); [by eapply Hpc|]. by rewrite (Hpc c Hc).
Qed.

(** ** Theorems *)

(** A goroutine that has received, or has returned, only closes its acceptor. *)
Lemma closing_step s s' i n a : step s s' →
  goroutines s !! i = Some (Closing n a) ∨ goroutines s !! i = Some Returned →
  goroutines s' !! i = Some (Closing n a) ∨ goroutines s' !! i = Some Returned.
Proof.
  assert (∀ j g g' s, goroutines s !! j = Some g → (∀ m b, g ≠ Closing m b) → g ≠ Returned →
    goroutines s !! i = Some (Closing n a) ∨ goroutines s !! i = Some Returned →
    <[j := g']> (goroutines s) !! i = Some (Closing n a) ∨ <[j := g']> (goroutines s) !! i = Some Returned) as Hset.
  { intros j g g' s0 Hj Hc Hr Hi. destruct (decide (j = i)) as [->|Hne]; [|by rewrite list_lookup_insert_ne].
    rewrite Hj in Hi. destruct Hi as [[= Hg]|[= Hg]]; [by destruct (Hc n a)|done]. }
  assert (∀ x (l : list goroutine), l !! i = Some x → ∀ k, (l ++ k) !! i = Some x) as Happ.
  { intros x l Hl k. by apply lookup_app_l_Some. }
  intros Hst Hi. destruct Hst as [s s' H|s s' H|j s s' H|j m s s' H].
  - destruct H; try done; destruct Hi as [Hi|Hi]; [left|right]; by apply Happ.
  - destruct H as [j m b c l rs seen x Hpc Hj|j m b c name names x Hpc Hj]; simpl.
    + destruct (Hset j (Waiting m b c) (Closing m b) x Hj) as [H|H]; [done..|left|right]; by apply Happ.
    + by apply (Hset j (Waiting m b c) (Closing m b) x Hj).
  - destruct H as [m b x Hj|m b x Hj|m b c x Hj Hc|m b x Hj]; simpl;
      [by apply (Hset j _ _ x Hj)..|].
    destruct (decide (j = i)) as [->|Hne]; [right|by rewrite list_lookup_insert_ne].
    apply list_lookup_insert_eq. by eapply lookup_lt_Some.
  - destruct H as [b x Hj]. by apply (Hset j _ _ x Hj).
Qed.

(** C31: whatever the interleaving of the fetcher and the listener goroutines, an open
    acceptor that was not told to stop is the only one of its name and listens on the
    address of the current listener, or the fetcher is just telling it to stop.  One that
    was told to stop only closes its acceptor, which nothing keeps it from. *)
Theorem acceptors_are_current s i g n a :
  reachable s → goroutines s !! i = Some g → accepts g = Some (n, a) →
  (¬ told_to_stop g →
     ((∃ l, dp_listeners s !! n = Some l ∧ listen_on l = a) ∨ removing (fpc s) = Some n) ∧
     (∀ j g' a', goroutines s !! j = Some g' → accepts g' = Some (n, a') → told_to_stop g' ∨ j = i)) ∧
  (told_to_stop g →
     goroutine_step i s (set_goroutine i Returned s) ∧
     ∀ s', steps s s' → goroutines s' !! i = Some g ∨ goroutines s' !! i = Some Returned).
Proof.
  intros Hr Hg Ha. pose proof (reachable_inv s Hr) as Hinv. split; intros Ht.
  - assert (∀ j g' a', goroutines s !! j = Some g' → accepts g' = Some (n, a') → ¬ told_to_stop g' → holds s j n a') as Hh.
    { intros j g' a' Hg' Ha' Ht'. exists g'. split; [done|]. by destruct g'; [| | | |destruct Ht'|]. }
    split; [by eapply inv_current, Hh|].
    intros j g' a' Hj Ha'. assert (told_to_stop g' ∨ ¬ told_to_stop g') as [?|Ht'] by (destruct g'; simpl; tauto); [by left|right].
    eapply (inv_unique _ Hinv); by eapply Hh.
  - destruct g as [| | | |m b|]; try done. injection Ha as -> ->. split; [by eapply close_acceptor|].
    intros s' Hs. apply (rtc_preserves step (λ s, goroutines s !! i = Some (Closing n a) ∨ goroutines s !! i = Some Returned) s s'); [|by left|done].
    intros x y Hxy. by apply closing_step.
Qed.

(** Once [net.Listen] failed for a name, its listener is never opened again (older
    acceptors may be about to close), and as soon as the fetcher changes or removes it, it is blocked forever. *)
Theorem listen_failure_blocks_fetcher s i n s1 s2 :
  reachable s → listen_fails i n s s1 → steps s1 s2 →
  (∀ j g a, goroutines s2 !! j = Some g → ¬ told_to_stop g → accepts g ≠ Some (n, a)) ∧
  ∀ c, sending (fpc s2) = Some (n, c) → ∀ s3, steps s2 s3 → fpc s3 = fpc s2.
Proof.
  intros Hr Hf Hrun. pose proof (reachable_inv s Hr) as Hinv.
  assert (inv s1) as Hinv1 by (by eapply step_inv; [eapply step_listen_fails|]).
  assert (orphaned n s1) as Ho1.
  { destruct Hf as [a s Hi]. assert (holds s i n a) as Hh by (by exists (Listening n a)). split.
    - intros j b Hj. eapply (holds_set_goroutine s i _ Returned) in Hj as [Hj Hne]; [|done|by right].
      assert (j = i) as -> by (by eapply (inv_unique _ Hinv)). by specialize (Hne eq_refl).
    - destruct (inv_current _ Hinv _ _ _ Hh) as [(l & ? & _)|?]; [left; by exists l|by right]. }
  destruct (steps_orphaned n s1 s2 Hrun Hinv1 Ho1) as (Hinv2 & Ho2 & _). split.
  - intros j g a Hg Ht Ha. eapply (proj1 Ho2 j a). exists g. split; [done|]. by destruct g; [| | | |destruct Ht|].
  - intros c Hc s3 Hrun3. by eapply (steps_orphaned n s2 s3 Hrun3).
Qed.
End facts.

(** ** A listener that changes before its goroutine has run *)
#[local] Existing Instance ref_anypb.
#[local] Existing Instance ref_codec.

Lemma nil_channel_blocks (s s' : state) n :
  sending (fpc s) = Some (n, None) → steps s s' → fpc s' = fpc s.
Proof.
  intros Hs Hrun. revert Hs. induction Hrun as [s|s s1 s' Hst _ IH]; [done|]. intros Hs.
  assert (fpc s1 = fpc s) as Hpc; [|rewrite IH; rewrite Hpc; done].
  destruct Hst as [? ? H|? ? H|? ? ? H|? ? ? ? H].
  - destruct H as [? ? Hpc|? ? ? ? ? Hpc|? ? ? ? ? ? Hpc|? ? ? ? ? ? Hpc|? ? ? ? ? Hpc|? ? ? Hpc|? ? ? Hpc|? Hpc];
      by rewrite Hpc in Hs.
  - destruct H as [? ? ? ? ? ? ? ? Hpc|? ? ? ? ? ? ? Hpc]; by rewrite Hpc in Hs.
  - by destruct H. - by destruct H.
Qed.

Definition li_listener (port : Z) : Listener :=
  mkListener (ImportListenerName "web" "default")
    (Some (mkAddress (Some (mkSocketAddress "0.0.0.0" port)))) [].
Definition li_res (port : Z) : Resource := MarshalListener (li_listener port).
Definition li_name : string := "default/web".

#[local] Ltac fetcher_moves r := eapply rtc_l; [apply step_fetcher, r; reflexivity|].

(** The states of a run: a first response with the listener, and its goroutine. *)
Definition li_installed : state := install (li_listener 5000) [] ∅ initial.
Lemma li_installed_reachable : reachable li_installed.
Proof.
  fetcher_moves (fetch [li_res 5000]).
  fetcher_moves (add_new (li_res 5000) [] ∅ (li_listener 5000)). apply rtc_refl.
Qed.

Definition li_idle (s : state) : state := set_pc Idle s.
Lemma li_idle_reachable s :
  reachable s → fpc s = Adding [] {[ li_name ]} → dom (dp_listeners s) = {[ li_name ]} → reachable (li_idle s).
Proof.
  intros Hs Hpc Hd. unfold reachable, steps. eapply (transitivity (R := rtc step)); [exact Hs|]. eapply rtc_l; [apply step_fetcher, (added_all {[ li_name ]} std_ranger); done|].
  eapply rtc_l; [apply step_fetcher, removed_all|apply rtc_refl]. simpl. f_equal.
  destruct (filter _ _) as [|n ns] eqn:E; [done|]. exfalso.
  assert (n ∈ n :: ns) as Hn by left. rewrite <- E in Hn. apply list_elem_of_filter in Hn as [Hni Hn].
  apply list_elem_of_fmap in Hn as ([k l] & -> & Hk%elem_of_map_to_list). simpl in *.
  apply Hni. rewrite <- Hd. by eapply elem_of_dom_2.
Qed.

(** No failure is needed: a listener that changes before its goroutine has made its
    channel makes the fetcher send on a nil channel, and it is blocked forever. *)
Theorem quick_change_blocks_fetcher :
  ∃ s, reachable s ∧ sending (fpc s) = Some (li_name, None) ∧
       ∀ s', steps s s' → fpc s' = fpc s.
Proof.
  set (s1 := li_idle li_installed).
  exists (set_pc (SendAdd None (li_listener 5001) [] ∅) (set_pc (Adding [li_res 5001] ∅) s1)). split_and!.
  - unfold reachable, steps. eapply (transitivity (R := rtc step)); [apply (li_idle_reachable li_installed); [apply li_installed_reachable|done|done]|].
    fetcher_moves (fetch [li_res 5001]).
    eapply rtc_l; [|apply rtc_refl]. apply step_fetcher.
    apply (add_changed (li_res 5001) [] ∅ (li_listener 5001) (li_listener 5000)); [done..|]. intros [=].
  - done.
  - intros s'. by apply nil_channel_blocks with (n := li_name).
Qed.


Definition li_addr : string * Z := ("0.0.0.0", 5000%Z).
(** The goroutine has made its channel; it listens; [net.Listen] fails. *)
Definition li_listening : state :=
  mkState (Adding [] {[ li_name ]}) {[ li_name := li_listener 5000 ]} {[ li_name := 0 ]} [li_name] [Listening li_name li_addr].
Definition li_accepting : state := set_goroutine 0 (Accepting li_name li_addr) li_listening.
Definition li_failed : state := set_goroutine 0 Returned li_listening.
Lemma li_listening_reachable : reachable li_listening.
Proof.
  unfold reachable, steps. eapply (transitivity (R := rtc step)); [apply li_installed_reachable|].
  eapply rtc_l; [eapply (step_goroutine 0), make_channel; reflexivity|]. apply rtc_refl.
Qed.
Lemma li_accepting_reachable : reachable li_accepting.
Proof.
  eapply (transitivity (R := rtc step)); [apply li_listening_reachable|].
  eapply rtc_l; [eapply (step_goroutine 0), listen; reflexivity|]. apply rtc_refl.
Qed.

Lemma acceptors_are_current_witness :
  (∃ l, dp_listeners li_accepting !! li_name = Some l ∧ listen_on l = li_addr) ∨ False.
Proof.
  destruct (acceptors_are_current li_accepting 0 (Accepting li_name li_addr) li_name li_addr
              li_accepting_reachable eq_refl eq_refl) as [H _].
  destruct (H (λ f, f)) as [[H'|H'] _]; [left; exact H'|discriminate H'].
Defined.

(** The next response has no listeners. *)
Definition li_removing : state :=
  mkState (SendRemove (Some 0) li_name []) ∅ {[ li_name := 0 ]} [li_name] [Returned].
Lemma li_failed_removing : steps li_failed li_removing.
Proof.
  eapply rtc_l; [apply step_fetcher, (added_all {[ li_name ]} std_ranger); reflexivity|].
  eapply rtc_l; [apply step_fetcher, removed_all; vm_compute; reflexivity|].
  fetcher_moves (fetch []).
  eapply rtc_l; [apply step_fetcher, (added_all ∅ std_ranger); reflexivity|].
  eapply rtc_l; [apply step_fetcher, (remove li_name []); vm_compute; reflexivity|]. apply rtc_refl.
Qed.

Lemma listen_failure_blocks_fetcher_witness :
  ∃ s, s = li_removing ∧ ¬ (∃ s3, steps s s3 ∧ fpc s3 = Idle).
Proof.
  exists li_removing. split; [reflexivity|]. intros (s3 & Hs & Hi).
  destruct (listen_failure_blocks_fetcher li_listening 0 li_name li_failed li_removing
              li_listening_reachable (listen_failed 0 li_name li_addr li_listening eq_refl)
              li_failed_removing) as [_ H].
  rewrite (H (Some 0) eq_refl s3 Hs) in Hi. discriminate Hi.
Defined.
