(* ===== verification/Forwarder.v ===== *)
(** * Forwarding the bytes of a connection

    [pkg/dataplane/server/forwarder.go]: two goroutines, one per direction, that read
    from one connection and write to the other until one of them ends, and the
    [closeSignal] they share.  A schedule is the order in which they run the rounds of
    their loops, with what the connections answer in each. *)
From S2P Require Export GoString.
From stdpp Require Import options.
From Stdlib Require Import ZArith Lia.

Definition dataBufferSize : Z := 65536.

(** The error of a read or a write, as far as the loops tell them apart. *)
Inductive io_error := ErrTimeout | ErrEOF | ErrOther (e : error).

(** One round: what [SetReadDeadline], [Read] and [Write] return.  [Read] returns the
    bytes it filled the buffer with, and possibly an error as well. *)
Record io_round := mkRound {
  r_deadline : option error;
  r_data : string;
  r_read : option io_error;
  r_write : option io_error
}.

(** A loop that is running, or what it returned. *)
Inductive loop_state := LoopRunning | LoopReturned (err : option error).

Record direction := mkDirection { d_state : loop_state; d_written : string }.
Inductive side := WorkloadToPeer | PeerToWorkload.
#[export] Instance side_eq_dec : EqDecision side.
Proof. solve_decision. Defined.

Record forwarder := mkForwarder {
  closeSignal : bool;
  f_workloadToPeer : direction;
  f_peerToWorkload : direction
}.
Definition newForwarder : forwarder :=
  mkForwarder false (mkDirection LoopRunning "") (mkDirection LoopRunning "").

Definition get_direction (d : side) (f : forwarder) : direction :=
  match d with WorkloadToPeer => f_workloadToPeer f | PeerToWorkload => f_peerToWorkload f end.
Definition set_direction (d : side) (x : direction) (close : bool) (f : forwarder) : forwarder :=
  match d with
  | WorkloadToPeer => mkForwarder close x (f_peerToWorkload f)
  | PeerToWorkload => mkForwarder close (f_workloadToPeer f) x
  end.

(** What a loop returns after it left the loop with an error. *)
Definition loop_error (err : io_error) : option error :=
  match err with
  | ErrEOF => None
  | ErrTimeout => Some (ENew "i/o timeout")
  | ErrOther e => Some e
  end.

(** One round of [workloadToPeer] or [peerToWorkload]: the state of the loop, the bytes
    written, and the close signal.  A write is not retried on a timeout. *)
Definition forward_round (close : bool) (r : io_round) (x : direction) : direction * bool :=
  if close then (mkDirection (LoopReturned None) (d_written x), close)
  else match r_deadline r with
  | Some err => (mkDirection (LoopReturned (Some err)) (d_written x), close)
  | None =>
      match r_read r with
      | Some ErrTimeout => (x, close)
      | Some err => (mkDirection (LoopReturned (loop_error err)) (d_written x), true)
      | None =>
          let x := mkDirection (d_state x) (d_written x +:+ r_data r) in
          match r_write r with
          | None => (x, close)
          | Some err => (mkDirection (LoopReturned (loop_error err)) (d_written x), true)
          end
      end
  end.

(** A loop that returned does nothing more. *)
Definition forward_step (d : side) (r : io_round) (f : forwarder) : forwarder :=
  match d_state (get_direction d f) with
  | LoopReturned _ => f
  | LoopRunning =>
      let (x, close) := forward_round (closeSignal f) r (get_direction d f) in
      set_direction d x close f
  end.

Definition forward_run (schedule : list (side * io_round)) (f : forwarder) : forwarder :=
  foldl (λ f dr, forward_step dr.1 dr.2 f) f schedule.

(** [run] waits for both loops and then closes both connections. *)
Definition connections_closed (f : forwarder) : bool :=
  match d_state (f_workloadToPeer f), d_state (f_peerToWorkload f) with
  | LoopReturned _, LoopReturned _ => true
  | _, _ => false
  end.

(** ** Specification: the bytes the reads returned *)

#[local] Instance loop_state_running_dec (x : loop_state) : Decision (x = LoopRunning).
Proof. destruct x; [left|right]; done. Defined.
#[local] Instance option_none_dec {A} (x : option A) : Decision (x = None).
Proof. destruct x; [right|left]; done. Defined.

(** The rounds in which a direction calls [Read]: it is running, no end was signalled, and
    the deadline could be set. *)
Fixpoint reads (d : side) (schedule : list (side * io_round)) (f : forwarder) : list io_round :=
  match schedule with
  | [] => []
  | (d', r) :: schedule' =>
      (if decide (d' = d ∧ d_state (get_direction d f) = LoopRunning ∧ closeSignal f = false ∧ r_deadline r = None)
       then [r] else []) ++ reads d schedule' (forward_step d' r f)
  end.
(** All the bytes that the reads returned, whether with an error or without. *)
Definition stream (rs : list io_round) : string := foldr (λ r s, r_data r +:+ s) "" rs.
(** A read that returns bytes together with an error. *)
Definition bytes_with_error (r : io_round) : Prop := r_read r ≠ None ∧ r_data r ≠ "".
#[export] Instance bytes_with_error_dec r : Decision (bytes_with_error r).
Proof. unfold bytes_with_error. apply _. Defined.

Definition rounds_of (d : side) (schedule : list (side * io_round)) : list io_round :=
  (filter (λ dr, dr.1 = d) schedule).*2.

Lemma get_set_direction d x b f : get_direction d (set_direction d x b f) = x.
Proof. by destruct d. Qed.
Lemma get_set_direction_ne d d' x b f :
  d ≠ d' → get_direction d' (set_direction d x b f) = get_direction d' f.
Proof. by destruct d, d'. Qed.
Lemma closeSignal_set_direction d x b f : closeSignal (set_direction d x b f) = b.
Proof. by destruct d. Qed.

Lemma forward_step_other d d' r f : d' ≠ d → get_direction d (forward_step d' r f) = get_direction d f.
Proof.
  intros Hne. unfold forward_step. destruct (d_state (get_direction d' f)); [|done].
  destruct (forward_round _ _ _). by rewrite get_set_direction_ne.
Qed.
(** A step writes what its read returned, unless that came with an error. *)
Lemma forward_step_written d r f :
  d_written (get_direction d (forward_step d r f)) =
  d_written (get_direction d f) +:+
    stream (filter (λ r, ¬ bytes_with_error r)
      (if decide (d = d ∧ d_state (get_direction d f) = LoopRunning ∧ closeSignal f = false ∧ r_deadline r = None) then [r] else [])).
Proof.
  unfold forward_step. destruct (d_state (get_direction d f)) eqn:Hs.
  2: { rewrite decide_False by naive_solver. by rewrite str_app_nil_r. }
  unfold forward_round. destruct (closeSignal f).
  { rewrite decide_False by naive_solver. by rewrite get_set_direction, str_app_nil_r. }
  destruct (r_deadline r).
  { rewrite decide_False by naive_solver. by rewrite get_set_direction, str_app_nil_r. }
  rewrite decide_True by done. rewrite filter_cons, filter_nil.
  destruct (r_read r) as [err|] eqn:Hr.
  - assert (d_written (get_direction d f) = d_written (get_direction d f) +:+
      stream (if decide (¬ bytes_with_error r) then [r] else [])) as Hw.
    { case_decide as Hb; [|by rewrite str_app_nil_r]. cbn. rewrite str_app_nil_r.
      destruct (decide (r_data r = "")) as [->|Hne]; [by rewrite str_app_nil_r|]. destruct Hb. by split; [rewrite Hr|]. }
    destruct err; rewrite get_set_direction; done.
  - rewrite decide_True by (by intros [? _]). cbn. rewrite str_app_nil_r.
    destruct (r_write r); by rewrite get_set_direction.
Qed.

Lemma stream_app rs1 rs2 : stream (rs1 ++ rs2) = stream rs1 +:+ stream rs2.
Proof. induction rs1 as [|r rs1 IH]; simpl; [done|]. by rewrite IH, str_app_assoc. Qed.

Lemma forward_run_written d schedule f :
  d_written (get_direction d (forward_run schedule f)) =
  d_written (get_direction d f) +:+ stream (filter (λ r, ¬ bytes_with_error r) (reads d schedule f)).
Proof.
  revert f. induction schedule as [|[d' r] schedule IH]; intros f; [by rewrite str_app_nil_r|].
  change (forward_run ((d', r) :: schedule) f) with (forward_run schedule (forward_step d' r f)).
  rewrite IH. cbn [reads]. rewrite filter_app, stream_app, str_app_assoc. f_equal.
  destruct (decide (d' = d)) as [->|Hne]; [apply forward_step_written|].
  rewrite forward_step_other by done. rewrite decide_False by naive_solver. by rewrite str_app_nil_r.
Qed.

(** As long as a loop is running, every round of it has read. *)
Lemma forward_run_reads d schedule f :
  d_state (get_direction d (forward_run schedule f)) = LoopRunning → reads d schedule f = rounds_of d schedule.
Proof.
  revert f. induction schedule as [|[d' r] schedule IH]; intros f; [done|].
  change (forward_run ((d', r) :: schedule) f) with (forward_run schedule (forward_step d' r f)).
  intros Hrun. cbn [reads]. rewrite (IH _ Hrun). unfold rounds_of. rewrite filter_cons. cbn [fst].
  destruct (decide (d' = d)) as [->|Hne]; [|by rewrite decide_False by naive_solver].
  enough (d_state (get_direction d f) = LoopRunning ∧ closeSignal f = false ∧ r_deadline r = None) as H.
  { rewrite decide_True by naive_solver. done. }
  assert (∀ schedule f, d_state (get_direction d f) ≠ LoopRunning →
    d_state (get_direction d (forward_run schedule f)) ≠ LoopRunning) as Hstays.
  { clear. induction schedule as [|[d' r] schedule IH]; intros f Hf; [done|]. cbn. apply IH.
    destruct (decide (d' = d)) as [->|Hne]; [|by rewrite forward_step_other].
    unfold forward_step. by destruct (d_state (get_direction d f)) eqn:Hs; [|rewrite Hs]. }
  assert (d_state (get_direction d (forward_step d r f)) = LoopRunning) as Hs.
  { destruct (decide (d_state (get_direction d (forward_step d r f)) = LoopRunning)) as [?|Hn]; [done|].
    by destruct (Hstays schedule _ Hn). }
  revert Hs. unfold forward_step. destruct (d_state (get_direction d f)) eqn:Hd; [|by rewrite Hd].
  unfold forward_round. destruct (closeSignal f); [by rewrite get_set_direction|].
  destruct (r_deadline r); [by rewrite get_set_direction|]. done.
Qed.

(** C32: under every schedule of the two directions, the bytes handed to the writes of a
    connection are, in order, the bytes that its reads of the other one returned, without
    those that a read returned together with an error, which the loops drop
    ([last_bytes_dropped]): when no read does that, they are all the bytes read.  As long as the loop is
    running, all its rounds have read. *)
Theorem forwarder_is_transparent schedule d :
  let x := get_direction d (forward_run schedule newForwarder) in
  let rs := reads d schedule newForwarder in
  d_written x = stream (filter (λ r, ¬ bytes_with_error r) rs) ∧
  (Forall (λ r, ¬ bytes_with_error r) rs → d_written x = stream rs) ∧
  (d_state x = LoopRunning → rs = rounds_of d schedule).
Proof.
  cbv zeta. assert (d_written (get_direction d newForwarder) = "") as H0 by by destruct d.
  pose proof (forward_run_written d schedule newForwarder) as Hw. rewrite H0 in Hw.
  split_and!; [done| |apply forward_run_reads].
  intros Hall. transitivity (stream (filter (λ r, ¬ bytes_with_error r) (reads d schedule newForwarder))); [exact Hw|].
  f_equal. clear Hw. revert Hall. generalize (reads d schedule newForwarder). intros rs.
  induction 1 as [|r rs Hr Hall IH]; [done|]. by rewrite filter_cons_True, IH.
Qed.

(** ** The end of a connection *)

(** A direction that ends because of its connections, not of the other direction. *)
Definition ends (r : io_round) : Prop :=
  r_deadline r = None ∧
  ((∃ err, r_read r = Some err ∧ err ≠ ErrTimeout) ∨ (r_read r = None ∧ r_write r ≠ None)).

Lemma forward_step_closed d r f :
  closeSignal f = true → closeSignal (forward_step d r f) = true ∧
  d_state (get_direction d (forward_step d r f)) ≠ LoopRunning.
Proof.
  intros Hc. unfold forward_step. destruct (d_state (get_direction d f)) eqn:Hs; [|by rewrite Hs].
  unfold forward_round. rewrite Hc. rewrite get_set_direction, closeSignal_set_direction. done.
Qed.
Lemma forward_step_stays d d' r f :
  d_state (get_direction d f) ≠ LoopRunning → d_state (get_direction d (forward_step d' r f)) ≠ LoopRunning.
Proof.
  intros Hd. unfold forward_step. destruct (d_state (get_direction d' f)) eqn:Hs; [|done].
  destruct (decide (d' = d)) as [->|Hne]; [congruence|].
  destruct (forward_round _ _ _). by rewrite get_set_direction_ne.
Qed.
Lemma forward_run_stays schedule f d :
  d_state (get_direction d f) ≠ LoopRunning →
  d_state (get_direction d (forward_run schedule f)) ≠ LoopRunning.
Proof. revert f. induction schedule as [|[d' r] schedule IH]; intros f Hf; simpl; auto using forward_step_stays. Qed.

Lemma forward_run_closed schedule f d :
  closeSignal f = true → rounds_of d schedule ≠ [] →
  d_state (get_direction d (forward_run schedule f)) ≠ LoopRunning.
Proof.
  revert f. induction schedule as [|[d' r] schedule IH]; intros f Hc Hne; [done|]. simpl.
  destruct (forward_step_closed d' r f Hc) as [Hc' Hd'].
  destruct (decide (d' = d)) as [->|Hd]; [by apply forward_run_stays|].
  apply IH; [done|]. unfold rounds_of in *. by rewrite filter_cons_False in Hne.
Qed.

(** Once the end of a connection, or an error, was met in one direction, both loops
    have returned and both connections are closed as soon as the other loop has run one
    more round. *)
Theorem forwarder_ends f d d' r schedule :
  d ≠ d' → d_state (get_direction d f) = LoopRunning → closeSignal f = false → ends r →
  rounds_of d' schedule ≠ [] →
  connections_closed (forward_run schedule (forward_step d r f)) = true.
Proof.
  intros Hdd Hrun Hc [Hdl Hend] Hs.
  assert (closeSignal (forward_step d r f) = true ∧
          d_state (get_direction d (forward_step d r f)) ≠ LoopRunning) as [Hc' Hd].
  { unfold forward_step, forward_round. rewrite Hrun, Hc, Hdl.
    destruct Hend as [(err & -> & Hne)|[-> Hw]].
    - destruct err; [done|by rewrite closeSignal_set_direction, get_set_direction..].
    - destruct (r_write r); [|done]. by rewrite closeSignal_set_direction, get_set_direction. }
  pose proof (forward_run_stays schedule _ d Hd) as H1.
  pose proof (forward_run_closed schedule _ d' Hc' Hs) as H2.
  set (f' := forward_run _ _) in *. unfold connections_closed.
  destruct d, d'; try done; cbn [get_direction] in H1, H2;
    by destruct (d_state (f_workloadToPeer f')), (d_state (f_peerToWorkload f')).
Qed.

(** The bytes that a read returns together with an error, as [crypto/tls] does with the
    last record before a close notification, are not written. *)
Lemma last_bytes_dropped d data f :
  d_state (get_direction d f) = LoopRunning → closeSignal f = false →
  d_written (get_direction d (forward_step d (mkRound None data (Some ErrEOF) None) f)) =
  d_written (get_direction d f).
Proof. intros Hd Hc. unfold forward_step. rewrite Hd, Hc. simpl. by rewrite get_set_direction. Qed.

(** ** Witness *)
Definition ex_data (s : string) : io_round := mkRound None s None None.
Definition ex_eof : io_round := mkRound None "" (Some ErrEOF) None.
Lemma forwarder_ends_witness :
  connections_closed (forward_run [(PeerToWorkload, ex_data "x")]
    (forward_step WorkloadToPeer ex_eof (forward_run [(PeerToWorkload, ex_data "hello")] newForwarder))) = true.
Proof.
  apply (forwarder_ends (forward_run [(PeerToWorkload, ex_data "hello")] newForwarder)
           WorkloadToPeer PeerToWorkload ex_eof); try reflexivity; try discriminate.
  split; [reflexivity|]. left. exists ErrEOF. split; [reflexivity|discriminate].
Defined.
Lemma forwarder_is_transparent_witness :
  d_written (get_direction WorkloadToPeer
    (forward_run [(WorkloadToPeer, ex_data "he"); (PeerToWorkload, ex_data "x"); (WorkloadToPeer, ex_data "llo"); (WorkloadToPeer, ex_eof)]
       newForwarder)) = "hello".
Proof.
  rewrite (proj1 (proj2 (forwarder_is_transparent
    [(WorkloadToPeer, ex_data "he"); (PeerToWorkload, ex_data "x"); (WorkloadToPeer, ex_data "llo"); (WorkloadToPeer, ex_eof)] WorkloadToPeer))).
  - reflexivity.
  - match goal with |- Forall _ ?rs => let rs' := eval vm_compute in rs in change rs with rs' end.
    repeat constructor; intros [? ?]; simpl in *; congruence.
Defined.
