(* ===== verification/PeerMonitor.v ===== *)
(** * Peer monitors

    [pkg/controlplane/control/peer.go]: a goroutine per peer sends heartbeats and
    decides when the peer becomes reachable or unreachable; the peer manager starts
    and replaces monitors, and writes the statuses they decide.

    Monitors are allocated in a list, in the order they are made; the map of the manager
    holds indices into it, so a monitor that left the map is still there.  The last
    section is a step relation on the monitors, the updater goroutine, [Stop] and the
    lock and channels they share. *)
From S2P Require Export PeerClient.
From stdpp Require Import options.
From Stdlib Require Import ZArith Lia.

(** Seconds. *)
Definition healthyInterval : Z := 1.
Definition unhealthyInterval : Z := 10.
Definition healthyThreshold : nat := 3.
Definition unhealthyThreshold : nat := 5.

(** ** The heartbeat loop *)

(** The local variables of [peerMonitor.Start], with the period of the ticker. *)
Record health := mkHealth { healthy : bool; strikeCount : nat; threshold : nat; interval : Z }.
Definition health_init (reachable : bool) : health := mkHealth reachable 0 1 healthyInterval.

(** One round after the answer of the peer; the flag says that the status changed. *)
Definition heartbeat_round (heartbeatOK : bool) (h : health) : health * bool :=
  let h :=
    if bool_decide (healthy h = heartbeatOK) then
      mkHealth (healthy h) 0 (threshold h) (if healthy h then interval h else unhealthyInterval)
    else
      mkHealth (healthy h) (S (strikeCount h)) (threshold h) (if heartbeatOK then healthyInterval else interval h)
  in
  if decide (strikeCount h < threshold h) then (h, false)
  else if heartbeatOK then (mkHealth true 0 unhealthyThreshold (interval h), true)
  else (mkHealth false 0 healthyThreshold unhealthyInterval, true).

(** The rounds of a monitor. *)
Definition heartbeats (oks : list bool) (h : health) : health :=
  foldl (λ h ok, (heartbeat_round ok h).1) h oks.

Section monitor.
Context {SC : StatusConditions} {TL : TLSLib} {W : Type} {HL : HTTPLib W} {EN : Encodings} {CL : Clock W}.
Context (arrival : W → list jsonClient → schedule).

Record peerMonitor := mkMonitor {
  pm_pr : Peer; pm_client : Client;
  pm_stopCh : bool     (* closed *)
}.

Definition SetPeer (pr : Peer) (m : peerMonitor) : peerMonitor := mkMonitor pr (pm_client m) (pm_stopCh m).
Definition SetClientCertificates (tls : ParsedCertData) (m : peerMonitor) : peerMonitor :=
  mkMonitor (pm_pr m) (NewClient (pm_pr m) (ClientConfig tls (peer_Name (pm_pr m)))) (pm_stopCh m).
Definition monitor_Stop (m : peerMonitor) : peerMonitor := mkMonitor (pm_pr m) (pm_client m) true.

(** The status a monitor writes into its peer; the labels are nil after a failure. *)
Definition set_reachable (now : Z) (ok : bool) (labels : gmap string string) (pr : Peer) : Peer :=
  mkPeer (peer_Meta pr) (peer_Gateways pr)
    (SetStatusCondition now (peer_Conditions pr)
       (mkCondition PeerReachable (if ok then ConditionTrue else ConditionFalse) "Heartbeat" "" 0 0))
    labels.

(** A round of [Start]: the peer whose status is queued for an update, if any.  It does
    not end ([None]) when the heartbeat blocks. *)
Definition monitor_round : ST (peerMonitor * health * W) (option (outcome (option Peer))) :=
  mh ← gets fst;
  let (m, h) := (mh : peerMonitor * health) in
  peerLabels ← outside (GetHeartbeat arrival (pm_client m));
  match peerLabels with
  | None => mret None
  | Some Panic => mret (Some Panic)
  | Some (Done peerLabels) =>
      let heartbeatOK := is_ok peerLabels in
      let (h, changed) := heartbeat_round heartbeatOK h in
      w ← gets snd;
      let pr := if changed then
                  set_reachable (clock_now w) heartbeatOK (match peerLabels with Ok l => l | Err _ => ∅ end) (pm_pr m)
                else pm_pr m in
      modify (λ s, (mkMonitor pr (pm_client m) (pm_stopCh m), h, s.2));;
      mret (Some (Done (if changed then Some pr else None)))
  end.

Definition monitor_start (m : peerMonitor) : health :=
  health_init (IsStatusConditionTrue (peer_Conditions (pm_pr m)) PeerReachable).

(** ** The manager *)

(** A missing label reads as the empty string. *)
Definition peerChanged (pr1 pr2 : Peer) : bool :=
  if decide (length (peer_Gateways pr1) ≠ length (peer_Gateways pr2)) then true
  else if existsb (λ gg, bool_decide (ep_Host gg.1 ≠ ep_Host gg.2) || bool_decide (ep_Port gg.1 ≠ ep_Port gg.2))
            (zip (peer_Gateways pr1) (peer_Gateways pr2)) then true
  else if decide (length (peer_Conditions pr1) ≠ length (peer_Conditions pr2)) then true
  else if existsb (λ cc, bool_decide (cc.1 ≠ cc.2)) (zip (peer_Conditions pr1) (peer_Conditions pr2)) then true
  else if decide (size (peer_Labels pr1) ≠ size (peer_Labels pr2)) then true
  else existsb (λ kv, bool_decide (kv.2 ≠ default "" (peer_Labels pr2 !! kv.1))) (map_to_list (peer_Labels pr1)).

Record peerManager := mkPeerManager {
  pmg_peerTLS : option ParsedCertData;
  monitors : gmap string nat;
  allocated : list peerMonitor;
  stopped : bool
}.
Definition newPeerManager : peerManager := mkPeerManager None ∅ [] false.

(** [newPeerMonitor] and the entry of the map; [peerTLS] is dereferenced. *)
Definition start_monitor (pr : Peer) (allocated : list peerMonitor) (m : peerManager) : outcome peerManager :=
  match pmg_peerTLS m with
  | None => Panic
  | Some tls =>
      let monitor := mkMonitor pr (NewClient pr (ClientConfig tls (peer_Name pr))) false in
      Done (mkPeerManager (pmg_peerTLS m) (<[peer_Name pr := length allocated]> (monitors m))
                          (allocated ++ [monitor]) (stopped m))
  end.

Definition AddPeer (pr : Peer) (m : peerManager) : outcome peerManager :=
  if stopped m then Done m
  else
    match monitors m !! peer_Name pr with
    | None => start_monitor pr (allocated m) m
    | Some i =>
        match allocated m !! i with
        | None => Panic                              (* no such pointer *)
        | Some monitor =>
            if peerChanged (pm_pr monitor) pr then
              start_monitor pr (<[i := monitor_Stop monitor]> (allocated m)) m
            else Done (mkPeerManager (pmg_peerTLS m) (monitors m) (<[i := SetPeer pr monitor]> (allocated m)) (stopped m))
        end
    end.

Definition DeletePeer (name : string) (m : peerManager) : peerManager :=
  mkPeerManager (pmg_peerTLS m) (delete name (monitors m)) (allocated m) (stopped m).

Definition SetPeerCertificates (order : ranger string nat) (tls : ParsedCertData) (m : peerManager) : peerManager :=
  mkPeerManager (Some tls) (monitors m)
    (foldl (λ l i, alter (SetClientCertificates tls) i l) (allocated m) (order (monitors m)).*2)
    (stopped m).

(** A round of the monitor at [i] has run. *)
Definition monitor_ran (i : nat) (pr : Peer) (m : peerManager) : peerManager :=
  mkPeerManager (pmg_peerTLS m) (monitors m) (alter (SetPeer pr) i (allocated m)) (stopped m).

(** ** [Start]: the loop on a status update

    [seen i] is the map when it is read for the [i]-th time.  [None]: the loop has not ended. *)
Context {KP : KubeClient W Peer}.
Fixpoint update_status (fuel i : nat) (name : string) (seen : nat → option Peer) : ST W (option unit) :=
  match fuel with
  | O => mret None
  | S fuel' =>
      match seen i with
      | None => update_status fuel' (S i) name seen
      | Some currPeer =>
          err ← kStatusUpdate currPeer;
          match err with
          | Err _ => update_status fuel' (S i) name seen
          | Ok _ => mret (Some tt)
          end
      end
  end.
End monitor.

(** ** The manager as concurrent goroutines *)
Inductive mon_pc := MonRunning | MonSending | MonReturned.
(** [UpdLock]: the updater has received an update and is about to take the lock. *)
Inductive upd_pc := UpdSelect | UpdLock (name : string) | UpdUpdate (name : string) | UpdReturned.
(** [Stop] holds the lock while it waits. *)
Inductive stop_pc := NotStopping | WaitMonitors | WaitUpdater | StopReturned.

Record pm_state := mkPmState {
  ps_stop : stop_pc; ps_updater : upd_pc;
  ps_monitors : list (string * mon_pc);
  ps_names : gset string          (* the keys of the map of monitors *)
}.
Definition pm_init : pm_state := mkPmState NotStopping UpdSelect [] ∅.
Definition locked (s : pm_state) : bool :=
  match ps_stop s with WaitMonitors | WaitUpdater => true | _ => false end.
Definition stopping (s : pm_state) : bool :=
  match ps_stop s with NotStopping => false | _ => true end.

Definition set_updater (u : upd_pc) (s : pm_state) : pm_state :=
  mkPmState (ps_stop s) u (ps_monitors s) (ps_names s).
Definition set_monitor (i : nat) (m : string * mon_pc) (s : pm_state) : pm_state :=
  mkPmState (ps_stop s) (ps_updater s) (<[i := m]> (ps_monitors s)) (ps_names s).
Definition set_stop (p : stop_pc) (s : pm_state) : pm_state :=
  mkPmState p (ps_updater s) (ps_monitors s) (ps_names s).

Inductive pm_step : pm_state → pm_state → Prop :=
  (* AddPeer and DeletePeer, under the lock *)
  | ps_add name s : ps_stop s = NotStopping →
      pm_step s (mkPmState (ps_stop s) (ps_updater s) (ps_monitors s ++ [(name, MonRunning)]) ({[ name ]} ∪ ps_names s))
  | ps_delete name s : locked s = false →
      pm_step s (mkPmState (ps_stop s) (ps_updater s) (ps_monitors s) (ps_names s ∖ {[ name ]}))
  (* a monitor decides a new status, or sees that it is stopped *)
  | ps_status i name s : ps_monitors s !! i = Some (name, MonRunning) →
      pm_step s (set_monitor i (name, MonSending) s)
  | ps_return i name s : ps_monitors s !! i = Some (name, MonRunning) → stopping s = true →
      pm_step s (set_monitor i (name, MonReturned) s)
  | ps_replaced i j name p s : ps_monitors s !! i = Some (name, MonRunning) →
      ps_monitors s !! j = Some (name, p) → i < j →
      pm_step s (set_monitor i (name, MonReturned) s)
  (* queueStatusUpdate: the updater receives *)
  | ps_queue i name s : ps_monitors s !! i = Some (name, MonSending) → ps_updater s = UpdSelect →
      pm_step s (set_updater (UpdLock name) (set_monitor i (name, MonRunning) s))
  (* the updater *)
  | ps_lookup name s : ps_updater s = UpdLock name → locked s = false → name ∈ ps_names s →
      pm_step s (set_updater (UpdUpdate name) s)
  | ps_absent name s : ps_updater s = UpdLock name → locked s = false → name ∉ ps_names s →
      pm_step s (set_updater (UpdLock name) s)
  | ps_updated name s : ps_updater s = UpdUpdate name → pm_step s (set_updater UpdSelect s)
  | ps_update_failed name s : ps_updater s = UpdUpdate name → pm_step s (set_updater (UpdLock name) s)
  | ps_updater_stops s : ps_updater s = UpdSelect → ps_stop s = WaitUpdater →
      pm_step s (set_updater UpdReturned s)
  (* Stop *)
  | ps_stop_begins s : ps_stop s = NotStopping → pm_step s (set_stop WaitMonitors s)
  | ps_monitors_returned s : ps_stop s = WaitMonitors →
      Forall (λ m, m.2 = MonReturned) (ps_monitors s) → pm_step s (set_stop WaitUpdater s)
  | ps_stop_returns s : ps_stop s = WaitUpdater → ps_updater s = UpdReturned →
      pm_step s (set_stop StopReturned s).
