(* ===== verification/PeerMonitorFacts.v ===== *)
(** * When a peer is declared reachable, and what its monitors are

    The counters of the heartbeat loop against a window of recent heartbeats; the
    invariant of the map of monitors; and the ways the status updates stop. *)
From S2P Require Export PeerMonitor.
From stdpp Require Import options.
From Stdlib Require Import ZArith Lia.

#[local] Set Default Proof Using "Type".

(** ** The heartbeat loop decides on a window *)

(** The status, and the heartbeats since it was last changed, the latest first. *)
Record window := mkWindow { w_status : bool; w_recent : list bool }.
(** How many consecutive heartbeats change a status, as it is documented. *)
Definition documented_threshold (status : bool) : nat := if status then 5 else 3.

(** All of the last [n] heartbeats are contrary to [status]. *)
Definition contrary (status : bool) (n : nat) (recent : list bool) : bool :=
  bool_decide (n ≤ length recent) && forallb (λ ok, negb (eqb ok status)) (take n recent).
Definition declared (status : bool) (recent : list bool) : bool :=
  contrary status (documented_threshold status) recent.

Definition window_round (ok : bool) (w : window) : window * bool :=
  let recent := ok :: w_recent w in
  if declared (w_status w) recent then (mkWindow ok [], true) else (mkWindow (w_status w) recent, false).
Definition windows (oks : list bool) (w : window) : window :=
  foldl (λ w ok, (window_round ok w).1) w oks.

(** How many of the latest heartbeats are contrary to the status. *)
Fixpoint strikes (status : bool) (recent : list bool) : nat :=
  match recent with
  | ok :: recent' => if eqb ok status then 0 else S (strikes status recent')
  | [] => 0
  end.

Lemma contrary_strikes status n recent : contrary status n recent = bool_decide (n ≤ strikes status recent).
Proof.
  unfold contrary. revert n. induction recent as [|ok recent IH]; intros [|n]; simpl; try done.
  destruct (eqb ok status); simpl; [by rewrite andb_false_r|].
  assert (∀ a, bool_decide (S n ≤ S a) = bool_decide (n ≤ a)) as Hs
    by (intros a; apply bool_decide_ext; lia).
  rewrite !Hs. apply IH.
Qed.

(** The counters say the same as the window. *)
Record counts (h : health) (w : window) : Prop := mkCounts {
  ct_status : healthy h = w_status w;
  ct_threshold : threshold h = documented_threshold (w_status w);
  ct_strikes : strikeCount h = strikes (w_status w) (w_recent w);
  ct_below : strikeCount h < threshold h;
  ct_interval : interval h =
    if negb (healthy h) && (match w_recent w with [] => true | ok :: _ => negb ok end)
    then unhealthyInterval else healthyInterval
}.

Lemma round_counts ok h w :
  counts h w → (heartbeat_round ok h).2 = (window_round ok w).2 ∧
               counts (heartbeat_round ok h).1 (window_round ok w).1.
Proof.
  intros [H1 H2 H3 H4 H5]. unfold heartbeat_round, window_round, declared. rewrite contrary_strikes.
  destruct h as [hl sc th iv], w as [ws wr]. cbn [healthy strikeCount threshold interval w_status w_recent] in *.
  subst ws th. cbn [strikes].
  destruct ok, hl; cbn [eqb bool_decide decide_rel healthy strikeCount threshold interval].
  all: try (rewrite bool_decide_eq_true_2 by done); try (rewrite bool_decide_eq_false_2 by done).
  all: cbn [healthy strikeCount threshold interval documented_threshold] in *; rewrite <- ?H3.
  all: match goal with |- context [decide ?P] => destruct (decide P) end;
    match goal with |- context [bool_decide ?P] => destruct (bool_decide_reflect P) end; try lia;
    (split; [done|]); split; cbn in *; try done; unfold unhealthyThreshold, healthyThreshold in *; lia.
Qed.

Lemma run_counts oks h w : counts h w → counts (heartbeats oks h) (windows oks w).
Proof.
  revert h w. induction oks as [|ok oks IH]; intros h w Hc; [done|]. cbn. apply IH.
  by apply round_counts.
Qed.

(** The counters of a monitor that has not changed its status are never at their threshold. *)
Definition below (h : health) : Prop :=
  strikeCount h < threshold h ∧ (interval h = healthyInterval ∨ interval h = unhealthyInterval ∧ healthy h = false).
Lemma round_below ok h : below h → below (heartbeat_round ok h).1.
Proof.
  destruct h as [hl sc th iv]. unfold below, heartbeat_round. cbn [healthy strikeCount threshold interval]. intros [Hlt Hi].
  destruct ok, hl; cbn [bool_decide decide_rel healthy strikeCount threshold interval];
    try (rewrite bool_decide_eq_true_2 by done); try (rewrite bool_decide_eq_false_2 by done);
    cbn [healthy strikeCount threshold interval];
    match goal with |- context [decide ?P] => destruct (decide P) end; cbn;
    unfold unhealthyThreshold, healthyThreshold in *; split; try lia; destruct Hi as [?|[? ?]]; auto; done.
Qed.
Lemma heartbeats_below oks reachable : below (heartbeats oks (health_init reachable)).
Proof.
  assert (below (health_init reachable)) as H by (split; [simpl; lia|by left]). revert H.
  generalize (health_init reachable). induction oks as [|ok oks IH]; intros h Hh; [done|]. cbn. by apply IH, round_below.
Qed.

(** A change of the status starts a window. *)
Lemma change_counts ok h : below h → (heartbeat_round ok h).2 = true → counts (heartbeat_round ok h).1 (mkWindow ok []).
Proof.
  destruct h as [hl sc th iv]. unfold below, heartbeat_round. cbn [healthy strikeCount threshold interval]. intros [Hlt Hi].
  destruct ok, hl; cbn [bool_decide decide_rel healthy strikeCount threshold interval];
    try (rewrite bool_decide_eq_true_2 by done); try (rewrite bool_decide_eq_false_2 by done);
    cbn [healthy strikeCount threshold interval];
    match goal with |- context [decide ?P] => destruct (decide P) end; cbn; intros Hch; try done; try lia;
    split; cbn; try done; unfold unhealthyThreshold, healthyThreshold; lia.
Qed.

(** C40: from the first change of its status on, the counters of a monitor implement the
    documented window: the status changes in a round exactly when the latest heartbeats
    since the last change, five for a reachable peer and three for an unreachable one, are
    all contrary to it; and the next heartbeat is sent after ten seconds exactly when the
    peer is unreachable and did not answer.  (Before the first change a single heartbeat
    to the contrary is enough, however many have confirmed the status:
    [first_contrary_suffices].) *)
Theorem monitor_decides_on_window reachable before ok0 oks ok :
  let h0 := heartbeats before (health_init reachable) in
  (heartbeat_round ok0 h0).2 = true →
  let h := heartbeats oks (heartbeat_round ok0 h0).1 in
  let w := windows oks (mkWindow ok0 []) in
  healthy h = w_status w ∧
  (heartbeat_round ok h).2 = declared (w_status w) (ok :: w_recent w) ∧
  (interval (heartbeat_round ok h).1 = unhealthyInterval ↔
   healthy (heartbeat_round ok h).1 = false ∧ ok = false).
Proof.
  cbv zeta. intros Hch. pose proof (change_counts _ _ (heartbeats_below before reachable) Hch) as H0.
  pose proof (run_counts oks _ _ H0) as Hc.
  destruct (round_counts ok _ _ Hc) as [Heq Hc']. split; [by apply ct_status|]. split.
  - rewrite Heq. unfold window_round. by case_match.
  - revert Hc'. unfold window_round. case_match; intros [H1 H2 H3 H4 H5]; rewrite H5; cbn in *; rewrite H1, ?H2.
    + destruct ok; cbn; split; try done; by intros [].
    + destruct (w_status _), ok; cbn; split; try done; by intros [].
Qed.

(** A status is given up after a single contrary heartbeat, however many have confirmed it,
    as long as the monitor has not changed its status before. *)
Lemma first_contrary_suffices (ok : bool) n :
  healthy (heartbeats (replicate n ok ++ [negb ok]) (health_init ok)) = negb ok.
Proof.
  unfold heartbeats. rewrite foldl_app. set (h0 := health_init ok).
  assert (healthy (foldl (λ h ok, (heartbeat_round ok h).1) h0 (replicate n ok)) = ok ∧
    strikeCount (foldl (λ h ok, (heartbeat_round ok h).1) h0 (replicate n ok)) = 0 ∧
    threshold (foldl (λ h ok, (heartbeat_round ok h).1) h0 (replicate n ok)) = 1) as (H1 & H2 & H3).
  { assert (healthy h0 = ok ∧ strikeCount h0 = 0 ∧ threshold h0 = 1) as H0 by done. clearbody h0. revert h0 H0.
    induction n as [|n IH]; intros h0 (H1 & H2 & H3); [done|]. cbn [replicate foldl]. apply IH.
    unfold heartbeat_round. rewrite H1, H2, H3. by destruct ok. }
  cbn [foldl]. set (h := foldl _ h0 _) in *. clearbody h. unfold heartbeat_round. rewrite H1, H2, H3. by destruct ok.
Qed.

(** ** The map of monitors *)
Section manager.
Context {SC : StatusConditions} {TL : TLSLib}.

Lemma NewClient_gateways pr1 pr2 cfg :
  peer_Gateways pr1 = peer_Gateways pr2 → cl_clients (NewClient pr1 cfg) = cl_clients (NewClient pr2 cfg).
Proof. unfold NewClient. simpl. by intros ->. Qed.

Lemma existsb_zip_false {A} (f : A * A → bool) (l1 l2 : list A) :
  (∀ a b, f (a, b) = false → a = b) → length l1 = length l2 → existsb f (zip l1 l2) = false → l1 = l2.
Proof.
  intros Hf. revert l2. induction l1 as [|a l1 IH]; intros [|b l2]; simpl; try done.
  intros [=] [Ha Hl]%orb_false_iff. f_equal; auto.
Qed.

Lemma peerChanged_false pr1 pr2 :
  peerChanged pr1 pr2 = false →
  peer_Gateways pr1 = peer_Gateways pr2 ∧ peer_Conditions pr1 = peer_Conditions pr2.
Proof.
  unfold peerChanged. case_decide as Hl; [done|]. destruct (existsb _ _) eqn:Hg; [done|].
  case_decide as Hc; [done|]. destruct (existsb _ (zip (peer_Conditions _) _)) eqn:Hcs; [done|].
  intros _. split.
  - eapply existsb_zip_false; [|lia|exact Hg]. intros [h1 p1] [h2 p2]. simpl.
    intros [Hh Hp]%orb_false_iff. apply bool_decide_eq_false in Hh, Hp.
    apply dec_stable in Hh, Hp. congruence.
  - eapply existsb_zip_false; [|lia|exact Hcs]. simpl. intros a b Hab%bool_decide_eq_false.
    by apply dec_stable in Hab.
Qed.

(** What the rest of the control plane and the monitors do to the manager. *)
Inductive pm_op :=
  | OpAdd (pr : Peer) | OpDelete (name : string)
  | OpCerts (order : ranger string nat) (tls : ParsedCertData)
  | OpRound (i : nat) (now : Z) (ok : bool) (labels : gmap string string).

Definition run_pm_op (op : pm_op) (m : peerManager) : outcome peerManager :=
  match op with
  | OpAdd pr => AddPeer pr m
  | OpDelete name => Done (DeletePeer name m)
  | OpCerts order tls => Done (SetPeerCertificates order tls m)
  | OpRound i now ok labels =>
      Done match allocated m !! i with
           | Some mon => monitor_ran i (set_reachable now ok labels (pm_pr mon)) m
           | None => m
           end
  end.
Fixpoint run_pm (ops : list pm_op) (m : peerManager) : outcome peerManager :=
  match ops with
  | [] => Done m
  | op :: ops' => match run_pm_op op m with Panic => Panic | Done m' => run_pm ops' m' end
  end.

(** A monitor of the peer [name], running, that probes its gateways with the certificates. *)
Definition monitors_peer (otls : option ParsedCertData) (name : string) (mon : peerMonitor) : Prop :=
  peer_Name (pm_pr mon) = name ∧ pm_stopCh mon = false ∧
  ∃ tls, otls = Some tls ∧ cl_clients (pm_client mon) = cl_clients (NewClient (pm_pr mon) (ClientConfig tls name)).

Definition manager_inv (m : peerManager) : Prop :=
  ∀ name i, monitors m !! name = Some i →
    ∃ mon, allocated m !! i = Some mon ∧ monitors_peer (pmg_peerTLS m) name mon.

(** No monitor runs that is not in the map. *)
Definition no_leak (m : peerManager) : Prop :=
  ∀ i mon, allocated m !! i = Some mon → pm_stopCh mon = false →
    monitors m !! peer_Name (pm_pr mon) = Some i.

Lemma inv_injective m name1 name2 i :
  manager_inv m → monitors m !! name1 = Some i → monitors m !! name2 = Some i → name1 = name2.
Proof.
  intros Hm (mon1 & Hi1 & <- & _)%Hm (mon2 & Hi2 & <- & _)%Hm. congruence.
Qed.

(** Replacing one monitor by another of the same peer. *)
Lemma inv_alter m i f :
  manager_inv m →
  (∀ name mon, monitors_peer (pmg_peerTLS m) name mon → monitors_peer (pmg_peerTLS m) name (f mon)) →
  manager_inv (mkPeerManager (pmg_peerTLS m) (monitors m) (alter f i (allocated m)) (stopped m)).
Proof.
  intros Hm Hf name j Hj. destruct (Hm name j Hj) as (mon & Ha & Hmon). simpl.
  destruct (decide (i = j)) as [->|Hne].
  - exists (f mon). rewrite list_lookup_alter_eq, Ha. auto.
  - exists mon. by rewrite list_lookup_alter_ne.
Qed.

Lemma monitors_SetPeer otls name mon pr :
  peer_Gateways pr = peer_Gateways (pm_pr mon) → peer_Name pr = name →
  monitors_peer otls name mon → monitors_peer otls name (SetPeer pr mon).
Proof.
  intros Hg Hn (Hn' & Hs & tls & -> & Hc). split; [done|]. split; [done|]. exists tls. split; [done|].
  cbn [SetPeer pm_client]. rewrite Hc. by apply NewClient_gateways.
Qed.

Lemma start_monitor_inv pr al m m' :
  start_monitor pr al m = Done m' →
  (∀ name i, name ≠ peer_Name pr → monitors m !! name = Some i →
    ∃ mon, al !! i = Some mon ∧ monitors_peer (pmg_peerTLS m) name mon) → manager_inv m'.
Proof.
  unfold start_monitor. destruct (pmg_peerTLS m) as [tls|]; [|done]. intros [= <-] Hal name i. simpl.
  intros [[<- <-]|[Hne Hi]]%lookup_insert_Some.
  - eexists. rewrite lookup_app_r, Nat.sub_diag by done. simpl. split; [done|].
    split; [done|]. split; [done|]. by exists tls.
  - destruct (Hal name i) as (mon & Ha & Hmon); [done..|]. exists mon. split; [|done].
    apply lookup_app_Some. by left.
Qed.

Lemma AddPeer_inv pr m m' : AddPeer pr m = Done m' → manager_inv m → manager_inv m'.
Proof.
  unfold AddPeer. intros Ha Hm. destruct (stopped m) eqn:Hst; [by injection Ha as <-|].
  destruct (monitors m !! peer_Name pr) as [i|] eqn:Hi.
  2:{ eapply start_monitor_inv; [done|]. intros name j _ Hj. by apply Hm. }
  destruct (Hm _ _ Hi) as (mon & Hmon & Hok). rewrite Hmon in Ha.
  destruct (peerChanged (pm_pr mon) pr) eqn:Hc.
  - eapply start_monitor_inv; [done|]. intros name j Hne Hj.
    destruct (Hm _ _ Hj) as (mon' & Hmon' & Hok'). exists mon'. split; [|done].
    rewrite list_lookup_insert_ne; [done|]. intros ->. apply Hne. by eapply inv_injective.
  - injection Ha as <-. apply peerChanged_false in Hc as [Hg _]. intros name j Hj. simpl in *.
    destruct (decide (i = j)) as [<-|Hne].
    + assert (name = peer_Name pr) as -> by (by eapply inv_injective).
      exists (SetPeer pr mon). split; [apply list_lookup_insert_eq; by eapply lookup_lt_Some|].
      by apply monitors_SetPeer.
    + rewrite list_lookup_insert_ne by done. by apply Hm.
Qed.

Lemma SetClientCertificates_twice tls mon :
  SetClientCertificates tls (SetClientCertificates tls mon) = SetClientCertificates tls mon.
Proof. done. Qed.

Lemma set_certificates_lookup tls (js : list nat) (l : list peerMonitor) i :
  foldl (λ l i, alter (SetClientCertificates tls) i l) l js !! i =
  if decide (i ∈ js) then SetClientCertificates tls <$> l !! i else l !! i.
Proof.
  revert l. induction js as [|j js IH]; intros l; [by rewrite decide_False by set_solver|].
  cbn [foldl]. rewrite IH. destruct (decide (j = i)) as [->|Hne].
  - rewrite list_lookup_alter_eq, (decide_True (P := i ∈ i :: js)) by (by left).
    case_decide; [|done]. by destruct (l !! i).
  - rewrite list_lookup_alter_ne by done. by repeat case_decide; set_solver.
Qed.

Lemma SetPeerCertificates_inv order tls m : manager_inv m → manager_inv (SetPeerCertificates order tls m).
Proof.
  intros Hm name i Hi. destruct (Hm name i Hi) as (mon & Ha & Hn & Hs & _). simpl in *.
  exists (SetClientCertificates tls mon). rewrite set_certificates_lookup, decide_True, Ha.
  - split; [done|]. split; [done|]. split; [done|]. exists tls. by rewrite Hn || simpl; rewrite Hn.
  - apply list_elem_of_fmap. exists (name, i). split; [done|]. by apply elem_of_range.
Qed.

Lemma run_pm_op_inv op m m' : run_pm_op op m = Done m' → manager_inv m → manager_inv m'.
Proof.
  intros Hop Hm. destruct op as [pr|name|order tls|i now ok labels]; simpl in Hop.
  - by eapply AddPeer_inv.
  - injection Hop as <-. intros n i Hi. simpl in Hi. apply lookup_delete_Some in Hi as [_ Hi]. by apply Hm.
  - injection Hop as <-. by apply SetPeerCertificates_inv.
  - injection Hop as <-. destruct (allocated m !! i) as [mon|] eqn:Hi; [|done].
    intros name j Hj. destruct (Hm name j Hj) as (mon' & Ha & Hok). simpl.
    destruct (decide (i = j)) as [->|Hne]; [|rewrite list_lookup_alter_ne by done; eauto].
    assert (mon' = mon) as -> by congruence. rewrite list_lookup_alter_eq, Ha. eexists; split; [done|].
    apply monitors_SetPeer; [done|by destruct Hok|done].
Qed.

(** C30: whatever peers are added, changed and deleted, certificates renewed and statuses
    written, the monitor in the map for a peer is running, is the peer's, and probes the
    peer's gateways with the current certificates. *)
Theorem monitors_probe_their_peers ops m :
  run_pm ops newPeerManager = Done m → manager_inv m.
Proof.
  assert (∀ ops m, manager_inv m → ∀ m', run_pm ops m = Done m' → manager_inv m') as H.
  { clear. induction ops as [|op ops IH]; intros m Hm m'; simpl; [by intros [= <-]|].
    destruct (run_pm_op op m) as [m1|] eqn:Hop; [|done]. apply IH. by eapply run_pm_op_inv. }
  apply H. by intros name i Hi.
Qed.

(** A deleted peer leaves the map, and its monitor is not told to stop. *)
Lemma deleted_monitor_keeps_running name i m :
  manager_inv m → monitors m !! name = Some i →
  monitors (DeletePeer name m) !! name = None ∧
  ∃ mon, allocated (DeletePeer name m) !! i = Some mon ∧ pm_stopCh mon = false.
Proof.
  intros Hm Hi. split; [apply lookup_delete_eq|].
  destruct (Hm name i Hi) as (mon & Ha & _ & Hs & _). by exists mon.
Qed.

(** *** What the API server makes of a status

    [metav1.Time] is written in seconds: [truncate] a time of the clock. *)
Context {SCL : StatusConditionsLaws} (truncate : Z → Z).
Definition stored_condition (c : Condition) : Condition :=
  mkCondition (cond_Type c) (cond_Status c) (cond_Reason c) (cond_Message c)
    (truncate (cond_LastTransitionTime c)) (cond_ObservedGeneration c).
Definition stored_peer (pr : Peer) : Peer :=
  mkPeer (peer_Meta pr) (peer_Gateways pr) (stored_condition <$> peer_Conditions pr) (peer_Labels pr).

Lemma peerChanged_conditions pr1 pr2 i c1 c2 :
  peer_Conditions pr1 !! i = Some c1 → peer_Conditions pr2 !! i = Some c2 → c1 ≠ c2 → peerChanged pr1 pr2 = true.
Proof.
  intros H1 H2 Hne. destruct (peerChanged pr1 pr2) eqn:Hc; [done|].
  apply peerChanged_false in Hc as [_ Hc]. congruence.
Qed.

Lemma set_reachable_true now (ok : bool) labels pr :
  IsStatusConditionTrue (peer_Conditions (stored_peer (set_reachable now ok labels pr))) PeerReachable = ok.
Proof using SCL.
  set (new := mkCondition PeerReachable (if ok then ConditionTrue else ConditionFalse) "Heartbeat" "" 0 0).
  destruct (Find_Set_eq now (peer_Conditions pr) new) as (c & Hc & _ & Hs & _).
  change (cond_Type new) with PeerReachable in Hc. simpl in Hs.
  assert (FindStatusCondition (peer_Conditions (stored_peer (set_reachable now ok labels pr))) PeerReachable =
    Some (stored_condition c)) as Hf by (simpl; rewrite Find_fmap by done; by fold new; rewrite Hc).
  apply eq_bool_prop_intro. rewrite !Is_true_true, IsTrue_spec, Hf. split.
  - intros (c' & [= <-] & Ht). simpl in Ht. rewrite Hs in Ht. by destruct ok.
  - intros ->. exists (stored_condition c). by split.
Qed.

(** The thresholds of the monitor do not work as intended: the status it
    writes comes back from the API server with its time in seconds, [peerChanged]
    compares the times, and the reconciliation of the peer stops the monitor and starts a
    new one; which gives up the status after a single contrary heartbeat, however many
    have confirmed it. *)
Theorem status_change_restarts_monitor m i mon now (ok : bool) labels tls :
  let name := peer_Name (pm_pr mon) in
  let pr := set_reachable now ok labels (pm_pr mon) in
  allocated m !! i = Some mon → monitors m !! name = Some i → stopped m = false → pmg_peerTLS m = Some tls →
  (∀ c, FindStatusCondition (peer_Conditions (pm_pr mon)) PeerReachable = Some c →
     cond_Status c ≠ if ok then ConditionTrue else ConditionFalse) →
  truncate now ≠ now →
  ∃ m' mon', AddPeer (stored_peer pr) (monitor_ran i pr m) = Done m' ∧
    allocated m' !! i = Some (monitor_Stop (SetPeer pr mon)) ∧
    monitors m' !! name = Some (length (allocated m)) ∧ allocated m' !! length (allocated m) = Some mon' ∧
    ∀ n, healthy (heartbeats (replicate n ok ++ [negb ok]) (monitor_start mon')) = negb ok.
Proof using SCL.
  intros name pr Hi Hn Hst Htls Hc Hnow.
  destruct (Set_time now (peer_Conditions (pm_pr mon))
    (mkCondition PeerReachable (if ok then ConditionTrue else ConditionFalse) "Heartbeat" "" 0 0) Hc) as (c & Hin & Ht).
  apply list_elem_of_lookup_1 in Hin as [j Hj].
  assert (peerChanged pr (stored_peer pr) = true) as Hch.
  { apply (peerChanged_conditions _ _ j c (stored_condition c)); [done| |].
    - simpl. by rewrite list_lookup_fmap, Hj.
    - intros Heq%(f_equal cond_LastTransitionTime). simpl in Heq. congruence. }
  pose proof (lookup_lt_Some _ _ _ Hi) as Hlt.
  unfold AddPeer. cbn [stopped monitor_ran monitors allocated pmg_peerTLS]. rewrite Hst.
  change (peer_Name (stored_peer pr)) with name. rewrite Hn, list_lookup_alter_eq, Hi.
  cbn [fmap option_fmap option_map pm_pr SetPeer]. rewrite Hch. unfold start_monitor. cbn [pmg_peerTLS monitor_ran]. rewrite Htls.
  eexists _, (mkMonitor (stored_peer pr) _ false). split; [done|]. cbn [allocated monitors].
  assert (length (<[i := monitor_Stop (SetPeer pr mon)]> (alter (SetPeer pr) i (allocated m))) = length (allocated m)) as Hlen
    by by rewrite length_insert, length_alter.
  split_and!.
  - rewrite lookup_app_l by lia. apply list_lookup_insert_eq. by rewrite length_alter.
  - change (peer_Name (stored_peer pr)) with name. rewrite Hlen. apply lookup_insert_eq.
  - rewrite lookup_app_r, Hlen, Nat.sub_diag by lia. done.
  - intros n. unfold monitor_start. cbn [pm_pr]. unfold pr. rewrite set_reachable_true. apply first_contrary_suffices.
Qed.
End manager.

(** ** The updater and [Stop] *)

(** The loop on the status update of a peer that is not in the map never ends, and does
    nothing. *)
Lemma absent_peer_spins {W} {KP : KubeClient W Peer} fuel i name (seen : nat → option Peer) w :
  (∀ i, seen i = None) → update_status fuel i name seen w = (None, w).
Proof. intros Hs. revert i. induction fuel as [|fuel IH]; intros i; [done|]. simpl. rewrite Hs. apply IH. Qed.

(** Steps in which the peer is not added. *)
Definition pm_step_without (name : string) (s s' : pm_state) : Prop :=
  pm_step s s' ∧ (name ∉ ps_names s → name ∉ ps_names s').

Lemma pm_step_absent name s s' :
  pm_step s s' → ps_updater s = UpdLock name → name ∉ ps_names s → ps_updater s' = UpdLock name.
Proof. intros [] Hu Hn; simpl in *; congruence. Qed.

(** A status update of a peer that was deleted in the meantime keeps the updater
    busy forever: unless the peer is added again, no status of any peer is written. *)
Theorem deleted_peer_blocks_updates name s s' :
  ps_updater s = UpdLock name → name ∉ ps_names s → rtc (pm_step_without name) s s' →
  ps_updater s' = UpdLock name.
Proof.
  intros Hu Hn Hr. revert Hu Hn. induction Hr as [s|s s1 s' [Hst Hno] _ IH]; intros Hu Hn; [done|].
  apply IH; [|by apply Hno]. by eapply pm_step_absent.
Qed.

Lemma pm_step_waiting name s s' :
  pm_step s s' → ps_updater s = UpdLock name → locked s = true →
  ps_updater s' = UpdLock name ∧ locked s' = true.
Proof.
  intros [] Hu Hl; simpl in *; unfold locked in *; simpl in *; try congruence; try by split.
  all: by rewrite H in Hl.
Qed.
Lemma pm_steps_waiting name s s' :
  rtc pm_step s s' → ps_updater s = UpdLock name → locked s = true → locked s' = true.
Proof.
  induction 1 as [s|s s1 s' Hst _ IH]; intros Hu Hl; [done|].
  destruct (pm_step_waiting _ _ _ Hst Hu Hl). auto.
Qed.

Definition ps_queued : pm_state := mkPmState NotStopping (UpdLock "east") [("east", MonRunning)] {[ "east" ]}.
Lemma ps_queued_reachable : rtc pm_step pm_init ps_queued.
Proof.
  eapply rtc_l; [apply (ps_add "east"); reflexivity|].
  eapply rtc_l; [apply (ps_status 0 "east"); reflexivity|].
  eapply rtc_l; [apply (ps_queue 0 "east"); reflexivity|].
  unfold set_updater, set_monitor. simpl. rewrite (right_id_L ∅ (∪)). apply rtc_refl.
Qed.

(** [Stop] can wait forever: it holds the lock that the updater takes for a status
    update it has already received, and then never returns. *)
Theorem stop_can_deadlock :
  ∃ s, rtc pm_step pm_init s ∧ ps_stop s = WaitMonitors ∧
       ∀ s', rtc pm_step s s' → ps_stop s' ≠ StopReturned.
Proof.
  exists (set_stop WaitMonitors ps_queued). split; [|split; [done|]].
  - eapply (transitivity (R := rtc pm_step)); [apply ps_queued_reachable|].
    eapply rtc_l; [by apply ps_stop_begins|apply rtc_refl].
  - intros s' Hr Hs. apply (pm_steps_waiting "east") in Hr; [|done..]. unfold locked in Hr. by rewrite Hs in Hr.
Qed.

Definition ps_deleted : pm_state := mkPmState NotStopping (UpdLock "east") [("east", MonRunning)] ∅.
Lemma deleted_peer_blocks_updates_witness :
  ps_updater (set_monitor 0 ("east", MonSending) ps_deleted) = UpdLock "east".
Proof.
  apply (deleted_peer_blocks_updates "east" ps_deleted).
  - reflexivity.
  - apply not_elem_of_empty.
  - apply rtc_once. split; [apply ps_status; reflexivity|]. intros H. exact H.
Defined.

(** ** A manager with a peer *)
#[local] Existing Instance ref_tls.
Definition pm_peer : Peer := mkPeer (mkMeta "east" "clusterlink" ∅) [mkEndpoint "10.0.0.1" 443] [] ∅.
Definition pm_tls : ParsedCertData := mkParsedCertData (TL:=ref_tls) "cert" "ca" ["cp"].
Definition pm_ops : list pm_op := [OpCerts std_ranger pm_tls; OpAdd pm_peer; OpRound 0 5 true ∅; OpAdd pm_peer].
Definition pm_result : peerManager :=
  match run_pm pm_ops newPeerManager with Done m => m | Panic => newPeerManager end.
Lemma monitors_probe_their_peers_witness :
  ∃ mon, allocated pm_result !! 1 = Some mon ∧ monitors_peer (Some pm_tls) "east" mon.
Proof.
  exact (monitors_probe_their_peers pm_ops pm_result eq_refl "east" 1 eq_refl).
Defined.

(** The clock counts milliseconds here. *)
Definition pm_truncate (t : Z) : Z := (t / 1000 * 1000)%Z.
Definition pm_added : peerManager :=
  match run_pm [OpCerts std_ranger pm_tls; OpAdd pm_peer] newPeerManager with Done m => m | Panic => newPeerManager end.
Definition pm_monitor : peerMonitor := mkMonitor pm_peer (NewClient pm_peer (ClientConfig pm_tls "east")) false.

Lemma status_change_restarts_monitor_witness :
  ∃ m' mon', AddPeer (stored_peer pm_truncate (set_reachable 1500 true ∅ pm_peer)) (monitor_ran 0 (set_reachable 1500 true ∅ pm_peer) pm_added) = Done m' ∧
    monitors m' !! "east" = Some 1 ∧ allocated m' !! 1 = Some mon' ∧
    healthy (heartbeats (replicate 100 true ++ [false]) (monitor_start mon')) = false.
Proof.
  destruct (status_change_restarts_monitor pm_truncate pm_added 0 pm_monitor 1500 true ∅ pm_tls)
    as (m' & mon' & H1 & _ & H3 & H4 & H5); [vm_compute; reflexivity..|intros c [=]|vm_compute; discriminate|].
  exists m', mon'. split; [exact H1|]. split; [exact H3|]. split; [exact H4|]. exact (H5 100).
Defined.

(** A peer that was unreachable at the start answers once; five heartbeats later that it
    missed it is declared unreachable. *)
Lemma monitor_decides_on_window_witness :
  healthy (heartbeats [false; false; false; false; false] (heartbeat_round true (heartbeats [] (health_init false))).1) = false ∧
  (heartbeat_round false (heartbeats [false; false; false; false] (heartbeat_round true (heartbeats [] (health_init false))).1)).2 = true.
Proof.
  split; [reflexivity|].
  rewrite (proj1 (proj2 (monitor_decides_on_window false [] true [false; false; false; false] false eq_refl))).
  reflexivity.
Defined.
