(* ===== verification/Reconciler.v ===== *)
(** * Reconciliation

    [pkg/util/controller/controller.go]: a reconcile request reads the object by its
    name and calls the add handler or the delete handler.  The last part runs the
    handlers of the xDS manager this way: once every name was reconciled, the caches
    hold what stands for the objects of the API server. *)
From S2P Require Export XdsFacts ApiServer.
From stdpp Require Import options.
From Stdlib Require Import ZArith Lia.

#[local] Set Default Proof Using "Type".

(** The result of a handler: an error or none, or a panic. *)
Class HandlerResult (R : Type) := returns : option error → R.
#[export] Instance returns_error : HandlerResult (option error) := id.
#[export] Instance returns_outcome : HandlerResult (outcome (option error)) := Done.

Section reconcile.
Context {W T X R : Type} {KC : KubeClient W T} {HR : HandlerResult R}.

(** [Spec]: the handlers of a controller, over the state [X] of the component. *)
Record Spec := mkSpec {
  AddHandler : T → ST (X * W) R;
  DeleteHandler : NamespacedName → ST (X * W) R
}.

Definition Reconcile (spec : Spec) (req : NamespacedName) : ST (X * W) R :=
  objectPtr ← outside (kGet (T:=T) req);
  match objectPtr with
  | Err err => if IsNotFound err then DeleteHandler spec req else mret (returns (Some err))
  | Ok objectPtr => AddHandler spec objectPtr
  end.
End reconcile.
Arguments Spec : clear implicits.

(** What a request does, where the API server keeps its laws: it fails, or it ran the
    handler that the object in the store calls for. *)
Lemma Reconcile_spec {W T X R} `{KubeClientLaws W T} `{HandlerResult R} (spec : Spec W T X R) req x w :
  let w' := (kGet (T:=T) req w).2 in
  kView (T:=T) w' = kView w ∧
  ((∃ err, Reconcile spec req (x, w) = (returns (Some err), (x, w'))) ∨
   Reconcile spec req (x, w) =
     match kView w !! req with
     | Some obj => AddHandler spec obj (x, w')
     | None => DeleteHandler spec req (x, w')
     end).
Proof.
  cbv zeta. split; [apply kGet_view|]. unfold Reconcile. unfold_st. cbn [fst snd].
  pose proof (kGet_ok req w) as Hok. pose proof (kGet_notfound req w) as Hnf.
  destruct (kGet req w) as [[obj|err] w']; simpl in *.
  - right. by rewrite (Hok obj eq_refl).
  - destruct (IsNotFound err) eqn:He; [|left; by exists err].
    right. by rewrite (Hnf err eq_refl He).
Qed.

(** ** Convergence of a sequence of operations

    [run_op] runs one operation: a request, or what others do in between.  [at_ s req]: the
    component has the object of the request as it is stored. *)
Section converge.
Context {S Op Req R : Type} (run_op : Op → ST S R).
Fixpoint run_list (ops : list Op) : ST S (list R) :=
  match ops with
  | [] => mret []
  | op :: ops' => r ← run_op op; rs ← run_list ops'; mret (r :: rs)
  end.

Context (asks : Op → Req → Prop) (success : R → Prop) (leaves : Req → Op → Prop).
(** The last successful request for an object came after the last change of it. *)
Definition settled (ops : list Op) (rs : list R) (req : Req) : Prop :=
  ∃ i op r, ops !! i = Some op ∧ rs !! i = Some r ∧ asks op req ∧ success r ∧ Forall (leaves req) (drop (Datatypes.S i) ops).

Context (safe : R → Prop) (op_ok : Op → Prop) (req_ok : Req → Prop).

(** With a ghost state [G], which each operation changes as it likes. *)
Section ghost.
Context {G : Type} (ginv : G → S → Prop) (gat : G → S → Req → Prop).
Definition op_converges_ghost (op : Op) : Prop := ∀ g s,
  ginv g s → op_ok op →
  let r := run_op op s in
  safe r.1 ∧ ∃ g', ginv g' r.2 ∧ (∀ req, asks op req → success r.1 → gat g' r.2 req) ∧
    ∀ req, req_ok req → leaves req op → gat g s req → gat g' r.2 req.

Lemma run_list_converges_ghost ops g s :
  (∀ op, op_converges_ghost op) → ginv g s → Forall op_ok ops →
  let r := run_list ops s in
  Forall safe r.1 ∧ ∃ g', ginv g' r.2 ∧ (∀ req, req_ok req → settled ops r.1 req → gat g' r.2 req) ∧
    ∀ req, req_ok req → Forall (leaves req) ops → gat g s req → gat g' r.2 req.
Proof.
  intros Hop. revert g s. induction ops as [|op ops IH]; intros g s Hwf Hoks; cbv zeta.
  { split; [by constructor|]. exists g. split_and!; [done| |done].
    intros req _ (i & op & r & Hi & _). by rewrite lookup_nil in Hi. }
  apply Forall_cons_1 in Hoks as [Hok Hoks]. cbn [run_list]. unfold_st.
  destruct (Hop op g s Hwf Hok) as (H1 & g1 & H2 & H3 & H4).
  destruct (run_op op s) as [e s1]. cbn [fst snd] in *.
  destruct (IH g1 s1 H2 Hoks) as (I1 & g' & I2 & I3 & I4).
  destruct (run_list ops s1) as [es s2]. cbn [fst snd] in *. split; [by constructor|]. exists g'. split_and!; [done| |].
  - intros req Hreq ([|i] & op' & r & Hi & He & Ha & Hs & Hq); simpl in *; [|apply I3; [done|by exists i, op', r]].
    injection Hi as ->. injection He as ->. rewrite drop_0 in Hq. auto.
  - intros req Hreq [??]%Forall_cons_1 ?. auto.
Qed.
End ghost.

Context (inv : S → Prop) (at_ : S → Req → Prop).
Definition op_converges (op : Op) : Prop := ∀ s,
  inv s → op_ok op →
  let r := run_op op s in
  safe r.1 ∧ inv r.2 ∧ (∀ req, asks op req → success r.1 → at_ r.2 req) ∧
  ∀ req, req_ok req → leaves req op → at_ s req → at_ r.2 req.

Lemma run_list_converges ops s :
  (∀ op, op_converges op) → inv s → Forall op_ok ops →
  let r := run_list ops s in
  Forall safe r.1 ∧ inv r.2 ∧ (∀ req, req_ok req → settled ops r.1 req → at_ r.2 req) ∧
  ∀ req, req_ok req → Forall (leaves req) ops → at_ s req → at_ r.2 req.
Proof.
  intros Hop Hinv Hoks. cbv zeta.
  destruct (run_list_converges_ghost (λ _ : unit, inv) (λ _ : unit, at_) ops tt s) as (H1 & _ & H); [|done..|by split].
  intros op _ s0 Hs Ho. destruct (Hop op s0 Hs Ho) as (H1 & H2 & H3 & H4). split; [done|]. by exists tt.
Qed.
End converge.

(** ** The controllers of the xDS manager *)
#[export] Instance Peer_object : KubeObject Peer :=
  {| kKey p := om_key (peer_Meta p); kLabels p := om_Labels (peer_Meta p) |}.
#[export] Instance Export_object : KubeObject Export :=
  {| kKey := exp_key; kLabels := exp_Labels |}.

Section xds.
Context {SC : StatusConditions} {AP : AnyPB}.
Context {LC : LinearCache Cluster} {LL : LinearCache Listener} {LS : LinearCache TLSSecret}.
Context {W : Type} {KI : KubeClient W Import} {KP : KubeClient W Peer} {KE : KubeClient W Export}.

Definition export_spec : Spec W Export Manager (option error) :=
  mkSpec (λ e, inside (AddExport e)) (λ n, inside (DeleteExport n)).
Definition peer_spec : Spec W Peer Manager (option error) :=
  mkSpec (λ p, inside (AddPeer p)) (λ n, inside (DeletePeer (Name n))).
Definition import_spec : Spec W Import Manager (option error) :=
  mkSpec (λ i, inside (AddImport i)) (λ n, inside (DeleteImport n)).

Inductive request := ReqExport (n : NamespacedName) | ReqPeer (n : NamespacedName) | ReqImport (n : NamespacedName).
#[export] Instance request_eq_dec : EqDecision request.
Proof. solve_decision. Defined.

Definition reconcile (req : request) : ST (Manager * W) (option error) :=
  match req with
  | ReqExport n => Reconcile export_spec n
  | ReqPeer n => Reconcile peer_spec n
  | ReqImport n => Reconcile import_spec n
  end.
Definition reconcile_all : list request → ST (Manager * W) (list (option error)) := run_list reconcile.

(** ** The tables that stand for the API server *)
Context {KLI : KubeClientLaws W Import} {KLP : KubeClientLaws W Peer} {KLE : KubeClientLaws W Export}.
Context {FIP : KubeFrame W Import Peer} {FIE : KubeFrame W Import Export}.
Context {FPI : KubeFrame W Peer Import} {FPE : KubeFrame W Peer Export}.
Context {FEI : KubeFrame W Export Import} {FEP : KubeFrame W Export Peer}.
Context {LCL : LinearCacheLaws Cluster} {LLL : LinearCacheLaws Listener}.
(** The namespace of the peers. *)
Context (ns : string).
#[local] Set Default Proof Using "All".

Definition at_store (w : W) (t : tables) (req : request) : Prop :=
  match req with
  | ReqExport n => t_exports t !! n = kView w !! n
  | ReqPeer n => t_peers t !! Name n = kView w !! n
  | ReqImport n => t_imports t !! n = kView w !! n
  end.
(** What is in the tables is in the store. *)
Definition consistent (w : W) (t : tables) : Prop :=
  (∀ n, t_exports t !! n = None ∨ t_exports t !! n = kView w !! n) ∧
  (∀ p, t_peers t !! p = None ∨ t_peers t !! p = kView w !! mkNN ns p) ∧
  (∀ n, t_imports t !! n = None ∨ t_imports t !! n = kView w !! n).

Definition request_ok (req : request) : Prop :=
  match req with
  | ReqExport n | ReqImport n => no_slash (Namespace n)
  | ReqPeer n => Namespace n = ns
  end.

Definition event_of (w : W) (req : request) : event :=
  match req with
  | ReqExport n => match kView w !! n with Some e => ExportAdded e | None => ExportDeleted n end
  | ReqPeer n => match kView w !! n with Some p => PeerAdded p | None => PeerDeleted n end
  | ReqImport n => match kView w !! n with Some i => ImportAdded i | None => ImportDeleted n end
  end.

Definition same_stores (w w' : W) : Prop :=
  kView (T:=Export) w' = kView w ∧ kView (T:=Peer) w' = kView w ∧ kView (T:=Import) w' = kView w.

Lemma peer_store_name (w : W) n (p : Peer) : kView w !! n = Some p → peer_Name p = Name n.
Proof. intros Hp%kView_key. by rewrite <- Hp. Qed.

Lemma event_of_ok w req : request_ok req → event_ok (event_of w req).
Proof.
  destruct req as [n|n|n]; simpl; intros Hok.
  - destruct (kView w !! n) as [e|] eqn:He; simpl; [|done]. apply kView_key in He. by rewrite <- He in Hok.
  - by destruct (kView w !! n).
  - destruct (kView w !! n) as [i|] eqn:Hi; simpl; [|done]. apply kView_key in Hi. by rewrite <- Hi in Hok.
Qed.

(** The event of a request brings the tables to the store at its name, and changes
    nothing elsewhere. *)
Lemma event_of_step w t req :
  request_ok req → consistent w t →
  let t' := table_step (event_of w req) t in
  consistent w t' ∧ at_store w t' req ∧ (∀ req', request_ok req' → at_store w t req' → at_store w t' req').
Proof.
  intros Hok (C1 & C2 & C3). cbv zeta.
  destruct req as [n|n|n]; simpl in Hok |- *.
  - assert (table_step (match kView w !! n with Some e => ExportAdded e | None => ExportDeleted n end) t =
      mkTables (t_peers t) (partial_alter (λ _, kView w !! n) n (t_exports t)) (t_imports t)) as ->.
    { destruct (kView w !! n) as [e|] eqn:He; [|done]. apply kView_key in He. simpl. by rewrite <- He. }
    simpl. rewrite lookup_partial_alter_eq. split_and!; [split_and!; try done| done|].
    + intros k. simpl. destruct (decide (n = k)) as [<-|Hne];
        [right; by rewrite lookup_partial_alter_eq|rewrite lookup_partial_alter_ne by done; apply C1].
    + intros [k|k|k] _; simpl; [|done..]. destruct (decide (n = k)) as [<-|Hne];
        [by rewrite lookup_partial_alter_eq|by rewrite lookup_partial_alter_ne].
  - assert (table_step (match kView w !! n with Some p => PeerAdded p | None => PeerDeleted n end) t =
      mkTables (partial_alter (λ _, kView w !! n) (Name n) (t_peers t)) (t_exports t) (t_imports t)) as ->.
    { destruct (kView w !! n) as [p|] eqn:Hp; [|done]. simpl. by rewrite (peer_store_name w n p Hp). }
    assert (n = mkNN ns (Name n)) as Hn by (destruct n; simpl in *; by subst).
    simpl. rewrite lookup_partial_alter_eq. split_and!; [split_and!; try done| done|].
    + intros k. simpl. destruct (decide (Name n = k)) as [<-|Hne];
        [right; by rewrite lookup_partial_alter_eq, <- Hn|rewrite lookup_partial_alter_ne by done; apply C2].
    + intros [k|k|k] Hk; simpl; [done| |done]. destruct (decide (Name n = Name k)) as [Heq|Hne];
        [|by rewrite lookup_partial_alter_ne].
      assert (n = k) as -> by (destruct n, k; simpl in *; congruence). by rewrite lookup_partial_alter_eq.
  - assert (table_step (match kView w !! n with Some i => ImportAdded i | None => ImportDeleted n end) t =
      mkTables (t_peers t) (t_exports t) (partial_alter (λ _, kView w !! n) n (t_imports t))) as ->.
    { destruct (kView w !! n) as [i|] eqn:Hi; [|done]. apply kView_key in Hi. simpl. by rewrite <- Hi. }
    simpl. rewrite lookup_partial_alter_eq. split_and!; [split_and!; try done| done|].
    + intros k. simpl. destruct (decide (n = k)) as [<-|Hne];
        [right; by rewrite lookup_partial_alter_eq|rewrite lookup_partial_alter_ne by done; apply C3].
    + intros [k|k|k] _; simpl; [done|done|]. destruct (decide (n = k)) as [<-|Hne];
        [by rewrite lookup_partial_alter_eq|by rewrite lookup_partial_alter_ne].
Qed.

Lemma same_stores_trans w1 w2 w3 : same_stores w1 w2 → same_stores w2 w3 → same_stores w1 w3.
Proof. intros (H1 & H2 & H3) (G1 & G2 & G3). split_and!; congruence. Qed.
Lemma same_stores_event w w' req : same_stores w w' → event_of w' req = event_of w req.
Proof. intros (H1 & H2 & H3). destruct req; simpl; by rewrite ?H1, ?H2, ?H3. Qed.

(** A request fails without an effect, or is the event the store calls for. *)
Lemma reconcile_event req m w :
  ∃ w', same_stores w w' ∧
    ((∃ err, reconcile req (m, w) = (Some err, (m, w'))) ∨
     reconcile req (m, w) = let (e, m') := handle (event_of w req) m in (e, (m', w'))).
Proof.
  destruct req as [n|n|n]; simpl.
  - destruct (Reconcile_spec export_spec n m w) as [Hv Hr]. eexists. split; [split_and!; [done| |]; apply frame_get|].
    destruct Hr as [Hr|Hr]; [by left|right]. rewrite Hr. by destruct (kView w !! n).
  - destruct (Reconcile_spec peer_spec n m w) as [Hv Hr]. eexists. split; [split_and!; [|done|]; apply frame_get|].
    destruct Hr as [Hr|Hr]; [by left|right]. rewrite Hr. by destruct (kView w !! n).
  - destruct (Reconcile_spec import_spec n m w) as [Hv Hr]. eexists. split; [split_and!; [| |done]; apply frame_get|].
    destruct Hr as [Hr|Hr]; [by left|right]. rewrite Hr. by destruct (kView w !! n).
Qed.

Lemma reconcile_keeps w0 req m w t :
  request_ok req → same_stores w0 w → represents m t → tables_keyed t → consistent w0 t →
  let r := reconcile req (m, w) in
  same_stores w0 r.2.2 ∧
  ∃ t', represents r.2.1 t' ∧ tables_keyed t' ∧ consistent w0 t' ∧ (r.1 = None → at_store w0 t' req) ∧
        ∀ req', request_ok req' → at_store w0 t req' → at_store w0 t' req'.
Proof.
  intros Hok Hs Hr Hk Hc. cbv zeta.
  destruct (reconcile_event req m w) as (w' & Hs' & [[err ->]|Heq]).
  { split; [by eapply same_stores_trans|]. exists t. by split_and!. }
  rewrite (same_stores_event w0 w req Hs) in Heq.
  pose proof (handle_simulates (event_of w0 req) m t (event_of_ok w0 req Hok) Hr) as Hsim.
  destruct (event_of_step w0 t req Hok Hc) as (Hc' & Hat & Hkeep).
  rewrite Heq. destruct (handle _ m) as [e m']. cbn [fst snd] in *.
  split; [by eapply same_stores_trans|]. destruct Hsim as [Hrep|[Hrep Hne]].
  - exists (table_step (event_of w0 req) t). split_and!; auto using table_step_keyed.
  - exists t. by split_and!.
Qed.

Lemma reconcile_all_keeps w0 reqs m w t :
  Forall request_ok reqs → same_stores w0 w → represents m t → tables_keyed t → consistent w0 t →
  let r := reconcile_all reqs (m, w) in
  ∃ t', represents r.2.1 t' ∧ tables_keyed t' ∧ consistent w0 t' ∧
    (∀ i req, reqs !! i = Some req → r.1 !! i = Some None → at_store w0 t' req) ∧
    ∀ req', request_ok req' → at_store w0 t req' → at_store w0 t' req'.
Proof.
  intros Hoks. revert m w t. induction Hoks as [|req reqs Hok Hoks IH]; intros m w t Hs Hr Hk Hc; cbv zeta.
  { exists t. by split_and!. }
  unfold reconcile_all in *. cbn [run_list]. unfold_st. destruct (reconcile_keeps w0 req m w t Hok Hs Hr Hk Hc) as (Hs1 & t1 & Hr1 & Hk1 & Hc1 & Hat & Hkeep).
  destruct (reconcile req (m, w)) as [err [m1 w1]]. cbn [fst snd] in *.
  destruct (IH m1 w1 t1 Hs1 Hr1 Hk1 Hc1) as (t' & Hr' & Hk' & Hc' & Hat' & Hkeep').
  destruct (run_list reconcile reqs (m1, w1)) as [errs st]. cbn [fst snd] in *. exists t'. split_and!; try done.
  - intros [|i] req' Hi He; simpl in *; [injection Hi as <-; injection He as ->; auto|by eapply Hat'].
  - auto.
Qed.

(** The controllers converge: after any requests in any order, whichever fail, what
    the caches hold stands for objects of the API server; and each name whose request
    succeeded once is in the tables the caches stand for exactly as the API server has it;
    for an import with a valid target port this means its listener. *)
Theorem controllers_converge reqs w :
  Forall request_ok reqs →
  let r := reconcile_all reqs (NewManager, w) in
  ∃ t, represents r.2.1 t ∧ tables_keyed t ∧ consistent w t ∧
    ∀ i req, reqs !! i = Some req → r.1 !! i = Some None → at_store w t req.
Proof.
  intros Hok. destruct (reconcile_all_keeps w reqs NewManager w (mkTables ∅ ∅ ∅)) as (t & ? & ? & ? & ? & _); [done..| | | |].
  - by split; simpl; intros *; rewrite !new_resources, ?lookup_empty; try done; constructor.
  - split_and!; apply map_Forall_empty.
  - split_and!; intros; left; apply lookup_empty.
  - exists t. by split_and!.
Qed.
End xds.

(** ** Witness *)
Record api := mkApi {
  api_imports : gmap NamespacedName Import;
  api_peers : gmap NamespacedName Peer;
  api_exports : gmap NamespacedName Export
}.
#[local] Instance api_si : Store api Import :=
  {| st_get w := keyed (api_imports w); st_set m w := mkApi m (api_peers w) (api_exports w) |}.
#[local] Instance api_sp : Store api Peer :=
  {| st_get w := keyed (api_peers w); st_set m w := mkApi (api_imports w) m (api_exports w) |}.
#[local] Instance api_se : Store api Export :=
  {| st_get w := keyed (api_exports w); st_set m w := mkApi (api_imports w) (api_peers w) m |}.
#[local] Instance api_si_laws : StoreLaws api Import.
Proof. split; simpl; [intros; by apply keyed_id|intros; apply keyed_well_keyed]. Qed.
#[local] Instance api_sp_laws : StoreLaws api Peer.
Proof. split; simpl; [intros; by apply keyed_id|intros; apply keyed_well_keyed]. Qed.
#[local] Instance api_se_laws : StoreLaws api Export.
Proof. split; simpl; [intros; by apply keyed_id|intros; apply keyed_well_keyed]. Qed.
#[local] Instance api_ki : KubeClient api Import := mem_client.
#[local] Instance api_kp : KubeClient api Peer := mem_client.
#[local] Instance api_ke : KubeClient api Export := mem_client.
#[local] Instance api_ki_laws : KubeClientLaws api Import := mem_laws.
#[local] Instance api_kp_laws : KubeClientLaws api Peer := mem_laws.
#[local] Instance api_ke_laws : KubeClientLaws api Export := mem_laws.
#[local] Ltac api_frame := apply mem_frame; by split.
#[local] Instance api_f1 : KubeFrame api Import Peer. Proof. api_frame. Qed.
#[local] Instance api_f2 : KubeFrame api Import Export. Proof. api_frame. Qed.
#[local] Instance api_f3 : KubeFrame api Peer Import. Proof. api_frame. Qed.
#[local] Instance api_f4 : KubeFrame api Peer Export. Proof. api_frame. Qed.
#[local] Instance api_f5 : KubeFrame api Export Import. Proof. api_frame. Qed.
#[local] Instance api_f6 : KubeFrame api Export Peer. Proof. api_frame. Qed.
#[local] Existing Instance ref_anypb.
#[local] Existing Instance x_clusters.
#[local] Existing Instance x_listeners.
#[local] Existing Instance x_secrets.

Definition x_api : api :=
  mkApi {[ imp_key x_import := x_import ]} {[ om_key (peer_Meta x_peer) := x_peer ]} {[ exp_key x_export := x_export ]}.
Definition x_requests : list request :=
  [ReqImport (imp_key x_import); ReqExport (mkNN "default" "gone"); ReqPeer (om_key (peer_Meta x_peer)); ReqExport (exp_key x_export)].

Lemma controllers_converge_witness :
  ∃ t, represents (reconcile_all x_requests (NewManager, x_api)).2.1 t ∧
    t_peers t !! "east" = kView x_api !! mkNN "clusterlink" "east".
Proof.
  destruct (controllers_converge "clusterlink" x_requests x_api) as (t & Hr & _ & _ & Hat).
  - repeat constructor.
  - exists t. split; [exact Hr|].
    exact (Hat 2 (ReqPeer (mkNN "clusterlink" "east")) eq_refl eq_refl).
Defined.
