(* ===== verification/Controllers.v ===== *)
(** * The controllers of the authorization manager

    [authz/controllers.go]: which handler runs for which kind of object.  The theorems say
    that the manager ends up with the policies, the peers, the pods and the key of the API
    server, and decides accordingly. *)
From S2P Require Export AuthzServer Reconciler.
From stdpp Require Import options.
From Stdlib Require Import ZArith Lia.

#[local] Set Default Proof Using "Type".

#[export] Instance AccessPolicyCR_object : KubeObject AccessPolicyCR :=
  {| kKey p := om_key (pcr_Meta p); kLabels p := om_Labels (pcr_Meta p) |}.
(** The same resource, not namespaced. *)
Record PrivilegedAccessPolicy := mkPrivileged { pap_CR : AccessPolicyCR }.
#[export] Instance PrivilegedAccessPolicy_object : KubeObject PrivilegedAccessPolicy :=
  {| kKey p := mkNN "" (om_Name (pcr_Meta (pap_CR p))); kLabels p := om_Labels (pcr_Meta (pap_CR p)) |}.
#[export] Instance Pod_object : KubeObject Pod :=
  {| kKey p := om_key (pod_Meta p); kLabels p := om_Labels (pod_Meta p) |}.

(** ** authz/controllers.go *)
Section authz.
Context {LS : LabelSelectors} {NS : NamespacedNameString} {SC : StatusConditions}.
Context {TL : TLSLib} {EN : Encodings} {JW : JWTLib}.
Context {W : Type} {KPol : KubeClient W AccessPolicyCR} {KPriv : KubeClient W PrivilegedAccessPolicy}.
Context {KP : KubeClient W Peer} {KI : KubeClient W Import} {KE : KubeClient W Export}.
Context {KS : KubeClient W Secret} {KPod : KubeClient W Pod}.

Definition access_policy_spec : Spec W AccessPolicyCR Authz.Manager (option error) :=
  mkSpec (λ p, inside (AddAccessPolicy (PolicyFromCR p))) (λ n, inside (DeleteAccessPolicy n false)).
Definition privileged_access_policy_spec : Spec W PrivilegedAccessPolicy Authz.Manager (option error) :=
  mkSpec (λ p, inside (AddAccessPolicy (PolicyFromPrivilegedCR (pap_CR p)))) (λ n, inside (DeleteAccessPolicy n true)).
Definition authz_peer_spec : Spec W Peer Authz.Manager (outcome (option error)) :=
  mkSpec
    (λ p, inside (λ m, match Authz.AddPeer p m with Done m' => (Done None, m') | Panic => (Panic, m) end))
    (λ n, inside (λ m, (Done None, Authz.DeletePeer (Name n) m))).
Definition nothing_spec {T} : Spec W T Authz.Manager (option error) := mkSpec (λ _, mret None) (λ _, mret None).
Definition authz_secret_spec : Spec W Secret Authz.Manager (option error) :=
  mkSpec (λ s, inside (Authz.addSecret s)) (λ _, mret None).
Definition authz_pod_spec : Spec W Pod Authz.Manager (option error) :=
  mkSpec (λ p, inside (λ m, (None, addPod p m))) (λ n, inside (λ m, (None, deletePod n m))).

(** What a controller is asked for. *)
Inductive authz_request :=
  | AuthzPolicy (n : NamespacedName) | AuthzPrivileged (n : NamespacedName) | AuthzPeer (n : NamespacedName)
  | AuthzImport (n : NamespacedName) | AuthzExport (n : NamespacedName)
  | AuthzSecret (n : NamespacedName) | AuthzPod (n : NamespacedName).

Definition authz_reconcile (req : authz_request) : ST (Authz.Manager * W) (outcome (option error)) :=
  match req with
  | AuthzPolicy n => err ← Reconcile access_policy_spec n; mret (Done err)
  | AuthzPrivileged n => err ← Reconcile privileged_access_policy_spec n; mret (Done err)
  | AuthzPeer n => Reconcile authz_peer_spec n
  | AuthzImport n => err ← Reconcile (nothing_spec (T:=Import)) n; mret (Done err)
  | AuthzExport n => err ← Reconcile (nothing_spec (T:=Export)) n; mret (Done err)
  | AuthzSecret n => err ← Reconcile authz_secret_spec n; mret (Done err)
  | AuthzPod n => err ← Reconcile authz_pod_spec n; mret (Done err)
  end.

(** Requests; in between, new certificates from the watcher and what others do to the
    objects of the API server. *)
Inductive authz_op := AuthzReq (req : authz_request) | AuthzCerts (tls : ParsedCertData) | AuthzWorld (f : W → W).
Definition run_authz_op (op : authz_op) : ST (Authz.Manager * W) (outcome (option error)) :=
  match op with
  | AuthzReq req => authz_reconcile req
  | AuthzCerts tls => err ← inside (Authz.SetPeerCertificates tls); mret (Done err)
  | AuthzWorld f => modify (λ s, (s.1, f s.2));; mret (Done None)
  end.
Definition run_authz : list authz_op → ST (Authz.Manager * W) (list (outcome (option error))) := run_list run_authz_op.

(** *** Well-formed managers *)
Record authz_wf (m : Authz.Manager) : Prop := {
  aw_pdp : pdp_wf (connectivityPDP m);
  aw_tls : is_Some (peerTLS m);
  aw_clients : ∀ name cl tls, Authz.peerClient m !! name = Some cl → peerTLS m = Some tls →
    cl = NewClient (cl_pr cl) (ClientConfig tls name) ∧ peer_Name (cl_pr cl) = name;
  aw_pods : ∀ ip p, ipToPod m !! ip = Some p → is_Some (podList m !! p)
}.

(** *** What the API server holds *)
Context {LPol : KubeClientLaws W AccessPolicyCR} {LPriv : KubeClientLaws W PrivilegedAccessPolicy}.
Context {LP : KubeClientLaws W Peer} {LSec : KubeClientLaws W Secret} {LPod : KubeClientLaws W Pod}.

Definition policy_stored (w : W) (priv : bool) (n : NamespacedName) : option AccessPolicySpec :=
  if priv then (λ p, pcr_Spec (pap_CR p)) <$> kView w !! n else pcr_Spec <$> kView w !! n.
(** A policy that does not validate counts as none. *)
Definition valid_only (spec : option AccessPolicySpec) : option AccessPolicySpec :=
  p ← spec; match Validate p with None => Some p | Some _ => None end.
Definition policy_in (w : W) (priv : bool) (n : NamespacedName) : option AccessPolicySpec :=
  valid_only (policy_stored w priv n).
Definition pod_info (pod : Pod) : podInfo :=
  mkPodInfo (om_Name (pod_Meta pod)) (om_Namespace (pod_Meta pod)) (pod_ServiceAccountName pod) (om_Labels (pod_Meta pod)).
Definition signing_key (s : Secret) : option JwkKey :=
  match ParseJWKSSecret s with
  | Ok key => match jwk_New key with Ok k => Some k | Err _ => None end
  | Err _ => None
  end.

(** The manager has the object of the request as the API server has it. *)
Definition at_authz (w : W) (m : Authz.Manager) (req : authz_request) : Prop :=
  match req with
  | AuthzPolicy n => store_tier (pdp_abs (connectivityPDP m)) false !! n = policy_in w false n
  | AuthzPrivileged n => store_tier (pdp_abs (connectivityPDP m)) true !! n = policy_in w true n
  | AuthzPeer n => ∀ tls, peerTLS m = Some tls →
      Authz.peerClient m !! Name n = (λ p, NewClient p (ClientConfig tls (Name n))) <$> kView w !! n
  | AuthzImport _ | AuthzExport _ => True
  | AuthzSecret n => n = mkNN (Authz.namespace m) JWKSecretName →
      ∀ s, kView w !! n = Some s → is_Some (jwkKey m) ∧ jwkKey m = signing_key s
  | AuthzPod n => podList m !! n = pod_info <$> kView w !! n
  end.

(** The object of a request is the same in two worlds, where the manager uses it. *)
Definition same_at (w w' : W) (req : authz_request) : Prop :=
  match req with
  | AuthzPolicy n => policy_in w' false n = policy_in w false n
  | AuthzPrivileged n => policy_in w' true n = policy_in w true n
  | AuthzPeer n => kView (T:=Peer) w' !! n = kView w !! n
  | AuthzImport _ | AuthzExport _ => True
  | AuthzSecret n => kView (T:=Secret) w' !! n = kView w !! n
  | AuthzPod n => kView (T:=Pod) w' !! n = kView w !! n
  end.
(** Nobody changes the object of [req]. *)
Definition leaves (req : authz_request) (op : authz_op) : Prop :=
  match op with AuthzWorld f => ∀ w, same_at w (f w) req | _ => True end.

(** Reading an object changes none. *)
Class ReadsOnly (T : Type) {KC : KubeClient W T} :=
  reads_only n w req : same_at w (kGet (T:=T) n w).2 req.
Context {R1 : ReadsOnly AccessPolicyCR} {R2 : ReadsOnly PrivilegedAccessPolicy} {R3 : ReadsOnly Peer}.
Context {R4 : ReadsOnly Import} {R5 : ReadsOnly Export} {R6 : ReadsOnly Secret} {R7 : ReadsOnly Pod}.

(** All peers are in one namespace. *)
Context (ns : string).
Definition authz_request_ok (req : authz_request) : Prop :=
  match req with AuthzPeer n => Namespace n = ns | _ => True end.
Definition authz_op_ok (op : authz_op) : Prop :=
  match op with AuthzReq req => authz_request_ok req | _ => True end.
#[local] Set Default Proof Using "All".

Lemma same_at_sym w w' req : same_at w w' req → same_at w' w req.
Proof. by destruct req. Qed.

Lemma at_authz_same w w' m req : same_at w w' req → at_authz w m req → at_authz w' m req.
Proof. destruct req; simpl; intros Hs; by rewrite ?Hs. Qed.

(** *** One handler *)
Definition policy_event (n : NamespacedName) (priv : bool) (spec : option AccessPolicySpec) : ST Authz.Manager (option error) :=
  match spec with
  | Some spec => AddAccessPolicy (mkAccessPolicy n priv spec)
  | None => DeleteAccessPolicy n priv
  end.
Definition authz_event (w : W) (req : authz_request) : ST Authz.Manager (outcome (option error)) :=
  match req with
  | AuthzPolicy n => err ← policy_event n false (policy_stored w false n); mret (Done err)
  | AuthzPrivileged n => err ← policy_event n true (policy_stored w true n); mret (Done err)
  | AuthzPeer n => match kView w !! n with
      | Some p => λ m, match Authz.AddPeer p m with Done m' => (Done None, m') | Panic => (Panic, m) end
      | None => λ m, (Done None, Authz.DeletePeer (Name n) m) end
  | AuthzImport _ | AuthzExport _ => mret (Done None)
  | AuthzSecret n => match kView w !! n with
      | Some s => err ← Authz.addSecret s; mret (Done err) | None => mret (Done None) end
  | AuthzPod n => match kView w !! n with Some p => λ m, (Done None, addPod p m) | None => λ m, (Done None, deletePod n m) end
  end.

(** What a handler is to do: no panic, a well-formed manager, the object of the request
    as stored when it succeeds, and every other object as it was. *)
Definition handled (w : W) (m : Authz.Manager) (req : authz_request) (r : outcome (option error) * Authz.Manager) : Prop :=
  r.1 ≠ Panic ∧ authz_wf r.2 ∧ (r.1 = Done None → at_authz w r.2 req) ∧
  ∀ req', authz_request_ok req' → at_authz w m req' → at_authz w r.2 req'.

Lemma handled_same w m req e : authz_wf m → (e = None → at_authz w m req) → handled w m req (Done e, m).
Proof. intros Hwf Hat. split_and!; simpl; try done. intros [=]; auto. Qed.

Lemma store_tier_update st priv priv' f n :
  store_tier (update_tier st priv f) priv' !! n =
    (if decide (priv = priv') then f (store_tier st priv) else store_tier st priv') !! n.
Proof. by destruct priv, priv'. Qed.

(** A policy handler on the store of policies. *)
Lemma policy_event_store n priv spec m :
  let r := policy_event n priv spec m in
  r.2 = set_connectivityPDP (connectivityPDP r.2) m ∧
  (pdp_wf (connectivityPDP m) → pdp_wf (connectivityPDP r.2)) ∧
  (r.1 = None → store_tier (pdp_abs (connectivityPDP r.2)) priv !! n = valid_only spec) ∧
  ∀ priv' n', store_tier (pdp_abs (connectivityPDP r.2)) priv' !! n' = store_tier (pdp_abs (connectivityPDP m)) priv' !! n'
    ∨ (priv' = priv ∧ n' = n ∧ store_tier (pdp_abs (connectivityPDP r.2)) priv !! n = valid_only spec).
Proof.
  cbv zeta.
  set (op := match spec with Some s => OpAdd (mkAccessPolicy n priv s) | None => OpDelete n priv end).
  assert (policy_event n priv spec m =
    let (err, pdp) := run_op op (connectivityPDP m) in (err, set_connectivityPDP pdp m)) as -> by by destruct spec.
  pose proof (run_op_wf op (connectivityPDP m)) as Hwf.
  destruct (run_op_abs op (connectivityPDP m)) as [Habs Herr].
  destruct (run_op op (connectivityPDP m)) as [err pdp]. cbn [fst snd connectivityPDP set_connectivityPDP] in *.
  assert ((err = None → store_tier (pdp_abs pdp) priv !! n = valid_only spec) ∧
    ∀ priv' n', store_tier (pdp_abs pdp) priv' !! n' = store_tier (pdp_abs (connectivityPDP m)) priv' !! n'
      ∨ (priv' = priv ∧ n' = n ∧ store_tier (pdp_abs pdp) priv !! n = valid_only spec)) as [? ?]; [|done].
  rewrite Habs. clear Habs Hwf. subst op. destruct spec as [spec|]; simpl in *.
  - destruct (Validate spec) eqn:Hv; simpl in *; [destruct err; [split; [done|auto]|done]|].
    rewrite store_tier_update, decide_True, lookup_insert_eq by done. split; [done|].
    intros priv' n'. rewrite store_tier_update. destruct (decide (priv = priv')) as [->|]; [|auto].
    destruct (decide (n = n')) as [<-|]; [auto|left; by rewrite lookup_insert_ne].
  - rewrite store_tier_update, decide_True, lookup_delete_eq by done. split; [done|].
    intros priv' n'. rewrite store_tier_update. destruct (decide (priv = priv')) as [->|]; [|auto].
    destruct (decide (n = n')) as [<-|]; [auto|left; by rewrite lookup_delete_ne].
Qed.

Lemma policy_handled w m n (priv : bool) :
  authz_wf m →
  handled w m (if priv then AuthzPrivileged n else AuthzPolicy n)
    (let (e, m') := policy_event n priv (policy_stored w priv n) m in (Done e, m')).
Proof.
  intros [W1 W2 W3 W4]. destruct (policy_event_store n priv (policy_stored w priv n) m) as (Heq & Hwf & Hat & Hkeep).
  destruct (policy_event _ _ _ m) as [e m']. cbn [fst snd] in *. unfold handled. split_and!; [done| | |].
  - rewrite Heq. split; simpl; auto.
  - intros [= ->]. destruct priv; simpl; auto.
  - intros req' _. destruct req' as [k|k|k|k|k|k|k]; cbn [at_authz snd].
    1: destruct (Hkeep false k) as [->|(<- & -> & ->)]; done.
    1: destruct (Hkeep true k) as [->|(<- & -> & ->)]; done.
    all: by try rewrite Heq.
Qed.

Lemma peer_handled w m n :
  authz_wf m → Namespace n = ns → handled w m (AuthzPeer n) (authz_event w (AuthzPeer n) m).
Proof.
  intros [W1 W2 W3 W4] Hn. pose proof W2 as [tls Htls]. cbn [authz_event].
  assert (∀ k : NamespacedName, Namespace k = ns → Name k = Name n → k = n) as Hinj
    by (intros [] ??; destruct n; simpl in *; by subst).
  destruct (kView w !! n) as [p|] eqn:Hp.
  - assert (peer_Name p = Name n) as Hname by (apply kView_key in Hp; by rewrite <- Hp).
    unfold Authz.AddPeer. rewrite Htls. unfold handled. cbn [fst snd]. rewrite Hname. split_and!; [done| | |].
    + split; simpl; [done..| |done]. intros name cl tls'. rewrite lookup_insert_Some, Htls.
      intros [[<- <-]|[_ ?]] [= <-]; [done|auto].
    + intros _ tls'. cbn [Authz.peerClient peerTLS set_peerClient]. rewrite Htls, lookup_insert_eq, Hp. by intros [= <-].
    + intros req' Hok. destruct req' as [k|k|k|k|k|k|k]; simpl; try done.
      intros Hk tls' Htls'. destruct (decide (Name n = Name k)) as [Heq|]; [|rewrite lookup_insert_ne by done; auto].
      rewrite (Hinj k) by done. rewrite lookup_insert_eq, Hp. simpl. congruence.
  - unfold handled. cbn [fst snd]. split_and!; [done| | |].
    + split; simpl; [done..| |done]. intros name cl tls'. rewrite lookup_delete_Some. intros [_ ?]. auto.
    + intros _ tls' _. cbn [Authz.peerClient Authz.DeletePeer set_peerClient]. by rewrite lookup_delete_eq, Hp.
    + intros req' Hok. destruct req' as [k|k|k|k|k|k|k]; simpl; try done.
      intros Hk tls' Htls'. destruct (decide (Name n = Name k)) as [Heq|]; [|rewrite lookup_delete_ne by done; auto].
      rewrite (Hinj k) by done. by rewrite lookup_delete_eq, Hp.
Qed.

(** The addresses of a pod all lead to it. *)
Lemma add_pod_ips_some n host l : ∀ ips ip q,
  add_pod_ips n host l ips !! ip = Some q → ips !! ip = Some q ∨ q = n.
Proof.
  induction l as [|a l IH]; intros ips ip q; simpl; [auto|].
  intros [Hq|]%IH; [|auto]. case_decide; [|auto]. apply lookup_insert_Some in Hq. tauto || naive_solver.
Qed.

Lemma pod_handled w m n : authz_wf m → handled w m (AuthzPod n) (authz_event w (AuthzPod n) m).
Proof.
  intros [W1 W2 W3 W4]. cbn [authz_event]. destruct (kView w !! n) as [p|] eqn:Hp.
  - pose proof Hp as Hkey%kView_key. simpl in Hkey. unfold handled. cbn [fst snd]. split_and!; [done| | |].
    + split; simpl; [done..|]. intros ip q. intros Hq%add_pod_ips_some. rewrite Hkey.
      destruct (decide (n = q)) as [<-|Hne]; [by rewrite lookup_insert_eq|rewrite lookup_insert_ne by done].
      destruct Hq as [Hq|Hq]; [by eapply W4|by rewrite Hq in Hne].
    + intros _. simpl. by rewrite Hkey, lookup_insert_eq, Hp.
    + intros req' _. destruct req' as [k|k|k|k|k|k|k]; simpl; try done. rewrite Hkey.
      intros Hk. destruct (decide (n = k)) as [<-|]; [by rewrite lookup_insert_eq, Hp|by rewrite lookup_insert_ne].
  - unfold handled. cbn [fst snd]. split_and!; [done| | |].
    + split; simpl; [done..|]. intros ip q. rewrite map_lookup_filter_Some. simpl. intros [Hq Hne].
      rewrite lookup_delete_ne; [by eapply W4|]. intros ->. by apply Hne.
    + intros _. simpl. by rewrite lookup_delete_eq, Hp.
    + intros req' _. destruct req' as [k|k|k|k|k|k|k]; simpl; try done.
      intros Hk. destruct (decide (n = k)) as [<-|]; [by rewrite lookup_delete_eq, Hp|by rewrite lookup_delete_ne].
Qed.

Lemma secret_handled w m n : authz_wf m → handled w m (AuthzSecret n) (authz_event w (AuthzSecret n) m).
Proof.
  intros Hwf. cbn [authz_event]. destruct (kView w !! n) as [s|] eqn:Hs.
  2:{ apply handled_same; [done|]. intros _ _ s'. by rewrite Hs. }
  pose proof Hs as Hkey%kView_key. unfold_st. unfold Authz.addSecret.
  destruct (decide _) as [Hne|Heq].
  { apply handled_same; [done|]. intros _ Hn. exfalso. rewrite Hn in Hkey. injection Hkey as Hk1 Hk2. tauto. }
  destruct (ParseJWKSSecret s) as [key|] eqn:Hparse; [|by apply handled_same].
  destruct (jwk_New key) as [k|] eqn:Hk; [|by apply handled_same].
  assert (signing_key s = Some k) as Hsign by (unfold signing_key; by rewrite Hparse, Hk).
  destruct Hwf as [W1 W2 W3 W4]. unfold handled. cbn [fst snd]. split_and!; [done|by split| |].
  - intros _ _ s'. simpl. rewrite Hs. intros [= <-]. by rewrite Hsign.
  - intros req' _. destruct req' as [n'|n'|n'|n'|n'|n'|n']; simpl; try done.
    intros Hat ->. assert (n = mkNN (Authz.namespace m) JWKSecretName) as Hn.
    { destruct n as [a b]. simpl in *. unfold om_key in Hkey. injection Hkey as <- <-. f_equal; tauto || idtac.
      - destruct (decide (om_Namespace (sec_Meta s) = Authz.namespace m)); tauto.
      - destruct (decide (om_Name (sec_Meta s) = JWKSecretName)); tauto. }
    intros s'. rewrite <- Hn, Hs. intros [= <-]. by rewrite Hsign.
Qed.

Lemma authz_event_handled w m req :
  authz_wf m → authz_request_ok req → handled w m req (authz_event w req m).
Proof.
  intros Hwf Hok. destruct req as [n|n|n|n|n|n|n].
  - exact (policy_handled w m n false Hwf).
  - exact (policy_handled w m n true Hwf).
  - by apply peer_handled.
  - by apply handled_same.
  - by apply handled_same.
  - by apply secret_handled.
  - by apply pod_handled.
Qed.

(** A request fails without an effect, or runs the handler the store calls for. *)
Definition is_event (w : W) (req : authz_request) (m : Authz.Manager) (r : outcome (option error) * (Authz.Manager * W)) : Prop :=
  (∀ req', same_at w r.2.2 req') ∧
  ((∃ err, r = (Done (Some err), (m, r.2.2))) ∨ r = let (e, m') := authz_event w req m in (e, (m', r.2.2))).

Lemma nothing_reconciled {T} `{!KubeClient W T} n m w :
  ∃ err, Reconcile (nothing_spec (T:=T)) n (m, w) = (err, (m, (kGet (T:=T) n w).2)).
Proof.
  unfold Reconcile. unfold_st. cbn [fst snd].
  destruct (kGet (T:=T) n w) as [[obj|err] w']; [by eexists|]. destruct (IsNotFound err); by eexists.
Qed.

#[local] Ltac handler_ran := split; [apply reads_only|by right].
#[local] Ltac by_reconcile spec n m w :=
  let Hr := fresh "Hr" in
  destruct (Reconcile_spec spec n m w) as [_ [[err Hr]|Hr]]; rewrite Hr;
  [split; [apply reads_only|left; by exists err]|].

Lemma authz_reconcile_event req m w : is_event w req m (authz_reconcile req (m, w)).
Proof.
  destruct req as [n|n|n|n|n|n|n]; cbn [authz_reconcile]; unfold_st; unfold is_event.
  - by_reconcile access_policy_spec n m w.
    unfold authz_event, policy_stored. destruct (kView w !! n) as [p|] eqn:Hp; simpl; unfold_st.
    + apply kView_key in Hp. unfold PolicyFromCR. change (mkNN _ _) with (om_key (pcr_Meta p)).
      simpl in Hp. rewrite Hp. destruct (AddAccessPolicy _ m). handler_ran.
    + destruct (DeleteAccessPolicy n false m). handler_ran.
  - by_reconcile privileged_access_policy_spec n m w.
    unfold authz_event, policy_stored. destruct (kView w !! n) as [p|] eqn:Hp; simpl; unfold_st.
    + apply kView_key in Hp. unfold PolicyFromPrivilegedCR. simpl in Hp. rewrite Hp.
      destruct (AddAccessPolicy _ m). handler_ran.
    + destruct (DeleteAccessPolicy n true m). handler_ran.
  - by_reconcile authz_peer_spec n m w. unfold authz_event.
    destruct (kView w !! n) as [p|]; simpl; unfold_st; [destruct (Authz.AddPeer p m)|]; handler_ran.
  - destruct (nothing_reconciled (T:=Import) n m w) as [[err|] Hr]; rewrite Hr;
     (split; [apply reads_only|]); [left; by exists err|by right].
  - destruct (nothing_reconciled (T:=Export) n m w) as [[err|] Hr]; rewrite Hr;
     (split; [apply reads_only|]); [left; by exists err|by right].
  - by_reconcile authz_secret_spec n m w. unfold authz_event.
    destruct (kView w !! n) as [p|]; simpl; unfold_st; [destruct (Authz.addSecret p m)|]; handler_ran.
  - by_reconcile authz_pod_spec n m w. unfold authz_event.
    destruct (kView w !! n) as [p|]; simpl; unfold_st; handler_ran.
Qed.

(** A policy that is in force and is changed to an invalid one stays in force as it was,
    for as long as the invalid one is in the cluster. *)
Lemma invalid_update_keeps_old n m w spec :
  policy_stored w false n = Some spec → is_Some (Validate spec) →
  let r := authz_reconcile (AuthzPolicy n) (m, w) in
  r.1 ≠ Done None ∧ connectivityPDP r.2.1 = connectivityPDP m.
Proof.
  intros Hs [err Hv]. cbv zeta. destruct (authz_reconcile_event (AuthzPolicy n) m w) as [_ [[e Hr]|Hr]]; rewrite Hr; [done|].
  unfold authz_event, policy_event. rewrite Hs. unfold_st. unfold AddAccessPolicy, AddOrUpdatePolicy. cbn [ap_spec]. by rewrite Hv.
Qed.
(** A policy that was never in force, since it is invalid, can not be deleted without an
    error, and the request is tried again for ever. *)
Lemma refused_policy_deletion_fails n m w :
  policy_stored w false n = None → store_tier (pdp_abs (connectivityPDP m)) false !! n = None →
  (authz_reconcile (AuthzPolicy n) (m, w)).1 ≠ Done None.
Proof.
  intros Hs Hn. destruct (authz_reconcile_event (AuthzPolicy n) m w) as [_ [[e Hr]|Hr]]; rewrite Hr; [done|].
  unfold authz_event, policy_event. rewrite Hs. unfold_st. unfold DeleteAccessPolicy.
  destruct (run_op_abs (OpDelete n false) (connectivityPDP m)) as [_ He]. cbn [run_op] in He.
  destruct (DeletePolicy n false (connectivityPDP m)) as [err pdp]. cbn [fst snd] in *. intros [= ->].
  cbn [store_op fst] in He. by rewrite (bool_decide_eq_true_2 (store_tier _ _ !! _ = None)) in He.
Qed.

(** *** Sequences *)
Lemma SetPeerCertificates_wf tls m :
  (∀ name cl, Authz.peerClient m !! name = Some cl → peer_Name (cl_pr cl) = name) →
  pdp_wf (connectivityPDP m) → (∀ ip p, ipToPod m !! ip = Some p → is_Some (podList m !! p)) →
  let r := Authz.SetPeerCertificates tls m in
  (r = (Some (ENew "expected peer certificate to contain at least one DNS name"), m) ∨
   r.1 = None ∧ authz_wf r.2) ∧
  ∀ w req, is_Some (peerTLS m) → at_authz w m req → at_authz w r.2 req.
Proof.
  intros Hcl Hpdp Hpods. unfold Authz.SetPeerCertificates.
  destruct (DNSNames tls) as [|name names]; simpl; [by split; [left|]|]. split; [right; split; [done|split; simpl; try done]|].
  - intros pr cl tls'. rewrite map_lookup_imap. intros Hl [= <-].
    destruct (Authz.peerClient m !! pr) as [cl'|] eqn:Hcl'; simpl in Hl; [|done]. injection Hl as <-.
    simpl. split; [done|by apply Hcl].
  - intros w req [tls0 Htls0]. destruct req as [n|n|n|n|n|n|n]; simpl; try done.
    intros Hat tls' [= <-]. rewrite map_lookup_imap, (Hat _ Htls0). by destruct (kView w !! n).
Qed.

Definition asks (op : authz_op) (req : authz_request) : Prop := op = AuthzReq req.
Lemma run_authz_op_ok op :
  op_converges run_authz_op asks (λ r, r = Done None) leaves (λ r, r ≠ Panic) authz_op_ok authz_request_ok
    (λ s, authz_wf s.1) (λ s, at_authz s.2 s.1) op.
Proof.
  intros [m w] Hwf Hok. cbv zeta. destruct op as [req|tls|f]; cbn [run_authz_op]; unfold_st; cbn [fst snd].
  - destruct (authz_reconcile_event req m w) as [Hs Hr].
    destruct (authz_reconcile req (m, w)) as [e [m' w']]. cbn [fst snd] in *.
    destruct Hr as [[err [= -> ->]]|Hr].
    { split_and!; [done..| |]; [congruence|]. intros req' _ _. by apply at_authz_same. }
    destruct (authz_event_handled w m req Hwf Hok) as (H1 & H2 & H3 & H4).
    destruct (authz_event w req m) as [e1 m1]. injection Hr as -> ->. cbn [fst snd] in *. split_and!; [done..| |].
    + intros req' [= <-] He. eapply at_authz_same; [apply Hs|auto].
    + intros req' Hok' _ Hat. eapply at_authz_same; [apply Hs|auto].
  - pose proof Hwf as [W1 W2 W3 W4]. pose proof W2 as [tls0 Htls0].
    destruct (SetPeerCertificates_wf tls m) as [Hr Hat]; [|done..|].
    { intros name cl Hcl. by destruct (W3 name cl tls0 Hcl Htls0). }
    destruct (Authz.SetPeerCertificates tls m) as [e m']. cbn [fst snd] in *. split_and!; [done| |done|auto].
    by destruct Hr as [[= -> ->]|[_ ?]].
  - split_and!; try done. intros req' _ Hl. apply at_authz_same, Hl.
Qed.

(** The last successful request for an object came after the last change of it; or
    there is no such object from the beginning (or only one that is not valid). *)
Definition authz_settled : list authz_op → list (outcome (option error)) → authz_request → Prop :=
  settled asks (λ r, r = Done None) leaves.
Definition unknown (w : W) (ops : list authz_op) (req : authz_request) : Prop :=
  match req with
  | AuthzPolicy n => policy_in w false n = None
  | AuthzPrivileged n => policy_in w true n = None
  | AuthzPeer n => kView (T:=Peer) w !! n = None
  | AuthzImport _ | AuthzExport _ => True
  | AuthzSecret n => kView (T:=Secret) w !! n = None
  | AuthzPod n => kView (T:=Pod) w !! n = None
  end ∧ Forall (leaves req) ops.

Lemma unknown_at myns labels tls m0 w ops req :
  Authz.SetPeerCertificates tls (Authz.NewManager myns labels) = (None, m0) →
  unknown w ops req → at_authz w m0 req.
Proof.
  unfold Authz.SetPeerCertificates. destruct (DNSNames tls) as [|name names]; [done|]. intros [= <-] [Hu _].
  assert (map_imap (λ (pr : string) (cl : Client), Some (NewClient (cl_pr cl) (ClientConfig tls pr))) ∅ = ∅) as Hemp
    by done.
  destruct req as [n|n|n|n|n|n|n]; simpl in *; try done; by rewrite ?Hu.
Qed.

Lemma start_wf myns labels tls m0 :
  Authz.SetPeerCertificates tls (Authz.NewManager myns labels) = (None, m0) → authz_wf m0.
Proof.
  intros Hset. destruct (SetPeerCertificates_wf tls (Authz.NewManager myns labels)) as [[Hr|[_ Hr]] _].
  - intros name cl. simpl. by rewrite lookup_empty.
  - apply NewPDP_wf.
  - intros ip p. simpl. by rewrite lookup_empty.
  - by rewrite Hr in Hset.
  - by rewrite Hset in Hr.
Qed.

Lemma run_authz_start myns labels tls m0 ops w :
  Authz.SetPeerCertificates tls (Authz.NewManager myns labels) = (None, m0) →
  Forall authz_op_ok ops →
  let r := run_authz ops (m0, w) in
  Forall (λ e, e ≠ Panic) r.1 ∧ authz_wf r.2.1 ∧
  ∀ req, authz_request_ok req → authz_settled ops r.1 req ∨ unknown w ops req → at_authz r.2.2 r.2.1 req.
Proof.
  intros Hset Hops. 
  destruct (run_list_converges _ _ _ _ _ _ _ _ _ ops (m0, w) run_authz_op_ok (start_wf _ _ _ _ Hset) Hops)
    as (H1 & H2 & H3 & H4).
  split_and!; [done..|]. intros req Hreq [Hs|Hu]; [by apply H3|].
  apply H4; [done| |by eapply unknown_at]. apply Hu.
Qed.

(** C14: the controllers of the authorization manager converge, started with a first
    certificate as the program does: whatever requests come in whatever order, with
    certificates renewed and objects changed by others in between, no handler panics, the
    manager stays well-formed (every client is the one of the current certificate for its
    peer, every known address belongs to a known pod), and every policy, peer, pod and
    signing key whose last successful request came after its last change is in the
    manager as the API server has it. *)
Theorem authz_converges myns labels tls m0 ops w :
  Authz.SetPeerCertificates tls (Authz.NewManager myns labels) = (None, m0) →
  Forall authz_op_ok ops →
  let r := run_authz ops (m0, w) in
  Forall (λ e, e ≠ Panic) r.1 ∧ authz_wf r.2.1 ∧
  ∀ req, authz_request_ok req → authz_settled ops r.1 req ∨ unknown w ops req → at_authz r.2.2 r.2.1 req.
Proof.
  apply run_authz_start.
Qed.

(** The policies of the API server. *)
Definition is_policy_store (w : W) (st : policyStore) : Prop :=
  ∀ n, store_tier st true !! n = policy_in w true n ∧ store_tier st false !! n = policy_in w false n.

(** C5: the cluster's policies decide: once every policy of the API server was reconciled
    after its last change, the verdict of the policy decision point on any connection is
    the specified one for the valid policies the API server holds (deny before allow,
    privileged before regular, deny otherwise), whatever happened before. *)
Theorem authz_decides_for_cluster myns labels tls m0 ops w st o1 o2 src dst nsd :
  Authz.SetPeerCertificates tls (Authz.NewManager myns labels) = (None, m0) →
  Forall authz_op_ok ops →
  let r := run_authz ops (m0, w) in
  (∀ n, authz_settled ops r.1 (AuthzPolicy n) ∨ unknown w ops (AuthzPolicy n)) →
  (∀ n, authz_settled ops r.1 (AuthzPrivileged n) ∨ unknown w ops (AuthzPrivileged n)) →
  is_policy_store r.2.2 st →
  ∃ d, Decide o1 o2 (connectivityPDP r.2.1) src dst nsd = Ok d ∧
       (dd_Decision d, PrivilegedMatch d) = store_decide st src dst nsd.
Proof.
  intros Hset Hops. cbv zeta. intros Hreg Hpriv Hst.
  destruct (run_authz_start _ _ _ _ ops w Hset Hops) as (_ & Hwf & Hat).
  destruct (run_authz ops (m0, w)) as [rs [m w']]. cbn [fst snd] in *.
  destruct (Decide_wf o1 o2 _ src dst nsd (aw_pdp m Hwf)) as (d & Hd & _ & Hdec & _).
  exists d. split; [done|]. rewrite Hdec. f_equal. destruct st as [sp sr]. unfold is_policy_store in Hst. simpl in Hst.
  destruct (pdp_abs (connectivityPDP m)) as [ap ar] eqn:Habs. f_equal; apply map_eq; intros n.
  - pose proof (Hat (AuthzPrivileged n) I (Hpriv n)) as Hn. cbn [at_authz] in Hn. rewrite Habs in Hn.
    simpl in Hn. rewrite Hn. symmetry. apply Hst.
  - pose proof (Hat (AuthzPolicy n) I (Hreg n)) as Hn. cbn [at_authz] in Hn. rewrite Habs in Hn.
    simpl in Hn. rewrite Hn. symmetry. apply Hst.
Qed.
End authz.

(** ** Witnesses: an API server with the seven kinds of objects *)
Definition authz_api : Type :=
  gmap NamespacedName AccessPolicyCR * (gmap NamespacedName PrivilegedAccessPolicy * (gmap NamespacedName Peer *
    (gmap NamespacedName Pod * (gmap NamespacedName Secret * (gmap NamespacedName Import * (gmap NamespacedName Export * unit)))))).
Section stores.
#[local] Existing Instance store_here | 1.
#[local] Existing Instance store_there | 2.
#[local] Existing Instances here_laws there_laws.
Definition aa_s0 : Store authz_api AccessPolicyCR := _.
Definition aa_s1 : Store authz_api PrivilegedAccessPolicy := _.
Definition aa_s2 : Store authz_api Peer := _.
Definition aa_s3 : Store authz_api Pod := _.
Definition aa_s4 : Store authz_api Secret := _.
Definition aa_s5 : Store authz_api Import := _.
Definition aa_s6 : Store authz_api Export := _.
Lemma aa_l0 : @StoreLaws authz_api AccessPolicyCR _ aa_s0. Proof. apply _. Qed.
Lemma aa_l1 : @StoreLaws authz_api PrivilegedAccessPolicy _ aa_s1. Proof. apply _. Qed.
Lemma aa_l2 : @StoreLaws authz_api Peer _ aa_s2. Proof. apply _. Qed.
Lemma aa_l3 : @StoreLaws authz_api Pod _ aa_s3. Proof. apply _. Qed.
Lemma aa_l4 : @StoreLaws authz_api Secret _ aa_s4. Proof. apply _. Qed.
End stores.
#[local] Instance aa_k0 : KubeClient authz_api AccessPolicyCR := mem_client (ST0 := aa_s0).
#[local] Instance aa_k1 : KubeClient authz_api PrivilegedAccessPolicy := mem_client (ST0 := aa_s1).
#[local] Instance aa_k2 : KubeClient authz_api Peer := mem_client (ST0 := aa_s2).
#[local] Instance aa_k3 : KubeClient authz_api Pod := mem_client (ST0 := aa_s3).
#[local] Instance aa_k4 : KubeClient authz_api Secret := mem_client (ST0 := aa_s4).
#[local] Instance aa_k5 : KubeClient authz_api Import := mem_client (ST0 := aa_s5).
#[local] Instance aa_k6 : KubeClient authz_api Export := mem_client (ST0 := aa_s6).
#[local] Instance aa_kl0 : KubeClientLaws authz_api AccessPolicyCR := mem_laws (SL := aa_l0).
#[local] Instance aa_kl1 : KubeClientLaws authz_api PrivilegedAccessPolicy := mem_laws (SL := aa_l1).
#[local] Instance aa_kl2 : KubeClientLaws authz_api Peer := mem_laws (SL := aa_l2).
#[local] Instance aa_kl3 : KubeClientLaws authz_api Pod := mem_laws (SL := aa_l3).
#[local] Instance aa_kl4 : KubeClientLaws authz_api Secret := mem_laws (SL := aa_l4).
#[local] Existing Instance ref_labelselectors.
#[local] Existing Instance ref_nn_string.
#[local] Existing Instance ref_encodings.
#[local] Existing Instance ref_tls.
#[local] Existing Instance ref_jwt.
#[local] Ltac reads_nothing := intros n w req; by destruct req.
#[local] Instance aa_r0 : ReadsOnly (W := authz_api) AccessPolicyCR. Proof. reads_nothing. Qed.
#[local] Instance aa_r1 : ReadsOnly (W := authz_api) PrivilegedAccessPolicy. Proof. reads_nothing. Qed.
#[local] Instance aa_r2 : ReadsOnly (W := authz_api) Peer. Proof. reads_nothing. Qed.
#[local] Instance aa_r3 : ReadsOnly (W := authz_api) Pod. Proof. reads_nothing. Qed.
#[local] Instance aa_r4 : ReadsOnly (W := authz_api) Secret. Proof. reads_nothing. Qed.
#[local] Instance aa_r5 : ReadsOnly (W := authz_api) Import. Proof. reads_nothing. Qed.
#[local] Instance aa_r6 : ReadsOnly (W := authz_api) Export. Proof. reads_nothing. Qed.

Definition aa_policy (name action : string) : AccessPolicyCR :=
  mkPolicyCR (mkMeta name "default" ∅) (Api.mkSpec action [ex_everything] [ex_everything]).
Definition aa_closed : NamespacedName := mkNN "default" "closed".
(** The policies [open] and [broken] (which has no valid action), a privileged policy, a
    peer and a pod. *)
Definition aa_start : authz_api :=
  (<[mkNN "default" "open" := aa_policy "open" "allow"]> {[ mkNN "default" "broken" := aa_policy "broken" "drop" ]},
   ({[ mkNN "" "top" := mkPrivileged (aa_policy "top" "allow") ]},
    ({[ mkNN "clusterlink-system" "peer1" := ex_peer "peer1" "True" ]},
     ({[ mkNN "default" "client" := ex_pod ]}, (∅, (∅, (∅, tt))))))).
(** Somebody adds the policy [closed]. *)
Definition aa_close (w : authz_api) : authz_api := (<[aa_closed := aa_policy "closed" "deny"]> w.1, w.2).
Definition aa_requests : list (authz_op (W:=authz_api)) :=
  [AuthzReq (AuthzPolicy (mkNN "default" "open")); AuthzReq (AuthzPolicy (mkNN "default" "broken"));
   AuthzReq (AuthzPolicy aa_closed); AuthzReq (AuthzPod (mkNN "default" "client"));
   AuthzWorld aa_close; AuthzReq (AuthzPeer (mkNN "clusterlink-system" "peer1")); AuthzCerts ex_tls;
   AuthzReq (AuthzPolicy aa_closed); AuthzReq (AuthzPrivileged (mkNN "" "top"))].
Definition aa_manager : Authz.Manager := (Authz.SetPeerCertificates ex_tls (Authz.NewManager "clusterlink-system" ∅)).2.
Abbreviation aa_end := (run_authz aa_requests (aa_manager, aa_start)).

Lemma aa_requests_ok : Forall (authz_op_ok "clusterlink-system") aa_requests.
Proof. repeat constructor. Qed.

Lemma aa_settled i req rs :
  aa_requests !! i = Some (AuthzReq req) → rs !! i = Some (Done None) →
  Forall (leaves req) (drop (S i) aa_requests) → authz_settled aa_requests rs req.
Proof. intros Hi Hr Hl. by exists i, (AuthzReq req), (Done None). Qed.

Lemma authz_converges_witness :
  Forall (λ e, e ≠ Panic) aa_end.1 ∧ podList aa_end.2.1 !! mkNN "default" "client" = Some (pod_info ex_pod).
Proof.
  destruct (authz_converges "clusterlink-system" "clusterlink-system" ∅ ex_tls aa_manager aa_requests aa_start
    eq_refl aa_requests_ok) as (Hp & _ & Hat).
  split; [exact Hp|]. apply (Hat (AuthzPod (mkNN "default" "client")) I). left.
  apply (aa_settled 3); [reflexivity|vm_compute; reflexivity|repeat constructor].
Defined.

(** The store at the end: the valid policies. *)
Definition aa_store : policyStore :=
  mkStore {[ mkNN "" "top" := pcr_Spec (aa_policy "top" "allow") ]}
    (<[aa_closed := pcr_Spec (aa_policy "closed" "deny")]> {[ mkNN "default" "open" := pcr_Spec (aa_policy "open" "allow") ]}).

Lemma keyed_insert_ne {T} `{KubeObject T} (m : gmap NamespacedName T) k n x :
  n ≠ k → keyed (<[k := x]> m) !! n = keyed m !! n.
Proof. intros Hne. unfold keyed. by rewrite !map_lookup_filter, lookup_insert_ne. Qed.
Lemma keyed_singleton_ne {T} `{KubeObject T} k n (x : T) : n ≠ k → keyed {[ k := x ]} !! n = None.
Proof. intros Hne. unfold keyed. by rewrite map_lookup_filter, lookup_singleton_ne. Qed.

Lemma aa_close_view w n : n ≠ aa_closed → policy_in (aa_close w) false n = policy_in w false n.
Proof. intros Hne. unfold policy_in, policy_stored, kView. simpl. by rewrite keyed_insert_ne. Qed.
Lemma aa_leaves n : n ≠ aa_closed → Forall (leaves (AuthzPolicy n)) aa_requests.
Proof. intros Hne. repeat constructor. intros w. by apply aa_close_view. Qed.

Lemma aa_settled_regular n : authz_settled aa_requests aa_end.1 (AuthzPolicy n) ∨ unknown aa_start aa_requests (AuthzPolicy n).
Proof.
  destruct (decide (n = aa_closed)) as [->|Hc].
  { left. apply (aa_settled 7); [reflexivity|vm_compute; reflexivity|repeat constructor]. }
  destruct (decide (n = mkNN "default" "open")) as [->|Ho].
  { left. apply (aa_settled 0); [reflexivity|vm_compute; reflexivity|by apply Forall_drop, aa_leaves]. }
  right. split; [|by apply aa_leaves]. cbn [unknown].
  destruct (decide (n = mkNN "default" "broken")) as [->|Hb]; [vm_compute; reflexivity|].
  unfold policy_in, policy_stored, kView. simpl. by rewrite keyed_insert_ne, keyed_singleton_ne.
Qed.
Lemma aa_settled_privileged n :
  authz_settled aa_requests aa_end.1 (AuthzPrivileged n) ∨ unknown aa_start aa_requests (AuthzPrivileged n).
Proof.
  destruct (decide (n = mkNN "" "top")) as [->|Hn].
  { left. apply (aa_settled 8); [reflexivity|vm_compute; reflexivity|constructor]. }
  right. split; [|repeat constructor].
  unfold policy_in, policy_stored, kView. simpl. by rewrite keyed_singleton_ne.
Qed.

Lemma aa_end_store : is_policy_store aa_end.2.2 aa_store.
Proof.
  intros n. assert (aa_end.2.2 = aa_close aa_start) as -> by reflexivity. split; simpl.
  - destruct (decide (n = mkNN "" "top")) as [->|Hn]; [vm_compute; reflexivity|].
    unfold policy_in, policy_stored, kView. simpl. by rewrite keyed_singleton_ne, lookup_singleton_ne.
  - destruct (decide (n = aa_closed)) as [->|Hc]; [vm_compute; reflexivity|].
    rewrite aa_close_view, lookup_insert_ne by done.
    destruct (decide (n = mkNN "default" "open")) as [->|Ho]; [vm_compute; reflexivity|].
    rewrite lookup_singleton_ne by done.
    destruct (decide (n = mkNN "default" "broken")) as [->|Hb]; [vm_compute; reflexivity|].
    unfold policy_in, policy_stored, kView. simpl. by rewrite keyed_insert_ne, keyed_singleton_ne.
Qed.

Lemma authz_decides_for_cluster_witness :
  ∃ d, Decide ex_order ex_order (connectivityPDP aa_end.2.1) ∅ ∅ "default" = Ok d ∧
       (dd_Decision d, PrivilegedMatch d) = store_decide aa_store ∅ ∅ "default".
Proof.
  apply (authz_decides_for_cluster "clusterlink-system" "clusterlink-system" ∅ ex_tls aa_manager aa_requests aa_start
    aa_store ex_order ex_order ∅ ∅ "default" eq_refl aa_requests_ok aa_settled_regular aa_settled_privileged aa_end_store).
Defined.
