(* ===== verification/ControlControllers.v ===== *)
(** * The controllers of the control manager

    [control/controllers.go]: which handler runs for which kind of object, over the manager
    and the peer manager it embeds.  The theorem says that the peers that are monitored are
    those of the API server, whatever the other controllers do in between. *)
From S2P Require Export ControlFacts PeerMonitorFacts Reconciler.
From stdpp Require Import options.
From Stdlib Require Import ZArith Lia.

#[local] Set Default Proof Using "Type".

(** ** What is monitored *)
Section probed.
Context {SC : StatusConditions} {TL : TLSLib}.

(** The gateways that the monitor of a peer probes. *)
Definition probed (m : peerManager) (name : string) : option (list Endpoint) :=
  i ← monitors m !! name; mon ← allocated m !! i; Some (peer_Gateways (pm_pr mon)).

(** The entry of one name changes, the monitors of the others stay. *)
Lemma probed_other m m' name i :
  manager_inv m → monitors m !! name = Some i →
  (∀ n, n ≠ name → monitors m' !! n = monitors m !! n) →
  (∀ j mon, j ≠ i → allocated m !! j = Some mon → allocated m' !! j = Some mon) →
  ∀ n, n ≠ name → probed m' n = probed m n.
Proof.
  intros Hinv Hi Hmon Hal n Hn. unfold probed. rewrite Hmon by done.
  destruct (monitors m !! n) as [j|] eqn:Hj; [|done]. simpl. destruct (Hinv _ _ Hj) as (mon & Ha & _).
  rewrite Ha, (Hal j mon); [done| |done]. intros ->. apply Hn. by eapply inv_injective.
Qed.

Lemma AddPeer_probed pr m :
  manager_inv m → is_Some (pmg_peerTLS m) → stopped m = false →
  ∃ m', PeerMonitor.AddPeer pr m = Done m' ∧ pmg_peerTLS m' = pmg_peerTLS m ∧ stopped m' = false ∧
    probed m' (peer_Name pr) = Some (peer_Gateways pr) ∧ ∀ n, n ≠ peer_Name pr → probed m' n = probed m n.
Proof.
  intros Hinv [tls Htls] Hst. unfold PeerMonitor.AddPeer. rewrite Hst.
  destruct (monitors m !! peer_Name pr) as [i|] eqn:Hi.
  - destruct (Hinv _ _ Hi) as (mon & Ha & Hmon). pose proof (lookup_lt_Some _ _ _ Ha) as Hlt. rewrite Ha.
    destruct (peerChanged (pm_pr mon) pr).
    + unfold start_monitor. rewrite Htls. eexists. split; [done|]. split; [done|]. split; [done|]. split.
      * unfold probed. simpl. rewrite lookup_insert_eq. simpl.
        by rewrite lookup_app_r, Nat.sub_diag by done.
      * apply (probed_other m _ _ i Hinv Hi); simpl; [intros; by apply lookup_insert_ne|].
        intros j mon' Hj Hmon'. rewrite lookup_app_l by (rewrite length_insert; by eapply lookup_lt_Some).
        by rewrite list_lookup_insert_ne.
    + eexists. split; [done|]. split; [done|]. split; [done|]. split.
      * unfold probed. simpl. rewrite Hi. simpl. by rewrite list_lookup_insert_eq.
      * apply (probed_other m _ _ i Hinv Hi); simpl; [done|]. intros j mon' Hj Hmon'. by rewrite list_lookup_insert_ne.
  - unfold start_monitor. rewrite Htls. eexists. split; [done|]. split; [done|]. split; [done|]. split.
    + unfold probed. simpl. rewrite lookup_insert_eq. simpl. by rewrite lookup_app_r, Nat.sub_diag by done.
    + intros n Hn. unfold probed. simpl. rewrite lookup_insert_ne by done.
      destruct (monitors m !! n) as [j|] eqn:Hj; [|done]. simpl. destruct (Hinv _ _ Hj) as (mon & Ha & _).
      rewrite Ha. by erewrite lookup_app_l_Some.
Qed.

Lemma DeletePeer_probed name m :
  probed (PeerMonitor.DeletePeer name m) name = None ∧ ∀ n, n ≠ name → probed (PeerMonitor.DeletePeer name m) n = probed m n.
Proof.
  unfold probed, PeerMonitor.DeletePeer. simpl. split; [by rewrite lookup_delete_eq|]. intros n Hn. by rewrite lookup_delete_ne.
Qed.

(** Certificates and status rounds leave the gateways. *)
Lemma alter_probed m i f :
  (∀ mon, allocated m !! i = Some mon → peer_Gateways (pm_pr (f mon)) = peer_Gateways (pm_pr mon)) →
  ∀ n, (j ← monitors m !! n; mon ← alter f i (allocated m) !! j; Some (peer_Gateways (pm_pr mon))) = probed m n.
Proof.
  intros Hf n. unfold probed. destruct (monitors m !! n) as [j|]; [|done]. simpl.
  destruct (decide (i = j)) as [->|]; [|by rewrite list_lookup_alter_ne].
  rewrite list_lookup_alter_eq. destruct (allocated m !! j) as [mon|] eqn:Hj; [|done]. simpl. by rewrite Hf.
Qed.
Lemma SetPeerCertificates_probed order tls m n : probed (PeerMonitor.SetPeerCertificates order tls m) n = probed m n.
Proof.
  unfold probed. simpl. destruct (monitors m !! n) as [j|]; [|done]. simpl. rewrite set_certificates_lookup.
  case_decide; [|done]. by destruct (allocated m !! j).
Qed.
End probed.

Section control.
Context {NS : NamespacedNameString} {SC : StatusConditions} {SN : ServiceNames} {EN : Encodings} {TL : TLSLib}.
Context {W : Type} {KI : KubeClient W Import} {KE : KubeClient W Export} {KS : KubeClient W Service}.
Context {KL : KubeClient W EndpointSlice} {KC : KubeClient W Secret} {KP : KubeClient W Peer}.
Context {CL : Clock W} {RB : RandBytes W}.
Context (draw : W → nat → Z).

(** The manager embeds the peer manager. *)
Record control_manager := mkControl { ctl_manager : Control.Manager; ctl_peers : peerManager }.
Definition with_manager {A} (f : ST (Control.Manager * W) A) : ST (control_manager * W) A := λ s,
  let '(r, (m, w)) := f (ctl_manager s.1, s.2) in (r, (mkControl m (ctl_peers s.1), w)).

Definition control_peer_spec : Spec W Peer control_manager (outcome (option error)) :=
  mkSpec
    (λ p, inside (λ m, match PeerMonitor.AddPeer p (ctl_peers m) with
                       | Done ps => (Done None, mkControl (ctl_manager m) ps)
                       | Panic => (Panic, m)
                       end))
    (λ n, inside (λ m, (Done None, mkControl (ctl_manager m) (PeerMonitor.DeletePeer (Name n) (ctl_peers m))))).
Definition control_service_spec : Spec W Service control_manager (option error) :=
  mkSpec (λ s, with_manager (addService draw s)) (λ n, with_manager (deleteService draw n)).
Definition control_export_spec : Spec W Export control_manager (option error) :=
  mkSpec (λ e, with_manager (addExport e)) (λ _, mret None).
Definition control_import_spec : Spec W Import control_manager (option error) :=
  mkSpec (λ i, with_manager (addImport draw i)) (λ n, with_manager (deleteImport n)).
Definition control_secret_spec : Spec W Secret control_manager (option error) :=
  mkSpec (λ s, with_manager (Control.addSecret s)) (λ n, with_manager (deleteSecret n)).
Definition control_endpointslice_spec : Spec W EndpointSlice control_manager (option error) :=
  mkSpec (λ s, with_manager (addEndpointSlice s)) (λ n, with_manager (deleteEndpointSlice n)).

Inductive control_request :=
  | ControlPeer (n : NamespacedName) | ControlService (n : NamespacedName) | ControlExport (n : NamespacedName)
  | ControlImport (n : NamespacedName) | ControlSecret (n : NamespacedName) | ControlEndpointSlice (n : NamespacedName).

Definition control_reconcile (req : control_request) : ST (control_manager * W) (outcome (option error)) :=
  match req with
  | ControlPeer n => Reconcile control_peer_spec n
  | ControlService n => err ← Reconcile control_service_spec n; mret (Done err)
  | ControlExport n => err ← Reconcile control_export_spec n; mret (Done err)
  | ControlImport n => err ← Reconcile control_import_spec n; mret (Done err)
  | ControlSecret n => err ← Reconcile control_secret_spec n; mret (Done err)
  | ControlEndpointSlice n => err ← Reconcile control_endpointslice_spec n; mret (Done err)
  end.

(** Requests; in between, certificates, the rounds of the monitors, and what others do to
    the API server. *)
Inductive control_op :=
  | ControlReq (req : control_request) | ControlCerts (order : ranger string nat) (tls : ParsedCertData)
  | ControlRound (i : nat) (now : Z) (ok : bool) (labels : gmap string string) | ControlWorld (f : W → W).
Definition peers_op (op : pm_op) : ST (control_manager * W) (outcome (option error)) :=
  inside (λ m, match run_pm_op op (ctl_peers m) with
               | Done ps => (Done None, mkControl (ctl_manager m) ps)
               | Panic => (Panic, m)
               end).
Definition run_control_op (op : control_op) : ST (control_manager * W) (outcome (option error)) :=
  match op with
  | ControlReq req => control_reconcile req
  | ControlCerts order tls => peers_op (OpCerts order tls)
  | ControlRound i now ok labels => peers_op (OpRound i now ok labels)
  | ControlWorld f => modify (λ s, (s.1, f s.2));; mret (Done None)
  end.
Definition run_control : list control_op → ST (control_manager * W) (list (outcome (option error))) := run_list run_control_op.

(** *** The other controllers leave the peers alone *)
Context {LP : KubeClientLaws W Peer}.
Context {F1 : KubeFrame W Import Peer} {F2 : KubeFrame W Export Peer} {F3 : KubeFrame W Service Peer}.
Context {F4 : KubeFrame W EndpointSlice Peer} {F5 : KubeFrame W Secret Peer}.
Context (rand_frame : ∀ n w, kView (T:=Peer) (rand_Read n w).2 = kView w).
(** All peers are in one namespace. *)
Context (ns : string).
#[local] Set Default Proof Using "All".

Definition keeps_peers (st st' : Control.Manager * W) : Prop := kView (T:=Peer) st'.2 = kView st.2.
#[local] Instance keeps_peers_preorder : PreOrder keeps_peers.
Proof. split; [by intros st|]. intros x y z Hxy Hyz. unfold keeps_peers in *. congruence. Qed.

Lemma outside_peers {A} (f : ST W A) : (∀ w, kView (T:=Peer) (f w).2 = kView w) → keeps keeps_peers (outside f).
Proof. intros Hf st. unfold_st. specialize (Hf st.2). by destruct (f st.2). Qed.
Lemma with_ports_peers {A} (f : ST portManager A) : keeps keeps_peers (with_ports (W:=W) f).
Proof. intros st. unfold with_ports. by destruct (f _). Qed.
Lemma modify_peers (f : Control.Manager * W → Control.Manager * W) : (∀ st, (f st).2 = st.2) → keeps keeps_peers (modify f).
Proof. intros Hf st. unfold keeps_peers, modify; simpl. by rewrite Hf. Qed.
Hint Resolve with_ports_peers : clink.
Hint Extern 1 (keeps keeps_peers (outside _)) => apply outside_peers; intros : clink.
Hint Extern 1 (keeps keeps_peers (modify _)) => apply modify_peers; intros : clink.
Hint Resolve frame_get frame_list frame_create frame_update frame_status frame_delete : clink.

Lemma allocateTargetPort_peers imp : keeps keeps_peers (allocateTargetPort draw imp).
Proof. unfold allocateTargetPort. keeps_all. Qed.
Hint Resolve allocateTargetPort_peers : clink.
Lemma putImportService_peers n svc : keeps keeps_peers (putImportService n svc).
Proof. unfold putImportService. keeps_all. Qed.
Hint Resolve putImportService_peers : clink.
Lemma addImportService_peers imp svc : keeps keeps_peers (addImportService imp svc).
Proof. unfold addImportService. keeps_all. Qed.
Hint Resolve addImportService_peers : clink.
Lemma deleteImportService_peers k n : keeps keeps_peers (deleteImportService k n).
Proof. unfold deleteImportService. keeps_all. Qed.
Hint Resolve deleteImportService_peers : clink.
Lemma checkImportEndpointSlice_peers imp dp : keeps keeps_peers (checkImportEndpointSlice imp dp).
Proof. unfold checkImportEndpointSlice. keeps_all. Qed.
Hint Resolve checkImportEndpointSlice_peers : clink.
Lemma addImportEndpointSlices_peers imp : keeps keeps_peers (addImportEndpointSlices imp).
Proof. unfold addImportEndpointSlices. keeps_all. Qed.
Hint Resolve addImportEndpointSlices_peers : clink.
Lemma delete_slice_peers k : keeps keeps_peers (delete_slice k).
Proof. unfold delete_slice. keeps_all. Qed.
Hint Resolve delete_slice_peers : clink.
Lemma deleteImportEndpointSlices_peers n : keeps keeps_peers (deleteImportEndpointSlices n).
Proof. unfold deleteImportEndpointSlices. keeps_all. Qed.
Hint Resolve deleteImportEndpointSlices_peers : clink.
Lemma addImport_services_peers imp : keeps keeps_peers (addImport_services imp).
Proof. unfold addImport_services. keeps_all. Qed.
Hint Resolve addImport_services_peers : clink.
Lemma addImport_body_peers imp : keeps keeps_peers (addImport_body draw imp).
Proof. unfold addImport_body. keeps_all. Qed.
Hint Resolve addImport_body_peers : clink.
Lemma addImport_defer_peers err imp cond : keeps keeps_peers (addImport_defer err imp cond).
Proof. unfold addImport_defer. keeps_all. Qed.
Hint Resolve addImport_defer_peers : clink.
Lemma addImport_peers imp : keeps keeps_peers (addImport draw imp).
Proof. unfold addImport. keeps_all. Qed.
Hint Resolve addImport_peers : clink.
Lemma deleteImport_peers n : keeps keeps_peers (deleteImport n).
Proof. unfold deleteImport. keeps_all. Qed.
Hint Resolve deleteImport_peers : clink.
Lemma addExport_body_peers e : keeps keeps_peers (addExport_body e).
Proof. unfold addExport_body. keeps_all. Qed.
Hint Resolve addExport_body_peers : clink.
Lemma addExport_defer_peers err e : keeps keeps_peers (addExport_defer err e).
Proof. unfold addExport_defer. keeps_all. Qed.
Hint Resolve addExport_defer_peers : clink.
Lemma addExport_peers e : keeps keeps_peers (addExport e).
Proof. unfold addExport. keeps_all. Qed.
Hint Resolve addExport_peers : clink.
Lemma checkExportService_peers n : keeps keeps_peers (checkExportService n).
Proof. unfold checkExportService. keeps_all. Qed.
Hint Resolve checkExportService_peers : clink.
Lemma checkImportService_peers n : keeps keeps_peers (checkImportService draw n).
Proof. unfold checkImportService. keeps_all. Qed.
Hint Resolve checkImportService_peers : clink.
Lemma addService_peers svc : keeps keeps_peers (addService draw svc).
Proof. unfold addService. keeps_all. Qed.
Hint Resolve addService_peers : clink.
Lemma deleteService_peers n : keeps keeps_peers (deleteService draw n).
Proof. unfold deleteService. keeps_all. Qed.
Hint Resolve deleteService_peers : clink.
Lemma checkEndpointSlice_peers ns' name : keeps keeps_peers (checkEndpointSlice ns' name).
Proof. unfold checkEndpointSlice. keeps_all. Qed.
Hint Resolve checkEndpointSlice_peers : clink.
Lemma addEndpointSlice_peers es : keeps keeps_peers (addEndpointSlice es).
Proof. unfold addEndpointSlice. keeps_all. Qed.
Hint Resolve addEndpointSlice_peers : clink.
Lemma deleteEndpointSlice_peers n : keeps keeps_peers (deleteEndpointSlice n).
Proof. unfold deleteEndpointSlice. keeps_all. Qed.
Hint Resolve deleteEndpointSlice_peers : clink.
Lemma generateJWKSecret_peers w : kView (T:=Peer) (generateJWKSecret w).2 = kView w.
Proof.
  unfold generateJWKSecret. unfold_st. pose proof (rand_frame 32 w) as Hr.
  destruct (rand_Read 32 w) as [[b|e] w']; simpl in *; [by repeat case_match|done].
Qed.
Hint Resolve generateJWKSecret_peers : clink.
Lemma checkJWKSecret_peers n : keeps keeps_peers (checkJWKSecret n).
Proof. unfold checkJWKSecret, writeJWKSecret. keeps_all. Qed.
Hint Resolve checkJWKSecret_peers : clink.

(** *** The monitored peers *)
Record control_inv (m : control_manager) : Prop := {
  ci_monitors : manager_inv (ctl_peers m);
  ci_tls : is_Some (pmg_peerTLS (ctl_peers m));
  ci_running : stopped (ctl_peers m) = false
}.

Definition gateways_in (w : W) (n : NamespacedName) : option (list Endpoint) := peer_Gateways <$> kView w !! n.
Definition monitored (m : control_manager) (name : string) : option (list Endpoint) := probed (ctl_peers m) name.

(** The monitor of the peer probes the gateways that the API server has; there is none
    for a peer that does not exist. *)
Definition at_control (s : control_manager * W) (req : control_request) : Prop :=
  match req with ControlPeer n => monitored s.1 (Name n) = gateways_in s.2 n | _ => True end.
Definition control_leaves (req : control_request) (op : control_op) : Prop :=
  match req, op with
  | ControlPeer n, ControlWorld f => ∀ w, gateways_in (f w) n = gateways_in w n
  | _, _ => True
  end.
Definition control_request_ok (req : control_request) : Prop :=
  match req with ControlPeer n => Namespace n = ns | _ => True end.
Definition control_op_ok (op : control_op) : Prop :=
  match op with ControlReq req => control_request_ok req | _ => True end.

Lemma peers_op_ok (op : pm_op) m w :
  (∀ pr, op ≠ OpAdd pr) → (∀ name, op ≠ OpDelete name) → control_inv m →
  let r := peers_op op (m, w) in
  r.1 = Done None ∧ control_inv r.2.1 ∧ r.2.2 = w ∧ ∀ n, monitored r.2.1 n = monitored m n.
Proof.
  intros H1 H2 [I1 I2 I3]. destruct op as [pr|name|order tls|i now ok labels]; [by destruct (H1 pr)|by destruct (H2 name)| |].
  - cbv zeta. unfold peers_op. unfold_st. cbn [run_pm_op fst snd]. split_and!; [done| |done|].
    + split; simpl; [by apply SetPeerCertificates_inv|done|done].
    + intros n. apply SetPeerCertificates_probed.
  - cbv zeta. unfold peers_op. unfold_st. cbn [run_pm_op fst snd]. split_and!; [done| |done|].
    + split; cbn [ctl_peers].
      * by eapply (run_pm_op_inv (OpRound i now ok labels)).
      * by destruct (allocated _ !! i).
      * by destruct (allocated _ !! i).
    + intros n. unfold monitored. cbn [ctl_peers]. destruct (allocated (ctl_peers m) !! i) as [mon|] eqn:Hi; [|done].
      refine (alter_probed _ i (SetPeer (set_reachable now ok labels (pm_pr mon))) _ n).
      intros mon'. rewrite Hi. by intros [= <-].
Qed.

Definition leaves_peers {A} (f : ST (control_manager * W) A) : Prop := ∀ m w,
  ctl_peers (f (m, w)).2.1 = ctl_peers m ∧ kView (T:=Peer) (f (m, w)).2.2 = kView w.
Lemma ret_leaves_peers {A} (a : A) : leaves_peers (mret a).
Proof. by intros m w. Qed.
Lemma with_manager_leaves_peers {A} (f : ST (Control.Manager * W) A) : keeps keeps_peers f → leaves_peers (with_manager f).
Proof.
  intros Hf m w. unfold with_manager. specialize (Hf (ctl_manager m, w)). cbn [fst snd].
  by destruct (f (ctl_manager m, w)) as [a [m' w']].
Qed.
Hint Resolve ret_leaves_peers with_manager_leaves_peers : clink.

(** A request for something that is not a peer changes no peer and no monitor. *)
Lemma other_reconciled {T} {KT : KubeClient W T} {FT : KubeFrame W T Peer} (spec : Spec W T control_manager (option error)) n :
  (∀ obj, leaves_peers (AddHandler spec obj)) → (∀ n, leaves_peers (DeleteHandler spec n)) → leaves_peers (Reconcile spec n).
Proof.
  intros Ha Hd m w. unfold Reconcile. unfold_st. cbn [fst snd].
  pose proof (frame_get (T:=T) (T':=Peer) n w) as Hg. destruct (kGet (T:=T) n w) as [[obj|err] w'] eqn:He; cbn [fst snd] in *.
  - destruct (Ha obj m w') as [-> ->]. by split.
  - destruct (IsNotFound err); [destruct (Hd n m w') as [-> ->]|]; by split.
Qed.

Lemma peer_reconciled n m w :
  control_inv m → Namespace n = ns →
  let r := Reconcile control_peer_spec n (m, w) in
  r.1 ≠ Panic ∧ control_inv r.2.1 ∧ kView (T:=Peer) r.2.2 = kView w ∧
  (r.1 = Done None → monitored r.2.1 (Name n) = gateways_in w n) ∧
  ∀ k, Namespace k = ns → monitored m (Name k) = gateways_in w k → monitored r.2.1 (Name k) = gateways_in w k.
Proof.
  intros [I1 I2 I3] Hn. cbv zeta. destruct (Reconcile_spec control_peer_spec n m w) as [Hv [[err Hr]|Hr]]; rewrite Hr.
  { split_and!; by try split. }
  assert (∀ k : NamespacedName, Namespace k = ns → Name k = Name n → k = n) as Hinj
    by (intros [] ??; destruct n; simpl in *; by subst).
  unfold gateways_in. destruct (kView w !! n) as [p|] eqn:Hp; unfold control_peer_spec; cbn [AddHandler DeleteHandler]; unfold_st; cbn [fst snd].
  - destruct (AddPeer_probed p (ctl_peers m) I1 I2 I3) as (ps & Ha & Ht & Hs & Hp1 & Hp2). rewrite Ha. cbn [fst snd].
    assert (peer_Name p = Name n) as Hname by (apply kView_key in Hp; by rewrite <- Hp). rewrite Hname in *.
    split_and!; [done| |done|done|].
    + split; cbn [ctl_peers]; [by eapply AddPeer_inv|by rewrite Ht|done].
    + intros k Hk Hat. destruct (decide (Name k = Name n)) as [Heq|Hne].
      * rewrite (Hinj k) in * by done. by rewrite Hp.
      * unfold monitored in *. cbn [ctl_peers]. by rewrite Hp2.
  - destruct (DeletePeer_probed (Name n) (ctl_peers m)) as [Hp1 Hp2]. split_and!; [done| |done|done|].
    + split; cbn [ctl_peers]; [|done|done]. intros name i Hi. simpl in Hi. apply lookup_delete_Some in Hi as [_ Hi]. by apply I1.
    + intros k Hk Hat. destruct (decide (Name k = Name n)) as [Heq|Hne].
      * rewrite (Hinj k) in * by done. by rewrite Hp.
      * unfold monitored in *. cbn [ctl_peers]. by rewrite Hp2.
Qed.

Definition control_asks (op : control_op) (req : control_request) : Prop := op = ControlReq req.

(** The state of the peers is as before. *)
Lemma at_control_same (s s' : control_manager * W) req :
  (∀ n, monitored s'.1 n = monitored s.1 n) →
  (match req with ControlPeer n => gateways_in s'.2 n = gateways_in s.2 n | _ => True end) →
  at_control s req → at_control s' req.
Proof. destruct req; simpl; try done. intros Hm Hg. by rewrite Hm, Hg. Qed.

Lemma leaves_peers_ok (f : ST (control_manager * W) (option error)) m w :
  leaves_peers f → control_inv m →
  let r := (err ← f; mret (Done err)) (m, w) : outcome (option error) * (control_manager * W) in
  r.1 ≠ Panic ∧ control_inv r.2.1 ∧ ∀ req, at_control (m, w) req → at_control r.2 req.
Proof.
  intros Hf Hinv. cbv zeta. unfold_st. destruct (Hf m w) as [Hp Hw].
  destruct (f (m, w)) as [err [m' w']]. cbn [fst snd] in *. split_and!; [done| |].
  - destruct Hinv. split; by rewrite Hp.
  - intros req. apply at_control_same; simpl; [intros k; unfold monitored; by rewrite Hp|].
    destruct req; try done. unfold gateways_in. by rewrite Hw.
Qed.

Lemma run_control_op_ok op :
  op_converges run_control_op control_asks (λ r, r = Done None) control_leaves (λ r, r ≠ Panic)
    control_op_ok control_request_ok (λ s, control_inv s.1) at_control op.
Proof.
  intros [m w] Hinv Hok. cbv zeta.
  destruct op as [[n|n|n|n|n|n]|order tls|i now ok labels|f]; cbn [run_control_op control_reconcile].
  2-6: match goal with |- context [Reconcile ?spec ?n] =>
    destruct (leaves_peers_ok (Reconcile spec n) m w) as (H1 & H2 & H3); [|done|] end;
    [apply other_reconciled; intros x;
     cbn [AddHandler DeleteHandler control_service_spec control_export_spec control_import_spec control_secret_spec control_endpointslice_spec];
     solve [eauto with clink]|].
  2-6: split_and!; [exact H1|exact H2| |by auto]; intros req Hreq _; unfold control_asks in Hreq; by injection Hreq as <-.
  - destruct (peer_reconciled n m w Hinv Hok) as (H1 & H2 & H3 & H4 & H5). split_and!; [done|done| |].
    + intros req Hreq He. unfold control_asks in Hreq. injection Hreq as <-. simpl. unfold gateways_in. rewrite H3. auto.
    + intros [k|k|k|k|k|k] Hk _; try done. simpl in *. unfold gateways_in. rewrite H3. by apply H5.
  - destruct (peers_op_ok (OpCerts order tls) m w) as (H1 & H2 & H3 & H4); [done..|]. rewrite H1. split_and!; [done|done|done|].
    intros req _ _. apply at_control_same; [done|]. destruct req; simpl; by rewrite ?H3.
  - destruct (peers_op_ok (OpRound i now ok labels) m w) as (H1 & H2 & H3 & H4); [done..|]. rewrite H1. split_and!; [done|done|done|].
    intros req _ _. apply at_control_same; [done|]. destruct req; simpl; by rewrite ?H3.
  - unfold_st. cbn [fst snd]. split_and!; [done|done|done|]. intros req _ Hl. apply at_control_same; [done|].
    destruct req; [apply Hl|done..].
Qed.

Definition control_settled : list control_op → list (outcome (option error)) → control_request → Prop :=
  settled control_asks (λ r, r = Done None) control_leaves.

(** C15: the peers that are monitored are the cluster's: whatever requests of the six
    controllers come in whatever order, with certificates renewed, statuses written and
    objects changed by others in between, no handler panics, each monitor in the map runs
    and probes its peer's gateways with the current certificates, and for a peer whose last
    successful request came after its last change these are the gateways that the API server
    has (and there is no monitor in the map if it has no such peer). *)
Theorem monitors_follow_cluster m ops w :
  control_inv m → Forall control_op_ok ops →
  let r := run_control ops (m, w) in
  Forall (λ e, e ≠ Panic) r.1 ∧ manager_inv (ctl_peers r.2.1) ∧
  ∀ n, Namespace n = ns → control_settled ops r.1 (ControlPeer n) →
    monitored r.2.1 (Name n) = gateways_in r.2.2 n.
Proof.
  intros Hinv Hops. cbv zeta.
  destruct (run_list_converges _ _ _ _ _ _ _ _ _ ops (m, w) run_control_op_ok Hinv Hops) as (H1 & H2 & H3 & _).
  split_and!; [done|by destruct H2|]. intros n Hn Hs. by apply (H3 (ControlPeer n)).
Qed.
End control.

(** ** Witness *)
Definition control_api : Type :=
  gmap NamespacedName Peer * (gmap NamespacedName Import * (gmap NamespacedName Export *
    (gmap NamespacedName Service * (gmap NamespacedName EndpointSlice * (gmap NamespacedName Secret * unit))))).
#[local] Existing Instance store_here | 1.
#[local] Existing Instance store_there | 2.
#[local] Existing Instances here_laws there_laws frame_here_there frame_there_here frame_there_there.
#[local] Existing Instances mem_client mem_laws mem_frame.
#[local] Existing Instance ref_nn_string.
#[local] Existing Instance ref_encodings.
#[local] Existing Instance ref_tls.
#[local] Instance ca_clock : Clock control_api := {| clock_now _ := 7%Z |}.
#[local] Instance ca_rand : RandBytes control_api := {| rand_Read _ := mret (Ok "0123456789abcdef0123456789abcdef") |}.
#[local] Instance ca_names : ServiceNames := {| md5_hex s := s; ShortenString s n := str_take n s |}.

Definition ca_start : control_api := ({[ om_key (peer_Meta pm_peer) := pm_peer ]}, ({[ mkNN "default" "web" := ex_imp ]}, (∅, (∅, (∅, (∅, tt)))))).
Definition ca_moved : Peer := mkPeer (mkMeta "east" "clusterlink" ∅) [mkEndpoint "10.0.0.9" 443] [] ∅.
(** The peer moves to another gateway. *)
Definition ca_move (w : control_api) : control_api := ({[ om_key (peer_Meta pm_peer) := ca_moved ]}, w.2).
Definition ca_manager : control_manager :=
  mkControl (Control.NewManager "clusterlink") (PeerMonitor.SetPeerCertificates std_ranger pm_tls newPeerManager).
Definition ca_requests : list (control_op (W:=control_api)) :=
  [ControlReq (ControlPeer (mkNN "clusterlink" "east")); ControlRound 0 5 true ∅; ControlWorld ca_move;
   ControlReq (ControlImport (mkNN "default" "web")); ControlReq (ControlPeer (mkNN "clusterlink" "east"));
   ControlReq (ControlSecret (mkNN "clusterlink" "jwk")); ControlCerts std_ranger pm_tls].
Definition ca_zero (_ : control_api) (_ : nat) : Z := 0%Z.
Abbreviation ca_end := (run_control ca_zero ca_requests (ca_manager, ca_start)).

Lemma ca_rand_frame n (w : control_api) : kView (T:=Peer) (rand_Read n w).2 = kView w.
Proof. done. Qed.

Lemma monitors_follow_cluster_witness :
  Forall (λ e, e ≠ Panic) ca_end.1 ∧ monitored ca_end.2.1 "east" = Some [mkEndpoint "10.0.0.9" 443].
Proof.
  destruct (monitors_follow_cluster ca_zero ca_rand_frame "clusterlink" ca_manager ca_requests ca_start) as (Hp & _ & Hat).
  - split; [intros name i Hi; vm_compute in Hi; discriminate|by eexists|done].
  - repeat constructor.
  - split; [exact Hp|]. etrans; [apply (Hat (mkNN "clusterlink" "east") eq_refl)|vm_compute; reflexivity].
    exists 4, (ControlReq (ControlPeer (mkNN "clusterlink" "east"))), (Done None).
    split; [reflexivity|]. split; [vm_compute; reflexivity|]. repeat constructor.
Defined.
