(* ===== verification/XdsControllers.v ===== *)
(** * The configuration reaches the data plane

    The controllers of [xds/controllers.go], run by the reconciler in any order while
    certificates are renewed and objects are changed by others, and a data plane that
    fetches the clusters.  The tables of [XdsFacts] are a ghost state: each operation changes
    them as the caches change. *)
From S2P Require Export Reconciler DataplaneFacts.
From stdpp Require Import options.
From Stdlib Require Import ZArith Lia.

#[local] Set Default Proof Using "Type".

Section xds.
Context {SC : StatusConditions} {AP : AnyPB}.
Context {LC : LinearCache Cluster} {LL : LinearCache Listener} {LS : LinearCache TLSSecret}.
Context {W : Type} {KI : KubeClient W Import} {KP : KubeClient W Peer} {KE : KubeClient W Export}.

(** A request of a controller, new certificates from the watcher, or a change that others
    make of the objects. *)
Inductive xds_op := XdsReq (req : request) | XdsCerts (raw : RawCertData) | XdsWorld (f : W → W).
Definition run_xds_op (op : xds_op) : ST (Manager * W) (option error) :=
  match op with
  | XdsReq req => reconcile req
  | XdsCerts raw => inside (SetPeerCertificates raw)
  | XdsWorld f => outside (modify f);; mret None
  end.
Definition run_xds : list xds_op → ST (Manager * W) (list (option error)) := run_list run_xds_op.

Context {KLI : KubeClientLaws W Import} {KLP : KubeClientLaws W Peer} {KLE : KubeClientLaws W Export}.
Context {FIP : KubeFrame W Import Peer} {FIE : KubeFrame W Import Export}.
Context {FPI : KubeFrame W Peer Import} {FPE : KubeFrame W Peer Export}.
Context {FEI : KubeFrame W Export Import} {FEP : KubeFrame W Export Peer}.
Context {LCL : LinearCacheLaws Cluster} {LLL : LinearCacheLaws Listener}.
Context (ns : string).
#[local] Set Default Proof Using "All".

Definition xds_op_ok (op : xds_op) : Prop := match op with XdsReq req => request_ok ns req | _ => True end.
Definition xds_asks (op : xds_op) (req : request) : Prop := op = XdsReq req.
(** The object of a request is the same. *)
Definition same_object (w w' : W) (req : request) : Prop :=
  match req with
  | ReqExport n => kView (T:=Export) w' !! n = kView w !! n
  | ReqPeer n => kView (T:=Peer) w' !! n = kView w !! n
  | ReqImport n => kView (T:=Import) w' !! n = kView w !! n
  end.
Definition xds_leaves (req : request) (op : xds_op) : Prop :=
  match op with XdsWorld f => ∀ w, same_object w (f w) req | _ => True end.
Definition xds_settled : list xds_op → list (option error) → request → Prop := settled xds_asks (eq None) xds_leaves.

(** The tables have the object of the request as it is stored. *)
Definition at_xds (t : tables) (w : W) (req : request) : Prop :=
  match req with
  | ReqExport n => t_exports t !! n = kView w !! n
  | ReqPeer n => t_peers t !! Name n = kView w !! n
  | ReqImport n => t_imports t !! n = kView w !! n
  end.
Definition tables_inv (t : tables) (s : Manager * W) : Prop := represents s.1 t ∧ tables_keyed t.

Lemma at_xds_same t w w' req : same_object w w' req → at_xds t w req → at_xds t w' req.
Proof. destruct req; simpl; by intros ->. Qed.
Lemma same_stores_object w w' req : same_stores w w' → same_object w w' req.
Proof. intros (H1 & H2 & H3). destruct req; simpl; congruence. Qed.

(** The event of a request brings the tables to the store at its object and keeps them
    there at the others. *)
Lemma event_reaches w t req :
  request_ok ns req → at_xds (table_step (event_of w req) t) w req.
Proof.
  destruct req as [n|n|n]; simpl; intros Hok.
  - destruct (kView w !! n) as [e|] eqn:He; simpl; [|by rewrite lookup_delete_eq].
    apply kView_key in He as <-. apply lookup_insert_eq.
  - destruct (kView w !! n) as [p|] eqn:Hp; simpl; [|by rewrite lookup_delete_eq].
    apply kView_key in Hp as <-. apply lookup_insert_eq.
  - destruct (kView w !! n) as [i|] eqn:Hi; simpl; [|by rewrite lookup_delete_eq].
    apply kView_key in Hi as <-. apply lookup_insert_eq.
Qed.

Lemma event_keeps w t req req' :
  request_ok ns req → request_ok ns req' → req' ≠ req → at_xds t w req' → at_xds (table_step (event_of w req) t) w req'.
Proof.
  intros Hok Hok' Hne. destruct req as [n|n|n], req' as [k|k|k]; simpl in *;
    try by (match goal with |- context [table_step (match ?o with _ => _ end)] => destruct o end; simpl; try case_match).
  - assert (k ≠ n) as Hk by congruence. destruct (kView w !! n) as [e|] eqn:He; simpl; [|by rewrite lookup_delete_ne].
    apply kView_key in He as <-. by rewrite lookup_insert_ne.
  - assert (Name n ≠ Name k) as Hk by (intros Hk; apply Hne; f_equal; destruct n, k; simpl in *; congruence).
    destruct (kView w !! n) as [p|] eqn:Hp; simpl; [|by rewrite lookup_delete_ne].
    apply kView_key in Hp as <-. by rewrite lookup_insert_ne.
  - assert (k ≠ n) as Hk by congruence.
    destruct (kView w !! n) as [i|] eqn:Hi; simpl; [|by rewrite lookup_delete_ne].
    apply kView_key in Hi as <-. by rewrite lookup_insert_ne.
Qed.

Lemma certs_same_resources raw m : same_resources m (SetPeerCertificates raw m).2.
Proof.
  unfold SetPeerCertificates, with_secrets, same_resources. unfold_st. cbn [fst snd].
  destruct (UpdateResource _ _ _) as [[err|] c]; [done|]. cbn [fst snd secrets]. by destruct (UpdateResource _ _ _).
Qed.

Lemma run_xds_op_ok op :
  op_converges_ghost run_xds_op xds_asks (eq None) xds_leaves (λ _, True) xds_op_ok (request_ok ns)
    tables_inv (λ t s, at_xds t s.2) op.
Proof.
  intros t [m w] [Hr Hk] Hok. cbv zeta. split; [done|]. destruct op as [req|raw|f]; cbn [run_xds_op].
  - destruct (reconcile_event ns req m w) as (w' & Hs & [[err ->]|Heq]); cbn [fst snd].
    { exists t. split_and!; [done|by intros ? [=]|].
      intros req' _ _. apply at_xds_same. by apply same_stores_object. }
    pose proof (handle_simulates (event_of w req) m t (event_of_ok ns w req Hok) Hr) as Hsim.
    rewrite Heq. destruct (handle _ m) as [e m']. cbn [fst snd] in *. destruct Hsim as [Hrep|[Hrep Hne]].
    + exists (table_step (event_of w req) t). split_and!; [split; [done|by apply table_step_keyed]| |].
      * intros req' [= <-] _. apply (at_xds_same _ w); [by apply same_stores_object|by apply event_reaches].
      * intros req' Hok' _ Hat. apply (at_xds_same _ w); [by apply same_stores_object|].
        destruct (decide (req' = req)) as [->|Hn]; [by apply event_reaches|by apply event_keeps].
    + exists t. split_and!; [done|by intros ? _ Hn; destruct Hne|].
      intros req' _ _. apply at_xds_same. by apply same_stores_object.
  - exists t. unfold_st. pose proof (certs_same_resources raw m) as Hs.
    destruct (SetPeerCertificates raw m) as [err m']. cbn [fst snd] in *. split_and!; [|done..].
    split; [by eapply rep_same|done].
  - exists t. unfold_st. cbn [fst snd]. split_and!; [done|done|]. intros req' _ Hl. by apply at_xds_same.
Qed.

Lemma represents_new : represents NewManager (mkTables ∅ ∅ ∅).
Proof. by split; simpl; intros *; rewrite !new_resources, ?lookup_empty; try done; constructor. Qed.

(** The caches after any operations stand for tables that have the settled objects. *)
Lemma xds_converges ops w :
  Forall xds_op_ok ops →
  let r := run_xds ops (NewManager, w) in
  ∃ t, represents r.2.1 t ∧ tables_keyed t ∧
    ∀ req, request_ok ns req → xds_settled ops r.1 req → at_xds t r.2.2 req.
Proof.
  intros Hok. cbv zeta.
  destruct (run_list_converges_ghost _ _ _ _ _ _ _ _ _ ops (mkTables ∅ ∅ ∅) (NewManager, w) run_xds_op_ok) as (_ & t & [Hr Hk] & H & _).
  - split; [apply represents_new|split_and!; apply map_Forall_empty].
  - done.
  - by exists t.
Qed.

(** C7: the configuration reaches the data plane: after any requests of the controllers in
    any order, with new certificates and changed objects in between, and any of which may
    fail, a data plane that fetches the clusters (whatever it had, in whatever order they
    come) connects, for each peer and export whose last request came after its last change
    and succeeded, as the API server has it: to the first gateway of the peer, under the TLS
    name of the peer, or to the host and the port of the export, and to nothing when there
    is no such object; and the control plane publishes a listener for each such import that
    has a valid target port, on that port, and none for an import that is gone. *)
Theorem configuration_reaches_dataplane {TL : TLSLib} {RC : ResourceCodec} {RCL : ResourceCodecLaws} ops w order cs d :
  Forall xds_op_ok ops →
  let r := run_xds ops (NewManager, w) in
  cs ≡ₚ (map_to_list (GetResources (clusters r.2.1))).*2 →
  let d' := (handleClusters order (MarshalCluster <$> cs) d).2 in
  (∀ n, Namespace n = ns → xds_settled ops r.1 (ReqPeer n) →
     let k := RemotePeerClusterName (Name n) in
     match peer_Gateways <$> kView r.2.2 !! n with
     | None => GetClusterTarget k d' = Done (not_in_cluster_map k)
     | Some [] => GetClusterTarget k d' = Panic
     | Some (g :: _) =>
         GetClusterTarget k d' = Done (Ok (address (ep_Host g) (ep_Port g))) ∧
         (plain_host (Name n) → GetClusterHost k d' = Done (Ok (Name n)))
     end) ∧
  (∀ n, no_slash (Namespace n) → xds_settled ops r.1 (ReqExport n) →
     let k := ExportClusterName (Name n) (Namespace n) in
     match kView r.2.2 !! n with
     | None => GetClusterTarget k d' = Done (not_in_cluster_map k)
     | Some e => GetClusterTarget k d' = Done (Ok (address (export_host e) (exp_Port e)))
     end) ∧
  (∀ n, no_slash (Namespace n) → xds_settled ops r.1 (ReqImport n) →
     let published := GetResources (listeners r.2.1) !! ImportListenerName (Name n) (Namespace n) in
     match kView r.2.2 !! n with
     | None => published = None
     | Some i => IsStatusConditionTrue (imp_Conditions i) ImportTargetPortValid = true →
         ∃ l, published = Some l ∧ listener_of_import i l
     end).
Proof.
  intros Hok. cbv zeta. destruct (xds_converges ops w Hok) as (t & Hr & Hk & Hat).
  destruct (run_xds ops (NewManager, w)) as [errs [m w']]. cbn [fst snd] in *. intros Hcs.
  destruct (clusters_reach_dataplane order m t cs d Hr Hk Hcs) as (_ & Hpeers & Hexports). split_and!.
  - intros n Hn Hs. specialize (Hpeers (Name n)). rewrite (Hat (ReqPeer n) Hn Hs) in Hpeers.
    by destruct (kView w' !! n) as [peer|]; simpl; [destruct (peer_Gateways peer)|].
  - intros n Hn Hs. specialize (Hexports n Hn). by rewrite (Hat (ReqExport n) Hn Hs) in Hexports.
  - intros n Hn Hs. pose proof (Hat (ReqImport n) Hn Hs) as Hi. pose proof (rep_imports _ _ Hr n Hn) as Hl.
    simpl in Hi. rewrite Hi in Hl. destruct (kView w' !! n) as [i|]; [|done].
    intros Hv. simpl in Hl. rewrite Hv in Hl. destruct Hl as (l & Hl & _ & Hl'). by exists l.
Qed.
End xds.

(** ** Witness *)
Definition xc_api : Type := gmap NamespacedName Peer * (gmap NamespacedName Import * (gmap NamespacedName Export * unit)).
#[local] Existing Instance store_here | 1.
#[local] Existing Instance store_there | 2.
#[local] Existing Instances here_laws there_laws frame_here_there frame_there_here frame_there_there.
#[local] Existing Instances mem_client mem_laws mem_frame.
#[local] Existing Instances ref_anypb ref_codec ref_tls x_clusters x_listeners x_secrets.

Definition xc_peer : NamespacedName := mkNN "clusterlink" "east".
Definition xc_start : xc_api :=
  ({[ xc_peer := x_peer ]}, ({[ imp_key x_import := x_import ]}, ({[ exp_key x_export := x_export ]}, tt))).
(** The peer moves, and the export goes. *)
Definition xc_change (w : xc_api) : xc_api :=
  (<[xc_peer := mkPeer (mkMeta "east" "clusterlink" ∅) [mkEndpoint "10.0.0.9" 8443] [] ∅]> w.1, (w.2.1, (∅, tt))).
Definition xc_ops : list (xds_op (W:=xc_api)) :=
  [XdsReq (ReqImport (imp_key x_import)); XdsReq (ReqPeer xc_peer); XdsReq (ReqExport (exp_key x_export)); XdsWorld xc_change;
   XdsCerts (mkRawCertData "cert" "key" "ca"); XdsReq (ReqPeer xc_peer); XdsReq (ReqExport (exp_key x_export))].
Abbreviation xc_run := (run_xds xc_ops (NewManager, xc_start)).
Abbreviation xc_clusters := (map_to_list (GetResources (clusters xc_run.2.1))).*2.
Abbreviation xc_fetched := (handleClusters std_ranger (MarshalCluster <$> xc_clusters) NewDataplane).

Lemma xc_settled i req rs :
  xc_ops !! i = Some (XdsReq req) → rs !! i = Some None → Forall (xds_leaves req) (drop (S i) xc_ops) →
  xds_settled xc_ops rs req.
Proof. intros Hi Hr Hl. by exists i, (XdsReq req), None. Qed.

Lemma configuration_reaches_dataplane_witness :
  GetClusterTarget (RemotePeerClusterName "east") xc_fetched.2 = Done (Ok (address "10.0.0.9" 8443)) ∧
  GetClusterTarget (ExportClusterName (exp_Name x_export) (exp_Namespace x_export)) xc_fetched.2 =
    Done (not_in_cluster_map (ExportClusterName (exp_Name x_export) (exp_Namespace x_export))).
Proof.
  destruct (configuration_reaches_dataplane "clusterlink" xc_ops xc_start std_ranger xc_clusters NewDataplane) as (Hp & He & _);
    [repeat constructor|reflexivity|].
  specialize (Hp xc_peer eq_refl). specialize (He (exp_key x_export) ltac:(by vm_compute)).
  assert (peer_Gateways <$> kView (T:=Peer) xc_run.2.2 !! xc_peer = Some [mkEndpoint "10.0.0.9" 8443]) as Ep by (vm_compute; reflexivity).
  assert (kView (T:=Export) xc_run.2.2 !! exp_key x_export = None) as Ee by (vm_compute; reflexivity).
  rewrite Ep in Hp. rewrite Ee in He. split.
  - apply Hp. apply (xc_settled 5); [reflexivity|vm_compute; reflexivity|repeat constructor].
  - apply He. apply (xc_settled 6); [reflexivity|vm_compute; reflexivity|constructor].
Defined.
