(* ===== verification/Operator.v ===== *)
(** * The operator

    [pkg/operator/controller/instance_controller.go]: it deploys ClusterLink in the
    namespace an [Instance] asks for, keeps the status of the instance, and removes the
    deployment when the instance is deleted.  One instance at most owns a namespace.
    The state is the table of owners; the outside world [W] is the API server. *)
From S2P Require Export K8s Paths.
From stdpp Require Import options.
From Stdlib Require Import ZArith Lia.
#[local] Arguments String.append !_ _ / : simpl nomatch.

Definition OperatorNamespace : string := "clusterlink-operator".
Definition InstanceNamespace : string := "clusterlink-system".
Definition FinalizerName : string := "instance.clusterlink.net/finalizer".
Definition StatusModeNotExist : string := "NotExist".
Definition StatusModeProgressing : string := "ProgressingMode".
Definition StatusModeReady : string := "Ready".
Definition ClusterRoleName : string := InstanceNamespace +:+ ":" +:+ controlplane_Name.

(** ** v1alpha1/instance_types.go *)
Definition DeploymentReady : string := "DeploymentReady".
Definition ServiceReady : string := "ServiceReady".
Definition IngressTypeNone : string := "none".
Definition IngressTypeNodePort : string := "NodePort".
Definition IngressTypeLoadBalancer : string := "LoadBalancer".
Definition DataplaneTypeGo : string := "go".
Definition DefaultExternalPort : Z := 443.

Abbreviation Conditions := (gmap string Condition).
Record IngressStatus := mkIngressStatus { igs_IP : string; igs_Port : Z; igs_Conditions : Conditions }.
Record InstanceStatus := mkInstanceStatus {
  ist_Controlplane : Conditions; ist_Dataplane : Conditions; ist_Ingress : IngressStatus
}.
Record IngressSpec := mkIngressSpec { igp_Type : string; igp_Port : Z; igp_Annotations : gmap string string }.
Record InstanceSpec := mkInstanceSpec {
  isp_DataPlaneType : string; isp_Replicas : Z; isp_Ingress : IngressSpec;
  isp_LogLevel : string; isp_ContainerRegistry : string; isp_Tag : string;
  isp_Namespace : string; isp_PeerLabels : gmap string string
}.
Record Instance_ := mkInstance {
  in_Meta : ObjectMeta; in_Creation : Z; in_Deleting : bool; in_Finalizers : list string;
  in_Spec : InstanceSpec; in_Status : InstanceStatus
}.
Definition in_Name (i : Instance_) : string := om_Name (in_Meta i).
Definition in_Namespace (i : Instance_) : string := isp_Namespace (in_Spec i).

Definition set_finalizers (fs : list string) (i : Instance_) : Instance_ :=
  mkInstance (in_Meta i) (in_Creation i) (in_Deleting i) fs (in_Spec i) (in_Status i).
Definition set_status (s : InstanceStatus) (i : Instance_) : Instance_ :=
  mkInstance (in_Meta i) (in_Creation i) (in_Deleting i) (in_Finalizers i) (in_Spec i) s.
Definition set_registry (r : string) (i : Instance_) : Instance_ :=
  let s := in_Spec i in
  mkInstance (in_Meta i) (in_Creation i) (in_Deleting i) (in_Finalizers i)
    (mkInstanceSpec (isp_DataPlaneType s) (isp_Replicas s) (isp_Ingress s) (isp_LogLevel s) r
       (isp_Tag s) (isp_Namespace s) (isp_PeerLabels s)) (in_Status i).

(** ** The Kubernetes objects the operator makes *)
Record VolumeMount := mkMount { vm_Name : string; vm_MountPath : string; vm_SubPath : string; vm_ReadOnly : bool }.
Record Container := mkContainer {
  ct_Name : string; ct_Image : string; ct_Args : list string; ct_Port : Z; ct_ReadinessPort : Z;
  ct_Mounts : list VolumeMount; ct_Env : list (string * string)      (* name, field path *)
}.
(** The reason of a condition of a deployment. *)
Record DeploymentCondition := mkDepCondition { dc_Type : string; dc_Status : string; dc_Reason : string; dc_Message : string }.
Record Deployment := mkDeployment {
  dep_Meta : ObjectMeta; dep_Replicas : Z; dep_Selector : gmap string string; dep_PodLabels : gmap string string;
  dep_ServiceAccountName : string; dep_Volumes : list (string * string);     (* name, secret *)
  dep_Containers : list Container; dep_Conditions : list DeploymentCondition
}.
Record SvcPort := mkSvcPort { svp_Name : string; svp_Protocol : string; svp_Port : Z; svp_TargetPort : Z; svp_NodePort : Z }.
Record Svc := mkSvc {
  svcs_Meta : ObjectMeta; svcs_Annotations : gmap string string; svcs_Type : string;
  svcs_Selector : gmap string string; svcs_Ports : list SvcPort; svcs_IngressIPs : list string
}.
Record ServiceAccount := mkServiceAccount { sa_Meta : ObjectMeta }.
Record PolicyRule := mkRule { pr_APIGroups : list string; pr_Resources : list string; pr_Verbs : list string }.
Record ClusterRole := mkClusterRole { cr_Meta : ObjectMeta; cr_Rules : list PolicyRule }.
Record Subject := mkSubject { sub_Kind : string; sub_Name : string; sub_Namespace : string }.
Record ClusterRoleBinding := mkBinding { crb_Meta : ObjectMeta; crb_Role : string; crb_Subjects : list Subject }.
Record Node := mkNode { node_Meta : ObjectMeta; node_Addresses : list string }.

(** A resource that is not namespaced is found by its name only. *)
Definition cluster_scoped (n : NamespacedName) : NamespacedName := mkNN "" (Name n).
Definition meta (name namespace : string) : ObjectMeta := mkMeta name namespace ∅.

#[export] Instance Deployment_object : KubeObject Deployment :=
  {| kKey d := om_key (dep_Meta d); kLabels d := om_Labels (dep_Meta d) |}.
#[export] Instance Svc_object : KubeObject Svc :=
  {| kKey s := om_key (svcs_Meta s); kLabels s := om_Labels (svcs_Meta s) |}.
#[export] Instance ServiceAccount_object : KubeObject ServiceAccount :=
  {| kKey s := om_key (sa_Meta s); kLabels s := om_Labels (sa_Meta s) |}.
#[export] Instance ClusterRole_object : KubeObject ClusterRole :=
  {| kKey s := cluster_scoped (om_key (cr_Meta s)); kLabels s := om_Labels (cr_Meta s) |}.
#[export] Instance ClusterRoleBinding_object : KubeObject ClusterRoleBinding :=
  {| kKey s := cluster_scoped (om_key (crb_Meta s)); kLabels s := om_Labels (crb_Meta s) |}.
#[export] Instance Instance_object : KubeObject Instance_ :=
  {| kKey i := om_key (in_Meta i); kLabels i := om_Labels (in_Meta i) |}.

(** [controllerutil]: the list of finalizers of an object. *)
Class Controllerutil := {
  ContainsFinalizer : list string → string → bool;
  AddFinalizer : list string → string → list string;
  RemoveFinalizer : list string → string → list string
}.

(** *** What is deployed *)

(** The conversion of an [int] to an [int32]. *)
Definition int32 (z : Z) : Z := ((z + 2147483648) mod 4294967296 - 2147483648)%Z.
Definition setDeployment (name namespace : string) (replicas : Z) (account : string)
    (volumes : list (string * string)) (container : Container) : Deployment :=
  mkDeployment (meta name namespace) replicas {[ "app" := name ]} {[ "app" := name ]}
    account volumes [container] [].

Definition image (i : Instance_) (name : string) : string :=
  isp_ContainerRegistry (in_Spec i) +:+ name +:+ ":" +:+ isp_Tag (in_Spec i).

Definition controlplane_deployment (order : ranger string string) (i : Instance_) : Deployment :=
  let containerArgs := ["--log-level"; isp_LogLevel (in_Spec i)] ++
    concat (map (λ kv, ["--peer-label"; kv.1 +:+ "=" +:+ kv.2]) (order (isp_PeerLabels (in_Spec i)))) in
  setDeployment controlplane_Name (in_Namespace i) 1 controlplane_Name
    [("ca", "cl-ca"); ("tls", controlplane_Name); ("peer-tls", "cl-peer")]
    (mkContainer controlplane_Name (image i controlplane_Name) containerArgs controlplane_ListenPort ReadinessListenPort
       [mkMount "ca" CAFile "ca" true; mkMount "tls" cp_CertificateFile "cert" true;
        mkMount "tls" cp_KeyFile "key" true; mkMount "peer-tls" PeerTLSDirectory "" true]
       [(NamespaceEnvVariable, "metadata.namespace")]).

Definition dataplane_deployment (i : Instance_) : Deployment :=
  let DataplaneImage := if decide (isp_DataPlaneType (in_Spec i) = DataplaneTypeGo)
                        then GoDataplaneName else dataplane_Name in
  setDeployment dataplane_Name (in_Namespace i) (int32 (isp_Replicas (in_Spec i))) ""
    [("ca", "cl-ca"); ("tls", dataplane_Name)]
    (mkContainer "dataplane" (image i DataplaneImage)
       ["--log-level"; isp_LogLevel (in_Spec i); "--controlplane-host"; controlplane_Name]
       dataplane_ListenPort ReadinessListenPort
       [mkMount "ca" CAFile "ca" true; mkMount "tls" dp_CertificateFile "cert" true;
        mkMount "tls" dp_KeyFile "key" true] []).

Definition internal_service (name namespace : string) (port : Z) : Svc :=
  mkSvc (meta name namespace) ∅ "ClusterIP" {[ "app" := name ]} [mkSvcPort "" "TCP" port 0 0] [].

Definition external_service (i : Instance_) : Svc :=
  let ing := isp_Ingress (in_Spec i) in
  let mk ty port nodePort :=
    mkSvc (meta IngressSvcName (in_Namespace i)) (igp_Annotations ing) ty {[ "app" := dataplane_Name ]}
      [mkSvcPort "https" "" port dataplane_ListenPort nodePort] [] in
  if decide (igp_Type ing = IngressTypeNodePort) then
    mk "NodePort" DefaultExternalPort (if decide (igp_Port ing = 0%Z) then 0%Z else igp_Port ing)
  else if decide (igp_Type ing = IngressTypeLoadBalancer) then
    mk "LoadBalancer" (if decide (igp_Port ing = 0%Z) then DefaultExternalPort else igp_Port ing) 0%Z
  else mk "" DefaultExternalPort 0%Z.

Definition cluster_role : ClusterRole :=
  mkClusterRole (meta ClusterRoleName "")
    [mkRule [""] ["events"] ["create"; "update"];
     mkRule [""] ["secrets"] ["get"; "list"; "watch"; "create"; "update"];
     mkRule [""] ["services"] ["get"; "list"; "watch"; "create"; "delete"; "update"];
     mkRule ["coordination.k8s.io"] ["leases"] ["get"; "create"; "update"];
     mkRule ["discovery.k8s.io"] ["endpointslices"] ["get"; "list"; "watch"; "create"; "delete"; "update"];
     mkRule [""] ["pods"] ["get"; "list"; "watch"];
     mkRule ["clusterlink.net"] ["peers"; "exports"; "accesspolicies"; "privilegedaccesspolicies"] ["get"; "list"; "watch"];
     mkRule ["clusterlink.net"] ["imports"] ["get"; "list"; "watch"; "update"];
     mkRule ["clusterlink.net"] ["peers/status"; "exports/status"; "imports/status"] ["update"]].
Definition cluster_role_binding (namespace : string) : ClusterRoleBinding :=
  mkBinding (meta ClusterRoleName "") ClusterRoleName [mkSubject "ServiceAccount" controlplane_Name namespace].

(** ** The reconciler *)

(** A call of the operator: it may panic, fail, or give a value. *)
Notation call S A := (ST S (outcome (result A))).
Notation "'run!' x ':=' m 'in' k" :=
  (mbind (λ r, match r with
               | Done (Ok x) => k
               | Done (Err e) => mret (Done (Err e))
               | Panic => mret Panic
               end) m)
  (at level 10, x pattern, m at level 200, k at level 200,
   format "'[v' 'run!'  x  ':='  m  'in' '/' k ']'") : go_scope.
Definition give {S A} (a : A) : call S A := mret (Done (Ok a)).
Definition fail {S A} (e : error) : call S A := mret (Done (Err e)).

(** [Instances]: the owners of the namespaces. *)
Abbreviation owners := (gmap string string).

Section operator.
Context {W : Type} {CU : Controllerutil} {CL : Clock W}.
Context {KI : KubeClient W Instance_} {KD : KubeClient W Deployment} {KS : KubeClient W Svc}.
Context {KA : KubeClient W ServiceAccount} {KR : KubeClient W ClusterRole} {KB : KubeClient W ClusterRoleBinding}.
Context {KN : KubeClient W Node}.
Context (label_order : ranger string string).

(** [createResource]: an object that exists is left as it is. *)
Definition createResource {T} {KO : KubeObject T} {KT : KubeClient W T} (object : T) : call W unit :=
  r ← kGet (T:=T) (kKey object);
  match r with
  | Ok _ => give tt
  | Err err =>
      if negb (IsNotFound err) then fail err
      else r ← kCreate object; mret (Done (const tt <$> r))
  end.

Definition createOrUpdateResource {T} {KO : KubeObject T} {KT : KubeClient W T} (object : T) : call W unit :=
  r ← kCreate object;
  match r with
  | Ok _ => give tt
  | Err err =>
      if IsAlreadyExists err then r ← kUpdate object; mret (Done (const tt <$> r)) else fail err
  end.

Definition deleteResource {T} {KT : KubeClient W T} (key : NamespacedName) : call W unit :=
  err ← kDelete (T:=T) key;
  match err with
  | Some err => if IsNotFound err then give tt else fail err
  | None => give tt
  end.

Definition createAccessControl (name namespace : string) : call W unit :=
  run! _ := createResource (mkServiceAccount (meta name namespace)) in
  run! _ := createResource cluster_role in
  createResource (cluster_role_binding namespace).

Definition createExternalService (i : Instance_) : call W unit :=
  if decide (igp_Type (isp_Ingress (in_Spec i)) = IngressTypeNone) then give tt
  else createResource (external_service i).

Definition registry_with_slash (s : string) : string :=
  if decide (s ≠ "" ∧ str_drop (String.length s - 1) s ≠ "/") then s +:+ "/" else s.

Definition applyClusterLink (i : Instance_) : call W unit :=
  let i := set_registry (registry_with_slash (isp_ContainerRegistry (in_Spec i))) i in
  run! _ := createAccessControl controlplane_Name (in_Namespace i) in
  run! _ := createResource (internal_service controlplane_Name (in_Namespace i) controlplane_ListenPort) in
  run! _ := createOrUpdateResource (controlplane_deployment label_order i) in
  run! _ := createOrUpdateResource (dataplane_deployment i) in
  createExternalService i.

Definition deleteClusterLink (namespace : string) : call W unit :=
  let cpObj := mkNN namespace controlplane_Name in
  let cprRuleObj := cluster_scoped (mkNN namespace ClusterRoleName) in
  run! _ := deleteResource (T:=Deployment) cpObj in
  run! _ := deleteResource (T:=Svc) cpObj in
  run! _ := deleteResource (T:=ClusterRole) cprRuleObj in
  run! _ := deleteResource (T:=ClusterRoleBinding) cprRuleObj in
  let dpObj := mkNN namespace dataplane_Name in
  run! _ := deleteResource (T:=Deployment) dpObj in
  run! _ := deleteResource (T:=Svc) dpObj in
  deleteResource (T:=Svc) (mkNN namespace IngressSvcName).

(** [r.Update]: the instance is replaced by the answer. *)
Definition createFinalizer (i : Instance_) : call W Instance_ :=
  if ContainsFinalizer (in_Finalizers i) FinalizerName then give i
  else r ← kUpdate (set_finalizers (AddFinalizer (in_Finalizers i) FinalizerName) i); mret (Done r).
Definition deleteFinalizer (i : Instance_) : call W Instance_ :=
  r ← kUpdate (set_finalizers (RemoveFinalizer (in_Finalizers i) FinalizerName) i); mret (Done r).

(** *** Status *)
Definition addCondition (acc : Conditions * bool) (newCondition : Condition) : Conditions * bool :=
  let (conds, update) := acc in
  match conds !! cond_Type newCondition with
  | Some c =>
      if decide (cond_Status c ≠ cond_Status newCondition ∨ cond_Message c ≠ cond_Message newCondition)
      then (<[cond_Type newCondition := newCondition]> conds, true) else (conds, update)
  | None => (<[cond_Type newCondition := newCondition]> conds, true)
  end.
Definition updateCondition (conditions : Conditions) (newConditions : list Condition) : Conditions * bool :=
  foldl addCondition (conditions, false) newConditions.

Definition DeploymentAvailable : string := "Available".
Definition DeploymentProgressing : string := "Progressing".
Definition DeploymentReplicaFailure : string := "ReplicaFailure".

(** The first condition that decides; [None] while none does. *)
Fixpoint deployment_state (conditions : list DeploymentCondition) : option (string * string * string) :=
  match conditions with
  | [] => None
  | c :: conditions' =>
      if decide (dc_Type c = DeploymentAvailable) then
        if decide (dc_Status c = ConditionTrue)
        then Some (ConditionTrue, StatusModeReady, "Deployment is ready") else deployment_state conditions'
      else if decide (dc_Type c = DeploymentProgressing ∨ dc_Type c = DeploymentReplicaFailure) then
        if decide (dc_Status c ≠ ConditionTrue)
        then Some (ConditionFalse, dc_Reason c, dc_Message c) else deployment_state conditions'
      else deployment_state conditions'
  end.

Definition checkDeploymnetStatus (name : NamespacedName) : call W Condition :=
  w ← getS;
  let now := clock_now w in
  r ← kGet (T:=Deployment) name;
  match r with
  | Err err =>
      if IsNotFound err then
        give (mkCondition DeploymentReady ConditionFalse "NotExist" "Deployment does not exist" now 0)
      else fail err
  | Ok d =>
      let '(status, reason, message) :=
        default (ConditionFalse, StatusModeProgressing, "Deployment is in progressing mode")
                (deployment_state (dep_Conditions d)) in
      give (mkCondition DeploymentReady status reason message now 0)
  end.

(** The service is [None] when it does not exist. *)
Definition checkServiceStatus (name : NamespacedName) : call W (option Svc * Condition) :=
  w ← getS;
  let now := clock_now w in
  r ← kGet (T:=Svc) name;
  match r with
  | Err err =>
      if IsNotFound err then
        give (None, mkCondition ServiceReady ConditionFalse StatusModeNotExist "Service does not exist" now 0)
      else fail err
  | Ok s => give (Some s, mkCondition ServiceReady ConditionTrue StatusModeReady "Service is ready" now 0)
  end.

(** An empty list of addresses is indexed. *)
Definition getNodeIP : call W string :=
  r ← kList (T:=Node) (mkListOptions None ∅);
  mret match r with
  | Err err => Done (Err (EWrap "failed to get nodes" err))
  | Ok [] => Done (Err (ENew "no nodes found in the cluster"))
  | Ok (n :: _) => match node_Addresses n with [] => Panic | ip :: _ => Done (Ok ip) end
  end.

Definition checkExternalServiceStatus (name : NamespacedName) (ig : IngressStatus) :
    call W (Condition * IngressStatus) :=
  run! (s, status) := checkServiceStatus name in
  match s with
  | None => give (status, ig)
  | Some s =>
      if decide (svcs_Type s = "LoadBalancer") then
        match svcs_Ports s with
        | [] => mret Panic
        | p :: _ => give (status, mkIngressStatus (default "pending" (head (svcs_IngressIPs s))) (svp_Port p) (igs_Conditions ig))
        end
      else if decide (svcs_Type s = "NodePort") then
        match svcs_Ports s with
        | [] => mret Panic
        | p :: _ =>
            ip ← getNodeIP;
            match ip with
            | Panic => mret Panic
            | Done ip => give (status, mkIngressStatus (match ip with Ok ip => ip | Err _ => igs_IP ig end)
                                         (svp_NodePort p) (igs_Conditions ig))
            end
        end
      else give (status, ig)
  end.

(** The conditions of a component, and whether one of them changed. *)
Definition checkComponentStatus (name : string) (i : Instance_) (conds : Conditions) : call W (Conditions * bool) :=
  let key := mkNN (in_Namespace i) name in
  run! deploymentStatus := checkDeploymnetStatus key in
  run! (_, serviceStatus) := checkServiceStatus key in
  give (updateCondition conds [deploymentStatus; serviceStatus]).

Definition checkControlplaneStatus (i : Instance_) : call W (Instance_ * bool) :=
  let st := in_Status i in
  run! (conds, update) := checkComponentStatus controlplane_Name i (ist_Controlplane st) in
  give (set_status (mkInstanceStatus conds (ist_Dataplane st) (ist_Ingress st)) i, update).
Definition checkDataplaneStatus (i : Instance_) : call W (Instance_ * bool) :=
  let st := in_Status i in
  run! (conds, update) := checkComponentStatus dataplane_Name i (ist_Dataplane st) in
  give (set_status (mkInstanceStatus (ist_Controlplane st) conds (ist_Ingress st)) i, update).
Definition checkIngressStatus (i : Instance_) : call W (Instance_ * bool) :=
  let st := in_Status i in
  run! (serviceStatus, ig) := checkExternalServiceStatus (mkNN (in_Namespace i) IngressSvcName) (ist_Ingress st) in
  let (conds, update) := updateCondition (igs_Conditions ig) [serviceStatus] in
  give (set_status (mkInstanceStatus (ist_Controlplane st) (ist_Dataplane st)
                      (mkIngressStatus (igs_IP ig) (igs_Port ig) conds)) i, update).

Definition checkStatus (i : Instance_) : call W Instance_ :=
  run! (i, cpUpdate) := checkControlplaneStatus i in
  run! (i, dpUpdate) := checkDataplaneStatus i in
  run! (i, ingressUpdate) :=
    (if decide (igp_Type (isp_Ingress (in_Spec i)) ≠ IngressTypeNone) then checkIngressStatus i else give (i, false)) in
  if cpUpdate || dpUpdate || ingressUpdate then r ← kStatusUpdate i; mret (Done r) else give i.

Definition updateFailureStatus (i : Instance_) : call W unit :=
  w ← getS;
  let cond := mkCondition DeploymentReady ConditionFalse StatusModeNotExist "" (clock_now w) 0 in
  let st := in_Status i in
  let (cp, cpUpdate) := updateCondition (ist_Controlplane st) [cond] in
  let (dp, dpUpdate) := updateCondition (ist_Dataplane st) [cond] in
  if cpUpdate || dpUpdate then
    r ← kStatusUpdate (set_status (mkInstanceStatus cp dp (ist_Ingress st)) i); mret (Done (const tt <$> r))
  else give tt.

(** *** [Reconcile] *)

(** [ctrl.Result]: the seconds after which the request is run again. *)
Definition ctrlResult : Type := option Z.

Definition reason_of (conds : Conditions) (t : string) : string := default "" (cond_Reason <$> conds !! t).

(** The earliest of the other instances that ask for the namespace. *)
Definition earliest (name namespace : string) (items : list Instance_) : option Instance_ :=
  foldl (λ acc i,
    if decide (in_Namespace i = namespace ∧ in_Name i ≠ name) then
      match acc with
      | None => Some i
      | Some e => if decide (in_Creation i < in_Creation e)%Z then Some i else acc
      end
    else acc) None items.

(** [Reconcile] and [triggerAnotherInstance] call each other; [None] when the fuel is used up. *)
Definition triggerAnotherInstance (rec : NamespacedName → ST (owners * W) (option (outcome (result ctrlResult))))
    (name namespace : string) : ST (owners * W) (option (outcome (result ctrlResult))) :=
  items ← outside (kList (T:=Instance_) (mkListOptions (Some OperatorNamespace) ∅));
  match items with
  | Err err => mret (Some (Done (Err err)))
  | Ok items =>
      match earliest name namespace items with
      | None => mret (Some (Done (Ok None)))
      | Some e =>
          r ← rec (mkNN (om_Namespace (in_Meta e)) (in_Name e));
          mret match r with
               | Some (Done (Ok _)) => Some (Done (Ok None))
               | r => r
               end
      end
  end.

(** [None] is an instance the handler goes on with: it owns its namespace. *)
Definition claim_namespace (i : Instance_) : ST (owners * W) (option (outcome (result unit))) :=
  o ← gets fst;
  match o !! in_Namespace i with
  | Some name =>
      if decide (in_Name i ≠ name) then r ← outside (updateFailureStatus i); mret (Some r) else mret None
  | None => modify (λ s, (<[in_Namespace i := in_Name i]> s.1, s.2));; mret None
  end.

Definition reconcile_deleted (i : Instance_) : call (owners * W) Instance_ :=
  run! _ := outside (deleteClusterLink (in_Namespace i)) in
  run! i := outside (deleteFinalizer i) in
  modify (λ s, (delete (in_Namespace i) s.1, s.2));;
  give i.

Definition reconcile_present (i : Instance_) : call (owners * W) ctrlResult :=
  r ← outside (createFinalizer i);
  match r with
  | Panic => mret Panic
  | Done (Err err) => fail (EPrefix "can't create Finalizer" err)
  | Done (Ok i) =>
  r ← outside (checkStatus i);
  match r with
  | Panic => mret Panic
  | Done (Err err) => fail (EPrefix "can't check components status" err)
  | Done (Ok i) =>
  r ← outside (applyClusterLink i);
  match r with
  | Panic => mret Panic
  | Done (Err err) => fail (EPrefix "can't apply clusterlink components" err)
  | Done (Ok _) =>
      if decide (reason_of (ist_Controlplane (in_Status i)) DeploymentReady = StatusModeProgressing ∨
                 reason_of (ist_Dataplane (in_Status i)) DeploymentReady = StatusModeProgressing)
      then give (Some 3%Z) else give None
  end end end.

Fixpoint Reconcile (fuel : nat) (req : NamespacedName) : ST (owners * W) (option (outcome (result ctrlResult))) :=
  match fuel with
  | O => mret None
  | S fuel' =>
      i ← outside (kGet (T:=Instance_) req);
      match i with
      | Err err => mret (Some (Done (if IsNotFound err then Ok None else Err err)))
      | Ok i =>
          claimed ← claim_namespace i;
          match claimed with
          | Some r => mret (Some match r with Panic => Panic | Done r => Done (const None <$> r) end)
          | None =>
              if in_Deleting i then
                r ← reconcile_deleted i;
                match r with
                | Panic => mret (Some Panic)
                | Done (Err err) => mret (Some (Done (Err err)))
                | Done (Ok i) => triggerAnotherInstance (Reconcile fuel') (in_Name i) (in_Namespace i)
                end
              else r ← reconcile_present i; mret (Some r)
          end
      end
  end.
End operator.
