(* ===== verification/OperatorServer.v ===== *)
(** * The API server of the operator

    The laws the theorems about the operator rest on, and a server in memory that
    keeps them: it holds the instances and, besides them, every object the operator
    submits. *)
From S2P Require Export Operator ApiServer.
From stdpp Require Import options.
From Stdlib Require Import ZArith Lia.

(** ** What the API server promises the operator

    [objects] holds every object as it was last submitted; the fields the server
    fills in and the status the cluster reports are not part of it. *)
Inductive object :=
  | ODeployment (d : Deployment)
  | OService (s : Svc)
  | OServiceAccount (a : ServiceAccount)
  | OClusterRole (r : ClusterRole)
  | OClusterRoleBinding (b : ClusterRoleBinding).
Abbreviation objects := (gmap (string * NamespacedName) object).

Class ObjectKind (T : Type) := { kind : string; as_object : T → object }.
#[export] Instance Deployment_kind : ObjectKind Deployment := {| kind := "Deployment"; as_object := ODeployment |}.
#[export] Instance Svc_kind : ObjectKind Svc := {| kind := "Service"; as_object := OService |}.
#[export] Instance ServiceAccount_kind : ObjectKind ServiceAccount := {| kind := "ServiceAccount"; as_object := OServiceAccount |}.
#[export] Instance ClusterRole_kind : ObjectKind ClusterRole := {| kind := "ClusterRole"; as_object := OClusterRole |}.
#[export] Instance ClusterRoleBinding_kind : ObjectKind ClusterRoleBinding :=
  {| kind := "ClusterRoleBinding"; as_object := OClusterRoleBinding |}.
Definition okey (T : Type) `{ObjectKind T} (k : NamespacedName) : string * NamespacedName := (kind (T:=T), k).

Class Server (W : Type) := { submitted : W → objects; instances : W → gmap NamespacedName Instance_ }.
(** The parts of the server a call may not change. *)
Definition same_objects {W} `{Server W} (w w' : W) : Prop := submitted w' = submitted w.
Definition same_instances {W} `{Server W} (w w' : W) : Prop := instances w' = instances w.
Definition unchanged {W} `{Server W} (w w' : W) : Prop := same_objects w w' ∧ same_instances w w'.
#[export] Instance unchanged_preorder {W} `{Server W} : PreOrder unchanged.
Proof.
  split; [done|]. intros w1 w2 w3 [H1 H2] [H3 H4]. unfold unchanged, same_objects, same_instances in *. split; congruence.
Qed.

Class ObjectLaws (W T : Type) `{!Server W} `{!KubeObject T} `{!ObjectKind T} `{!KubeClient W T} := {
  obj_get k w : unchanged w (kGet (T:=T) k w).2;
  obj_get_ok k w x : (kGet (T:=T) k w).1 = Ok x → is_Some (submitted w !! okey T k);
  obj_get_notfound k w e : (kGet (T:=T) k w).1 = Err e → IsNotFound e = true → submitted w !! okey T k = None;
  obj_create_ok (x : T) w y : (kCreate x w).1 = Ok y →
    submitted (kCreate x w).2 = <[okey T (kKey x) := as_object x]> (submitted w);
  obj_create_exists (x : T) w e : (kCreate x w).1 = Err e → IsAlreadyExists e = true →
    unchanged w (kCreate x w).2;
  obj_update_ok (x : T) w y : (kUpdate x w).1 = Ok y →
    submitted (kUpdate x w).2 = <[okey T (kKey x) := as_object x]> (submitted w);
  obj_delete_ok k w : (kDelete (T:=T) k w).1 = None →
    submitted (kDelete (T:=T) k w).2 = delete (okey T k) (submitted w);
  obj_delete_notfound k w e : (kDelete (T:=T) k w).1 = Some e → IsNotFound e = true →
    unchanged w (kDelete (T:=T) k w).2 ∧ submitted w !! okey T k = None;
  obj_create_instances (x : T) w : same_instances w (kCreate x w).2;
  obj_update_instances (x : T) w : same_instances w (kUpdate x w).2;
  obj_delete_instances k w : same_instances w (kDelete (T:=T) k w).2
}.

(** An update writes an instance without its status, a status update writes its status
    only; the server removes an instance that is being deleted when its last finalizer
    is removed. *)
Definition stored (i : Instance_) (m : gmap NamespacedName Instance_) : gmap NamespacedName Instance_ :=
  if decide (in_Deleting i = true ∧ in_Finalizers i = []) then delete (kKey i) m else <[kKey i := i]> m.
Class InstanceLaws (W : Type) `{!Server W} `{!KubeClient W Instance_} := {
  inst_get k w : unchanged w (kGet (T:=Instance_) k w).2;
  inst_get_ok k w i : (kGet (T:=Instance_) k w).1 = Ok i → instances w !! k = Some i ∧ kKey i = k;
  inst_get_notfound k w e : (kGet (T:=Instance_) k w).1 = Err e → IsNotFound e = true → instances w !! k = None;
  inst_list o w : unchanged w (kList (T:=Instance_) o w).2;
  inst_list_ok ns w is_ : (kList (T:=Instance_) (mkListOptions (Some ns) ∅) w).1 = Ok is_ →
    ∀ i, i ∈ is_ ↔ instances w !! kKey i = Some i ∧ Namespace (kKey i) = ns;
  inst_update i w j : (kUpdate i w).1 = Ok j → ∀ i0, instances w !! kKey i = Some i0 → in_Status i = in_Status i0 →
    j = i ∧ instances (kUpdate i w).2 = stored i (instances w);
  inst_status i w j : (kStatusUpdate i w).1 = Ok j → ∀ i0, instances w !! kKey i = Some i0 → set_status (in_Status i) i0 = i →
    j = i ∧ instances (kStatusUpdate i w).2 = <[kKey i := i]> (instances w);
  inst_update_objects i w : same_objects w (kUpdate i w).2;
  inst_status_objects i w : same_objects w (kStatusUpdate i w).2
}.
Class NodeLaws (W : Type) `{!Server W} `{!KubeClient W Node} := {
  node_list o w : unchanged w (kList (T:=Node) o w).2
}.

Class ControllerutilLaws `{!Controllerutil} := {
  contains_spec fs f : ContainsFinalizer fs f = true ↔ f ∈ fs;
  add_spec fs f g : g ∈ AddFinalizer fs f ↔ g ∈ fs ∨ g = f;
  remove_spec fs f g : g ∈ RemoveFinalizer fs f ↔ g ∈ fs ∧ g ≠ f
}.


(** ** A server in memory *)
Record cluster := mkCluster { cl_objects : objects; cl_instances : gmap NamespacedName Instance_ }.
#[export] Instance cluster_server : Server cluster := {| submitted := cl_objects; instances := cl_instances |}.
#[export] Instance cluster_clock : Clock cluster := {| clock_now _ := 0%Z |}.
Definition set_objects (f : objects → objects) (c : cluster) : cluster := mkCluster (f (cl_objects c)) (cl_instances c).
Definition set_instances (f : gmap NamespacedName Instance_ → gmap NamespacedName Instance_) (c : cluster) : cluster :=
  mkCluster (cl_objects c) (f (cl_instances c)).

(** An object of another kind is never under the key of a kind. *)
Class OfObject (T : Type) := { of_object : object → option T }.
#[export] Instance of_Deployment : OfObject Deployment := {| of_object o := if o is ODeployment d then Some d else None |}.
#[export] Instance of_Svc : OfObject Svc := {| of_object o := if o is OService s then Some s else None |}.
#[export] Instance of_ServiceAccount : OfObject ServiceAccount := {| of_object o := if o is OServiceAccount a then Some a else None |}.
#[export] Instance of_ClusterRole : OfObject ClusterRole := {| of_object o := if o is OClusterRole r then Some r else None |}.
#[export] Instance of_ClusterRoleBinding : OfObject ClusterRoleBinding :=
  {| of_object o := if o is OClusterRoleBinding b then Some b else None |}.

Section cluster.
Context {T : Type} {KO : KubeObject T} {OK : ObjectKind T} {OO : OfObject T}.

Definition cluster_client : KubeClient cluster T := {|
  kGet k c := (match cl_objects c !! okey T k with
               | Some o => match of_object o with Some x => Ok x | None => Err (ENew "wrong kind") end
               | None => Err not_found
               end, c);
  kList _ c := (Ok [], c);
  kCreate x c := match cl_objects c !! okey T (kKey x) with
                 | Some _ => (Err already_exists, c)
                 | None => (Ok x, set_objects <[okey T (kKey x) := as_object x]> c)
                 end;
  kUpdate x c := match cl_objects c !! okey T (kKey x) with
                 | Some _ => (Ok x, set_objects <[okey T (kKey x) := as_object x]> c)
                 | None => (Err not_found, c)
                 end;
  kStatusUpdate x c := (Ok x, c);
  kDelete k c := match cl_objects c !! okey T k with
                 | Some _ => (None, set_objects (delete (okey T k)) c)
                 | None => (Some not_found, c)
                 end
|}.

Lemma cluster_laws : @ObjectLaws cluster T _ _ _ cluster_client.
Proof using Type.
  split; simpl; try done.
  - intros k c x. by destruct (cl_objects c !! okey T k).
  - intros k c e. destruct (cl_objects c !! okey T k) as [o|]; [|done]. by destruct (of_object o); intros [= <-].
  - intros x c y. by destruct (cl_objects c !! _).
  - intros x c e. by destruct (cl_objects c !! _).
  - intros x c y. by destruct (cl_objects c !! _).
  - intros k c. by destruct (cl_objects c !! _).
  - intros k c e. by destruct (cl_objects c !! okey T k).
  - intros x c. by destruct (cl_objects c !! _).
  - intros x c. by destruct (cl_objects c !! _).
  - intros k c. by destruct (cl_objects c !! _).
Qed.
End cluster.

#[export] Instance cluster_deployments : KubeClient cluster Deployment := cluster_client.
#[export] Instance cluster_services : KubeClient cluster Svc := cluster_client.
#[export] Instance cluster_accounts : KubeClient cluster ServiceAccount := cluster_client.
#[export] Instance cluster_roles : KubeClient cluster ClusterRole := cluster_client.
#[export] Instance cluster_bindings : KubeClient cluster ClusterRoleBinding := cluster_client.
#[export] Instance cluster_deployments_laws : ObjectLaws cluster Deployment := cluster_laws.
#[export] Instance cluster_services_laws : ObjectLaws cluster Svc := cluster_laws.
#[export] Instance cluster_accounts_laws : ObjectLaws cluster ServiceAccount := cluster_laws.
#[export] Instance cluster_roles_laws : ObjectLaws cluster ClusterRole := cluster_laws.
#[export] Instance cluster_bindings_laws : ObjectLaws cluster ClusterRoleBinding := cluster_laws.

(** The cluster has no nodes. *)
#[export] Instance cluster_nodes : KubeClient cluster Node := {|
  kGet _ c := (Err not_found, c); kList _ c := (Ok [], c); kCreate x c := (Ok x, c);
  kUpdate x c := (Ok x, c); kStatusUpdate x c := (Ok x, c); kDelete _ c := (None, c)
|}.
#[export] Instance cluster_nodes_laws : NodeLaws cluster.
Proof. split. by intros o c. Qed.

#[export] Instance cluster_instances : KubeClient cluster Instance_ := {|
  kGet k c := (match cl_instances c !! k with
               | Some i => if decide (kKey i = k) then Ok i else Err (ENew "wrong key")
               | None => Err not_found
               end, c);
  kList o c := (Ok (filter (λ ki, kKey ki.2 = ki.1 ∧ lo_Namespace o = Some (Namespace ki.1))
                      (map_to_list (cl_instances c))).*2, c);
  kCreate i c := (Err already_exists, c);
  kUpdate i c := match cl_instances c !! kKey i with
                 | Some i0 => let i' := set_status (in_Status i0) i in (Ok i', set_instances (stored i') c)
                 | None => (Err not_found, c)
                 end;
  kStatusUpdate i c := match cl_instances c !! kKey i with
                       | Some i0 => let i' := set_status (in_Status i) i0 in (Ok i', set_instances <[kKey i := i']> c)
                       | None => (Err not_found, c)
                       end;
  kDelete _ c := (None, c)
|}.
#[export] Instance cluster_instances_laws : InstanceLaws cluster.
Proof.
  split; simpl; try done.
  - intros k c i. destruct (cl_instances c !! k) as [j|]; [|done]. by case_decide; intros [= <-].
  - intros k c e. destruct (cl_instances c !! k) as [j|]; [|done]. by case_decide; intros [= <-].
  - intros ns c is_ [= <-] i. rewrite list_elem_of_fmap. split.
    + intros ([k j] & -> & [[Hk Hns] Hj%elem_of_map_to_list]%list_elem_of_filter). simpl in *. subst k.
      split; [done|]. by injection Hns.
    + intros [Hi Hns]. exists (kKey i, i). rewrite list_elem_of_filter, elem_of_map_to_list. simpl. by rewrite Hns.
  - intros i c j. destruct (cl_instances c !! _) as [i0|] eqn:Hi0; [|done]. intros [= <-] i1 [= <-] Hst.
    assert (set_status (in_Status i0) i = i) as -> by (rewrite <- Hst; by destruct i). done.
  - intros i c j. destruct (cl_instances c !! _) as [i0|] eqn:Hi0; [|done]. intros [= <-] i1 [= <-] Hst. by rewrite Hst.
  - intros i c. by destruct (cl_instances c !! _).
  - intros i c. by destruct (cl_instances c !! _).
Qed.

#[export] Instance ref_controllerutil : Controllerutil := {|
  ContainsFinalizer fs f := bool_decide (f ∈ fs);
  AddFinalizer fs f := if decide (f ∈ fs) then fs else fs ++ [f];
  RemoveFinalizer fs f := filter (λ g, g ≠ f) fs
|}.
#[export] Instance ref_controllerutil_laws : ControllerutilLaws.
Proof.
  split; simpl.
  - intros fs f. apply bool_decide_eq_true.
  - intros fs f g. case_decide; set_solver.
  - intros fs f g. rewrite list_elem_of_filter. tauto.
Qed.
