(* ===== verification/OperatorFacts.v ===== *)
(** * What the operator does

    A call of the reconciler is related to what it makes of the instances and of the
    objects the server keeps.  [reconciled] is the specification of a request: the
    cases of [Reconcile], with the objects it leaves behind. *)
From S2P Require Export OperatorServer.
From stdpp Require Import options.
From Stdlib Require Import ZArith Lia.

#[local] Set Default Proof Using "Type*".

(** ** Calls that succeed *)
Definition succeeds {S A} (m : call S A) (Q : S → A → S → Prop) : Prop :=
  ∀ s a s', m s = (Done (Ok a), s') → Q s a s'.

Lemma succeeds_mono {S A} (m : call S A) (Q Q' : S → A → S → Prop) :
  succeeds m Q → (∀ s a s', Q s a s' → Q' s a s') → succeeds m Q'.
Proof. intros Hm HQ s a s' H. by apply HQ, Hm. Qed.

Lemma run_ok {S A B} (m : call S A) (k : A → call S B) s b s' :
  (run! a := m in k a) s = (Done (Ok b), s') →
  ∃ a s1, m s = (Done (Ok a), s1) ∧ k a s1 = (Done (Ok b), s').
Proof. unfold_st. destruct (m s) as [[[a|e]|] s1] eqn:Hm; intros [=]; eauto. Qed.

Lemma succeeds_run {S A B} (m : call S A) (k : A → call S B) Q R :
  succeeds m Q → (∀ a, succeeds (k a) (R a)) →
  succeeds (run! a := m in k a) (λ s b s', ∃ a s1, Q s a s1 ∧ R a s1 b s').
Proof. intros Hm Hk s b s' (a & s1 & H1 & H2)%run_ok. exists a, s1. split; [by apply Hm|by apply Hk]. Qed.

(** ** What is deployed for an instance *)
Definition with_registry (i : Instance_) : Instance_ :=
  set_registry (registry_with_slash (isp_ContainerRegistry (in_Spec i))) i.

(** The objects that are created when they are missing. *)
Definition resources (i : Instance_) : objects :=
  let ns := in_Namespace i in
  {[ okey ServiceAccount (mkNN ns controlplane_Name) := OServiceAccount (mkServiceAccount (meta controlplane_Name ns)) ]} ∪
  {[ okey ClusterRole (mkNN "" ClusterRoleName) := OClusterRole cluster_role ]} ∪
  {[ okey ClusterRoleBinding (mkNN "" ClusterRoleName) := OClusterRoleBinding (cluster_role_binding ns) ]} ∪
  {[ okey Svc (mkNN ns controlplane_Name) := OService (internal_service controlplane_Name ns controlplane_ListenPort) ]} ∪
  (if decide (igp_Type (isp_Ingress (in_Spec i)) = IngressTypeNone) then ∅
   else {[ okey Svc (mkNN ns IngressSvcName) := OService (external_service i) ]}).

(** Existing resources are kept, the deployments are overwritten. *)
Definition deployed (label_order : ranger string string) (i : Instance_) (m : objects) : objects :=
  let ns := in_Namespace i in
  <[ okey Deployment (mkNN ns dataplane_Name) := ODeployment (dataplane_deployment (with_registry i)) ]>
  (<[ okey Deployment (mkNN ns controlplane_Name) := ODeployment (controlplane_deployment label_order (with_registry i)) ]>
     (m ∪ resources i)).

Definition removed_keys (ns : string) : list (string * NamespacedName) :=
  [okey Deployment (mkNN ns controlplane_Name); okey Svc (mkNN ns controlplane_Name);
   okey ClusterRole (mkNN "" ClusterRoleName); okey ClusterRoleBinding (mkNN "" ClusterRoleName);
   okey Deployment (mkNN ns dataplane_Name); okey Svc (mkNN ns dataplane_Name);
   okey Svc (mkNN ns IngressSvcName)].
Definition removed (ns : string) (m : objects) : objects := foldl (λ m k, delete k m) m (removed_keys ns).

(** ** Conditions *)

(** Conditions [updateCondition] does not tell apart. *)
Definition agrees (c c' : Condition) : Prop :=
  cond_Status c' = cond_Status c ∧ cond_Message c' = cond_Message c.

Lemma updates_nothing l : ∀ cs u, (foldl addCondition (cs, u) l).2 = false →
  u = false ∧ (foldl addCondition (cs, u) l).1 = cs.
Proof.
  induction l as [|c l IH]; intros cs u; [done|]. cbn [foldl addCondition].
  repeat case_match; intros [Hu Hcs]%IH; done.
Qed.
Lemma updateCondition_same cs l : (updateCondition cs l).2 = false → (updateCondition cs l).1 = cs.
Proof. apply updates_nothing. Qed.
Lemma updateCondition_one cs c : ∃ c', (updateCondition cs [c]).1 !! cond_Type c = Some c' ∧ agrees c c'.
Proof.
  unfold updateCondition. cbn [foldl addCondition]. destruct (cs !! cond_Type c) as [c0|] eqn:Hc.
  - case_decide as Hd; simpl.
    + exists c. by rewrite lookup_insert_eq.
    + exists c0. split; [done|]. split; apply dec_stable; tauto.
  - exists c. simpl. by rewrite lookup_insert_eq.
Qed.

(** ** The specification of a request *)
Record state := mkState { st_owners : owners; st_objects : objects; st_instances : gmap NamespacedName Instance_ }.

Definition requeue (i : Instance_) : ctrlResult :=
  if decide (reason_of (ist_Controlplane (in_Status i)) DeploymentReady = StatusModeProgressing ∨
             reason_of (ist_Dataplane (in_Status i)) DeploymentReady = StatusModeProgressing)
  then Some 3%Z else None.
(** The status says that the component is not deployed. *)
Definition refused_status (conds : Conditions) : Prop :=
  ∃ c, conds !! DeploymentReady = Some c ∧ cond_Status c = ConditionFalse ∧ cond_Message c = "".
Definition owns (o : owners) (i : Instance_) : Prop := o !! in_Namespace i = None ∨ o !! in_Namespace i = Some (in_Name i).

(** The instance that is reconciled next in a namespace: another one, none of which is older. *)
Definition next_instance (name namespace : string) (is_ : gmap NamespacedName Instance_) (e : Instance_) : Prop :=
  let candidate i := is_ !! kKey i = Some i ∧ Namespace (kKey i) = OperatorNamespace ∧
                     in_Namespace i = namespace ∧ in_Name i ≠ name in
  candidate e ∧ ∀ i, candidate i → (in_Creation e ≤ in_Creation i)%Z.
Definition no_other_instance (name namespace : string) (is_ : gmap NamespacedName Instance_) : Prop :=
  ∀ i, is_ !! kKey i = Some i → Namespace (kKey i) = OperatorNamespace → in_Namespace i = namespace → in_Name i = name.

Inductive reconciled `{Controllerutil} (label_order : ranger string string) :
    NamespacedName → state → state → ctrlResult → Prop :=
  | rec_gone req s : st_instances s !! req = None → reconciled label_order req s s None
  | rec_refused req o m is_ i st :
      is_ !! req = Some i → ¬ owns o i →
      refused_status (ist_Controlplane st) → refused_status (ist_Dataplane st) →
      reconciled label_order req (mkState o m is_) (mkState o m (<[req := set_status st i]> is_)) None
  | rec_deployed req o m is_ i fs st :
      is_ !! req = Some i → owns o i → in_Deleting i = false →
      FinalizerName ∈ fs → (∀ f, f ∈ fs ↔ f ∈ in_Finalizers i ∨ f = FinalizerName) →
      let i' := set_status st (set_finalizers fs i) in
      reconciled label_order req (mkState o m is_)
        (mkState (<[in_Namespace i := in_Name i]> o) (deployed label_order i m) (<[req := i']> is_)) (requeue i')
  | rec_removed req o m is_ i s' r :
      is_ !! req = Some i → owns o i → in_Deleting i = true →
      let i' := set_finalizers (RemoveFinalizer (in_Finalizers i) FinalizerName) i in
      then_next label_order (in_Name i) (in_Namespace i)
        (mkState (delete (in_Namespace i) o) (removed (in_Namespace i) m) (stored i' is_)) s' r →
      reconciled label_order req (mkState o m is_) s' r
with then_next `{Controllerutil} (label_order : ranger string string) :
    string → string → state → state → ctrlResult → Prop :=
  | next_none name namespace s :
      no_other_instance name namespace (st_instances s) → then_next label_order name namespace s s None
  | next_some name namespace s e s' r :
      next_instance name namespace (st_instances s) e → reconciled label_order (kKey e) s s' r →
      then_next label_order name namespace s s' None.

Lemma earliest_spec name namespace items :
  let candidate i := i ∈ items ∧ in_Namespace i = namespace ∧ in_Name i ≠ name in
  match earliest name namespace items with
  | Some e => candidate e ∧ ∀ i, candidate i → (in_Creation e ≤ in_Creation i)%Z
  | None => ∀ i, ¬ candidate i
  end.
Proof.
  cbv zeta. unfold earliest. induction items as [|i items IH] using rev_ind; simpl; [set_solver|].
  rewrite foldl_app. simpl. destruct (foldl _ _ items) as [e|].
  - destruct IH as [IH1 IH2]. repeat case_decide; (split; [set_solver|]); intros j [Hj Hc];
      apply elem_of_app in Hj as [Hj| ->%list_elem_of_singleton]; try lia; try (done || tauto);
      (assert (in_Creation e ≤ in_Creation j)%Z by (by apply IH2)); lia.
  - case_decide.
    + split; [set_solver|]. intros j [[Hj| ->%list_elem_of_singleton]%elem_of_app Hc]; [naive_solver|lia].
    + intros j [[Hj| ->%list_elem_of_singleton]%elem_of_app Hc]; naive_solver.
Qed.

Section operator.
Context {W : Type} {SV : Server W} {CU : Controllerutil} {CUL : ControllerutilLaws} {CL : Clock W}.
Context {KI : KubeClient W Instance_} {KD : KubeClient W Deployment} {KS : KubeClient W Svc}.
Context {KA : KubeClient W ServiceAccount} {KR : KubeClient W ClusterRole} {KB : KubeClient W ClusterRoleBinding}.
Context {KN : KubeClient W Node}.
Context {LI : InstanceLaws W} {LD : ObjectLaws W Deployment} {LS : ObjectLaws W Svc}.
Context {LA : ObjectLaws W ServiceAccount} {LR : ObjectLaws W ClusterRole} {LB : ObjectLaws W ClusterRoleBinding}.
Context {LN : NodeLaws W}.
Context (label_order : ranger string string).

(** A run of calls, each of which makes something of the objects. *)
Definition makes (m : call W unit) (f : objects → objects) : Prop :=
  succeeds m (λ w _ w', submitted w' = f (submitted w) ∧ same_instances w w').
Lemma makes_run m1 m2 f1 f2 :
  makes m1 f1 → makes m2 f2 → makes (run! _ := m1 in m2) (λ m, f2 (f1 m)).
Proof.
  intros H1 H2. refine (succeeds_mono _ _ _ (succeeds_run _ _ _ (λ _, _) H1 (λ _, H2)) _).
  intros s [] s' ([] & s1 & [Ha Hb] & [Hc Hd]). rewrite Hc, Ha. split; [done|].
  unfold same_instances in *. congruence.
Qed.
Lemma makes_give : makes (give tt) id.
Proof. intros s [] s' [= <-]. done. Qed.
Lemma makes_ext m f g : makes m f → (∀ o, f o = g o) → makes m g.
Proof. intros Hm He. apply (succeeds_mono _ _ _ Hm). intros s [] s' [H1 H2]. by rewrite H1, He. Qed.

Section object.
Context {T : Type} {KO : KubeObject T} {OK : ObjectKind T} {KT : KubeClient W T} {LT : ObjectLaws W T}.

Lemma createResource_ok (x : T) :
  makes (createResource x) (λ m, m ∪ {[ okey T (kKey x) := as_object x ]}).
Proof.
  intros w [] w'. unfold createResource. unfold_st.
  pose proof (obj_get (T:=T) (kKey x) w) as [Ho Hi]. pose proof (obj_get_ok (T:=T) (kKey x) w) as Hok.
  pose proof (obj_get_notfound (T:=T) (kKey x) w) as Hnf.
  destruct (kGet (T:=T) (kKey x) w) as [[y|e] w1]; simpl in *.
  - intros [= <-]. split; [|done]. rewrite Ho. destruct (Hok y eq_refl) as [o Hk].
    apply map_eq. intros k. symmetry. destruct (decide (k = okey T (kKey x))) as [->|Hne].
    + rewrite Hk. by apply lookup_union_Some_l.
    + by rewrite lookup_union_l; [|apply lookup_singleton_ne].
  - destruct (IsNotFound e) eqn:He; simpl; [|done]. specialize (Hnf e eq_refl He).
    pose proof (obj_create_ok x w1) as Hc. pose proof (obj_create_instances x w1) as Hci.
    destruct (kCreate x w1) as [[y|e'] w2]; simpl in *; [|done]. intros [= <-].
    rewrite (Hc y eq_refl), Ho. split; [|unfold same_instances in *; congruence].
    rewrite insert_union_singleton_r by done. done.
Qed.

Lemma createOrUpdateResource_ok (x : T) :
  makes (createOrUpdateResource x) <[ okey T (kKey x) := as_object x ]>.
Proof.
  intros w [] w'. unfold createOrUpdateResource. unfold_st.
  pose proof (obj_create_ok x w) as Hc. pose proof (obj_create_exists x w) as He.
  pose proof (obj_create_instances x w) as Hci.
  destruct (kCreate x w) as [[y|e] w1]; simpl in *.
  - intros [= <-]. split; [by apply (Hc y)|done].
  - destruct (IsAlreadyExists e) eqn:Hx; [|done]. destruct (He e eq_refl Hx) as [Ho _].
    pose proof (obj_update_ok x w1) as Hu. pose proof (obj_update_instances x w1) as Hui.
    destruct (kUpdate x w1) as [[y|e'] w2]; simpl in *; [|done]. intros [= <-].
    rewrite (Hu y eq_refl), Ho. split; [done|]. unfold same_instances in *. congruence.
Qed.

Lemma deleteResource_ok k : makes (deleteResource (T:=T) k) (delete (okey T k)).
Proof.
  intros w [] w'. unfold deleteResource. unfold_st.
  pose proof (obj_delete_ok (T:=T) k w) as Hd. pose proof (obj_delete_notfound (T:=T) k w) as Hn.
  pose proof (obj_delete_instances (T:=T) k w) as Hi.
  destruct (kDelete (T:=T) k w) as [[e|] w1]; simpl in *.
  - destruct (IsNotFound e) eqn:He; [|done]. intros [= <-]. destruct (Hn e eq_refl He) as [[Ho _] Hk].
    by rewrite Ho, delete_id.
  - intros [= <-]. by rewrite Hd.
Qed.
End object.

Lemma createExternalService_ok i : makes (createExternalService i) (λ m, m ∪
  (if decide (igp_Type (isp_Ingress (in_Spec i)) = IngressTypeNone) then ∅
   else {[ okey Svc (mkNN (in_Namespace i) IngressSvcName) := OService (external_service i) ]})).
Proof.
  unfold createExternalService. case_decide.
  - apply (makes_ext _ _ _ makes_give). intros o. by rewrite (right_id_L ∅ (∪)).
  - apply (makes_ext _ _ _ (createResource_ok _)). intros o. unfold external_service. by repeat case_decide.
Qed.

Lemma applyClusterLink_ok i : makes (applyClusterLink label_order i) (deployed label_order i).
Proof.
  unfold applyClusterLink. fold (with_registry i). change (in_Namespace (with_registry i)) with (in_Namespace i).
  eapply makes_ext.
  { unfold createAccessControl. repeat (apply makes_run || apply createResource_ok ||
      apply createOrUpdateResource_ok || apply createExternalService_ok). }
  intros o. cbv beta. rewrite <- !insert_union_l.
  unfold deployed, resources. by rewrite !(assoc_L (∪)).
Qed.

Lemma deleteClusterLink_ok ns : makes (deleteClusterLink ns) (removed ns).
Proof.
  unfold deleteClusterLink. eapply makes_ext.
  { repeat (apply makes_run; [apply deleteResource_ok|]). apply deleteResource_ok. }
  done.
Qed.

(** *** Status *)
Lemma give_ok {S A} (a : A) (s : S) b s' : give a s = (Done (Ok b), s') → b = a ∧ s' = s.
Proof. by intros [= -> ->]. Qed.

Lemma get_deployment_keeps n : keeps unchanged (kGet (T:=Deployment) n).
Proof. exact (obj_get n). Qed.
Lemma get_service_keeps n : keeps unchanged (kGet (T:=Svc) n).
Proof. exact (obj_get n). Qed.
Lemma list_nodes_keeps o : keeps unchanged (kList (T:=Node) o).
Proof. exact (node_list o). Qed.
Lemma getS_keeps : keeps unchanged (getS (S:=W)).
Proof. apply (keeps_getS _). Qed.
#[local] Hint Resolve get_deployment_keeps get_service_keeps list_nodes_keeps getS_keeps : clink.
#[local] Ltac keeps_call := unfold give, fail; keeps_tac.

Lemma checkDeploymnetStatus_keeps n : keeps unchanged (checkDeploymnetStatus n).
Proof. unfold checkDeploymnetStatus. keeps_call. Qed.
Lemma checkServiceStatus_keeps n : keeps unchanged (checkServiceStatus n).
Proof. unfold checkServiceStatus. keeps_call. Qed.
#[local] Hint Resolve checkDeploymnetStatus_keeps checkServiceStatus_keeps : clink.
Lemma getNodeIP_keeps : keeps unchanged getNodeIP.
Proof. unfold getNodeIP. keeps_call. Qed.
#[local] Hint Resolve getNodeIP_keeps : clink.
Lemma checkExternalServiceStatus_keeps n ig : keeps unchanged (checkExternalServiceStatus n ig).
Proof. unfold checkExternalServiceStatus. keeps_call. Qed.
Lemma checkComponentStatus_keeps n i cs : keeps unchanged (checkComponentStatus n i cs).
Proof. unfold checkComponentStatus. keeps_call. Qed.


Lemma checkComponentStatus_ok n i cs : succeeds (checkComponentStatus n i cs) (λ w r w',
  unchanged w w' ∧ (r.2 = false → r.1 = cs)).
Proof.
  intros w r w' H. split; [by generalize (checkComponentStatus_keeps n i cs w); rewrite H|].
  apply run_ok in H as (d & w1 & _ & H). apply run_ok in H as ([sv c] & w2 & _ & H).
  apply give_ok in H as [-> _]. apply updateCondition_same.
Qed.

(** The status of a component is checked: the rest of the instance is kept. *)
Lemma checkControlplaneStatus_ok i : succeeds (checkControlplaneStatus i) (λ w r w',
  unchanged w w' ∧ ∃ cs, r.1 = set_status (mkInstanceStatus cs (ist_Dataplane (in_Status i)) (ist_Ingress (in_Status i))) i ∧
    (r.2 = false → cs = ist_Controlplane (in_Status i))).
Proof.
  intros w r w' H. apply run_ok in H as ([cs u] & w1 & Hc%checkComponentStatus_ok & H).
  apply give_ok in H as [-> ->]. destruct Hc as [Hk Hu]. split; [done|]. by exists cs.
Qed.
Lemma checkDataplaneStatus_ok i : succeeds (checkDataplaneStatus i) (λ w r w',
  unchanged w w' ∧ ∃ cs, r.1 = set_status (mkInstanceStatus (ist_Controlplane (in_Status i)) cs (ist_Ingress (in_Status i))) i ∧
    (r.2 = false → cs = ist_Dataplane (in_Status i))).
Proof.
  intros w r w' H. apply run_ok in H as ([cs u] & w1 & Hc%checkComponentStatus_ok & H).
  apply give_ok in H as [-> ->]. destruct Hc as [Hk Hu]. split; [done|]. by exists cs.
Qed.
Lemma checkIngressStatus_ok i : succeeds (checkIngressStatus i) (λ w r w',
  unchanged w w' ∧ ∃ ig, r.1 = set_status (mkInstanceStatus (ist_Controlplane (in_Status i)) (ist_Dataplane (in_Status i)) ig) i).
Proof.
  intros w r w' H. apply run_ok in H as ([c ig] & w1 & Hc & H).
  pose proof (checkExternalServiceStatus_keeps (mkNN (in_Namespace i) IngressSvcName) (ist_Ingress (in_Status i)) w) as Hk.
  rewrite Hc in Hk. destruct (updateCondition (igs_Conditions ig) [c]) as [conds u].
  apply give_ok in H as [-> ->]. split; [done|]. by eexists.
Qed.

Lemma set_status_id i : set_status (in_Status i) i = i.
Proof. by destruct i. Qed.

(** The status is written when a condition changed; what is left unwritten is at most
    the address of the ingress. *)
Definition status_checked (i : Instance_) (w : W) (j : Instance_) (w' : W) : Prop :=
  same_objects w w' ∧ ∃ st st', j = set_status st i ∧
    instances w' = <[kKey i := set_status st' i]> (instances w) ∧
    ist_Controlplane st' = ist_Controlplane st ∧ ist_Dataplane st' = ist_Dataplane st.

Lemma checkStatus_ok i w j w' :
  instances w !! kKey i = Some i → checkStatus i w = (Done (Ok j), w') → status_checked i w j w'.
Proof.
  intros Hi H. apply run_ok in H as ([i1 u1] & w1 & [[Ho1 Hi1] (cp & E1 & Hcp)]%checkControlplaneStatus_ok & H).
  simpl in E1. subst i1.
  apply run_ok in H as ([i2 u2] & w2 & [[Ho2 Hi2] (dp & E2 & Hdp)]%checkDataplaneStatus_ok & H).
  simpl in E2. subst i2.
  apply run_ok in H as ([i3 u3] & w3 & H3 & H). simpl in *.
  assert (unchanged w2 w3 ∧ ∃ ig, i3 = set_status (mkInstanceStatus cp dp ig) i) as [[Ho3 Hi3] [ig ->]].
  { case_decide; [by apply checkIngressStatus_ok in H3|].
    apply give_ok in H3 as [[= -> ->] ->]. split; [done|by eexists]. }
  unfold same_objects, same_instances in *.
  assert (instances w3 = instances w) as Hw by congruence. assert (submitted w3 = submitted w) as Ho by congruence.
  destruct (u1 || u2 || u3) eqn:Hu.
  - unfold_st in H. set (i' := set_status _ i) in *.
    pose proof (inst_status i' w3) as Hs. pose proof (inst_status_objects i' w3) as Hso.
    destruct (kStatusUpdate i' w3) as [[j'|e] w4]; cbn [fst snd] in *; [|done]. injection H as -> ->.
    destruct (Hs j eq_refl i) as [-> Hw']; [by rewrite Hw|by destruct i|].
    split; [unfold same_objects in *; congruence|]. rewrite Hw', Hw. eexists _, _. split; [done|]. by split.
  - apply give_ok in H as [-> ->]. apply orb_false_elim in Hu as [[-> ->]%orb_false_elim ->].
    split; [done|]. eexists _, (in_Status i). split; [done|].
    rewrite set_status_id, Hw, insert_id by done. split; [done|]. simpl. rewrite Hcp, Hdp by done. done.
Qed.

(** *** The parts of [Reconcile] *)
Lemma createFinalizer_ok i w j w' :
  instances w !! kKey i = Some i → createFinalizer i w = (Done (Ok j), w') → in_Deleting i = false →
  same_objects w w' ∧ instances w' = <[kKey i := j]> (instances w) ∧
  ∃ fs, j = set_finalizers fs i ∧ ∀ f, f ∈ fs ↔ f ∈ in_Finalizers i ∨ f = FinalizerName.
Proof.
  intros Hi. unfold createFinalizer. destruct (ContainsFinalizer _ _) eqn:Hc.
  - intros [-> ->]%give_ok _. split; [done|]. rewrite insert_id by done. split; [done|].
    exists (in_Finalizers i). split; [by destruct i|]. apply contains_spec in Hc. intros f. naive_solver.
  - unfold_st. set (i' := set_finalizers _ i).
    pose proof (inst_update i' w) as Hu. pose proof (inst_update_objects i' w) as Huo.
    destruct (kUpdate i' w) as [[j'|e] w1]; intros [= -> ->] Hd.
    destruct (Hu j eq_refl i Hi eq_refl) as [-> Hw]. simpl in *. split; [done|]. split.
    + rewrite Hw. unfold stored. rewrite decide_False; [done|]. simpl. rewrite Hd. by intros [? _].
    + eexists. split; [done|]. intros f. apply add_spec.
Qed.

Lemma outside_ok {S A} (m : call W A) (s s' : S) w a w' :
  outside m (s, w) = (Done (Ok a), (s', w')) → s' = s ∧ m w = (Done (Ok a), w').
Proof. unfold outside. simpl. destruct (m w) as [r w1]. by intros [= -> -> ->]. Qed.

Lemma reconcile_present_ok i o w r o' w' :
  instances w !! kKey i = Some i → in_Deleting i = false →
  reconcile_present label_order i (o, w) = (Done (Ok r), (o', w')) →
  o' = o ∧ submitted w' = deployed label_order i (submitted w) ∧
  ∃ fs st, (∀ f, f ∈ fs ↔ f ∈ in_Finalizers i ∨ f = FinalizerName) ∧
    instances w' = <[kKey i := set_status st (set_finalizers fs i)]> (instances w) ∧
    r = requeue (set_status st (set_finalizers fs i)).
Proof.
  intros Hi Hd. unfold reconcile_present. unfold_st.
  destruct (createFinalizer i w) as [[[i1|e]|] w1] eqn:H1; [|done..].
  apply createFinalizer_ok in H1 as (Ho1 & Hi1 & fs & -> & Hfs); [|done..].
  set (i1 := set_finalizers fs i) in *. change (kKey i) with (kKey i1) in *.
  cbn [fst snd]. destruct (checkStatus i1 w1) as [[[i2|e]|] w2] eqn:H2; [|done..].
  apply checkStatus_ok in H2 as (Ho2 & st & st' & -> & Hi2 & Hcp & Hdp); [|by rewrite Hi1, lookup_insert_eq].
  cbn [fst snd]. destruct (applyClusterLink label_order _ w2) as [[[[]|e]|] w3] eqn:H3; [|done..].
  apply applyClusterLink_ok in H3 as [Ho3 Hi3].
  intros H. assert (r = requeue (set_status st' i1) ∧ o' = o ∧ w' = w3) as (-> & -> & ->).
  { revert H. unfold requeue, give. simpl. rewrite Hcp, Hdp. case_decide; by intros [= <- <- <-]. }
  unfold same_objects, same_instances in *. split; [done|]. split; [by rewrite Ho3, Ho2, Ho1|].
  exists fs, st'. split; [done|]. split; [|done]. by rewrite Hi3, Hi2, Hi1, insert_insert_eq.
Qed.

Lemma reconcile_deleted_ok i o w j o' w' :
  instances w !! kKey i = Some i → reconcile_deleted i (o, w) = (Done (Ok j), (o', w')) →
  let i' := set_finalizers (RemoveFinalizer (in_Finalizers i) FinalizerName) i in
  j = i' ∧ o' = delete (in_Namespace i) o ∧ submitted w' = removed (in_Namespace i) (submitted w) ∧
  instances w' = stored i' (instances w).
Proof.
  intros Hi. unfold reconcile_deleted.
  intros ([] & [o1 w1] & [-> [Ho1 Hi1]%deleteClusterLink_ok]%outside_ok & H)%run_ok.
  apply run_ok in H as (j' & [o2 w2] & [-> Hu]%outside_ok & H).
  revert H Hu. unfold deleteFinalizer. unfold_st. set (i' := set_finalizers _ i).
  pose proof (inst_update i' w1) as Hs. pose proof (inst_update_objects i' w1) as Hso.
  destruct (kUpdate i' w1) as [[j1|e] w3]; [|done]. intros [= <- <- <-] [= -> ->].
  unfold same_instances in *. destruct (Hs j' eq_refl i) as [-> Hw]; [by rewrite Hi1|done|].
  cbn [fst snd] in *. split_and!; [done|done|by rewrite Hso|by rewrite Hw, Hi1].
Qed.

Lemma updateFailureStatus_ok i w w' :
  instances w !! kKey i = Some i → updateFailureStatus i w = (Done (Ok tt), w') →
  same_objects w w' ∧ ∃ st, instances w' = <[kKey i := set_status st i]> (instances w) ∧
    refused_status (ist_Controlplane st) ∧ refused_status (ist_Dataplane st).
Proof.
  intros Hi. unfold updateFailureStatus, give. unfold_st. set (c := mkCondition _ _ _ _ _ _).
  destruct (updateCondition_one (ist_Controlplane (in_Status i)) c) as (c1 & H1 & A1 & B1).
  destruct (updateCondition_one (ist_Dataplane (in_Status i)) c) as (c2 & H2 & A2 & B2).
  pose proof (updateCondition_same (ist_Controlplane (in_Status i)) [c]) as S1.
  pose proof (updateCondition_same (ist_Dataplane (in_Status i)) [c]) as S2.
  destruct (updateCondition (ist_Controlplane _) _) as [cp u1], (updateCondition (ist_Dataplane _) _) as [dp u2].
  cbn [fst snd] in *. destruct (u1 || u2) eqn:Hu.
  - set (i' := set_status _ i). pose proof (inst_status i' w) as Hs. pose proof (inst_status_objects i' w) as Hso.
    destruct (kStatusUpdate i' w) as [[j|e] w1]; cbn [fst snd] in *; [|done]. intros [= <-].
    destruct (Hs j eq_refl i Hi) as [-> Hw]; [by destruct i|]. split; [done|].
    exists (in_Status i'). split; [|by split; eexists]. by rewrite Hw.
  - apply orb_false_elim in Hu as [-> ->]. intros [= <-]. split; [done|]. exists (in_Status i).
    rewrite set_status_id, insert_id by done. rewrite <- S1, <- S2 by done. split; [done|]. by split; eexists.
Qed.

Lemma claim_owner i o w s' : claim_namespace i (o, w) = (None, s') →
  owns o i ∧ s' = (<[in_Namespace i := in_Name i]> o, w).
Proof.
  unfold claim_namespace, owns. unfold_st. destruct (o !! in_Namespace i) as [n|] eqn:Hn.
  - case_decide as Hd; cbn [fst snd]; [by destruct (updateFailureStatus i w)|]. intros [= <-]. rewrite Hd.
    rewrite insert_id by done. by split; [right|].
  - intros [= <-]. by split; [left|].
Qed.
Lemma claim_refused i o w o' w' : claim_namespace i (o, w) = (Some (Done (Ok tt)), (o', w')) →
  ¬ owns o i ∧ o' = o ∧ updateFailureStatus i w = (Done (Ok tt), w').
Proof.
  unfold claim_namespace, owns. unfold_st. destruct (o !! in_Namespace i) as [n|] eqn:Hn; [|done].
  case_decide as Hd; [|done]. cbn [fst snd]. destruct (updateFailureStatus i w) as [r w1]. intros [= -> <- <-].
  split; [|done]. intros [?|[= ->]]; done.
Qed.

(** What a state of the operator and its server says to the specification. *)
Definition view (s : owners * W) : state := mkState s.1 (submitted s.2) (instances s.2).

Lemma trigger_ok rec name namespace s r s' :
  (∀ req s r s', rec req s = (Some (Done (Ok r)), s') → reconciled label_order req (view s) (view s') r) →
  triggerAnotherInstance rec name namespace s = (Some (Done (Ok r)), s') →
  then_next label_order name namespace (view s) (view s') r.
Proof.
  intros Hrec. destruct s as [o w]. unfold triggerAnotherInstance. unfold_st.
  destruct (inst_list (mkListOptions (Some OperatorNamespace) ∅) w) as [Ho Hi].
  pose proof (inst_list_ok OperatorNamespace w) as Hl.
  destruct (kList _ w) as [[items|e] w1]; [|done]. cbn [fst snd] in *. specialize (Hl items eq_refl).
  assert (view (o, w) = view (o, w1)) as -> by (unfold view; simpl; congruence). rewrite <- Hi in Hl.
  pose proof (earliest_spec name namespace items) as He. cbv zeta in He.
  destruct (earliest name namespace items) as [e|].
  - destruct (rec _ _) as [[[[r1|err]|]|] s1] eqn:H1; intros [= <- ->].
    destruct He as [[He1 He2] He3]. apply Hl in He1 as [He0 He1].
    apply (next_some _ _ _ _ e _ r1).
    + split; [done|]. intros i (H2 & H3 & H4). apply He3. split; [by apply Hl|done].
    + by apply Hrec in H1.
  - intros [= <- <-]. apply next_none. intros i H1 H2 H3. apply dec_stable.
    intros H4. apply (He i). split; [by apply Hl|done].
Qed.

Lemma Reconcile_ok fuel : ∀ req s r s',
  Reconcile label_order fuel req s = (Some (Done (Ok r)), s') → reconciled label_order req (view s) (view s') r.
Proof.
  induction fuel as [|fuel IH]; intros req [o w] r s' H; [done|]. revert H. cbn [Reconcile].
  unfold mbind at 1, ST_bind at 1, outside at 1. cbn [fst snd].
  destruct (inst_get req w) as [Ho Hi]. pose proof (inst_get_ok req w) as Hok. pose proof (inst_get_notfound req w) as Hnf.
  destruct (kGet req w) as [[i|e] w1]; cbn [fst snd] in *.
  2:{ destruct (IsNotFound e) eqn:He; intros [= <- <-].
      unfold view. simpl. rewrite Ho, Hi. apply rec_gone. by apply (Hnf e). }
  destruct (Hok i eq_refl) as [Hreq Hk]. assert (view (o, w) = view (o, w1)) as -> by (unfold view; simpl; congruence).
  rewrite <- Hi, <- Hk in Hreq. clear Hok Hnf Ho Hi w. subst req.
  unfold mbind at 1, ST_bind at 1. destruct (claim_namespace i (o, w1)) as [[[[[]|e]|]|] [o2 w2]] eqn:Hc; try done.
  - intros [= <- <-]. apply claim_refused in Hc as (Hown & -> & Hf).
    apply updateFailureStatus_ok in Hf as [Ho (st & Hi & H1 & H2)]; [|done].
    unfold view. simpl. rewrite Ho, Hi. by apply rec_refused.
  - apply claim_owner in Hc as [Hown [= -> ->]]. destruct (in_Deleting i) eqn:Hd.
    + unfold mbind at 1, ST_bind at 1.
      destruct (reconcile_deleted i _) as [[[j|e]|] [o3 w3]] eqn:Hdel; try done. intros H.
      apply reconcile_deleted_ok in Hdel as (-> & -> & Ho & Hi); [|done].
      eapply (rec_removed _ _ _ _ _ i); [done..|]. apply trigger_ok in H; [|exact IH].
      unfold view in *. simpl in *. rewrite Ho, Hi, delete_insert_eq in H. exact H.
    + unfold mbind at 1, ST_bind at 1. destruct (reconcile_present _ i _) as [r1 [o3 w3]] eqn:Hp.
      intros [= -> <-]. apply reconcile_present_ok in Hp as (-> & Ho & fs & st & Hfs & Hi & ->); [|done..].
      unfold view. simpl. rewrite Ho, Hi. apply rec_deployed; [done..| |done]. apply Hfs. by right.
Qed.

(** C9: every request that succeeds is one of the cases of the specification: the
    instance is gone; another instance owns its namespace, and the status says that it
    is not deployed; the namespace is the instance's, which has the finalizer and whose
    deployments are exactly the ones its spec asks for, with the resources that were
    missing; or it is being deleted, everything but the service account is removed,
    the finalizer is dropped, and the oldest other instance of the namespace is
    reconciled in turn. Nothing else of the cluster or of the owners changes. *)
Theorem Reconcile_refines fuel : ∀ req s r s',
  Reconcile label_order fuel req s = (Some (Done (Ok r)), s') → reconciled label_order req (view s) (view s') r.
Proof. apply Reconcile_ok. Qed.

(** *** Termination *)

(** The operator's finalizer is the only one of the instances that are being deleted. *)
Definition own_finalizers (is_ : gmap NamespacedName Instance_) : Prop :=
  map_Forall (λ _ i, in_Deleting i = true → ∀ f, f ∈ in_Finalizers i → f = FinalizerName) is_.

Lemma stored_smaller (i : Instance_) (is_ : gmap NamespacedName Instance_) :
  is_ !! kKey i = Some i → in_Deleting i = true → own_finalizers is_ →
  let is' := stored (set_finalizers (RemoveFinalizer (in_Finalizers i) FinalizerName) i) is_ in
  own_finalizers is' ∧ size is' < size is_.
Proof using CUL.
  intros Hi Hd Hown. cbv zeta. unfold stored. rewrite decide_True.
  - split; [by apply map_Forall_delete|]. simpl. rewrite map_size_delete_Some by by eexists.
    enough (size is_ ≠ 0) by lia. intros E%map_size_empty_inv. by rewrite E in Hi.
  - split; [exact Hd|]. simpl. apply elem_of_nil_inv. intros f [Hf Hne]%remove_spec. by apply Hne, (Hown _ _ Hi).
Qed.

Lemma claim_unchanged i o w s' : claim_namespace i (o, w) = (None, s') → s'.2 = w.
Proof. intros [_ ->]%claim_owner. done. Qed.

(** C34: a request always returns, with more fuel than the server has instances, when no
    other finalizer holds an instance that is being deleted. *)
Theorem Reconcile_terminates fuel : ∀ req o w,
  own_finalizers (instances w) → size (instances w) < fuel →
  (Reconcile label_order fuel req (o, w)).1 ≠ None.
Proof.
  induction fuel as [|fuel IH]; intros req o w Hown Hfuel; [lia|]. cbn [Reconcile].
  unfold mbind at 1, ST_bind at 1, outside at 1. cbn [fst snd].
  destruct (inst_get req w) as [_ Hi]. pose proof (inst_get_ok req w) as Hok.
  destruct (kGet req w) as [[i|e] w1]; cbn [fst snd] in *; [|done].
  destruct (Hok i eq_refl) as [Hreq Hk]. rewrite <- Hi in *. rewrite <- Hk in Hreq. clear Hok Hi w.
  unfold mbind at 1, ST_bind at 1. destruct (claim_namespace i (o, w1)) as [[r|] [o2 w2]] eqn:Hc; [by destruct r|].
  apply claim_unchanged in Hc. simpl in Hc. subst w2. destruct (in_Deleting i) eqn:Hd.
  - unfold mbind at 1, ST_bind at 1.
    destruct (reconcile_deleted i _) as [[[j|e]|] [o3 w3]] eqn:Hdel; [|done..].
    apply reconcile_deleted_ok in Hdel as (-> & -> & _ & Hw); [|done].
    destruct (stored_smaller i (instances w1) Hreq Hd Hown) as [Hown' Hsize]. rewrite <- Hw in *.
    unfold triggerAnotherInstance. unfold_st.
    destruct (inst_list (mkListOptions (Some OperatorNamespace) ∅) w3) as [_ Hl].
    destruct (kList _ w3) as [[items|e] w4]; [|done]. cbn [fst snd] in *. rewrite <- Hl in *.
    destruct (earliest _ _ items) as [e|]; [|done].
    specialize (IH (mkNN (om_Namespace (in_Meta e)) (in_Name e)) (delete (in_Namespace i) o2) w4 Hown' ltac:(lia)).
    destruct (Reconcile _ _ _ _) as [[[[r|err]|]|] s5]; done.
  - unfold mbind at 1, ST_bind at 1. by destruct (reconcile_present _ i _).
Qed.

(** *** The address of the ingress *)

(** While no condition changes, the address of the ingress service is not written
    to the status of the instance: the call computes it, and leaves the server as it
    was, whatever address the cluster gave the service. *)
Theorem ingress_address_lost i w w1 w2 w3 s p ps ip ips c :
  checkControlplaneStatus i w = (Done (Ok (i, false)), w1) →
  checkDataplaneStatus i w1 = (Done (Ok (i, false)), w2) →
  igp_Type (isp_Ingress (in_Spec i)) ≠ IngressTypeNone →
  kGet (T:=Svc) (mkNN (in_Namespace i) IngressSvcName) w2 = (Ok s, w3) →
  svcs_Type s = "LoadBalancer" → svcs_Ports s = p :: ps → svcs_IngressIPs s = ip :: ips →
  igs_Conditions (ist_Ingress (in_Status i)) !! ServiceReady = Some c →
  cond_Status c = ConditionTrue → cond_Message c = "Service is ready" →
  ∃ j, checkStatus i w = (Done (Ok j), w3) ∧ igs_IP (ist_Ingress (in_Status j)) = ip ∧ unchanged w w3.
Proof.
  intros H1 H2 Hing Hs Hty Hps Hips Hc Hcs Hcm.
  pose proof (checkControlplaneStatus_ok _ _ _ _ H1) as [K1 _].
  pose proof (checkDataplaneStatus_ok _ _ _ _ H2) as [K2 _].
  assert (unchanged w2 w3) as K3 by (generalize (obj_get (T:=Svc) (mkNN (in_Namespace i) IngressSvcName) w2); by rewrite Hs).
  eexists. split; [|split; [|by transitivity w1; [done|transitivity w2]]].
  - unfold checkStatus. unfold_st. rewrite H1. cbn [fst snd]. rewrite H2. cbn [fst snd].
    rewrite decide_True by done. unfold checkIngressStatus, checkExternalServiceStatus, checkServiceStatus, give.
    unfold_st. rewrite Hs. cbn [fst snd]. rewrite decide_True by done. rewrite Hps. cbn [fst snd igs_Conditions].
    unfold updateCondition. cbn [foldl addCondition cond_Type]. rewrite Hc, decide_False; [done|].
    rewrite Hcs, Hcm. simpl. tauto.
  - simpl. by rewrite Hips.
Qed.
End operator.

(** ** Runs on a cluster *)
Definition op_ns : string := InstanceNamespace.
Definition op_spec : InstanceSpec :=
  mkInstanceSpec DataplaneTypeGo 1 (mkIngressSpec IngressTypeLoadBalancer 0 ∅) "info" "ghcr.io/clusterlink-net" "latest" op_ns ∅.
Definition no_status : InstanceStatus := mkInstanceStatus ∅ ∅ (mkIngressStatus "" 0 ∅).
Definition op_instance (name : string) (creation : Z) (deleting : bool) (finalizers : list string) : Instance_ :=
  mkInstance (meta name OperatorNamespace) creation deleting finalizers op_spec no_status.
Definition op_cluster (m : objects) (is_ : list Instance_) : cluster :=
  mkCluster m (list_to_map (map (λ i, (kKey i, i)) is_)).
Definition op_req (name : string) : NamespacedName := mkNN OperatorNamespace name.
Definition op_reconcile (fuel : nat) (name : string) (s : owners * cluster) := Reconcile std_ranger fuel (op_req name) s.

(** The owner of the namespace is deleted while another instance waits for it. *)
Definition op_handover : owners * cluster :=
  ({[ op_ns := "first" ]},
   op_cluster ∅ [op_instance "first" 1 true [FinalizerName]; op_instance "second" 2 false []]).
Definition op_after : owners * cluster := (op_reconcile 3 "first" op_handover).2.

Lemma Reconcile_refines_witness :
  reconciled std_ranger (op_req "first") (view op_handover) (view op_after) None ∧
  fst op_after !! op_ns = Some "second".
Proof.
  split; [|vm_compute; reflexivity].
  apply (Reconcile_refines std_ranger 3 (op_req "first") op_handover None op_after).
  unfold op_after. apply result_of. vm_compute. reflexivity.
Defined.

Lemma Reconcile_terminates_witness : (Reconcile std_ranger 3 (op_req "first") op_handover).1 ≠ None.
Proof.
  apply (Reconcile_terminates std_ranger 3 (op_req "first") (fst op_handover) (snd op_handover)).
  - apply map_Forall_insert_2; [|apply map_Forall_insert_2; [|apply map_Forall_empty]].
    + intros _ f Hf. by apply list_elem_of_singleton in Hf.
    + intros [=].
  - vm_compute. lia.
Defined.

(** Two instances of a namespace that are deleted while another controller holds them:
    each finds the other, and the call never returns. *)
Definition held (name : string) (creation : Z) : Instance_ := op_instance name creation true ["other"].
Definition op_held : cluster := op_cluster ∅ [held "first" 1; held "second" 2].

Definition then_done (r : option (outcome (result ctrlResult))) : option (outcome (result ctrlResult)) :=
  match r with Some (Done (Ok _)) => Some (Done (Ok None)) | r => r end.
Lemma trigger_calls rec name namespace (o : owners) c items e :
  kList (T:=Instance_) (mkListOptions (Some OperatorNamespace) ∅) c = (Ok items, c) →
  earliest name namespace items = Some e →
  (triggerAnotherInstance rec name namespace (o, c)).1 = then_done (rec (kKey e) (o, c)).1.
Proof.
  intros Hl He. unfold triggerAnotherInstance. unfold_st. rewrite Hl. cbn [fst snd]. rewrite He.
  unfold kKey. simpl. unfold om_key. by destruct (rec _ _) as [[[[]|]|] s].
Qed.
Lemma deleted_calls fuel n i (c : cluster) items e :
  kGet (T:=Instance_) n c = (Ok i, c) → in_Deleting i = true → reconcile_deleted i (<[in_Namespace i := in_Name i]> ∅, c) = (Done (Ok i), (∅, c)) →
  kList (T:=Instance_) (mkListOptions (Some OperatorNamespace) ∅) c = (Ok items, c) →
  earliest (in_Name i) (in_Namespace i) items = Some e →
  (Reconcile std_ranger (S fuel) n (∅, c)).1 = then_done (Reconcile std_ranger fuel (kKey e) (∅, c)).1.
Proof.
  intros Hg Hd Hr Hl He. rewrite <- (trigger_calls _ _ _ _ _ _ _ Hl He). cbn [Reconcile].
  unfold mbind at 1, ST_bind at 1, outside at 1. cbn [fst snd]. rewrite Hg.
  unfold mbind at 1, ST_bind at 1. unfold claim_namespace. unfold_st. cbn [fst snd].
  rewrite lookup_empty, Hd. cbn [fst snd]. by rewrite Hr.
Qed.

Definition op_items : list Instance_ := [held "second" 2; held "first" 1].

(** A request for an instance of the pair comes back to the same state, for the other one. *)
Lemma held_calls fuel i e :
  kGet (kKey i) op_held = (Ok i, op_held) → in_Deleting i = true →
  reconcile_deleted i (<[in_Namespace i := in_Name i]> ∅, op_held) = (Done (Ok i), (∅, op_held)) →
  earliest (in_Name i) (in_Namespace i) op_items = Some e →
  (Reconcile std_ranger (S fuel) (kKey i) (∅, op_held)).1 = then_done (Reconcile std_ranger fuel (kKey e) (∅, op_held)).1.
Proof. intros Hg Hd Hr He. apply (deleted_calls _ _ i _ op_items); [done..| |done]. vm_compute. reflexivity. Qed.

Theorem foreign_finalizers_recurse fuel :
  (Reconcile std_ranger fuel (op_req "first") (∅, op_held)).1 = None ∧
  (Reconcile std_ranger fuel (op_req "second") (∅, op_held)).1 = None.
Proof.
  induction fuel as [|fuel [IH1 IH2]]; [done|]. split.
  - change (op_req "first") with (kKey (held "first" 1)).
    rewrite (held_calls fuel (held "first" 1) (held "second" 2)); [exact (f_equal then_done IH2)|vm_compute; reflexivity..].
  - change (op_req "second") with (kKey (held "second" 2)).
    rewrite (held_calls fuel (held "second" 2) (held "first" 1)); [exact (f_equal then_done IH1)|vm_compute; reflexivity..].
Qed.

(** The ingress service has an address; the status still says [pending]. *)
Definition absent_conditions : Conditions :=
  {[ DeploymentReady := mkCondition DeploymentReady ConditionFalse "NotExist" "Deployment does not exist" 0 0;
     ServiceReady := mkCondition ServiceReady ConditionFalse StatusModeNotExist "Service does not exist" 0 0 ]}.
Definition pending : Instance_ :=
  set_status (mkInstanceStatus absent_conditions absent_conditions
    (mkIngressStatus "pending" 443 {[ ServiceReady := mkCondition ServiceReady ConditionTrue StatusModeReady "Service is ready" 0 0 ]}))
    (op_instance "first" 1 false [FinalizerName]).
Definition ingress_port : SvcPort := mkSvcPort "https" "" 443 dataplane_ListenPort 0.
Definition ingress_service : Svc :=
  mkSvc (meta IngressSvcName op_ns) ∅ "LoadBalancer" {[ "app" := dataplane_Name ]} [ingress_port] ["192.0.2.1"].
Definition pending_cluster : cluster :=
  op_cluster {[ okey Svc (mkNN op_ns IngressSvcName) := OService ingress_service ]} [pending].

Lemma ingress_address_lost_witness :
  ∃ j, checkStatus pending pending_cluster = (Done (Ok j), pending_cluster) ∧
       igs_IP (ist_Ingress (in_Status j)) = "192.0.2.1" ∧ unchanged pending_cluster pending_cluster.
Proof.
  apply (ingress_address_lost pending pending_cluster pending_cluster pending_cluster pending_cluster ingress_service
           ingress_port [] "192.0.2.1" [] (mkCondition ServiceReady ConditionTrue StatusModeReady "Service is ready" 0 0));
    try (vm_compute; reflexivity). vm_compute. discriminate.
Defined.

(** ** The cluster roles *)

(** The name of the role does not depend on the namespace: a second instance finds the
    binding of the first, and is left without permissions; the deletion of either
    instance removes the role of both. *)
Theorem roles_are_shared label_order i j m :
  m !! okey ClusterRoleBinding (mkNN "" ClusterRoleName) = None →
  let m' := deployed label_order j (deployed label_order i m) in
  m' !! okey ClusterRoleBinding (mkNN "" ClusterRoleName) =
    Some (OClusterRoleBinding (cluster_role_binding (in_Namespace i))) ∧
  removed (in_Namespace j) m' !! okey ClusterRoleBinding (mkNN "" ClusterRoleName) = None ∧
  removed (in_Namespace j) m' !! okey ClusterRole (mkNN "" ClusterRoleName) = None.
Proof.
  intros Hm. cbv zeta. split_and!.
  - unfold deployed. repeat rewrite lookup_insert_ne by done. apply lookup_union_Some_l.
    repeat rewrite lookup_insert_ne by done. rewrite lookup_union_r by done. unfold resources.
    do 2 (apply lookup_union_Some_l). rewrite lookup_union_r; [by rewrite lookup_singleton_eq|].
    apply lookup_union_None. split; by apply lookup_singleton_ne.
  - unfold removed. simpl. repeat (rewrite lookup_delete_ne by done). apply lookup_delete_eq.
  - unfold removed. simpl. repeat (rewrite lookup_delete_ne by done). apply lookup_delete_eq.
Qed.

(** The service account of the control plane is never removed. *)
Theorem service_account_stays ns k m :
  removed ns m !! okey ServiceAccount k = m !! okey ServiceAccount k.
Proof. unfold removed. simpl. by repeat (rewrite lookup_delete_ne by done). Qed.
