(* ===== verification/Runnable.v ===== *)
(** * The manager of runnables

    [pkg/util/runnable/manager.go], the last thing the control plane and the data plane
    do: the manager listens on the addresses of the servers, starts every runnable in a
    goroutine of its own, and stops them all when one fails.  The goroutines, the
    goroutine that stops them and the condition variable between them are a step
    relation.  [pkg/util/controller/manager.go] is one of the runnables. *)
From S2P Require Export Prelude.
From stdpp Require Import options.
From Stdlib Require Import ZArith Lia.

#[local] Set Default Proof Using "Type".

(** ** Servers *)
Section servers.
Context {W : Type}.

(** [Server]: its name, [Listen] and [Close]. *)
Record Server := mkServer {
  srv_Name : string;
  srv_Listen : string → ST W (option error);
  srv_Close : ST W (option error)
}.

Fixpoint listen_all (servers : list (nat * (Server * string))) : ST W (option error) :=
  match servers with
  | [] => mret None
  | (_, (server, listenAddress)) :: servers' =>
      err ← srv_Listen server listenAddress;
      match err with
      | Some err => mret (Some (EWrap ("unable to create listener for server '" +:+ srv_Name server +:+ "' on " +:+ listenAddress) err))
      | None => listen_all servers'
      end
  end.

(** The deferred function of [Run]; the errors are only logged. *)
Fixpoint close_all (servers : list (nat * (Server * string))) : ST W unit :=
  match servers with
  | [] => mret tt
  | (_, (server, _)) :: servers' => srv_Close server;; close_all servers'
  end.

(** [Run]: [run] is what happens once the listeners are there. *)
Definition Run (listen_order close_order : ranger nat (Server * string)) (serverAddress : gmap nat (Server * string))
    (run : ST W (option error)) : ST W (option error) :=
  err ← listen_all (range listen_order serverAddress);
  res ← match err with Some err => mret (Some err) | None => run end;
  close_all (range close_order serverAddress);;
  mret res.
End servers.
Arguments Server : clear implicits.

(** ** The goroutines *)

(** Where the goroutine of a runnable is: not there yet; before it calls [Start]; in
    [Start]; after it returned; after it wrote the error; after it signalled. *)
Inductive go_pc := NotStarted | Spawned | InStart | Returned (err : option error) | Recorded (err : option error) | Finished (err : option error).
(** The goroutine that stops the runnables: before it waits on the condition variable, waiting, woken,
    calling [Stop] of a runnable, done. *)
Inductive stop_pc := StopInit | StopWaiting | StopWoken | Stopping (k : nat) | StopDone.
(** [Run]: starting the runnables, in [wg.Wait], before the last signal, returned. *)
Inductive run_pc := Starting (k : nat) | WaitGroup | RunReturned (err : option error).

Record state := mkState {
  rn_main : run_pc; rn_stopper : stop_pc; rn_gos : list go_pc;
  rn_stopped : gset nat;                      (* the runnables a Stop has had an effect on *)
  rn_errors : gmap nat (option error)         (* errors *)
}.
Definition set_main (p : run_pc) (s : state) : state := mkState p (rn_stopper s) (rn_gos s) (rn_stopped s) (rn_errors s).
Definition set_stopper (p : stop_pc) (s : state) : state := mkState (rn_main s) p (rn_gos s) (rn_stopped s) (rn_errors s).
Definition set_go (i : nat) (p : go_pc) (s : state) : state :=
  mkState (rn_main s) (rn_stopper s) (<[i := p]> (rn_gos s)) (rn_stopped s) (rn_errors s).

(** [stop.Signal]: it wakes a goroutine that waits, and is lost when there is none. *)
Definition signal (s : state) : state :=
  match rn_stopper s with StopWaiting => set_stopper StopWoken s | _ => s end.

Section run.
(** The runnables: their names, whether [Stop] has an effect on a runnable whose [Start]
    was not called yet, and what [Start] may return, stopped or not. *)
Context (names : list string) (early : nat → bool) (may_return : nat → bool → option error → Prop).
Notation n := (length names).

Definition wrap_error (ie : nat * option error) : option error :=
  (λ err, EWrap ("error running '" +:+ default "" (names !! ie.1) +:+ "'") err) <$> ie.2.
Definition joined_errors (order : ranger nat (option error)) (errors : gmap nat (option error)) : option error :=
  errors_Join (map wrap_error (range order errors)).

(** Whether [Start] of runnable [k] was called. *)
Definition start_called (k : nat) (s : state) : bool :=
  match rn_gos s !! k with Some NotStarted | Some Spawned => false | _ => true end.

(** The effect of [Stop] on runnable [k]. *)
Definition stop_runnable (k : nat) (s : state) : gset nat :=
  if early k || start_called k s
  then {[ k ]} ∪ rn_stopped s else rn_stopped s.

Inductive step : state → state → Prop :=
  (* for _, runnable := range c.runnables { go ... } *)
  | rn_start k s : rn_main s = Starting k → k < n → step s (set_main (Starting (S k)) (set_go k Spawned s))
  | rn_started s : rn_main s = Starting n → step s (set_main WaitGroup s)
  (* the goroutine of a runnable *)
  | rn_call i s : rn_gos s !! i = Some Spawned → step s (set_go i InStart s)
  | rn_return i e s : rn_gos s !! i = Some InStart → may_return i (bool_decide (i ∈ rn_stopped s)) e →
      step s (set_go i (Returned e) s)
  | rn_record i e s : rn_gos s !! i = Some (Returned e) →
      step s (set_go i (Recorded e) (mkState (rn_main s) (rn_stopper s) (rn_gos s) (rn_stopped s) (<[i := e]> (rn_errors s))))
  | rn_signal i e s : rn_gos s !! i = Some (Recorded (Some e)) → step s (set_go i (Finished (Some e)) (signal s))
  | rn_finish i s : rn_gos s !! i = Some (Recorded None) → step s (set_go i (Finished None) s)
  (* the stopping goroutine *)
  | rn_wait s : rn_stopper s = StopInit → step s (set_stopper StopWaiting s)
  | rn_pending s : rn_stopper s = StopWoken → size (rn_errors s) < n → step s (set_stopper (Stopping 0) s)
  | rn_not_pending s : rn_stopper s = StopWoken → n ≤ size (rn_errors s) → step s (set_stopper StopDone s)
  | rn_stop k s : rn_stopper s = Stopping k → k < n →
      step s (mkState (rn_main s) (Stopping (S k)) (rn_gos s) (stop_runnable k s) (rn_errors s))
  | rn_all_stopped s : rn_stopper s = Stopping n → step s (set_stopper StopDone s)
  (* wg.Wait, the last signal, the errors *)
  | rn_collect order s : rn_main s = WaitGroup → Forall (λ p, ∃ e, p = Finished e) (rn_gos s) →
      step s (set_main (RunReturned (joined_errors order (rn_errors s))) (signal s)).

Definition initial : state := mkState (Starting 0) StopInit (replicate n NotStarted) ∅ ∅.
Definition steps : state → state → Prop := rtc step.
Definition reachable (s : state) : Prop := steps initial s.
End run.

(** ** The controller manager

    [Start] keeps the function that cancels its context, [Stop] calls it.  The context
    that is cancelled is [Some]; before [Start] there is nothing to cancel. *)
Record controllerManager := mkControllerManager { cm_cancelFunc : option nat; cm_cancelled : gset nat }.
Definition ctl_Start (ctx : nat) (m : controllerManager) : controllerManager := mkControllerManager (Some ctx) (cm_cancelled m).
Definition ctl_Stop (m : controllerManager) : controllerManager :=
  match cm_cancelFunc m with
  | Some ctx => mkControllerManager (Some ctx) ({[ ctx ]} ∪ cm_cancelled m)
  | None => m
  end.
(** [Start] returns when its context is cancelled. *)
Definition ctl_running (m : controllerManager) : bool :=
  match cm_cancelFunc m with Some ctx => negb (bool_decide (ctx ∈ cm_cancelled m)) | None => false end.

(** ** What [Run] returns *)

Section consistent.
Context (names : list string).
Notation n := (length names).

(** The errors are those of the runnables that have returned; all of them have when [Run] has. *)
Record consistent (s : state) : Prop := {
  con_length : length (rn_gos s) = n;
  con_not_started i : rn_gos s !! i = Some NotStarted ↔ ∃ k, rn_main s = Starting k ∧ k ≤ i < n;
  con_errors i e : rn_errors s !! i = Some e ↔
    rn_gos s !! i = Some (Recorded e) ∨ rn_gos s !! i = Some (Finished e);
  con_returned r : rn_main s = RunReturned r →
    Forall (λ p, ∃ e, p = Finished e) (rn_gos s) ∧ ∃ order, r = joined_errors names order (rn_errors s)
}.

(** A goroutine that moves and is not finished; [Run] has not returned then. *)
Lemma not_all_finished s i p : consistent s → rn_gos s !! i = Some p → (∀ e, p ≠ Finished e) →
  ∀ r, rn_main s ≠ RunReturned r.
Proof.
  intros Hs Hi Hp r Hr. destruct (con_returned s Hs r Hr) as [Hall _].
  rewrite Forall_lookup in Hall. destruct (Hall i p Hi) as [e He]. by destruct (Hp e).
Qed.

Lemma consistent_go s i p q errors : consistent s → rn_gos s !! i = Some p → p ≠ NotStarted → (∀ e, p ≠ Finished e) →
  q ≠ NotStarted → (∀ e, errors !! i = Some e ↔ q = Recorded e ∨ q = Finished e) →
  (∀ j, j ≠ i → errors !! j = rn_errors s !! j) →
  ∀ st, consistent (mkState (rn_main s) st (<[i := q]> (rn_gos s)) (rn_stopped s) errors).
Proof.
  intros Hs Hi Hpn Hp Hqn He Hj st. assert (i < length (rn_gos s)) by by eapply lookup_lt_Some. split; simpl.
  - rewrite length_insert. apply Hs.
  - intros j. rewrite <- (con_not_started s Hs j). destruct (decide (j = i)) as [->|Hne].
    + rewrite list_lookup_insert_eq, Hi by done. naive_solver.
    + by rewrite list_lookup_insert_ne.
  - intros j e. destruct (decide (j = i)) as [->|Hne].
    + rewrite list_lookup_insert_eq, He by done. naive_solver.
    + rewrite list_lookup_insert_ne, Hj by done. apply Hs.
  - intros r Hr. by destruct (not_all_finished s i p Hs Hi Hp r).
Qed.

(** Only the goroutine that stops the runnables moves, or the runnables it has stopped change. *)
Lemma consistent_stopper s st stopped :
  consistent s → consistent (mkState (rn_main s) st (rn_gos s) stopped (rn_errors s)).
Proof. intros []. by split. Qed.
Lemma signal_is s : ∃ st, signal s = mkState (rn_main s) st (rn_gos s) (rn_stopped s) (rn_errors s).
Proof. unfold signal. destruct s as [m [] g st e]; simpl; by eexists. Qed.

Lemma consistent_start s k : consistent s → rn_main s = Starting k → k < n →
  consistent (set_main (Starting (S k)) (set_go k Spawned s)).
Proof.
  intros Hs Hm Hk. assert (rn_gos s !! k = Some NotStarted) as Hg by (apply Hs; eauto with lia).
  split; simpl.
  - rewrite length_insert. apply Hs.
  - intros j. destruct (decide (j = k)) as [->|Hne].
    + rewrite list_lookup_insert_eq by (rewrite (con_length s); [lia|done]). split; [done|]. intros (k' & [= <-] & ?). lia.
    + rewrite list_lookup_insert_ne, (con_not_started s Hs j) by done. split.
      * intros (k' & Hm' & ?). assert (k' = k) as -> by congruence. exists (S k). split; [done|]. lia.
      * intros (k' & [= <-] & ?). exists k. split; [done|]. lia.
  - intros j e. rewrite (con_errors s Hs). destruct (decide (j = k)) as [->|Hne].
    + rewrite Hg, list_lookup_insert_eq by (rewrite (con_length s); [lia|done]). naive_solver.
    + by rewrite list_lookup_insert_ne.
  - intros r [=].
Qed.

Lemma consistent_initial : consistent (initial names).
Proof.
  split; simpl.
  - apply length_replicate.
  - intros i. rewrite lookup_replicate. split.
    + intros [_ Hi]. exists 0. split; [done|]. lia.
    + intros (k & _ & Hk). split; [done|]. lia.
  - intros i e. rewrite lookup_empty. split; [done|]. intros [H|H]; by apply lookup_replicate in H as [H _].
  - intros r [=].
Qed.
End consistent.

Section facts.
Context (names : list string) (early : nat → bool) (may_return : nat → bool → option error → Prop).
Notation n := (length names).
Notation step := (step names early may_return).
Notation steps := (steps names early may_return).
Notation reachable := (reachable names early may_return).

Lemma step_consistent s s' : step s s' → consistent names s → consistent names s'.
Proof.
  intros Hstep Hs.
  destruct Hstep as [k s Hm Hk|s Hm|i s Hi|i e s Hi He|i e s Hi|i e s Hi|i s Hi| | | | | |order s Hm Hall];
    try by apply consistent_stopper.
  - by apply consistent_start.
  - destruct Hs as [H1 H2 H3 H4]. split; simpl; [done| |done|done]. intros i. rewrite H2, Hm. split.
    + intros (k & [= <-] & ?). lia.
    + by intros (k & [=] & _).
  - refine (consistent_go names s i _ InStart (rn_errors s) Hs Hi _ _ _ _ _ _); try done.
    intros e'. rewrite (con_errors names s Hs), Hi. naive_solver.
  - refine (consistent_go names s i _ (Returned e) (rn_errors s) Hs Hi _ _ _ _ _ _); try done.
    intros e'. rewrite (con_errors names s Hs), Hi. naive_solver.
  - refine (consistent_go names s i _ (Recorded e) (<[i := e]> (rn_errors s)) Hs Hi _ _ _ _ _ _); try done.
    + intros e'. rewrite lookup_insert_eq. naive_solver.
    + intros j Hj. by rewrite lookup_insert_ne.
  - destruct (signal_is s) as [st ->].
    refine (consistent_go names s i _ (Finished (Some e)) (rn_errors s) Hs Hi _ _ _ _ _ _); try done.
    intros e'. rewrite (con_errors names s Hs), Hi. naive_solver.
  - refine (consistent_go names s i _ (Finished None) (rn_errors s) Hs Hi _ _ _ _ _ _); try done.
    intros e'. rewrite (con_errors names s Hs), Hi. naive_solver.
  - destruct (signal_is s) as [st ->]. destruct Hs as [H1 H2 H3 H4]. split; simpl; [done| |done|].
    + intros i. rewrite H2, Hm. split; by intros (k & [=] & _).
    + intros r [= <-]. split; [done|]. by exists order.
Qed.

Lemma reachable_consistent s : reachable s → consistent names s.
Proof. apply (rtc_preserves step); [intros x y; apply step_consistent|apply consistent_initial]. Qed.

Lemma joined_errors_none order errors : joined_errors names order errors = None ↔ ∀ i e, errors !! i = Some e → e = None.
Proof.
  unfold joined_errors. rewrite errors_Join_none, Forall_map, Forall_forall. split.
  - intros H i e Hi%(elem_of_range order). specialize (H _ Hi). by destruct e.
  - intros H [i e] Hi%elem_of_range. simpl. by rewrite (H i e Hi).
Qed.

(** The errors of the runnables that failed, each with the name of its runnable. *)
Definition failure (p : nat * go_pc) : option error :=
  match p.2 with
  | Finished (Some e) => Some (EWrap ("error running '" +:+ default "" (names !! p.1) +:+ "'") e)
  | _ => None
  end.
Definition failures (s : state) : list error := omap failure (imap pair (rn_gos s)).

(** The map of errors holds every goroutine once, with what it returned. *)
Lemma range_errors order s : consistent names s → Forall (λ p, ∃ e, p = Finished e) (rn_gos s) →
  (λ ie, (ie.1, Finished ie.2)) <$> range order (rn_errors s) ≡ₚ imap pair (rn_gos s).
Proof.
  intros Hs Hall. apply NoDup_Permutation.
  - apply NoDup_fmap_2; [intros [] [] [=]; by subst|]. rewrite range_perm. apply NoDup_map_to_list.
  - apply NoDup_alt. intros a b x Ha Hb. apply list_lookup_imap_Some in Ha as (? & _ & ->), Hb as (? & _ & [=]). done.
  - intros [i p]. rewrite list_elem_of_fmap, elem_of_lookup_imap. split.
    + intros ([i' e] & [= -> ->] & [Hi|Hi]%elem_of_range%(con_errors names s Hs)); [|by exists i', (Finished e)].
      rewrite Forall_lookup in Hall. by destruct (Hall _ _ Hi) as [e' ?].
    + intros (i' & p' & [= -> ->] & Hi). rewrite Forall_lookup in Hall. destruct (Hall _ _ Hi) as [e ->].
      exists (i', e). split; [done|]. apply elem_of_range, (con_errors names s Hs). by right.
Qed.
Lemma joined_failures order s : consistent names s → Forall (λ p, ∃ e, p = Finished e) (rn_gos s) →
  omap id (map (wrap_error names) (range order (rn_errors s))) ≡ₚ failures s.
Proof.
  intros Hs Hall. unfold failures. rewrite <- (range_errors order s Hs Hall).
  match goal with |- ?a ≡ₚ ?b => cut (a = b); [by intros ->|] end.
  induction (range order (rn_errors s)) as [|[i [e|]] l IH]; [done|exact (f_equal (cons _) IH)|exact IH].
Qed.

(** C33: when [Run] returns, under every interleaving, every runnable has returned; it
    returns no error exactly when none of them did, and otherwise the errors of those
    that failed, each once and with the name of its runnable, and no others. *)
Theorem Run_collects s r : reachable s → rn_main s = RunReturned r →
  (∀ i, i < n → ∃ e, rn_gos s !! i = Some (Finished e)) ∧
  (r = None ↔ ∀ i, i < n → rn_gos s !! i = Some (Finished None)) ∧
  (r ≠ None → ∃ es, r = Some (EJoin es) ∧ es ≡ₚ failures s).
Proof.
  intros Hs%reachable_consistent Hr. destruct (con_returned names s Hs r Hr) as [Hall [order ->]].
  assert (∀ i, i < n → ∃ e, rn_gos s !! i = Some (Finished e)) as Hfin.
  { intros i Hi. rewrite <- (con_length names s Hs) in Hi. apply lookup_lt_is_Some in Hi as [p Hp].
    rewrite Forall_lookup in Hall. destruct (Hall i p Hp) as [e ->]. by exists e. }
  split; [done|]. split.
  - rewrite joined_errors_none. split.
    + intros H i Hi. destruct (Hfin i Hi) as [e He]. rewrite He. f_equal. f_equal.
      apply (H i). apply (con_errors names s Hs). by right.
    + intros H i e [Hi|Hi]%(con_errors names s Hs); (assert (i < n) as Hn by (rewrite <- (con_length names s Hs); by eapply lookup_lt_Some));
        rewrite (H i Hn) in Hi; congruence.
  - unfold joined_errors, errors_Join. pose proof (joined_failures order s Hs Hall) as Hp. intros Hne.
    destruct (omap id _) as [|e es]; [done|]. by exists (e :: es).
Qed.

(** ** The signal that stops the runnables *)

(** The runnables but [i] run until they are stopped. *)
Definition waits_for_stop (i : nat) : Prop := ∀ k e, k ≠ i → ¬ may_return k false e.

(** Runnable [i] has failed, and the signal came before the other goroutine waited for it. *)
Definition signal_lost (i : nat) (err : error) (s : state) : Prop :=
  rn_main s = WaitGroup ∧ (rn_stopper s = StopInit ∨ rn_stopper s = StopWaiting) ∧ rn_stopped s = ∅ ∧
  ∀ k, k < n → rn_gos s !! k = Some (if decide (k = i) then Finished (Some err) else InStart).

Lemma signal_lost_stays i err s s' : i < n → 1 < n → waits_for_stop i → length (rn_gos s) = n →
  step s s' → signal_lost i err s → signal_lost i err s'.
Proof.
  intros Hi Hn Hw Hl Hstep (Hm & Hst & Hsp & Hg).
  assert (∀ k p, rn_gos s !! k = Some p → p = if decide (k = i) then Finished (Some err) else InStart) as Hg'.
  { intros k p Hk. assert (k < n) as Hkn by (rewrite <- Hl; by eapply lookup_lt_Some). specialize (Hg k Hkn). congruence. }
  destruct Hstep as [k s Hm' Hk|s Hm'|k s Hk|k e s Hk He|k e s Hk|k e s Hk|k s Hk|s Hw'|s Hw'|s Hw'|k s Hw'|s Hw'|order s Hm' Hall];
    try congruence; try (destruct Hst; congruence); try (apply Hg' in Hk; case_decide; congruence).
  - apply Hg' in Hk. case_decide as Hki; [done|]. destruct (Hw k e Hki). by rewrite Hsp, bool_decide_false in He by set_solver.
  - split_and!; try done. by right.
  - assert (∃ j, j < n ∧ j ≠ i) as (j & Hj & Hji).
    { destruct (decide (i = 0)) as [->|]; [exists 1|exists 0]; lia. }
    rewrite Forall_lookup in Hall. specialize (Hg j Hj). rewrite decide_False in Hg by done.
    destruct (Hall j _ Hg) as [e He]. done.
Qed.
Lemma steps_start k : k ≤ n → steps (initial names)
  (mkState (Starting k) StopInit (replicate k Spawned ++ replicate (n - k) NotStarted) ∅ ∅).
Proof.
  induction k as [|k IH]; intros Hk; [unfold initial; rewrite Nat.sub_0_r; apply rtc_refl|].
  unfold Runnable.steps in *. eapply rtc_r; [apply IH; lia|].
  replace (n - k) with (S (n - S k)) by lia.
  match goal with |- step ?s _ => pose proof (rn_start names early may_return k s eq_refl) as H end.
  simpl in H. unfold set_main, set_go in H. simpl in H.
  rewrite insert_app_r_alt, length_replicate, Nat.sub_diag in H by (rewrite length_replicate; lia). simpl in H.
  rewrite (replicate_S_end k), <- (assoc_L (++)). apply H. lia.
Qed.
(** The goroutines call [Start], one after the other. *)
Lemma steps_call k : k ≤ n → steps (mkState WaitGroup StopInit (replicate n Spawned) ∅ ∅)
  (mkState WaitGroup StopInit (replicate k InStart ++ replicate (n - k) Spawned) ∅ ∅).
Proof.
  induction k as [|k IH]; intros Hk; [rewrite Nat.sub_0_r; apply rtc_refl|].
  unfold Runnable.steps in *. eapply rtc_r; [apply IH; lia|].
  replace (n - k) with (S (n - S k)) by lia.
  match goal with |- step ?s _ => pose proof (rn_call names early may_return k s) as H end.
  simpl in H. unfold set_go in H. simpl in H.
  rewrite lookup_app_r, insert_app_r_alt, length_replicate, Nat.sub_diag in H by (rewrite length_replicate; lia). simpl in H.
  rewrite (replicate_S_end k), <- (assoc_L (++)). by apply H.
Qed.

(** A runnable fails before the goroutine that stops the others waits for the signal: the
    signal is lost, the others go on, and [Run] never returns. *)
Theorem lost_signal i err : i < n → 1 < n → may_return i false (Some err) → waits_for_stop i →
  ∃ s, reachable s ∧ signal_lost i err s ∧ ∀ s', steps s s' → signal_lost i err s'.
Proof.
  intros Hi Hn Hret Hw.
  pose (s := mkState WaitGroup StopInit (<[i := Finished (Some err)]> (replicate n InStart)) ∅ {[ i := Some err ]}).
  assert (reachable s) as Hs.
  { unfold Runnable.reachable, Runnable.steps. pose proof (steps_start n ltac:(done)) as H.
    rewrite Nat.sub_diag, app_nil_r in H. eapply (transitivity (R := rtc step)); [exact H|]. clear H.
    eapply rtc_l; [by apply rn_started|]. unfold set_main. simpl.
    eapply (transitivity (R := rtc step)); [apply (steps_call n); done|]. rewrite Nat.sub_diag, app_nil_r.
    assert (∀ (p : go_pc) g, length g = n → <[i := p]> g !! i = Some p) as Hg by (intros p g' Hg'; apply list_lookup_insert_eq; lia).
    eapply rtc_l; [apply (rn_return _ _ _ i (Some err)); [by apply lookup_replicate_2|by rewrite bool_decide_false by set_solver]|].
    eapply rtc_l; [apply (rn_record _ _ _ i (Some err)), Hg; simpl; by rewrite length_replicate|].
    eapply rtc_l; [apply (rn_signal _ _ _ i err), Hg; simpl; by rewrite length_insert, length_replicate|].
    unfold s, set_go, set_main, signal. simpl. rewrite !list_insert_insert_eq. apply rtc_refl. }
  assert (signal_lost i err s) as Hlost.
  { split_and!; [done|by left|done|]. intros k Hk. simpl. case_decide as Hki.
    - subst k. apply list_lookup_insert_eq. by rewrite length_replicate.
    - rewrite list_lookup_insert_ne by done. by apply lookup_replicate_2. }
  exists s. split; [done|]. split; [done|]. intros s' Hs'.
  apply (rtc_preserves step (λ s, signal_lost i err s ∧ consistent names s) s s'); [|split; [done|by apply reachable_consistent]|done].
  intros x y Hxy [H1 H2]. split; [|by eapply step_consistent]. eapply signal_lost_stays; [done..| |done|done]. apply H2.
Qed.

(** *** A signal that is received *)

(** Every goroutine was started, and those whose runnable has not returned were stopped. *)
Record ready (s : state) : Prop := {
  rd_main : rn_main s = WaitGroup;
  rd_length : length (rn_gos s) = n;
  rd_gos i p : rn_gos s !! i = Some p → p ≠ NotStarted ∧ (p = Spawned ∨ p = InStart → i ∈ rn_stopped s)
}.
Lemma ready_go s i q st errors : ready s → q ≠ NotStarted → (q = Spawned ∨ q = InStart → i ∈ rn_stopped s) →
  ready (mkState (rn_main s) st (<[i := q]> (rn_gos s)) (rn_stopped s) errors).
Proof.
  intros [H1 H2 H3] Hq Hq'. split; simpl; [done|by rewrite length_insert|].
  intros j p [(-> & <- & _)|[Hne Hj]]%list_lookup_insert_Some; [done|by apply H3].
Qed.

(** One goroutine goes on to its end, the others stay. *)
Definition finishes (k : nat) (s : state) : Prop :=
  ∃ s', steps s s' ∧ ready s' ∧ (∃ e, rn_gos s' !! k = Some (Finished e)) ∧ ∀ j, j ≠ k → rn_gos s' !! j = rn_gos s !! j.
Lemma finishes_step k s p : step s p → (∀ j, j ≠ k → rn_gos p !! j = rn_gos s !! j) → finishes k p → finishes k s.
Proof.
  intros Hs Hj (s' & H1 & H2 & H3 & H4). exists s'. split_and!; [by eapply rtc_l|done..|].
  intros j Hne. by rewrite H4, Hj.
Qed.
Lemma finished_finishes k e s : ready s → rn_gos s !! k = Some (Finished e) → finishes k s.
Proof. intros Hs Hk. exists s. split_and!; [apply rtc_refl|done|by exists e|done]. Qed.
Lemma recorded_finishes k e s : ready s → rn_gos s !! k = Some (Recorded e) → finishes k s.
Proof.
  intros Hs Hk. assert (k < length (rn_gos s)) as Hl by by eapply lookup_lt_Some.
  destruct (signal_is s) as [st Hsig].
  assert (∀ st', finishes k (mkState (rn_main s) st' (<[k := Finished e]> (rn_gos s)) (rn_stopped s) (rn_errors s))) as Hfin.
  { intros st'. apply (finished_finishes k e); [apply ready_go; naive_solver|]. by apply list_lookup_insert_eq. }
  destruct e as [e|].
  - eapply (finishes_step k s); [by apply (rn_signal _ _ _ k e)|rewrite Hsig; intros j Hj; by apply list_lookup_insert_ne|].
    rewrite Hsig. apply Hfin.
  - eapply (finishes_step k s); [by apply (rn_finish _ _ _ k)|intros j Hj; by apply list_lookup_insert_ne|]. apply Hfin.
Qed.
Lemma returned_finishes k e s : ready s → rn_gos s !! k = Some (Returned e) → finishes k s.
Proof.
  intros Hs Hk. assert (k < length (rn_gos s)) as Hl by by eapply lookup_lt_Some.
  eapply (finishes_step k s); [by apply (rn_record _ _ _ k e)|intros j Hj; by apply list_lookup_insert_ne|].
  apply (recorded_finishes k e); [apply (ready_go s); naive_solver|]. by apply list_lookup_insert_eq.
Qed.

(** A runnable returns once it is stopped. *)
Definition stoppable : Prop := ∀ k, k < n → ∃ e, may_return k true e.

Lemma started_finishes k s : stoppable → ready s → rn_gos s !! k = Some InStart → finishes k s.
Proof.
  intros Hst Hs Hp. assert (k < length (rn_gos s)) as Hl by by eapply lookup_lt_Some.
  destruct (rd_gos s Hs k _ Hp) as [_ Hin].
  destruct (Hst k) as [e He]; [by rewrite <- (rd_length s Hs)|].
  eapply (finishes_step k s); [apply (rn_return _ _ _ k e); [done|by rewrite bool_decide_true by auto]|intros j Hj; by apply list_lookup_insert_ne|].
  apply (returned_finishes k e); [apply (ready_go s); naive_solver|]. by apply list_lookup_insert_eq.
Qed.
Lemma goroutine_finishes k s : stoppable → ready s → k < n → finishes k s.
Proof.
  intros Hst Hs Hk. assert (k < length (rn_gos s)) as Hl by by rewrite (rd_length s Hs).
  destruct (lookup_lt_is_Some_2 (rn_gos s) k Hl) as [p Hp]. destruct (rd_gos s Hs k p Hp) as [Hns Hin].
  destruct p as [| | |e|e|e]; [done| |by apply started_finishes|by eapply returned_finishes|by eapply recorded_finishes|by eapply finished_finishes].
  eapply (finishes_step k s); [by apply rn_call|intros j Hj; by apply list_lookup_insert_ne|].
  apply started_finishes; [done|apply (ready_go s); naive_solver|]. by apply list_lookup_insert_eq.
Qed.

Lemma ready_returns s : stoppable → ready s → ∃ s' r, steps s s' ∧ rn_main s' = RunReturned r.
Proof.
  intros Hst Hs.
  assert (∀ k, k ≤ n → ∃ s', steps s s' ∧ ready s' ∧ ∀ i, i < k → ∃ e, rn_gos s' !! i = Some (Finished e)) as Hfin.
  { induction k as [|k IH]; intros Hk; [exists s; split_and!; [apply rtc_refl|done|lia]|].
    destruct IH as (s1 & H1 & Hr1 & Hf1); [lia|].
    destruct (goroutine_finishes k s1 Hst Hr1) as (s2 & H2 & Hr2 & Hk2 & Hj2); [lia|].
    exists s2. split_and!; [by transitivity s1|done|]. intros i Hi.
    destruct (decide (i = k)) as [->|Hne]; [done|]. rewrite Hj2 by done. apply Hf1. lia. }
  destruct (Hfin n) as (s' & H1 & Hr & Hf); [done|].
  exists (set_main (RunReturned (joined_errors names std_ranger (rn_errors s'))) (signal s')), (joined_errors names std_ranger (rn_errors s')).
  split; [|done]. eapply rtc_r; [done|]. apply rn_collect; [apply Hr|]. apply Forall_lookup. intros i p Hi.
  destruct (Hf i) as [e He]; [rewrite <- (rd_length s' Hr); by eapply lookup_lt_Some|]. exists e. congruence.
Qed.

(** Every goroutine is there, and [Stop] has an effect on each of them. *)
Definition all_reached (s : state) : Prop :=
  ∀ i p, rn_gos s !! i = Some p → p ≠ NotStarted ∧ (p = Spawned → early i = true).

(** Every runnable is stopped, one after the other. *)
Lemma stopper_stops s k : length (rn_gos s) = n → all_reached s → rn_main s = WaitGroup →
  rn_stopper s = Stopping k → k ≤ n → (∀ i, i < k → i ∈ rn_stopped s) → ∃ s', steps s s' ∧ ready s'.
Proof.
  intros Hl Hns Hm Hst Hk. remember (n - k) as d eqn:Hd. revert s k Hl Hns Hm Hst Hk Hd.
  induction d as [|d IH]; intros s k Hl Hns Hm Hst Hk Hd Hsp.
  - exists (set_stopper StopDone s). split.
    + eapply rtc_l; [apply rn_all_stopped; rewrite Hst; f_equal; lia|apply rtc_refl].
    + split; simpl; [done..|]. intros i p Hi. assert (i < length (rn_gos s)) by by eapply lookup_lt_Some.
      split; [by apply (Hns i)|]. intros _. apply Hsp. lia.
  - assert (stop_runnable early k s = {[ k ]} ∪ rn_stopped s) as Hstop.
    { unfold stop_runnable, start_called. specialize (Hns k).
      destruct (rn_gos s !! k) as [p|]; [|by rewrite orb_true_r]. destruct (Hns p eq_refl) as [Hp He].
      destruct p; [done|by rewrite He|by rewrite orb_true_r..]. }
    destruct (IH (mkState (rn_main s) (Stopping (S k)) (rn_gos s) (stop_runnable early k s) (rn_errors s)) (S k))
      as (s' & H1 & H2); simpl; try done; try lia.
    + intros i Hi. rewrite Hstop. destruct (decide (i = k)) as [->|]; [set_solver|]. apply elem_of_union_r, Hsp. lia.
    + exists s'. split; [|done]. eapply rtc_l; [apply rn_stop; [done|lia]|done].
Qed.

(** When the signal is received every runnable is stopped, and [Run] returns if each of
    them does after that; a [Stop] must reach those that have not called [Start] yet. *)
Theorem received_signal_stops s : stoppable → reachable s → rn_main s = WaitGroup → rn_stopper s = StopWoken →
  (∀ i, rn_gos s !! i = Some Spawned → early i = true) →
  ∃ s' r, steps s s' ∧ rn_main s' = RunReturned r.
Proof.
  intros Hst Hs%reachable_consistent Hm Hw Hearly.
  assert (all_reached s) as Hns.
  { intros i p Hi. split; [|intros ->; by apply Hearly].
    intros ->. apply (con_not_started names s Hs) in Hi as (k & Hk & _). congruence. }
  assert (∃ s1, steps s s1 ∧ ready s1) as (s1 & H1 & Hr).
  2:{ destruct (ready_returns s1 Hst Hr) as (s' & r & H2 & Hr'). exists s', r. split; [by transitivity s1|done]. }
  destruct (decide (size (rn_errors s) < n)) as [Hlt|Hge].
  - destruct (stopper_stops (set_stopper (Stopping 0) s) 0) as (s1 & H1 & H2); simpl; try done; [apply Hs|lia|lia|].
    exists s1. split; [|done]. eapply rtc_l; [by apply rn_pending|done].
  - exists s. split; [apply rtc_refl|]. split; [done|apply Hs|]. intros i p Hi.
    assert (i < n) as Hin by (rewrite <- (con_length names s Hs); by eapply lookup_lt_Some).
    assert (dom (rn_errors s) = set_seq 0 n) as Hdom.
    { apply set_subseteq_size_eq; [|rewrite size_dom, size_set_seq; lia].
      intros j [e Hj]%elem_of_dom. apply elem_of_set_seq. apply (con_errors names s Hs) in Hj.
      rewrite <- (con_length names s Hs). split; [lia|]. by destruct Hj as [Hj|Hj]; eapply lookup_lt_Some. }
    assert (i ∈ dom (rn_errors s)) as [e He]%elem_of_dom by (rewrite Hdom; apply elem_of_set_seq; lia).
    apply (con_errors names s Hs) in He. split; [by apply (Hns i)|]. naive_solver.
Qed.
End facts.

(** One runnable, which fails. *)
Definition rn_failed : error := ENew "listener closed".
Definition rn_result : option error := Some (EJoin [EWrap "error running 'grpc'" rn_failed]).
Definition rn_final : state :=
  mkState (RunReturned rn_result) StopInit [Finished (Some rn_failed)] ∅ {[ 0 := Some rn_failed ]}.

Lemma Run_collects_witness : ∃ es, rn_result = Some (EJoin es) ∧ es ≡ₚ [EWrap "error running 'grpc'" rn_failed].
Proof.
  destruct (Run_collects ["grpc"] (λ _, true) (λ _ _ _, True) rn_final rn_result) as (_ & _ & H).
  - unfold reachable, steps.
    eapply rtc_l; [apply (rn_start _ _ _ 0); [reflexivity|simpl; lia]|].
    eapply rtc_l; [apply rn_started; reflexivity|].
    eapply rtc_l; [apply (rn_call _ _ _ 0); reflexivity|].
    eapply rtc_l; [apply (rn_return _ _ _ 0 (Some rn_failed)); [reflexivity|exact I]|].
    eapply rtc_l; [apply (rn_record _ _ _ 0 (Some rn_failed)); reflexivity|].
    eapply rtc_l; [apply (rn_signal _ _ _ 0 rn_failed); reflexivity|].
    eapply rtc_l; [apply (rn_collect _ _ _ std_ranger); [reflexivity|constructor; [by eexists|constructor]]|].
    apply rtc_refl.
  - reflexivity.
  - apply H. discriminate.
Defined.

(** The controller manager is one of the runnables that a Stop before Start does not reach. *)
Theorem ctl_early_stop ctx : ctl_running (ctl_Start ctx (ctl_Stop (mkControllerManager None ∅))) = true.
Proof. reflexivity. Qed.
