(* ===== verification/Bootstrap.v ===== *)
(** * The certificates of a fabric

    [pkg/bootstrap/crypt.go] and [cert.go], with the commands of [cmd/clusterlink/cmd/create]
    that use them: a fabric has a root certificate, which signs a certificate for each
    peer; a site has a certificate authority for its control plane and data plane. *)
From S2P Require Export Net Paths.
From stdpp Require Import options.
From Stdlib Require Import Ascii ZArith Lia.

#[local] Set Default Proof Using "Type".

(** The names of [pkg/controlplane/api] and [pkg/dataplane/api]. *)
Inductive ExtKeyUsage := ExtKeyUsageServerAuth | ExtKeyUsageClientAuth.
#[export] Instance ExtKeyUsage_eq_dec : EqDecision ExtKeyUsage.
Proof. solve_decision. Defined.
(** [x509.KeyUsageCertSign | x509.KeyUsageCRLSign] *)
Definition KeyUsageCertSign : Z := Z.shiftl 1 5.
Definition KeyUsageCRLSign : Z := Z.shiftl 1 6.

(** ** [crypto/rsa], [crypto/x509], [encoding/pem] *)
Class X509Lib (W : Type) := {
  PrivateKey : Type;
  PublicKey : Type;
  Public : PrivateKey → PublicKey;
  GenerateKey : ST W (result PrivateKey);
  random_serial : ST W Z;
  (** [AddDate(10, 0, 0)] *)
  ten_years_later : Z → Z;
  MarshalPKCS1PrivateKey : PrivateKey → string;
  ParsePKCS1PrivateKey : string → result PrivateKey;
  pem_Encode : string → string → result string;
  (** the type and the bytes of the first block *)
  pem_Decode : string → option (string * string)
}.

Section x509.
Context {W : Type} {XL : X509Lib W}.

(** [x509.Certificate]: the fields the sources set; and, of a parsed certificate, its
    key and the key its signature was made with. *)
Record x509Certificate := mkX509 {
  SerialNumber : Z; NotBefore : Z; NotAfter : Z; IsCA : bool; CommonName : string;
  BasicConstraintsValid : bool; KeyUsage : Z; ExtKeyUsages : list ExtKeyUsage; x_DNSNames : list string;
  x_PublicKey : option PublicKey; x_Signer : option PublicKey
}.
End x509.

Class X509Sign (W : Type) `{!X509Lib W} := {
  (** template, parent, public key, signing key *)
  CreateCertificate : x509Certificate → x509Certificate → PublicKey → PrivateKey → ST W (result string);
  x509_ParseCertificate : string → result x509Certificate
}.

(** ** crypt.go *)
Section crypt.
Context {W : Type} {CK : Clock W} {XL : X509Lib W} {XS : X509Sign W}.

Inductive certificate := mkCertificate
  (parent : option certificate) (cert : x509Certificate) (key : option PrivateKey) (certPEM keyPEM : string).
Definition c_parent (c : certificate) : option certificate := let (p, _, _, _, _) := c in p.
Definition c_cert (c : certificate) : x509Certificate := let (_, x, _, _, _) := c in x.
Definition c_key (c : certificate) : option PrivateKey := let (_, _, k, _, _) := c in k.
Definition c_certPEM (c : certificate) : string := let (_, _, _, s, _) := c in s.
Definition c_keyPEM (c : certificate) : string := let (_, _, _, _, s) := c in s.

Record certificateConfig := mkCertificateConfig {
  cc_Name : string; cc_IsCA : bool; cc_IsServer : bool; cc_IsClient : bool;
  cc_DNSNames : list string; cc_Parent : option certificate
}.

(** The certificate that is to be signed. *)
Definition certificate_template (serial now : Z) (config : certificateConfig) : x509Certificate :=
  mkX509 serial now (ten_years_later now) (cc_IsCA config) (cc_Name config)
    (cc_IsCA config) (if cc_IsCA config then Z.lor KeyUsageCertSign KeyUsageCRLSign else 0)
    ((if cc_IsServer config then [ExtKeyUsageServerAuth] else []) ++
     (if cc_IsClient config then [ExtKeyUsageClientAuth] else []))
    (if cc_IsCA config then [] else cc_DNSNames config) None None.

(** The key of a parent that was read without its key is nil: signing with it panics. *)
Definition createCertificate (config : certificateConfig) : ST W (outcome (result certificate)) :=
  key ← GenerateKey;
  match key with
  | Err err => mret (Done (Err err))
  | Ok key =>
  serial ← random_serial;
  w ← getS;
  let cert := certificate_template serial (clock_now w) config in
  let ca := match cc_Parent config with Some p => c_cert p | None => cert end in
  match match cc_Parent config with Some p => c_key p | None => Some key end with
  | None => mret Panic
  | Some caKey =>
  certBytes ← CreateCertificate cert ca (Public key) caKey;
  mret (Done match certBytes with
  | Err err => Err err
  | Ok certBytes =>
  match pem_Encode "CERTIFICATE" certBytes with
  | Err err => Err err
  | Ok certPEM =>
  match pem_Encode "RSA PRIVATE KEY" (MarshalPKCS1PrivateKey key) with
  | Err err => Err err
  | Ok keyPEM =>
  match x509_ParseCertificate certBytes with
  | Err err => Err err
  | Ok signedCert => Ok (mkCertificate (cc_Parent config) signedCert (Some key) certPEM keyPEM)
  end end end end)
  end end.

(** The PEM of the key is optional. *)
Definition certificateFromRaw (certPEM : string) (keyPEM : option string) : result certificate :=
  match pem_Decode certPEM with
  | None => Err (ENew "certificate is not in PEM format")
  | Some (_, block) =>
  match x509_ParseCertificate block with
  | Err err => Err err
  | Ok cert =>
  match keyPEM with
  | None => Ok (mkCertificate None cert None certPEM "")
  | Some keyPEM =>
  match pem_Decode keyPEM with
  | None => Err (ENew "key is not in PEM format")
  | Some (_, block) =>
  match ParsePKCS1PrivateKey block with
  | Err err => Err err
  | Ok key => Ok (mkCertificate None cert (Some key) certPEM keyPEM)
  end end end end end.

(** ** cert.go *)
Definition RawCert (c : certificate) : string :=
  match c_parent c with Some p => c_certPEM c +:+ c_certPEM p | None => c_certPEM c end.
Definition RawKey (c : certificate) : string := c_keyPEM c.

Definition CreateFabricCertificate (name : string) : ST W (outcome (result certificate)) :=
  createCertificate (mkCertificateConfig name true false false [] None).
Definition CreateCACertificate : ST W (outcome (result certificate)) :=
  createCertificate (mkCertificateConfig "cl-ca" true false false [] None).
Definition CreateControlplaneCertificate (caCert : certificate) : ST W (outcome (result certificate)) :=
  createCertificate (mkCertificateConfig controlplane_Name false true false [controlplane_Name] (Some caCert)).
Definition CreateDataplaneCertificate (caCert : certificate) : ST W (outcome (result certificate)) :=
  createCertificate (mkCertificateConfig dataplane_Name false false true [dataplane_Name] (Some caCert)).
Definition CreatePeerCertificate (peer : string) (fabricCert : certificate) : ST W (outcome (result certificate)) :=
  createCertificate (mkCertificateConfig peer false true true [peer] (Some fabricCert)).
End crypt.

(** ** The files of the command-line tool: cmd/clusterlink/config *)
Definition PrivateKeyFileName : string := "key.pem".
Definition CertificateFileName : string := "cert.pem".
Definition FabricDirectory (name path : string) : string := filepath_Join [path; name].
Definition PeerDirectory (peer fabric path : string) : string := filepath_Join [FabricDirectory fabric path; peer].
Definition ControlplaneDirectory (peer fabric path : string) : string := filepath_Join [PeerDirectory peer fabric path; "controlplane"].
Definition DataplaneDirectory (peer fabric path : string) : string := filepath_Join [PeerDirectory peer fabric path; "dataplane"].
Definition CADirectory (peer fabric path : string) : string := filepath_Join [PeerDirectory peer fabric path; "ca"].
Definition FabricCertificate (name path : string) : string := filepath_Join [FabricDirectory name path; CertificateFileName].
Definition FabricKey (name path : string) : string := filepath_Join [FabricDirectory name path; PrivateKeyFileName].

(** [os.Mkdir], [os.WriteFile], [os.Stat] and [os.IsNotExist]; [idna.Lookup.ToASCII]. *)
Class FileSystem (W : Type) := {
  Mkdir : string → ST W (option error);
  WriteFile : string → string → ST W (option error);
  Stat : string → ST W (option error);
  IsNotExist : error → bool
}.
Class Idna := { ToASCII : string → result string }.

Section commands.
Context {W : Type} {CK : Clock W} {XL : X509Lib W} {XS : X509Sign W} {FS : Files W} {FY : FileSystem W} {ID : Idna}.

Definition ReadCertificates (dir : string) (withKey : bool) : ST W (result certificate) :=
  rawCert ← ReadFile (filepath_Join [dir; CertificateFileName]);
  match rawCert with
  | Err err => mret (Err err)
  | Ok rawCert =>
      if withKey then
        rawFabricKey ← ReadFile (filepath_Join [dir; PrivateKeyFileName]);
        mret match rawFabricKey with
             | Err err => Err err
             | Ok rawFabricKey => certificateFromRaw rawCert (Some rawFabricKey)
             end
      else mret (certificateFromRaw rawCert None)
  end.

(** A command may panic, fail or succeed. *)
Definition fabric_Run (name path : string) : ST W (outcome (option error)) :=
  fabricCert ← CreateFabricCertificate name;
  match fabricCert with
  | Panic => mret Panic
  | Done (Err err) => mret (Done (Some err))
  | Done (Ok fabricCert) =>
  err ← Mkdir (FabricDirectory name path);
  match err with
  | Some err => mret (Done (Some err))
  | None =>
  err ← WriteFile (FabricCertificate name path) (RawCert fabricCert);
  match err with
  | Some err => mret (Done (Some err))
  | None => err ← WriteFile (FabricKey name path) (RawKey fabricCert); mret (Done err)
  end end end.

Definition saveCertificate (cert : certificate) (outDirectory : string) : ST W (option error) :=
  err ← WriteFile (filepath_Join [outDirectory; CertificateFileName]) (RawCert cert);
  match err with
  | Some err => mret (Some err)
  | None => WriteFile (filepath_Join [outDirectory; PrivateKeyFileName]) (RawKey cert)
  end.

Definition createPeerCert (name fabric path : string) (fabricCert : certificate) : ST W (outcome (option error)) :=
  cert ← CreatePeerCertificate name fabricCert;
  match cert with
  | Panic => mret Panic
  | Done (Err err) => mret (Done (Some err))
  | Done (Ok cert) =>
  let outDirectory := PeerDirectory name fabric path in
  err ← Mkdir outDirectory;
  match err with
  | Some err => mret (Done (Some err))
  | None => err ← saveCertificate cert outDirectory; mret (Done err)
  end end.

Definition verifyNotExists (path : string) : ST W (option error) :=
  err ← Stat path;
  mret match err with
       | None => Some (ENew ("path " +:+ path +:+ " exists"))
       | Some err => if negb (IsNotExist err) then Some err else None
       end.

(** The path that is looked for is the name of the peer, in the current directory. *)
Definition peer_Run (name fabric path : string) : ST W (outcome (option error)) :=
  match ToASCII name with
  | Err err => mret (Done (Some (EWrap "peer name is not a valid DNS name" err)))
  | Ok _ =>
  err ← verifyNotExists name;
  match err with
  | Some err => mret (Done (Some err))
  | None =>
  fabricCert ← ReadCertificates (FabricDirectory fabric path) true;
  match fabricCert with
  | Err err => mret (Done (Some err))
  | Ok fabricCert => createPeerCert name fabric path fabricCert
  end end end.
End commands.

Example filepath_Join_ex : FabricDirectory "default_fabric" "." = "default_fabric" ∧ PeerDirectory "p1" "f" "/a/../b/" = "/b/f/p1".
Proof. vm_compute. done. Qed.
