(* ===== verification/Servers.v ===== *)
(** * The programs

    How the control plane and the data planes are set up and started:
    [cmd/cl-controlplane/app/server.go], [cmd/cl-dataplane/app/server.go] and
    [cmd/cl-go-dataplane/app/server.go], with the wrappers of [pkg/util] they use: the
    listeners of [tcp], the log of [log], and [pkg/versioninfo].  The theorems: a control
    plane starts its controllers with the certificates in place, so none of them panics; and
    no listener is left open, whatever fails. *)
From S2P Require Export Controllers ControlControllers Certs EnvoyConf Fetcher Runnable Bootstrap.
From stdpp Require Import options.
From Stdlib Require Import ZArith Lia.

#[local] Set Default Proof Using "Type".

(** ** pkg/versioninfo *)
Record version_info := mkVersion {
  GitTag : string; Version : string; Revision : string; LastCommit : Z; DirtyBuild : bool
}.
Definition version_variables : version_info := mkVersion "" "unknown" "unknown" 0 false.

Section version.
(** [time.Parse] of RFC 3339; the zero time stands for an error. *)
Context (time_Parse : string → Z).
Definition version_setting (v : version_info) (kv : string * string) : version_info :=
  if decide (kv.1 = "vcs.revision") then mkVersion (GitTag v) (Version v) kv.2 (LastCommit v) (DirtyBuild v)
  else if decide (kv.1 = "vcs.time") then mkVersion (GitTag v) (Version v) (Revision v) (time_Parse kv.2) (DirtyBuild v)
  else if decide (kv.1 = "vcs.modified") then
    mkVersion (GitTag v) (Version v) (Revision v) (LastCommit v) (bool_decide (kv.2 = "true"))
  else v.
(** [init], with the result of [debug.ReadBuildInfo]. *)
Definition version_init (info : option (list (string * string))) (v : version_info) : version_info :=
  match info with None => v | Some settings => foldl version_setting v settings end.
End version.

Definition Short (v : version_info) : string :=
  let parts := if decide (GitTag v ≠ "") then [GitTag v] else [] in
  let parts := if decide (Version v ≠ "unknown" ∧ Version v ≠ "(devel)") then parts ++ [Version v] else parts in
  let parts :=
    if decide (Revision v ≠ "unknown" ∧ Revision v ≠ "") then
      let commit := if decide (7 < String.length (Revision v)) then str_take 7 (Revision v) else Revision v in
      let parts := parts ++ ["rev"; commit] in
      if DirtyBuild v then parts ++ ["dirty"] else parts
    else parts in
  match parts with [] => "devel" | _ => String.concat "-" parts end.

(** Not the documented <SemVer>-<GIT SHA>[-<dirty>]: there is a word in between. *)
Lemma Short_has_rev tag sha :
  tag ≠ "" → sha ≠ "" → sha ≠ "unknown" → String.length sha = 7 →
  Short (mkVersion tag "unknown" sha 0 true) = tag +:+ "-rev-" +:+ sha +:+ "-dirty".
Proof.
  intros Ht Hs1 Hs2 Hl. unfold Short. cbn [GitTag Version Revision DirtyBuild].
  rewrite Hl, (decide_True (P := tag ≠ "")) by done.
  rewrite (decide_False (P := "unknown" ≠ "unknown" ∧ _)) by (intros [? _]; done).
  by rewrite decide_True.
Qed.

(** ** pkg/util/log *)
Class LogLib (W : Type) := {
  LogFile : Type;
  user_HomeDir : ST W (result string);                 (* user.Current *)
  os_MkdirAll : string → ST W (option error);
  os_OpenFile : string → ST W (result LogFile);        (* O_APPEND|O_CREATE|O_RDWR *)
  LogLevel : Type;
  ErrorLevel : LogLevel;
  log_ParseLevel : string → result LogLevel
}.

Section log.
Context {W : Type} {LG : LogLib W}.
(** The standard logger: its output ([None] is standard error), its level, and whether its
    formatter is the one of this package. *)
Record logger := mkLogger { lg_Output : option LogFile; lg_Level : LogLevel; lg_formatter : bool }.

(** [filepath.Dir] of a cleaned path. *)
Definition filepath_Dir (p : string) : string := filepath_Join [p; ".."].

(** An error is only printed. *)
Definition createLogFolder (filePath : string) : ST W unit :=
  os_MkdirAll (filepath_Dir filePath);; mret tt.

Definition log_Set (logLevel logFileName : string) : ST (logger * W) (result (option LogFile)) :=
  logfile ←
    (if decide (logFileName ≠ "") then
       home ← outside user_HomeDir;
       match home with
       | Err err => mret (Err err)
       | Ok home =>
           let logFileFullPath := filepath_Join [home; logFileName] in
           outside (createLogFolder logFileFullPath);;
           f ← outside (os_OpenFile logFileFullPath);
           match f with
           | Err err => mret (Err (EWrap "error opening log file" err))
           | Ok f => modify (λ s, (mkLogger (Some f) (lg_Level s.1) (lg_formatter s.1), s.2));; mret (Ok (Some f))
           end
       end
     else mret (Ok None));
  match logfile with
  | Err err => mret (Err err)
  | Ok logfile =>
      let ll := match log_ParseLevel logLevel with Ok ll => ll | Err _ => ErrorLevel end in
      modify (λ s, (mkLogger (lg_Output s.1) ll true, s.2));;
      mret (Ok logfile)
  end.
End log.

(** ** pkg/util/tcp: the listeners *)
Class TCPNet (W L : Type) := {
  net_Listen : string → ST W (result L);
  lis_Close : L → ST W (option error)
}.
(** The open listeners: a listener that is made is a new one. *)
Class TCPNetLaws (W L : Type) `{!TCPNet W L} := {
  is_open : W → L → Prop;
  listen_ok addr w l w' : net_Listen addr w = (Ok l, w') → ¬ is_open w l ∧ ∀ l', is_open w' l' → l' = l ∨ is_open w l';
  listen_err addr w e w' : net_Listen addr w = (Err e, w') → ∀ l, is_open w' l → is_open w l;
  close_closes l w l' : is_open (lis_Close l w).2 l' → l' ≠ l ∧ is_open w l'
}.

Section servers.
Context {W L : Type} {TN : TCPNet W L}.

Record tcp_Listener := mkTcpListener { tl_name : string; tl_address : string; tl_listener : option L }.
Definition tcp_NewListener (name : string) : tcp_Listener := mkTcpListener name "" None.

Definition tcp_Listen (address : string) : ST (tcp_Listener * W) (option error) :=
  lis ← outside (net_Listen address);
  match lis with
  | Err err => mret (Some err)
  | Ok lis => modify (λ s, (mkTcpListener (tl_name s.1) address (Some lis), s.2));; mret None
  end.
Definition GetAddress (l : tcp_Listener) : string := tl_address l.
Definition GetListener (l : tcp_Listener) : option L := tl_listener l.
Definition tcp_Name (l : tcp_Listener) : string := tl_name l.
Definition tcp_Close : ST (tcp_Listener * W) (option error) :=
  l ← gets fst;
  match tl_listener l with
  | Some lis => outside (lis_Close lis)
  | None => mret None
  end.

(** The servers of a program, each with its listener, as servers of a runnable manager. *)
Abbreviation listeners_of := (gmap nat tcp_Listener).
Definition with_listener {A} (k : nat) (f : ST (tcp_Listener * W) A) : ST (listeners_of * W) A := λ s,
  let '(a, (l, w)) := f (default (tcp_NewListener "") (s.1 !! k), s.2) in (a, (<[k := l]> s.1, w)).
Definition tcp_server (k : nat) (name : string) : Server (listeners_of * W) :=
  mkServer name (λ address, with_listener k (tcp_Listen address)) (with_listener k tcp_Close).

(** *** No listener is left open *)
Context {TNL : TCPNetLaws W L}.
#[local] Set Default Proof Using "All".

(** Server [k] has made the listener [l]. *)
Definition holds (ls : listeners_of) (k : nat) (l : L) : Prop := ∃ tl, ls !! k = Some tl ∧ tl_listener tl = Some l.
(** All that is open was so before, or is held by a server whose key satisfies [P]. *)
Definition open_within (w0 : W) (P : nat → Prop) (s : listeners_of * W) : Prop :=
  ∀ l, is_open s.2 l → is_open w0 l ∨ ∃ k, P k ∧ holds s.1 k l.

Lemma tcp_Listen_open w0 P k name address s :
  open_within w0 P s → P k → (∀ l, ¬ holds s.1 k l) →
  let r := srv_Listen (tcp_server k name) address s in
  open_within w0 P r.2 ∧ ∀ j, j ≠ k → r.2.1 !! j = s.1 !! j.
Proof.
  destruct s as [ls w]. intros Ho Hk Hnone. cbn [tcp_server srv_Listen fst] in *. unfold with_listener, tcp_Listen. unfold_st. cbn [fst snd].
  assert (∀ tl w', (∀ l, is_open w' l → is_open w l ∨ tl_listener tl = Some l) →
    open_within w0 P (<[k := tl]> ls, w')) as Hgen.
  { intros tl w' Hw l Hl. destruct (Hw l Hl) as [Hold|Hnew].
    - destruct (Ho l Hold) as [?|(j & Hj & tl' & Htl' & Hl')]; [by left|right]. exists j. split; [done|].
      exists tl'. split; [|done]. simpl. rewrite lookup_insert_ne; [done|]. intros <-. apply (Hnone l). by exists tl'.
    - right. exists k. split; [done|]. exists tl. split; [apply lookup_insert_eq|done]. }
  destruct (net_Listen address w) as [[l|e] w'] eqn:Hl; cbn [fst snd]; (split; [|intros j Hj; by rewrite lookup_insert_ne]).
  - apply Hgen. simpl. intros l' Hl'. destruct (listen_ok _ _ _ _ Hl) as [_ Hn].
    destruct (Hn l' Hl') as [->|?]; [by right|by left].
  - apply Hgen. intros l' Hl'. left. by eapply listen_err.
Qed.

(** [Close] closes what the listener holds, and does nothing before [Listen]. *)
Lemma tcp_Close_spec tl w :
  ∃ e w', tcp_Close (tl, w) = (e, (tl, w')) ∧ ∀ l, is_open w' l → is_open w l ∧ tl_listener tl ≠ Some l.
Proof.
  unfold tcp_Close. unfold_st. cbn [fst snd]. destruct (tl_listener tl) as [lis|] eqn:Htl; [|by exists None, w].
  cbn [fst snd]. pose proof (close_closes lis w) as Hcl. destruct (lis_Close lis w) as [e w']. cbn [fst snd] in *.
  exists e, w'. split; [done|]. intros l Hl. destruct (Hcl l Hl) as [Hne Hold]. split; congruence.
Qed.

Lemma tcp_Close_open w0 P k name s :
  open_within w0 P s → let r := srv_Close (tcp_server k name) s in open_within w0 (λ j, P j ∧ j ≠ k) r.2.
Proof.
  destruct s as [ls w]. intros Ho. cbn [tcp_server srv_Close]. unfold with_listener. cbn [fst snd].
  destruct (tcp_Close_spec (default (tcp_NewListener "") (ls !! k)) w) as (e & w' & -> & Hcl). cbn [fst snd].
  intros l Hl. destruct (Hcl l Hl) as [Hold Hne]. destruct (Ho l Hold) as [?|(j & Hj & tl & Htl & Hlis)]; [by left|right].
  simpl in Htl. exists j. assert (j ≠ k) as Hjk by (intros ->; by rewrite Htl in Hne). split; [done|].
  exists tl. simpl. by rewrite lookup_insert_ne.
Qed.

(** The servers of the manager: each is the one of its key. *)
Definition tcp_servers (serverAddress : gmap nat (Server (listeners_of * W) * string)) : Prop :=
  map_Forall (λ k sa, ∃ name, sa.1 = tcp_server k name) serverAddress.

Lemma listen_all_open w0 P l s :
  (∀ k sa, (k, sa) ∈ l → P k ∧ ∃ name, sa.1 = tcp_server k name) → NoDup l.*1 →
  open_within w0 P s → (∀ k sa lis, (k, sa) ∈ l → ¬ holds s.1 k lis) →
  open_within w0 P (listen_all l s).2.
Proof.
  revert s. induction l as [|[k [srv addr]] l IH]; intros s Hl Hnd Ho Hfresh; [done|].
  destruct (Hl k (srv, addr)) as [HP [name Hsrv]]; [by left|]. simpl in Hsrv. subst srv.
  apply NoDup_cons in Hnd as [Hk Hnd]. cbn [listen_all]. unfold_st.
  destruct (tcp_Listen_open w0 P k name addr s Ho HP) as [Ho1 Hkeep]; [intros lis; eapply Hfresh; by left|].
  destruct (srv_Listen (tcp_server k name) addr s) as [[err|] s1]; [done|]. cbn [fst snd] in *.
  apply IH; [intros; apply Hl; by right|done|done|].
  intros j sa lis Hin (tl & Htl & Hlis). rewrite Hkeep in Htl.
  - eapply (Hfresh j sa lis); [by right|by exists tl].
  - intros ->. apply Hk. by apply (list_elem_of_fmap_2 fst) in Hin.
Qed.

Lemma close_all_open w0 l (P : nat → Prop) s :
  (∀ k sa, (k, sa) ∈ l → ∃ name, sa.1 = tcp_server k name) →
  open_within w0 P s → open_within w0 (λ k, P k ∧ k ∉ l.*1) (close_all l s).2.
Proof.
  revert P s. induction l as [|[k [srv addr]] l IH]; intros P s Hl Ho; cbn [close_all fmap list_fmap].
  { intros lis Hlis. destruct (Ho lis Hlis) as [?|(j & Hj & Hh)]; [by left|right]. exists j. split; [|done].
    split; [done|apply not_elem_of_nil]. }
  destruct (Hl k (srv, addr)) as [name Hsrv]; [by left|]. simpl in Hsrv. subst srv. unfold_st.
  pose proof (tcp_Close_open w0 P k name s Ho) as Ho1. cbv zeta in Ho1.
  destruct (srv_Close (tcp_server k name) s) as [e s1]. cbn [fst snd] in *.
  specialize (IH _ s1 (λ k sa H, Hl k sa (list_elem_of_further _ _ _ H)) Ho1).
  intros lis Hlis. destruct (IH lis Hlis) as [?|(j & [[Hj Hjk] Hin] & Hh)]; [by left|right]. exists j. split; [|done].
  split; [done|]. by apply not_elem_of_cons.
Qed.

(** No listener leaks: when the manager of runnables returns, whichever listener could
    not be made, in whatever order the servers are visited, and whatever the runnables did
    (that keep the servers and open no listener of their own), all that is open was open
    before. *)
Theorem Run_releases_listeners lo co serverAddress run ls w :
  tcp_servers serverAddress → (∀ k l, is_Some (serverAddress !! k) → ¬ holds ls k l) →
  (∀ s, (run s).2.1 = s.1 ∧ ∀ l, is_open (run s).2.2 l → is_open s.2 l) →
  ∀ l, is_open (Run lo co serverAddress run (ls, w)).2.2 l → is_open w l.
Proof.
  intros Hsrv Hfresh Hrun. unfold Run. unfold_st.
  set (P := λ k : nat, is_Some (serverAddress !! k)).
  assert (open_within w P (ls, w)) as Ho by (intros l; by left).
  pose proof (listen_all_open w P (range lo serverAddress) (ls, w)) as Hlisten.
  destruct (listen_all _ (ls, w)) as [err s1]. cbn [fst snd] in *.
  assert (open_within w P s1) as Ho1.
  { apply Hlisten; [|apply NoDup_range_fst|done|].
    - intros k sa Hin%elem_of_range. split; [by eexists|]. by apply Hsrv in Hin.
    - intros k sa lis Hin%elem_of_range. apply Hfresh. by eexists. }
  assert (∀ s2, open_within w P s2 → ∀ l, is_open (close_all (range co serverAddress) s2).2.2 l → is_open w l) as Hclose.
  { intros s2 Ho2 l Hl.
    destruct (close_all_open w (range co serverAddress) P s2
      (λ k sa Hin, Hsrv k sa (proj1 (elem_of_range _ _ _ _) Hin)) Ho2 l Hl) as [?|(k & [[sa Hk] Hnot] & _)]; [done|].
    destruct Hnot. apply (list_elem_of_fmap_2' fst _ (k, sa)); [by apply elem_of_range|done]. }
  destruct err as [err|]; cbn [fst snd].
  - specialize (Hclose s1 Ho1). by destruct (close_all _ s1).
  - destruct (Hrun s1) as [Hls Hop]. destruct (run s1) as [r s2]. cbn [fst snd] in *.
    assert (open_within w P s2) as Ho2
      by (intros l Hl; destruct (Ho1 l (Hop l Hl)) as [?|?]; [by left|right; by rewrite Hls]).
    specialize (Hclose s2 Ho2). by destruct (close_all _ s2).
Qed.
End servers.

(** ** cmd/cl-controlplane/app/server.go *)
Record ControlplaneOptions := mkCpOptions { co_LogFile : string; co_LogLevel : string; co_PeerLabels : gmap string string }.

(** The names of the controllers, in the order they are created. *)
Definition authz_controllers : list string :=
  ["authz.access-policy"; "authz.privileged-access-policy"; "authz.peer"; "authz.import"; "authz.export";
   "authz.secret"; "authz.pod"].
Definition control_controllers : list string :=
  ["control.peer"; "control.service"; "control.export"; "control.import"; "control.secret"; "control.endpointslice"].
Definition xds_controllers : list string := ["xds.export"; "xds.peer"; "xds.import"].

(** The environment of the program: the variables, and what the libraries set up from the
    configuration of the cluster (each step with its error). *)
Class ControlplaneEnv (W : Type) := {
  os_Getenv : string → W → string;
  rest_InClusterConfig : ST W (option error);
  scheme_Build : ST W (option error);
  v1_AddToScheme : ST W (option error);
  discv1_AddToScheme : ST W (option error);
  manager_New : string → ST W (option error);          (* restricted to a namespace *)
  AddToManager : string → ST W (option error)          (* the controller of that name *)
}.

(** Files and file watching do not concern the managers. *)
#[export] Instance outside_files {X W} `{FS : !Files W} : Files (X * W) := {| ReadFile p := outside (ReadFile p) |}.

Section controlplane.
Context {LS : LabelSelectors} {NS : NamespacedNameString} {SC : StatusConditions} {SN : ServiceNames}.
Context {TL : TLSLib} {EN : Encodings} {JW : JWTLib} {AP : AnyPB}.
Context {LC : LinearCache Cluster} {LL : LinearCache Listener} {LT : LinearCache TLSSecret}.
Context {W : Type} {FS : Files W} {CE : ControlplaneEnv W} {KC : KubeClient W Secret} {RB : RandBytes W}.
Context {LG : LogLib W}.
(** The order in which the monitors get new certificates. *)
Context (order : ranger string nat).

Record controlplane := mkControlplane {
  cpl_authz : Authz.Manager; cpl_control : control_manager; cpl_xds : Xds.Manager
}.

(** The managers as consumers of the certificates. *)
Definition authz_consumer : CertsConsumer (W := controlplane * W) := λ parsed _ s,
  let (err, m) := Authz.SetPeerCertificates parsed (cpl_authz s.1) in
  (err, (mkControlplane m (cpl_control s.1) (cpl_xds s.1), s.2)).
Definition control_consumer : CertsConsumer (W := controlplane * W) := λ parsed _ s,
  let m := cpl_control s.1 in
  (None, (mkControlplane (cpl_authz s.1)
            (mkControl (ctl_manager m) (PeerMonitor.SetPeerCertificates order parsed (ctl_peers m))) (cpl_xds s.1), s.2)).
Definition xds_consumer : CertsConsumer (W := controlplane * W) := λ _ raw s,
  let (err, m) := Xds.SetPeerCertificates raw (cpl_xds s.1) in
  (err, (mkControlplane (cpl_authz s.1) (cpl_control s.1) m, s.2)).

(** [fmt.Errorf("msg: %w", err)] of a step that fails. *)
Definition or_wrap (msg : string) (f : ST W (option error)) : ST (controlplane * W) (option error) :=
  err ← outside f; mret (EWrap msg <$> err).
(** [CreateControllers]: stop at the first that fails. *)
Fixpoint CreateControllers (names : list string) : ST W (option error) :=
  match names with
  | [] => mret None
  | name :: names' => check! (AddToManager name) in (CreateControllers names')
  end.

Definition system_namespace (w : W) : string :=
  let ns := os_Getenv NamespaceEnvVariable w in if decide (ns = "") then SystemNamespace else ns.

Definition set_authz (m : Authz.Manager) (s : controlplane * W) : controlplane * W :=
  (mkControlplane m (cpl_control s.1) (cpl_xds s.1), s.2).
Definition set_control (m : control_manager) (s : controlplane * W) : controlplane * W :=
  (mkControlplane (cpl_authz s.1) m (cpl_xds s.1), s.2).
Definition set_xds (m : Xds.Manager) (s : controlplane * W) : controlplane * W :=
  (mkControlplane (cpl_authz s.1) (cpl_control s.1) m, s.2).
Definition on_control {A} (f : ST (control_manager * W) A) : ST (controlplane * W) A := λ s,
  let '(a, (m, w)) := f (cpl_control s.1, s.2) in (a, set_control m (s.1, w)).

(** The part of [Run] before the readiness server: the watcher that is to be run. *)
Definition controlplane_setup (o : ControlplaneOptions) : ST (controlplane * W) (result CertsWatcher) :=
  namespace ← gets (λ s, system_namespace s.2);
  try! _ := outside (ParseFiles CAFile cp_CertificateFile cp_KeyFile) in
  (let peerCertsWatcher := NewWatcher FabricCertificateFilePath PeerCertificateFilePath PeerKeyFilePath in
   check! (or_wrap "unable to get k8s config" rest_InClusterConfig) in
   check! (or_wrap "unable to build k8s scheme" scheme_Build) in
   check! (or_wrap "unable to add core v1 objects to scheme" v1_AddToScheme) in
   check! (or_wrap "unable to add discovery v1 objects to scheme" discv1_AddToScheme) in
   check! (or_wrap "unable to create k8s controller manager" (manager_New namespace)) in
   (modify (set_authz (Authz.NewManager namespace (co_PeerLabels o)));;
    let peerCertsWatcher := AddConsumer peerCertsWatcher authz_consumer in
    check! (or_wrap "cannot create authz controllers" (CreateControllers authz_controllers)) in
    (modify (set_control (mkControl (Control.NewManager namespace) newPeerManager));;
     let peerCertsWatcher := AddConsumer peerCertsWatcher control_consumer in
     check! (err ← on_control (with_manager CreateJWKSSecret); mret (EWrap "cannot create JWKS secret" <$> err)) in
     check! (or_wrap "cannot create control controllers" (CreateControllers control_controllers)) in
     (modify (set_xds Xds.NewManager);;
      let peerCertsWatcher := AddConsumer peerCertsWatcher xds_consumer in
      check! (or_wrap "cannot create xDS controllers" (CreateControllers xds_controllers)) in
      check! (ReadCertsAndUpdateConsumers peerCertsWatcher) in
      mret (Ok peerCertsWatcher))))).

(** The runnables, by their names, and the servers among them with their addresses. *)
Definition controlplane_runnables : list string :=
  ["certs-watcher"; "controller-manager"; "peerManager"; "controlplane-grpc"; "controlplane-http"].
Definition any_address (port : Z) : string := "0.0.0.0:" +:+ Itoa port.
Definition controlplane_servers {S} (grpcServer httpServer : Server S) : gmap nat (Server S * string) :=
  {[ 3 := (grpcServer, any_address controlplane_ListenPort); 4 := (httpServer, any_address ReadinessListenPort) ]}.

(** [Run]; [run] is what the runnables do, [close] closes the log file. *)
Definition controlplane_Run (lo co : ranger nat (Server (controlplane * W) * string)) (o : ControlplaneOptions)
    (grpcServer httpServer : Server (controlplane * W)) (run : CertsWatcher → ST (controlplane * W) (option error))
    (close : LogFile → ST W (option error)) : ST (logger * (controlplane * W)) (option error) :=
  f ← (λ s, let '(r, (lg, w)) := log_Set (co_LogLevel o) (co_LogFile o) (s.1, s.2.2) in (r, (lg, (s.2.1, w))));
  match f with
  | Err err => mret (Some err)
  | Ok f =>
      watcher ← outside (controlplane_setup o);
      res ← match watcher with
            | Err err => mret (Some err)
            | Ok watcher => outside (Run lo co (controlplane_servers grpcServer httpServer) (run watcher))
            end;
      match f with
      | Some f => outside (outside (close f));; mret res
      | None => mret res
      end
  end.

(** The readiness handler: what the request to the program's own port meets, whether the
    cache is synchronised, and the answer. *)
Inductive self_dial := DialOk | DialRefused | DialReset | DialOther.
Definition StatusServiceUnavailable : Z := 503.
Definition no_server (r : self_dial) : bool := match r with DialRefused | DialReset => true | _ => false end.
Definition controlplane_readiness (r : self_dial) (m : Authz.Manager) (synced : bool) : Z :=
  if no_server r || negb (Authz.IsReady m) || negb synced then StatusServiceUnavailable else StatusOK.

(** *** What the set-up establishes *)
Lemma check_none {X A} (f : ST X (option error)) (k : ST X (result A)) s a s' :
  (check! f in k) s = (Ok a, s') → f s = (None, (f s).2) ∧ k (f s).2 = (Ok a, s').
Proof. unfold_st. by destruct (f s) as [[err|] s1]. Qed.

Lemma try_ok {X A B} (f : ST X (result B)) (k : B → ST X (result A)) s a s' :
  (try! x := f in (k x)) s = (Ok a, s') → ∃ x s1, f s = (Ok x, s1) ∧ k x s1 = (Ok a, s').
Proof. unfold_st. destruct (f s) as [[x|err] s1]; [by eauto|done]. Qed.

Lemma or_wrap_managers msg f s : (or_wrap msg f s).2.1 = s.1.
Proof. unfold or_wrap. unfold_st. by destruct (f s.2). Qed.

Lemma newPeerManager_inv tls cm :
  control_inv (mkControl cm (PeerMonitor.SetPeerCertificates order tls newPeerManager)).
Proof. split; simpl; [|by eexists|done]. intros name i Hi. simpl in Hi. by rewrite lookup_empty in Hi. Qed.

Lemma create_secret_managers s :
  let r := (err ← on_control (with_manager CreateJWKSSecret); mret (EWrap "cannot create JWKS secret" <$> err)) s in
  cpl_authz r.2.1 = cpl_authz s.1 ∧ ctl_peers (cpl_control r.2.1) = ctl_peers (cpl_control s.1) ∧ cpl_xds r.2.1 = cpl_xds s.1.
Proof.
  unfold_st. unfold on_control, with_manager. destruct s as [c w]. cbn [fst snd].
  destruct (CreateJWKSSecret (ctl_manager (cpl_control c), w)) as [e [m' w']]. by cbn.
Qed.

(** The three consumers, given the same pair of certificates. *)
Lemma consumers_updated parsed raw s s' :
  updated_all [authz_consumer; control_consumer; xds_consumer] parsed raw s s' →
  Authz.SetPeerCertificates parsed (cpl_authz s.1) = (None, cpl_authz s'.1) ∧
  cpl_control s'.1 = mkControl (ctl_manager (cpl_control s.1)) (PeerMonitor.SetPeerCertificates order parsed (ctl_peers (cpl_control s.1))) ∧
  Xds.SetPeerCertificates raw (cpl_xds s.1) = (None, cpl_xds s'.1).
Proof.
  intros (s1 & H1 & s2 & H2 & s3 & H3 & <-).
  unfold authz_consumer in H1. destruct (Authz.SetPeerCertificates parsed _) as [e1 m1]. injection H1 as -> <-.
  unfold control_consumer in H2. injection H2 as <-. cbn [fst snd cpl_xds cpl_control cpl_authz] in *.
  unfold xds_consumer in H3. destruct (Xds.SetPeerCertificates raw _) as [e3 m3]. injection H3 as -> <-. by cbn.
Qed.

#[local] Ltac setup_step H :=
  cbv beta in H;
  match type of H with
  | @mbind _ _ _ _ ?k (gets ?f) ?s = ?r => change (k (f s) s = r) in H
  | @mbind _ _ _ _ ?k (modify ?f) ?s = ?r => change (k tt (f s) = r) in H; unfold set_authz, set_control, set_xds in H; cbn [fst snd] in H
  | @mbind _ _ _ _ _ (or_wrap ?msg ?f) ?s = _ =>
      apply check_none in H as [_ H]; let E := fresh "E" in pose proof (or_wrap_managers msg f s) as E;
      destruct (or_wrap msg f s) as [? [? ?]]; cbn [fst snd] in E, H; rewrite E in H; clear E
  end.

Lemma outside_ParseFiles ca cert key (c : controlplane) w :
  ParseFiles ca cert key (c, w) = outside (ParseFiles ca cert key) (c, w).
Proof.
  unfold ParseFiles. unfold_st. cbn [ReadFile outside_files]. unfold_st. cbn [fst snd].
  destruct (ReadFile ca w) as [[rca|e] w1]; [|done]. cbn [fst snd].
  destruct (ReadFile cert w1) as [[rcert|e] w2]; [|done]. cbn [fst snd].
  by destruct (ReadFile key w2) as [[rkey|e] w3].
Qed.

Lemma read_certs_ok (watcher : CertsWatcher (W := controlplane * W)) c w s' :
  ReadCertsAndUpdateConsumers watcher (c, w) = (None, s') →
  ∃ parsed raw w1, ParseFiles (caPath watcher) (certPath watcher) (keyPath watcher) w = (Ok (parsed, raw), w1) ∧
    updated_all (consumers watcher) parsed raw (c, w1) s'.
Proof.
  unfold ReadCertsAndUpdateConsumers. unfold_st. rewrite outside_ParseFiles. unfold_st. cbn [fst snd].
  destruct (ParseFiles _ _ _ w) as [[[parsed raw]|err] w1]; [|done].
  intros Hu%update_consumers_ok. eauto.
Qed.

(** The watcher of the set-up. *)
Definition controlplane_watcher : CertsWatcher (W := controlplane * W) :=
  AddConsumer (AddConsumer (AddConsumer (NewWatcher FabricCertificateFilePath PeerCertificateFilePath PeerKeyFilePath)
    authz_consumer) control_consumer) xds_consumer.

(** A round of the watcher that reads changed files and goes on: all three managers have
    what it read.  A round that can not parse them is its last. *)
Lemma controlplane_watch_round c w s' : watch_step controlplane_watcher true EvTick (c, w) = (inr false, s') →
  ∃ parsed raw w1, ParseFiles FabricCertificateFilePath PeerCertificateFilePath PeerKeyFilePath w = (Ok (parsed, raw), w1) ∧
    Authz.SetPeerCertificates parsed (cpl_authz c) = (None, cpl_authz s'.1) ∧
    cpl_control s'.1 = mkControl (ctl_manager (cpl_control c)) (PeerMonitor.SetPeerCertificates order parsed (ctl_peers (cpl_control c))) ∧
    Xds.SetPeerCertificates raw (cpl_xds c) = (None, cpl_xds s'.1).
Proof.
  intros [[[=] _]|(parsed & raw & [c1 w1] & Hp & Hu)]%watch_tick_updates.
  rewrite outside_ParseFiles in Hp. revert Hp. unfold_st. cbn [fst snd].
  destruct (ParseFiles _ _ _ w) as [r w2] eqn:Hp. intros [= -> <- <-]. apply consumers_updated in Hu.
  exists parsed, raw, w2. by split.
Qed.
Lemma controlplane_watch_fails c w err w1 :
  ParseFiles FabricCertificateFilePath PeerCertificateFilePath PeerKeyFilePath w = (Err err, w1) →
  watch_step controlplane_watcher true EvTick (c, w) = (inl (Some (EParse err)), (c, w1)).
Proof.
  intros Hp. unfold watch_step, ReadCertsAndUpdateConsumers. cbn [negb]. unfold_st.
  match goal with |- context [ParseFiles ?a ?b ?c (?x, ?y)] => rewrite (outside_ParseFiles a b c x y) end.
  unfold_st. cbn [fst snd caPath certPath keyPath controlplane_watcher AddConsumer NewWatcher]. by rewrite Hp.
Qed.
Lemma controlplane_setup_ok o s watcher s' :
  controlplane_setup o s = (Ok watcher, s') →
  ∃ parsed raw cm, (∃ s1, (ParseFiles FabricCertificateFilePath PeerCertificateFilePath PeerKeyFilePath s1).1 = Ok (parsed, raw)) ∧
    Authz.SetPeerCertificates parsed (Authz.NewManager (system_namespace s.2) (co_PeerLabels o)) = (None, cpl_authz s'.1) ∧
    cpl_control s'.1 = mkControl cm (PeerMonitor.SetPeerCertificates order parsed newPeerManager) ∧
    Xds.SetPeerCertificates raw Xds.NewManager = (None, cpl_xds s'.1) ∧
    watcher = controlplane_watcher.
Proof.
  destruct s as [c w]. unfold controlplane_setup. intros H.
  setup_step H. cbv beta in H.
  apply (try_ok (outside (ParseFiles _ _ _)) (λ _, _)) in H as (certs & [c1 w1] & _ & H).
  do 8 setup_step H. cbn [cpl_authz cpl_xds cpl_control] in H. cbv beta in H.
  apply check_none in H as [_ H]. pose proof (create_secret_managers (mkControlplane
    (Authz.NewManager (system_namespace w) (co_PeerLabels o)) (mkControl (Control.NewManager (system_namespace w)) newPeerManager) (cpl_xds c1), w6))
    as (E1 & E2 & _).
  match type of H with _ (?r.2) = _ => destruct r as [err [cc wc]] end. cbn [fst snd cpl_authz cpl_control ctl_peers] in E1, E2, H.
  do 3 setup_step H. cbv beta in H. apply check_none in H as [Hread H].
  injection H as <- Hs'. destruct (ReadCertsAndUpdateConsumers _ _) as [e s1] eqn:Hr in Hread, Hs'.
  injection Hread as ->. simpl in Hs'. subst s1.
  apply read_certs_ok in Hr as (parsed & raw & w1' & Hp & Hu).
  apply consumers_updated in Hu as (U1 & U2 & U3). cbn [fst cpl_authz cpl_control cpl_xds] in *.
  exists parsed, raw, (ctl_manager (cpl_control cc)). split_and!; [|by rewrite E1 in U1|by rewrite U2, E2|done|done].
  exists w8. by apply (f_equal fst) in Hp.
Qed.
End controlplane.

(** *** The controllers start with the certificates in place *)
Section start.
Context {LS : LabelSelectors} {NS : NamespacedNameString} {SC : StatusConditions} {SN : ServiceNames}.
Context {TL : TLSLib} {EN : Encodings} {JW : JWTLib} {AP : AnyPB}.
Context {LC : LinearCache Cluster} {LL : LinearCache Listener} {LT : LinearCache TLSSecret}.
Context {W : Type} {FS : Files W} {CE : ControlplaneEnv W} {RB : RandBytes W} {CL : Clock W}.
Context {KPol : KubeClient W AccessPolicyCR} {KPriv : KubeClient W PrivilegedAccessPolicy}.
Context {KP : KubeClient W Peer} {KI : KubeClient W Import} {KE : KubeClient W Export} {KSec : KubeClient W Secret}.
Context {KPod : KubeClient W Pod} {KSvc : KubeClient W Service} {KEs : KubeClient W EndpointSlice}.
Context {LPol : KubeClientLaws W AccessPolicyCR} {LPriv : KubeClientLaws W PrivilegedAccessPolicy}.
Context {LP : KubeClientLaws W Peer} {LSec : KubeClientLaws W Secret} {LPod : KubeClientLaws W Pod}.
Context {R1 : ReadsOnly AccessPolicyCR} {R2 : ReadsOnly PrivilegedAccessPolicy} {R3 : ReadsOnly Peer}.
Context {R4 : ReadsOnly Import} {R5 : ReadsOnly Export} {R6 : ReadsOnly Secret} {R7 : ReadsOnly Pod}.
Context {F1 : KubeFrame W Import Peer} {F2 : KubeFrame W Export Peer} {F3 : KubeFrame W Service Peer}.
Context {F4 : KubeFrame W EndpointSlice Peer} {F5 : KubeFrame W Secret Peer}.
Context (rand_frame : ∀ n w, kView (T:=Peer) (rand_Read n w).2 = kView w).
Context (order : ranger string nat) (draw : W → nat → Z).
#[local] Set Default Proof Using "All".

(** C16: a control plane that starts has its certificates: when the set-up succeeds,
    all three managers hold the data of one and the same parse of the peer's files (the
    name of the peer is the first DNS name of its certificate); a later round of the watcher
    that reads changed files, and does not end the watcher, leaves all three with the data
    of that one parse, while files that can not be parsed then end the watcher; and from there on no request of any controller of the authorization manager
    and of the control manager panics, in whatever order they come, with peers of the one
    namespace the cache is restricted to. *)
Theorem controlplane_starts_with_certificates o s watcher s' :
  controlplane_setup order o s = (Ok watcher, s') →
  let ns := system_namespace s.2 in
  (∃ parsed raw name, (∃ w, (ParseFiles FabricCertificateFilePath PeerCertificateFilePath PeerKeyFilePath w).1 = Ok (parsed, raw)) ∧
     DNSNames parsed !! 0 = Some name ∧ getPeerName (cpl_authz s'.1) = name ∧
     peerTLS (cpl_authz s'.1) = Some parsed ∧ pmg_peerTLS (ctl_peers (cpl_control s'.1)) = Some parsed ∧
     Xds.SetPeerCertificates raw Xds.NewManager = (None, cpl_xds s'.1)) ∧
  (∀ c w st, watch_step watcher true EvTick (c, w) = (inr false, st) →
     ∃ parsed raw w1, ParseFiles FabricCertificateFilePath PeerCertificateFilePath PeerKeyFilePath w = (Ok (parsed, raw), w1) ∧
       Authz.SetPeerCertificates parsed (cpl_authz c) = (None, cpl_authz st.1) ∧
       cpl_control st.1 = mkControl (ctl_manager (cpl_control c)) (PeerMonitor.SetPeerCertificates order parsed (ctl_peers (cpl_control c))) ∧
       Xds.SetPeerCertificates raw (cpl_xds c) = (None, cpl_xds st.1)) ∧
  (∀ c w err w1, ParseFiles FabricCertificateFilePath PeerCertificateFilePath PeerKeyFilePath w = (Err err, w1) →
     watch_step watcher true EvTick (c, w) = (inl (Some (EParse err)), (c, w1))) ∧
  (∀ ops w, Forall (authz_op_ok ns) ops → Forall (λ r, r ≠ Panic) (run_authz ops (cpl_authz s'.1, w)).1) ∧
  (∀ ops w, Forall (control_op_ok ns) ops → Forall (λ r, r ≠ Panic) (run_control draw ops (cpl_control s'.1, w)).1).
Proof.
  intros (parsed & raw & cm & Hp & Ha & Hc & Hx & ->)%controlplane_setup_ok. cbv zeta. split_and!.
  - exists parsed, raw, (peerName (cpl_authz s'.1)). unfold Authz.SetPeerCertificates in Ha.
    destruct (DNSNames parsed) as [|name names] eqn:Hn; [done|]. injection Ha as Ha. rewrite <- Ha, Hc. by split_and!.
  - apply controlplane_watch_round.
  - apply controlplane_watch_fails.
  - intros ops w Hops. by destruct (run_authz_start _ _ _ _ _ ops w Ha Hops).
  - intros ops w Hops. rewrite Hc.
    by destruct (run_list_converges _ _ _ _ _ _ _ _ _ ops (_, w) (run_control_op_ok draw rand_frame _)
      (newPeerManager_inv order parsed cm) Hops).
Qed.
End start.

(** ** Witnesses *)

(** A network on which the address [busy] can not be listened on. *)
Definition ex_net : Type := gset nat * nat.
#[local] Instance ex_tcp : TCPNet ex_net nat := {|
  net_Listen address w :=
    if decide (address = "busy") then (Err (ENew "address already in use"), w) else (Ok w.2, ({[ w.2 ]} ∪ w.1, S w.2));
  lis_Close l w := (None, (w.1 ∖ {[ l ]}, w.2))
|}.
#[local] Instance ex_tcp_laws : TCPNetLaws ex_net nat.
Proof.
  refine {| is_open w l := l ∈ w.1 ∧ l < w.2 |}; simpl.
  - intros addr w l w'. case_decide; [done|]. intros [= <- <-]. split; [lia|]. intros l'. simpl. set_unfold.
    destruct (decide (l' = w.2)); [by left|]. intros [[?|?] ?]; [done|]. right. split; [done|lia].
  - intros addr w e w'. by case_decide; intros [= <- <-].
  - intros l w l'. set_solver.
Defined.
Definition ex_servers (httpAddress : string) : gmap nat (Server (gmap nat (tcp_Listener (L:=nat)) * ex_net) * string) :=
  {[ 3 := (tcp_server 3 "controlplane-grpc", "0.0.0.0:4444"); 4 := (tcp_server 4 "controlplane-http", httpAddress) ]}.
Definition ex_run : ST (gmap nat (tcp_Listener (L:=nat)) * ex_net) (option error) := mret None.

Lemma Run_releases_listeners_witness :
  let r := Run std_ranger std_ranger (ex_servers "busy") ex_run (∅, (∅, 0)) in
  is_Some r.1 ∧ ∀ l, ¬ is_open r.2.2 l.
Proof.
  split; [vm_compute; by eexists|]. intros l Hl.
  assert (is_open (∅, 0) l) as [Hl' _]; [|by apply not_elem_of_empty in Hl'].
  apply (Run_releases_listeners std_ranger std_ranger (ex_servers "busy") ex_run ∅ (∅, 0)); [| |done|exact Hl].
  - intros k sa. unfold ex_servers. rewrite lookup_insert_Some, lookup_singleton_Some.
    intros [[<- <-]|[_ [<- <-]]]; by eexists.
  - intros k l' _ (tl & Htl & _). by rewrite lookup_empty in Htl.
Defined.

(** A cluster with the nine kinds of objects, none of which exists yet. *)
Definition cp_api : Type :=
  gmap NamespacedName AccessPolicyCR * (gmap NamespacedName PrivilegedAccessPolicy * (gmap NamespacedName Peer *
    (gmap NamespacedName Pod * (gmap NamespacedName Secret * (gmap NamespacedName Import * (gmap NamespacedName Export *
      (gmap NamespacedName Service * (gmap NamespacedName EndpointSlice * unit)))))))).
#[local] Existing Instance store_here | 1.
#[local] Existing Instance store_there | 2.
#[local] Existing Instances here_laws there_laws frame_here_there frame_there_here frame_there_there.
#[local] Existing Instances mem_client mem_laws mem_frame.
#[local] Existing Instances ref_labelselectors ref_nn_string ref_encodings ref_tls ref_jwt ref_anypb.
#[local] Existing Instances x_clusters x_listeners x_secrets.
#[local] Instance cp_names : ServiceNames := {| md5_hex s := s; ShortenString s n := str_take n s |}.
#[local] Instance cp_clock : Clock cp_api := {| clock_now _ := 7%Z |}.
#[local] Instance cp_rand : RandBytes cp_api := {| rand_Read _ := mret (Ok "0123456789abcdef0123456789abcdef") |}.
(** The certificate of the peer is of the peer [east]. *)
#[local] Instance cp_files : Files cp_api := {| ReadFile p := mret (Ok (if decide (p = PeerCertificateFilePath) then "east" else "pem")) |}.
#[local] Instance cp_env : ControlplaneEnv cp_api := {|
  os_Getenv _ _ := "clusterlink"; rest_InClusterConfig := mret None; scheme_Build := mret None;
  v1_AddToScheme := mret None; discv1_AddToScheme := mret None; manager_New _ := mret None; AddToManager _ := mret None
|}.
#[local] Ltac reads_nothing := intros n w req; by destruct req.
#[local] Instance cp_r0 : ReadsOnly (W := cp_api) AccessPolicyCR. Proof. reads_nothing. Qed.
#[local] Instance cp_r1 : ReadsOnly (W := cp_api) PrivilegedAccessPolicy. Proof. reads_nothing. Qed.
#[local] Instance cp_r2 : ReadsOnly (W := cp_api) Peer. Proof. reads_nothing. Qed.
#[local] Instance cp_r3 : ReadsOnly (W := cp_api) Pod. Proof. reads_nothing. Qed.
#[local] Instance cp_r4 : ReadsOnly (W := cp_api) Secret. Proof. reads_nothing. Qed.
#[local] Instance cp_r5 : ReadsOnly (W := cp_api) Import. Proof. reads_nothing. Qed.
#[local] Instance cp_r6 : ReadsOnly (W := cp_api) Export. Proof. reads_nothing. Qed.

Definition cp_start : controlplane * cp_api :=
  (mkControlplane (Authz.NewManager "" ∅) (mkControl (Control.NewManager "") newPeerManager) Xds.NewManager,
   (∅, (∅, (∅, (∅, (∅, (∅, (∅, (∅, (∅, tt)))))))))).
Definition cp_options : ControlplaneOptions := mkCpOptions "" "info" ∅.
Abbreviation cp_run := (controlplane_setup std_ranger cp_options cp_start).
Definition cp_draw (_ : cp_api) (_ : nat) : Z := 0%Z.

Lemma cp_rand_frame n (w : cp_api) : kView (T:=Peer) (rand_Read n w).2 = kView w.
Proof. done. Qed.

Lemma controlplane_starts_with_certificates_witness :
  getPeerName (cpl_authz cp_run.2.1) = "east" ∧
  Forall (λ r, r ≠ Panic) (run_authz [AuthzReq (AuthzPod (mkNN "default" "client"))] (cpl_authz cp_run.2.1, cp_run.2.2)).1.
Proof.
  assert (match cp_run.1 with Ok _ => True | Err _ => False end) as Hok by (vm_compute; exact I).
  destruct cp_run.1 as [watcher|err] eqn:Hr; [|destruct Hok].
  destruct (controlplane_starts_with_certificates cp_rand_frame std_ranger cp_draw cp_options cp_start watcher cp_run.2)
    as ((parsed & raw & name & [w Hp] & Hn & Hname & _) & _ & _ & Hauthz & _).
  - rewrite <- Hr. apply surjective_pairing.
  - split; [vm_compute; reflexivity|]. apply Hauthz. repeat constructor.
Defined.
