(* ===== verification/DataplaneServers.v ===== *)
(** * The programs of the data planes

    [cmd/cl-go-dataplane/app/server.go], [cmd/cl-dataplane/app/server.go], [StartDataplaneServer]
    and [IsReady] of [pkg/dataplane/server/server.go], and [IsReady] of
    [pkg/dataplane/client/xds.go].  The state is the log, the readiness listener and the
    data plane with its fetchers.  The lemmas say what the readiness of the Go data plane
    means, and that it does not wait for certificates. *)
From S2P Require Export Servers.
From stdpp Require Import options.
From Stdlib Require Import ZArith.

(** ** pkg/dataplane/client/xds.go: the fetchers *)
Inductive xds_resource := Res_Cluster | Res_Listener | Res_Secret.
Definition xds_resources : list xds_resource := [Res_Cluster; Res_Listener; Res_Secret].
Definition newFetcher : fetcher := mkFetcher false 0.
Definition xds_fetchers : Type := xds_resource → fetcher.
Definition NewXDSClient_fetchers : xds_fetchers := λ _, newFetcher.
(** [IsReady] ranges over the map of the fetchers, which has all the resources. *)
Definition xds_IsReady (fs : xds_fetchers) : bool := forallb (λ r, f_ready (fs r)) xds_resources.

#[export] Instance xds_resource_eq_dec : EqDecision xds_resource. Proof. solve_decision. Defined.

(** [Run]: [ends] is how [runFetcher] of each resource ends, [None] when it does not;
    [errors] has an entry for each that did, and [Run] returns when all have. *)
Definition xds_errors (type_url : xds_resource → string) (ends : xds_resource → option (option error)) :
    gmap string (option error) :=
  list_to_map (omap (λ r, pair (type_url r) <$> ends r) xds_resources).
Definition xds_Run (type_url : xds_resource → string) (order : ranger string (option error))
    (ends : xds_resource → option (option error)) : option (option error) :=
  if forallb (λ r, bool_decide (is_Some (ends r))) xds_resources then
    Some (errors_Join (map (λ ie, (λ err, EWrap ("error running fetcher '" +:+ ie.1 +:+ "'") err) <$> ie.2)
      (range order (xds_errors type_url ends))))
  else None.
(** [runFetcher] is a loop without an exit ([Fetcher.runFetcher] has its steps). *)
Definition runFetcher_ends : xds_resource → option (option error) := λ _, None.

Section dataplane.
Context {TL : TLSLib} {AP : AnyPB}.

(** ** pkg/dataplane/server/server.go *)

(** The configuration of the handshake with a client: [GetConfigForClient], which is called
    for each. *)
Definition GetConfigForClient (d : Dataplane) : TLSConfig := dp_tlsConfig d.

(** [tlsConfig] is not nil: [NewDataplane] makes it, and a secret replaces it by a changed
    copy. *)
Definition tlsConfig_pointer (d : Dataplane) : option TLSConfig := Some (dp_tlsConfig d).
(** [dial] is what a request to the program's own port meets. *)
Definition dataplane_IsReady (dial : self_dial) (d : Dataplane) : bool :=
  if no_server dial then false else match tlsConfig_pointer d with Some _ => true | None => false end.

(** ** cmd/cl-go-dataplane/app/server.go *)

(** The readiness handler. *)
Definition go_dataplane_readiness (fs : xds_fetchers) (dial : self_dial) (d : Dataplane) : Z :=
  if negb (xds_IsReady fs) || negb (dataplane_IsReady dial d) then StatusServiceUnavailable else StatusOK.

Context {W L : Type} {FS : Files W} {LG : LogLib W} {TN : TCPNet W L} {EP : EnvoyProcess W}.
(** What the libraries start: a random identifier, a connection of gRPC, and the goroutines
    of the two servers, which log the error they end with. *)
Class DataplaneEnv := {
  uuid_New : ST W string;
  grpc_NewClient : string → TLSConfig → ST W (option error);
  go_DataplaneServer : string → ST W unit;
  go_ReadinessServer : L → ST W unit;
  (* the names of the types of resources, and the order in which a map of errors is visited *)
  type_url : xds_resource → string;
  fetcher_order : ranger string (option error)
}.
Context {DE : DataplaneEnv}.

(** The readiness server of both programs. *)
Definition readiness_listen (name : string) : ST W (result tcp_Listener) := λ w,
  let '(err, (l, w')) := tcp_Listen (any_address ReadinessListenPort) (tcp_NewListener name, w) in
  (match err with Some err => Err (EWrap "cannot listen for readiness" err) | None => Ok l end, w').
Definition readiness_start (l : tcp_Listener) : ST W unit :=
  match tl_listener l with Some lis => go_ReadinessServer lis | None => mret tt end.

(** [None] while it is running: the error of [XDSClient.Run], once it returns one. *)
Definition runGoDataplane (o : EnvoyOptions) (dataplaneID : string) (parsedCertData : ParsedCertData) :
    ST W (option (option error)) :=
  let controlplaneTarget := JoinHostPort (eo_ControlplaneHost o) (Itoa controlplane_ListenPort) in
  err ← grpc_NewClient controlplaneTarget (ClientConfig parsedCertData controlplane_Name);
  match err with
  | Some err => mret (Some (Some (EWrap "error initializing controlplane client" err)))
  | None =>
      go_DataplaneServer (":" +:+ Itoa dataplane_ListenPort);;
      httpServer ← readiness_listen "go-dataplane-readiness-http";
      match httpServer with
      | Err err => mret (Some (Some err))
      | Ok httpServer =>
          readiness_start httpServer;;
          mret (match xds_Run type_url fetcher_order runFetcher_ends with
                | None => None
                | Some None => Some (Some (ENew "xDS Client stopped: %!w(<nil>)"))
                | Some (Some err) => Some (Some (EWrap "xDS Client stopped" err))
                end)
      end
  end.

(** [Run] of both programs: the log is set, and closed when the body returns. *)
Definition with_log (o : EnvoyOptions) (close : LogFile → ST W (option error)) (body : ST W (option (option error))) :
    ST (logger * W) (option (option error)) :=
  f ← log_Set (eo_LogLevel o) (eo_LogFile o);
  match f with
  | Err err => mret (Some (Some err))
  | Ok f =>
      res ← outside body;
      match res, f with
      | Some _, Some f => outside (close f);; mret res
      | _, _ => mret res
      end
  end.

Definition go_dataplane_Run (o : EnvoyOptions) (close : LogFile → ST W (option error)) :
    ST (logger * W) (option (option error)) :=
  with_log o close (
    certs ← ParseFiles CAFile dp_CertificateFile dp_KeyFile;
    match certs with
    | Err err => mret (Some (Some err))
    | Ok (parsedCertData, _) => dataplaneID ← uuid_New; runGoDataplane o dataplaneID parsedCertData
    end).

(** ** cmd/cl-dataplane/app/server.go *)

(** The readiness handler; [resp] is the status of Envoy's own [/ready]. *)
Definition envoy_readiness (resp : result Z) : Z :=
  match resp with
  | Err _ => StatusServiceUnavailable
  | Ok status => if decide (status ≠ StatusOK) then StatusServiceUnavailable else StatusOK
  end.

Definition dataplane_Run (o : EnvoyOptions) (close : LogFile → ST W (option error)) :
    ST (logger * W) (option (option error)) :=
  with_log o close (
    dataplaneID ← uuid_New;
    httpServer ← readiness_listen "dataplane-readiness-http";
    match httpServer with
    | Err err => mret (Some (Some err))
    | Ok httpServer => readiness_start httpServer;; err ← runEnvoy o dataplaneID; mret (Some err)
    end).
End dataplane.

(** ** What readiness means *)
Section readiness.
Context {TL : TLSLib} {AP : AnyPB} {RC : ResourceCodec}.

Lemma fetcher_Run_keeps_ready order t fetches s :
  f_ready s.1 = true → f_ready (fetcher_Run order t fetches s).2.1 = true.
Proof.
  revert s. induction fetches as [|[rs|err] fetches IH]; intros [f d] Hf; [done| |done].
  cbn [fetcher_Run]. unfold_st. cbn [fst snd]. destruct (handle_resources order t rs d) as [r d']. cbn [fst snd]. by apply IH.
Qed.

(** A fetcher is ready when its stream has brought one response, whatever became of it. *)
Lemma fetcher_ready order t fetches d :
  f_ready (fetcher_Run order t fetches (newFetcher, d)).2.1 =
    match fetches with Ok _ :: _ => true | _ => false end.
Proof.
  destruct fetches as [|[rs|err] fetches]; [done| |done].
  cbn [fetcher_Run]. unfold_st. cbn [fst snd].
  destruct (handle_resources order t rs d) as [r d']. by apply fetcher_Run_keeps_ready.
Qed.

Lemma go_dataplane_readiness_ok fs dial d :
  go_dataplane_readiness fs dial d = StatusOK ↔ no_server dial = false ∧ ∀ r, f_ready (fs r) = true.
Proof.
  unfold go_dataplane_readiness, dataplane_IsReady, xds_IsReady. simpl.
  assert ((∀ r, f_ready (fs r) = true) ↔
    f_ready (fs Res_Cluster) = true ∧ f_ready (fs Res_Listener) = true ∧ f_ready (fs Res_Secret) = true) as ->.
  { split; [by intros H|]. by intros (? & ? & ?) []. }
  destruct (no_server dial), (f_ready (fs Res_Cluster)), (f_ready (fs Res_Listener)), (f_ready (fs Res_Secret)); simpl; naive_solver.
Qed.

(** A Go data plane that is ready may have no certificate: once its own port answers and
    each of its three streams has brought a first response, it is ready, also when the
    secrets of that response are of no use; every handshake fails until others come. *)
Lemma go_dataplane_ready_without_certificates order rs err dial fs rest :
  no_server dial = false → handleSecrets rs NewDataplane = (err, NewDataplane) →
  f_ready (fs Res_Cluster) = true → f_ready (fs Res_Listener) = true →
  let s := fetcher_Run order SecretType (Ok rs :: rest) (newFetcher, NewDataplane) in
  fs Res_Secret = s.2.1 →
  go_dataplane_readiness fs dial s.2.2 = StatusOK ∧
  (rest = [] → Certificates (GetConfigForClient s.2.2) = []).
Proof.
  intros Hdial Hsec Hc Hl. cbv zeta. intros Hs. split.
  - apply go_dataplane_readiness_ok. split; [done|]. intros []; [done..|]. by rewrite Hs, fetcher_ready.
  - intros ->. cbn [fetcher_Run handle_resources]. unfold_st. cbn [fst snd]. by rewrite Hsec.
Qed.
End readiness.
