(* ===== verification/Wrappers.v ===== *)
(** * The wrappers of the servers and of the log

    [util/http/server.go], [util/grpc/server.go] and the formatter of [util/log/util.go],
    over [net/http], [chi], [grpc] and [logrus] as classes of operations; the methods of
    [util/runnable/manager.go] and [util/controller/manager.go] that [Runnable] leaves out,
    and the runnables of the control plane as they are added.  The lemmas say what a server
    that is stopped before its goroutine has started does when it is started: the HTTP
    server ends without an error, the gRPC server with one. *)
From S2P Require Export Servers.
From stdpp Require Import options.
From Stdlib Require Import ZArith Lia.

#[local] Set Default Proof Using "Type".

(** ** pkg/util/log: the formatter *)
Class LogLevels (W : Type) {LG : LogLib W} := {
  DebugLevel : LogLevel;
  level_le : LogLevel → LogLevel → bool          (* the order of the numbers: fatal < error < warning < ... *)
}.

Section log.
Context {W : Type} {LG : LogLib W} {LV : LogLevels W}.

(** [logrus.Entry]; its map of fields may be nil. *)
Record log_entry := mkEntry { en_Level : LogLevel; en_Data : option (gmap string string); en_Message : string }.
Definition logrusFieldStack : nat := 6.

(** [caller] is [runtime.Caller], [text] the embedded [TextFormatter]. *)
Definition formatter_Format (caller : nat → string * Z) (text : log_entry → result string) (entry : log_entry) :
    outcome (result string) * log_entry :=
  if level_le (en_Level entry) ErrorLevel then
    let '(file, line) := caller logrusFieldStack in
    match en_Data entry with
    | None => (Panic, entry)
    | Some data =>
        let entry' := mkEntry (en_Level entry) (Some (<["line" := Itoa line]> (<["file" := file]> data))) (en_Message entry) in
        (Done (text entry'), entry')
    end
  else (Done (text entry), entry).

(** Errors are logged with their place, everything else as it is; no other field is touched. *)
Lemma formatter_Format_data caller text entry data r entry' :
  en_Data entry = Some data → formatter_Format caller text entry = (r, entry') →
  r = Done (text entry') ∧ ∃ data', en_Data entry' = Some data' ∧
  (∀ k, k ≠ "file" → k ≠ "line" → data' !! k = data !! k) ∧
  (level_le (en_Level entry) ErrorLevel = true →
     data' !! "file" = Some (caller 6).1 ∧ data' !! "line" = Some (Itoa (caller 6).2)) ∧
  (level_le (en_Level entry) ErrorLevel = false → entry' = entry).
Proof.
  unfold formatter_Format, logrusFieldStack. intros Hd. destruct (level_le _ _) eqn:Hl.
  - destruct (caller 6) as [file line]. rewrite Hd. intros [= <- <-]. split; [done|]. eexists. split; [done|].
    split_and!; [|intros _; by simplify_map_eq|done]. intros k H1 H2. by rewrite !lookup_insert_ne.
  - intros [= <- <-]. split; [done|]. by exists data.
Qed.
End log.

(** ** pkg/util/http *)
Inductive middleware := RequestLogger | Recoverer.

(** [chi]: routers.  [net/http]: the hidden part of a server, the calls that serve a
    listener until they return an error, and those that end it. *)
Class Chi := { chi_Router : Type; chi_NewRouter : chi_Router; chi_Use : middleware → chi_Router → chi_Router }.

(** [http.Server], but for its handler, which is the router of the wrapper. *)
Record net_server {TL : TLSLib} (H : Type) := mkNetServer {
  ns_TLSConfig : option TLSConfig; ns_ErrorLog : bool; ns_ReadHeaderTimeout : Z; ns_hidden : H
}.
Arguments mkNetServer {TL H}. Arguments ns_TLSConfig {TL H}. Arguments ns_ErrorLog {TL H}.
Arguments ns_ReadHeaderTimeout {TL H}. Arguments ns_hidden {TL H}.

Class NetHTTP {TL : TLSLib} (W L : Type) := {
  net_hidden : Type;
  net_zero : net_hidden;
  net_Serve : option L → ST (net_server net_hidden * W) (outcome error);
  net_ServeTLS : option L → ST (net_server net_hidden * W) (outcome error);
  net_Close : ST (net_server net_hidden * W) (option error);
  net_Shutdown : ST (net_server net_hidden * W) (option error);
  is_ErrServerClosed : error → bool
}.
(** After [Close] or [Shutdown] a server serves no more: [Serve] and, when there is a
    certificate, [ServeTLS] return [ErrServerClosed]. *)
Class NetHTTPLaws {TL : TLSLib} (W L : Type) {NH : NetHTTP W L} := {
  net_down : net_hidden → bool;
  net_zero_up : net_down net_zero = false;
  Close_down s : net_down (ns_hidden (net_Close s).2.1) = true;
  Close_config s : ns_TLSConfig (net_Close s).2.1 = ns_TLSConfig s.1;
  Shutdown_down s : net_down (ns_hidden (net_Shutdown s).2.1) = true;
  Shutdown_config s : ns_TLSConfig (net_Shutdown s).2.1 = ns_TLSConfig s.1;
  Serve_down l s : net_down (ns_hidden s.1) = true → ∃ e, (net_Serve (Some l) s).1 = Done e ∧ is_ErrServerClosed e = true;
  ServeTLS_down l s c : net_down (ns_hidden s.1) = true → ns_TLSConfig s.1 = Some c → Certificates c ≠ [] →
    ∃ e, (net_ServeTLS (Some l) s).1 = Done e ∧ is_ErrServerClosed e = true
}.

Section http.
Context {TL : TLSLib} {W L : Type} {TN : TCPNet W L} {NH : NetHTTP W L} {CH : Chi} {LG : LogLib W} {LV : LogLevels W}.

Record http_Server := mkHttpServer {
  hs_Listener : tcp_Listener (L:=L);
  hs_name : string;
  hs_router : chi_Router;
  hs_server : net_server net_hidden;
  hs_logWriter : bool                       (* the pipe to the log is open *)
}.
Definition Router (s : http_Server) : chi_Router := hs_router s.

Definition set_server (srv : net_server net_hidden) (s : http_Server) : http_Server :=
  mkHttpServer (hs_Listener s) (hs_name s) (hs_router s) srv (hs_logWriter s).
Definition on_server {A} (f : ST (net_server net_hidden * W) A) : ST (http_Server * W) A := λ s,
  let '(a, (srv, w)) := f (hs_server s.1, s.2) in (a, (set_server srv s.1, w)).
(** The methods of the embedded listener. *)
Definition on_listener {A} (f : ST (tcp_Listener (L:=L) * W) A) : ST (http_Server * W) A := λ s,
  let '(a, (l, w)) := f (hs_Listener s.1, s.2) in
  (a, (mkHttpServer l (hs_name s.1) (hs_router s.1) (hs_server s.1) (hs_logWriter s.1), w)).

(** The deferred function of [Start]. *)
Definition release_log (s : http_Server) : http_Server :=
  let srv := hs_server s in
  mkHttpServer (hs_Listener s) (hs_name s) (hs_router s)
    (mkNetServer (ns_TLSConfig srv) false (ns_ReadHeaderTimeout srv) (ns_hidden srv)) false.

Definition http_Start : ST (http_Server * W) (outcome (option error)) :=
  s ← gets fst;
  let lis := GetListener (hs_Listener s) in
  err ← (match ns_TLSConfig (hs_server s) with
         | Some _ => on_server (net_ServeTLS lis)
         | None => on_server (net_Serve lis)
         end);
  modify (λ s, (release_log s.1, s.2));;
  mret (match err with
        | Panic => Panic
        | Done err => Done (if is_ErrServerClosed err then None else Some err)
        end).
Definition http_Stop : ST (http_Server * W) (option error) := on_server net_Close.
Definition http_GracefulStop : ST (http_Server * W) (option error) := on_server net_Shutdown.

(** [level] is the level of the log when the server is made. *)
Definition http_NewServer (level : LogLevel) (name : string) (tlsConfig : option TLSConfig) : http_Server :=
  let router := chi_NewRouter in
  let router := if level_le DebugLevel level then chi_Use RequestLogger router else router in
  let router := chi_Use Recoverer router in
  mkHttpServer (tcp_NewListener name) name router (mkNetServer tlsConfig true 1 net_zero) true.

(** However [Start] ends, the pipe to the log is closed and the server has it no more. *)
Lemma http_Start_releases_log s r s' : http_Start s = (r, s') →
  hs_logWriter s'.1 = false ∧ ns_ErrorLog (hs_server s'.1) = false.
Proof.
  unfold http_Start. unfold_st. destruct s as [s w]. cbn [fst snd].
  destruct (ns_TLSConfig (hs_server s)); destruct (on_server _ (s, w)) as [e [s1 w1]]; by intros [= <- <-].
Qed.

Context {NHL : NetHTTPLaws W L}.
#[local] Set Default Proof Using "All".

Definition stop_http (graceful : bool) : ST (http_Server * W) (option error) :=
  if graceful then http_GracefulStop else http_Stop.

(** A server of the programs (without TLS) that is stopped, in either way, before its
    goroutine has called [Start] returns from it at once, and without an error. *)
Lemma http_stopped_before_start graceful s l err s1 r s2 :
  ns_TLSConfig (hs_server s.1) = None → tl_listener (hs_Listener s.1) = Some l →
  stop_http graceful s = (err, s1) →
  http_Start s1 = (r, s2) → r = Done None.
Proof.
  intros Htls Hl Hstop. destruct s as [s w]. cbn [fst] in Htls, Hl.
  assert (net_down (ns_hidden (hs_server s1.1)) = true ∧ ns_TLSConfig (hs_server s1.1) = None ∧
          tl_listener (hs_Listener s1.1) = Some l) as (Hd & Ht & Hl1).
  { destruct graceful; unfold stop_http in Hstop.
    - unfold http_GracefulStop, on_server in Hstop. cbn [fst snd] in Hstop.
      pose proof (Shutdown_down (hs_server s, w)). pose proof (Shutdown_config (hs_server s, w)).
      destruct (net_Shutdown _) as [e [srv w1]]. injection Hstop as <- <-. simpl in *. split_and!; congruence.
    - unfold http_Stop, on_server in Hstop. cbn [fst snd] in Hstop.
      pose proof (Close_down (hs_server s, w)). pose proof (Close_config (hs_server s, w)).
      destruct (net_Close _) as [e [srv w1]]. injection Hstop as <- <-. simpl in *. split_and!; congruence. }
  destruct s1 as [s1 w1]. cbn [fst] in *. clear Hstop. unfold http_Start, GetListener. unfold_st. cbn [fst snd].
  rewrite Ht, Hl1. destruct (Serve_down l (hs_server s1, w1) Hd) as (e & He & Hc).
  unfold on_server. cbn [fst snd]. destruct (net_Serve _ _) as [r' [srv w2]]. cbn [fst] in He. subst r'.
  rewrite Hc. by intros [= <- _].
Qed.
End http.

(** ** pkg/util/grpc *)
(** [grpc.Server]: a server is stopped, in either way, and [Serve] returns no error when
    that is why it ended; called on a server that was stopped before, it returns
    [ErrServerStopped]. *)
Class GRPC {TL : TLSLib} (W L : Type) := {
  grpc_server : Type;
  grpc_New : option TLSConfig → grpc_server;             (* grpc.NewServer with the credentials *)
  grpc_Serve : option L → ST (grpc_server * W) (outcome (option error));
  grpc_StopServer : ST (grpc_server * W) unit;
  grpc_GracefulStopServer : ST (grpc_server * W) unit;
  ErrServerStopped : error
}.
Class GRPCLaws {TL : TLSLib} (W L : Type) {GR : GRPC W L} := {
  grpc_down : grpc_server → bool;
  grpc_New_up c : grpc_down (grpc_New c) = false;
  grpc_Stop_down s : grpc_down (grpc_StopServer s).2.1 = true;
  grpc_GracefulStop_down s : grpc_down (grpc_GracefulStopServer s).2.1 = true;
  grpc_Serve_down l s : grpc_down s.1 = true → (grpc_Serve (Some l) s).1 = Done (Some ErrServerStopped)
}.

Section grpc.
Context {TL : TLSLib} {W L : Type} {TN : TCPNet W L} {GR : GRPC W L}.

Record grpc_Server := mkGrpcServer { gs_Listener : tcp_Listener (L:=L); gs_server : grpc_server }.
Definition GetGRPCServer (s : grpc_Server) : grpc_server := gs_server s.
Definition on_grpc {A} (f : ST (grpc_server * W) A) : ST (grpc_Server * W) A := λ s,
  let '(a, (srv, w)) := f (gs_server s.1, s.2) in (a, (mkGrpcServer (gs_Listener s.1) srv, w)).

Definition grpc_Start : ST (grpc_Server * W) (outcome (option error)) :=
  s ← gets fst; on_grpc (grpc_Serve (GetListener (gs_Listener s))).
Definition grpc_Stop : ST (grpc_Server * W) (option error) := on_grpc grpc_StopServer;; mret None.
Definition grpc_GracefulStop : ST (grpc_Server * W) (option error) := on_grpc grpc_GracefulStopServer;; mret None.
Definition grpc_NewServer (name : string) (tlsConfig : option TLSConfig) : grpc_Server :=
  mkGrpcServer (tcp_NewListener name) (grpc_New tlsConfig).
Definition stop_grpc (graceful : bool) : ST (grpc_Server * W) (option error) :=
  if graceful then grpc_GracefulStop else grpc_Stop.

Context {GRL : GRPCLaws W L}.
#[local] Set Default Proof Using "All".

(** Unlike the HTTP server, a gRPC server that is stopped before its goroutine has called
    [Start] returns an error from it, which [Run] of the runnables reports. *)
Lemma grpc_stopped_before_start graceful s l err s1 r s2 :
  tl_listener (gs_Listener s.1) = Some l → stop_grpc graceful s = (err, s1) →
  grpc_Start s1 = (r, s2) → err = None ∧ r = Done (Some ErrServerStopped).
Proof.
  intros Hl Hstop. destruct s as [s w]. cbn [fst] in Hl.
  assert (err = None ∧ grpc_down (gs_server s1.1) = true ∧ tl_listener (gs_Listener s1.1) = Some l) as (-> & Hd & Hl1).
  { destruct graceful; unfold stop_grpc, grpc_GracefulStop, grpc_Stop, on_grpc in Hstop; unfold mbind, ST_bind, mret, ST_ret in Hstop; cbn [fst snd] in Hstop.
    - pose proof (grpc_GracefulStop_down (gs_server s, w)).
      destruct (grpc_GracefulStopServer _) as [[] [srv w1]]. injection Hstop as <- <-. done.
    - pose proof (grpc_Stop_down (gs_server s, w)).
      destruct (grpc_StopServer _) as [[] [srv w1]]. injection Hstop as <- <-. done. }
  destruct s1 as [s1 w1]. cbn [fst] in *. clear Hstop. unfold grpc_Start, GetListener, on_grpc. unfold_st. cbn [fst snd].
  rewrite Hl1. pose proof (grpc_Serve_down l (gs_server s1, w1) Hd) as He.
  destruct (grpc_Serve _ _) as [r' [srv w2]]. cbn [fst] in He. subst r'. by intros [= <- _].
Qed.
End grpc.

(** ** pkg/util/runnable/manager.go: the runnables *)
Section manager.
Context {W : Type}.

(** [Instance]: its name and [GracefulStop]; [Start] and [Stop] are in [Runnable.step]. *)
Record Instance := mkInstance { ins_Name : string; ins_GracefulStop : ST W (option error) }.
(** A server is known by the place of its runnable in the list. *)
Record runnable_manager := mkRunnableManager {
  runnables : list Instance; serverAddress : gmap nat (Server W * string)
}.
Definition runnable_NewManager : runnable_manager := mkRunnableManager [] ∅.
Definition Add (runnable : Instance) (c : runnable_manager) : runnable_manager :=
  mkRunnableManager (runnables c ++ [runnable]) (serverAddress c).
Definition AddServer (listenAddress : string) (server : Server W) (runnable : Instance) (c : runnable_manager) : runnable_manager :=
  mkRunnableManager (runnables c ++ [runnable]) (<[length (runnables c) := (server, listenAddress)]> (serverAddress c)).

Fixpoint graceful_stops (rs : list Instance) : ST W (list (option error)) :=
  match rs with
  | [] => mret []
  | r :: rs' =>
      err ← ins_GracefulStop r;
      errs ← graceful_stops rs';
      mret (((λ err, EWrap ("unable to gracefully stop '" +:+ ins_Name r +:+ "'") err) <$> err) :: errs)
  end.
Definition runnable_GracefulStop (c : runnable_manager) : ST W (option error) :=
  errs ← graceful_stops (runnables c); mret (errors_Join errs).

(** All the runnables are stopped, in order, whichever of them fail. *)
Lemma runnable_GracefulStop_all c w :
  (runnable_GracefulStop c w).2 = foldl (λ w r, (ins_GracefulStop r w).2) w (runnables c).
Proof.
  unfold runnable_GracefulStop. unfold_st. enough (∀ rs w, (graceful_stops rs w).2 = foldl (λ w r, (ins_GracefulStop r w).2) w rs) as H.
  { specialize (H (runnables c) w). by destruct (graceful_stops _ w) as [errs w']. }
  induction rs as [|r rs IH]; intros w'; [done|]. simpl. unfold_st.
  destruct (ins_GracefulStop r w') as [err w1]. specialize (IH w1). by destruct (graceful_stops rs w1) as [errs w2].
Qed.
End manager.
Arguments Instance : clear implicits.
Arguments runnable_manager : clear implicits.

(** The runnables of the control plane, as [Run] of [cmd/cl-controlplane/app/server.go]
    adds them, are those of [Servers]. *)
Section controlplane.
Context {W : Type} (watcher manager control grpcServer httpServer : ST W (option error)) (grpc http : Server W).

Definition controlplane_manager : runnable_manager W :=
  AddServer (any_address ReadinessListenPort) http (mkInstance "controlplane-http" httpServer)
    (AddServer (any_address controlplane_ListenPort) grpc (mkInstance "controlplane-grpc" grpcServer)
      (Add (mkInstance "peerManager" control)
        (Add (mkInstance "controller-manager" manager)
          (Add (mkInstance "certs-watcher" watcher) runnable_NewManager)))).

Lemma controlplane_manager_runnables :
  map ins_Name (runnables controlplane_manager) = controlplane_runnables ∧
  serverAddress controlplane_manager = controlplane_servers grpc http.
Proof. split; [done|]. simpl. unfold controlplane_servers. rewrite insert_insert_ne by done. done. Qed.
End controlplane.

(** ** pkg/util/controller/manager.go *)
Definition ctl_Name : string := "controller-manager".
Definition ctl_NewManager : controllerManager := mkControllerManager None ∅.
Definition ctl_GracefulStop (m : controllerManager) : controllerManager := ctl_Stop m.

(** ** controlplane/peer/certs.go: the end of the watcher

    The channel that [Run] receives [EvStop] from is closed, which can be done once. *)
Definition watcher_Name : string := "certs-watcher".
Definition watcher_Stop (closed : bool) : outcome (option error) * bool :=
  if closed then (Panic, closed) else (Done None, true).
Definition watcher_GracefulStop (closed : bool) : outcome (option error) * bool := watcher_Stop closed.

(** A watcher that was stopped in one way panics when it is stopped in the other. *)
Lemma watcher_stopped_twice :
  (watcher_Stop false).1 = Done None ∧ (watcher_GracefulStop (watcher_Stop false).2).1 = Panic.
Proof. done. Qed.
