(* ===== verification/BootstrapFacts.v ===== *)
(** * Peers of a fabric trust each other

    What the libraries of Go promise about keys, certificates, TLS and files; the
    certificates the commands make; and the connections they allow. *)
From S2P Require Export Bootstrap Jwks.
From stdpp Require Import options.
From Stdlib Require Import Ascii ZArith Lia.

#[local] Set Default Proof Using "Type*".

(** ** What the libraries promise *)

(** The template with the key of the certificate and the key that signs it. *)
Definition with_keys {W} `{X509Lib W} (pub signer : PublicKey) (c : x509Certificate) : x509Certificate :=
  mkX509 (SerialNumber c) (NotBefore c) (NotAfter c) (IsCA c) (CommonName c) (BasicConstraintsValid c) (KeyUsage c)
    (ExtKeyUsages c) (x_DNSNames c) (Some pub) (Some signer).
(** The first certificate is signed with the key of the second. *)
Definition signed {W} `{X509Lib W} (c parent : x509Certificate) : Prop :=
  ∃ k, x_Signer c = Some k ∧ x_PublicKey parent = Some k.

Class X509Laws (W : Type) `{!X509Lib W} `{!X509Sign W} := {
  create_parses tmpl parent pub priv w der : (CreateCertificate tmpl parent pub priv w).1 = Ok der →
    x509_ParseCertificate der = Ok (with_keys pub (Public priv) tmpl);
  key_round_trip k : ParsePKCS1PrivateKey (MarshalPKCS1PrivateKey k) = Ok k;
  pem_round_trip ty b s : pem_Encode ty b = Ok s → ∀ rest, pem_Decode (s +:+ rest) = Some (ty, b)
}.

(** [Verify] of a certificate of the other side, as [crypto/tls] calls it: the roots, the
    chain, the name that is expected, the usage and the time. *)
Class TLSVerify `{!TLSLib} := {
  Verify : option CertPool → Certificate → option string → ExtKeyUsage → Z → bool
}.

Definition in_force (t : Z) {W} `{X509Lib W} (c : x509Certificate) : Prop := (NotBefore c ≤ t ≤ NotAfter c)%Z.
(** A certificate that may sign others. *)
Definition authority {W} `{X509Lib W} (c : x509Certificate) : Prop :=
  IsCA c = true ∧ BasicConstraintsValid c = true ∧ Z.land (KeyUsage c) KeyUsageCertSign = KeyUsageCertSign.

Class TLSLaws (W : Type) `{!TLSLib} `{!TLSVerify} `{!X509Lib W} `{!X509Sign W} `{!X509Laws W} := {
  (** the first certificate of a chain; the certificates of a pool; names [x509] accepts as host names *)
  leaf : Certificate → x509Certificate;
  in_pool : CertPool → x509Certificate → Prop;
  valid_hostname : string → Prop;
  keypair_ok der s c k ks rest :
    pem_Encode "CERTIFICATE" der = Ok s → x509_ParseCertificate der = Ok c → x_PublicKey c = Some (Public k) →
    pem_Encode "RSA PRIVATE KEY" (MarshalPKCS1PrivateKey k) = Ok ks →
    ∃ kp x, X509KeyPair (s +:+ rest) ks = Ok kp ∧ leaf kp = c ∧ ParseCertificate kp = Ok x ∧ x509_DNSNames x = x_DNSNames c;
  pool_ok der s c : pem_Encode "CERTIFICATE" der = Ok s → x509_ParseCertificate der = Ok c →
    ∃ pool, AppendCertsFromPEM s = Some pool ∧ in_pool pool c;
  verify_ok pool kp root name usage t :
    in_pool pool root → signed (leaf kp) root → authority root → in_force t root → in_force t (leaf kp) →
    usage ∈ ExtKeyUsages (leaf kp) → (∀ n, name = Some n → valid_hostname n ∧ n ∈ x_DNSNames (leaf kp)) →
    Verify (Some pool) kp name usage t = true;
  verify_usage pool kp name usage t :
    Verify pool kp name usage t = true → ExtKeyUsages (leaf kp) = [] ∨ usage ∈ ExtKeyUsages (leaf kp)
}.

(** A handshake at a time: each side verifies the certificate of the other. *)
Definition handshake `{TLSVerify} (t : Z) (client server : TLSConfig) : bool :=
  match Certificates client, Certificates server with
  | c :: _, s :: _ =>
      Verify (RootCAs client) s (Some (ServerName client)) ExtKeyUsageServerAuth t &&
      match ClientAuth server with
      | NoClientCert => true
      | RequireAndVerifyClientCert => Verify (ClientCAs server) c None ExtKeyUsageClientAuth t
      end
  | _, _ => false
  end.

(** The files of the operating system; making keys and certificates does not change them. *)
Class FileLaws (W : Type) `{!Files W} `{!FileSystem W} `{!X509Lib W} `{!X509Sign W} := {
  files : W → gmap string string;
  read_keeps p w : files (ReadFile p w).2 = files w;
  read_ok p w s : (ReadFile p w).1 = Ok s ↔ files w !! p = Some s;
  write_ok p s w : (WriteFile p s w).1 = None → files (WriteFile p s w).2 = <[p := s]> (files w);
  mkdir_keeps p w : files (Mkdir p w).2 = files w;
  stat_keeps p w : files (Stat p w).2 = files w;
  generate_keeps w : files (GenerateKey w).2 = files w;
  serial_keeps w : files (random_serial w).2 = files w;
  create_keeps tmpl parent pub priv w : files (CreateCertificate tmpl parent pub priv w).2 = files w
}.

Section facts.
Context {W : Type} {CK : Clock W} {XL : X509Lib W} {XS : X509Sign W} {FS : Files W} {FY : FileSystem W} {ID : Idna}.
Context {TL : TLSLib} {TV : TLSVerify} {XW : X509Laws W} {TW : TLSLaws W} {FW : FileLaws W}.

(** ** The certificates that are made *)

(** The PEMs of a certificate hold what it was made of. *)
Record made (c : certificate) : Prop := {
  made_key : ∃ k, c_key c = Some k ∧ x_PublicKey (c_cert c) = Some (Public k) ∧
                  pem_Encode "RSA PRIVATE KEY" (MarshalPKCS1PrivateKey k) = Ok (c_keyPEM c);
  made_cert : ∃ der rest, x509_ParseCertificate der = Ok (c_cert c) ∧
                  ∃ s, pem_Encode "CERTIFICATE" der = Ok s ∧ c_certPEM c = s +:+ rest
}.

Lemma createCertificate_ok config w c w' : createCertificate config w = (Done (Ok c), w') →
  files w' = files w ∧ made c ∧ c_parent c = cc_Parent config ∧
  (∃ serial now k k', c_cert c = with_keys (Public k) (Public k') (certificate_template serial now config)) ∧
  (∃ der, x509_ParseCertificate der = Ok (c_cert c) ∧ pem_Encode "CERTIFICATE" der = Ok (c_certPEM c)) ∧
  (∀ p, cc_Parent config = Some p → made p → signed (c_cert c) (c_cert p)).
Proof.
  unfold createCertificate. unfold_st. pose proof (generate_keeps w) as Hk.
  destruct (GenerateKey w) as [[key|e] w1]; cbn [fst snd] in *; [|done].
  pose proof (serial_keeps w1) as Hs. destruct (random_serial w1) as [serial w2]; cbn [fst snd] in *.
  set (tmpl := certificate_template _ _ _). set (ca := match cc_Parent config with Some p => c_cert p | None => tmpl end).
  destruct (match cc_Parent config with Some p => c_key p | None => Some key end) as [caKey|] eqn:Hca; [|done].
  pose proof (create_parses tmpl ca (Public key) caKey w2) as Hp.
  pose proof (create_keeps tmpl ca (Public key) caKey w2) as Hc.
  destruct (CreateCertificate _ _ _ _ w2) as [[der|e] w3]; cbn [fst snd] in *; [|done].
  destruct (pem_Encode "CERTIFICATE" der) as [certPEM|e] eqn:Hpem; [|done].
  destruct (pem_Encode "RSA PRIVATE KEY" _) as [keyPEM|e] eqn:Hkp; [|done].
  destruct (x509_ParseCertificate der) as [signedCert|e] eqn:Hps; [|done]. intros [= <- <-].
  specialize (Hp der eq_refl). rewrite Hps in Hp. injection Hp as ->. cbn [c_parent c_cert c_certPEM].
  split_and!; [congruence| |done|by eexists _, _, _, _|by exists der|].
  - split; cbn [c_key c_cert c_keyPEM c_certPEM].
    + by exists key.
    + exists der, "". split; [done|]. exists certPEM. by rewrite str_app_nil_r.
  - intros p Hpar Hm. rewrite Hpar in Hca. exists (Public caKey). split; [done|].
    destruct (made_key p Hm) as (k & Hk1 & Hk2 & _). congruence.
Qed.

(** What is read back is what was written, without the parent. *)
Definition reread (c : certificate) : certificate := mkCertificate None (c_cert c) (c_key c) (RawCert c) (RawKey c).
Lemma RawCert_prefix c : ∃ rest, RawCert c = c_certPEM c +:+ rest.
Proof. unfold RawCert. destruct (c_parent c) as [p|]; [by eexists|]. exists "". by rewrite str_app_nil_r. Qed.
Lemma raw_round_trip c : made c → certificateFromRaw (RawCert c) (Some (RawKey c)) = Ok (reread c).
Proof.
  intros [(k & Hk & _ & Hkp) (der & rest & Hp & s & Hs & Hc)]. destruct (RawCert_prefix c) as [rest' Hr].
  unfold certificateFromRaw. rewrite Hr at 1. rewrite Hc, <- str_app_assoc, (pem_round_trip _ _ _ Hs), Hp.
  unfold RawKey at 1. rewrite <- (str_app_nil_r (c_keyPEM c)), (pem_round_trip _ _ _ Hkp), key_round_trip.
  unfold reread. by rewrite Hk.
Qed.
Lemma reread_made c : made c → made (reread c).
Proof.
  intros [Hk (der & rest & Hp & s & Hs & Hc)]. split; [done|]. destruct (RawCert_prefix c) as [rest' Hr].
  exists der, (rest +:+ rest'). split; [done|]. exists s. split; [done|]. simpl. by rewrite Hr, Hc, <- str_app_assoc.
Qed.
Lemma reread_RawCert c : RawCert (reread c) = RawCert c. Proof using Type. done. Qed.

(** The root of a pool, as it is written to a file. *)
Definition root_pem (f : certificate) : Prop :=
  ∃ der, x509_ParseCertificate der = Ok (c_cert f) ∧ pem_Encode "CERTIFICATE" der = Ok (RawCert f).

(** *** The commands *)
Lemma write_two p1 s1 p2 s2 w w1 e w2 :
  WriteFile p1 s1 w = (None, w1) → WriteFile p2 s2 w1 = (e, w2) → e = None →
  files w2 = <[p2 := s2]> (<[p1 := s1]> (files w)).
Proof.
  intros H1 H2 ->. pose proof (write_ok p1 s1 w) as K1. pose proof (write_ok p2 s2 w1) as K2.
  rewrite H1 in K1. rewrite H2 in K2. simpl in *. by rewrite K2, K1.
Qed.

Lemma fabric_Run_ok name path w w' : fabric_Run name path w = (Done None, w') →
  ∃ c, made c ∧ authority (c_cert c) ∧
       root_pem c ∧
       files w' = <[FabricKey name path := RawKey c]> (<[FabricCertificate name path := RawCert c]> (files w)).
Proof.
  unfold fabric_Run, CreateFabricCertificate. unfold_st.
  destruct (createCertificate _ w) as [[[c|e]|] w1] eqn:Hc; [|done..].
  apply createCertificate_ok in Hc as (Hf & Hm & Hpar & (serial & now & k & k' & Hcert) & (der & Hd1 & Hd2) & _).
  pose proof (mkdir_keeps (FabricDirectory name path) w1) as Hmk.
  destruct (Mkdir _ w1) as [[e|] w2]; cbn [fst snd] in *; [done|].
  destruct (WriteFile _ (RawCert c) w2) as [[e|] w3] eqn:H1; [done|].
  destruct (WriteFile _ (RawKey c) w3) as [e w4] eqn:H2. intros [= -> <-].
  exists c. split; [done|]. split; [|split].
  - rewrite Hcert. done.
  - exists der. split; [done|]. unfold RawCert. by rewrite Hpar.
  - by rewrite (write_two _ _ _ _ _ _ _ _ H1 H2 eq_refl), Hmk, Hf.
Qed.

Lemma read_file p w r w' s : ReadFile p w = (r, w') → files w !! p = Some s → r = Ok s ∧ files w' = files w.
Proof.
  intros H Hs. pose proof (read_keeps p w) as Hk. apply read_ok in Hs. rewrite H in Hk, Hs. done.
Qed.

(** The certificate and the key of a peer. *)
Definition peer_cert_file (peer fabric path : string) : string := filepath_Join [PeerDirectory peer fabric path; CertificateFileName].
Definition peer_key_file (peer fabric path : string) : string := filepath_Join [PeerDirectory peer fabric path; PrivateKeyFileName].

Lemma ReadCertificates_ok dir w c : made c →
  files w !! filepath_Join [dir; CertificateFileName] = Some (RawCert c) → files w !! filepath_Join [dir; PrivateKeyFileName] = Some (RawKey c) →
  ∃ w', ReadCertificates dir true w = (Ok (reread c), w') ∧ files w' = files w.
Proof.
  intros Hm H1 H2. unfold ReadCertificates. unfold_st.
  destruct (ReadFile _ w) as [r w1] eqn:Hr1. apply (read_file _ _ _ _ _ Hr1) in H1 as [-> Hf1].
  destruct (ReadFile _ w1) as [r w2] eqn:Hr2. rewrite <- Hf1 in H2. apply (read_file _ _ _ _ _ Hr2) in H2 as [-> Hf2].
  exists w2. rewrite raw_round_trip by done. split; [done|congruence].
Qed.

Lemma peer_Run_ok name fabric path w w' f : made f →
  files w !! FabricCertificate fabric path = Some (RawCert f) → files w !! FabricKey fabric path = Some (RawKey f) →
  peer_Run name fabric path w = (Done None, w') →
  ∃ c, made c ∧ signed (c_cert c) (c_cert f) ∧ x_DNSNames (c_cert c) = [name] ∧
       ExtKeyUsages (c_cert c) = [ExtKeyUsageServerAuth; ExtKeyUsageClientAuth] ∧
       files w' = <[peer_key_file name fabric path := RawKey c]> (<[peer_cert_file name fabric path := RawCert c]> (files w)).
Proof.
  intros Hm H1 H2. unfold peer_Run. destruct (ToASCII name); [|done]. unfold verifyNotExists. unfold_st.
  pose proof (stat_keeps name w) as Hst. destruct (Stat name w) as [[e|] w1]; cbn [fst snd] in *; [|done].
  destruct (negb (IsNotExist e)); [done|]. rewrite <- Hst in H1, H2.
  destruct (ReadCertificates_ok (FabricDirectory fabric path) w1 f Hm H1 H2) as (w2 & -> & Hf2).
  unfold createPeerCert, CreatePeerCertificate. unfold_st.
  destruct (createCertificate _ w2) as [[[c|e']|] w3] eqn:Hc; [|done..].
  apply createCertificate_ok in Hc as (Hf3 & Hmc & _ & (serial & now & k & k' & Hcert) & _ & Hs).
  pose proof (mkdir_keeps (PeerDirectory name fabric path) w3) as Hmk.
  destruct (Mkdir _ w3) as [[e'|] w4]; cbn [fst snd] in *; [done|]. unfold saveCertificate. unfold_st.
  destruct (WriteFile _ (RawCert c) w4) as [[e'|] w5] eqn:W1; [done|].
  destruct (WriteFile _ (RawKey c) w5) as [e' w6] eqn:W2. intros [= -> <-].
  exists c. split_and!; [done|by apply (Hs (reread f)), reread_made|by rewrite Hcert|by rewrite Hcert|].
  unfold peer_key_file, peer_cert_file. rewrite (write_two _ _ _ _ _ _ _ _ W1 W2 eq_refl). congruence.
Qed.

(** ** The connections they allow *)
Lemma raw_cert c : made c → certificateFromRaw (RawCert c) None = Ok (mkCertificate None (c_cert c) None (RawCert c) "").
Proof.
  intros [_ (der & rest & Hp & s & Hs & Hc)]. destruct (RawCert_prefix c) as [rest' Hr].
  unfold certificateFromRaw. rewrite Hr at 1. by rewrite Hc, <- str_app_assoc, (pem_round_trip _ _ _ Hs), Hp.
Qed.

(** What a component finds in the files of a fabric and of a certificate it signed. *)
Definition credentials (c f : certificate) (pcd : ParsedCertData) : Prop :=
  leaf (pcd_certificate pcd) = c_cert c ∧ in_pool (pcd_ca pcd) (c_cert f) ∧ DNSNames pcd = x_DNSNames (c_cert c).

Lemma ParseFiles_reads {P} {FP : Files P} ca cert key p1 p2 p3 p4 c f :
  made c → root_pem f → ReadFile ca p1 = (Ok (RawCert f), p2) → ReadFile cert p2 = (Ok (RawCert c), p3) →
  ReadFile key p3 = (Ok (RawKey c), p4) →
  ∃ pcd raw, ParseFiles ca cert key p1 = (Ok (pcd, raw), p4) ∧ credentials c f pcd.
Proof.
  intros [(k & Hk & Hpub & Hkp) (der & rest & Hp & s & Hs & Hc)] (fder & Hf1 & Hf2) H1 H2 H3.
  unfold ParseFiles. unfold_st. rewrite H1, H2, H3.
  destruct (RawCert_prefix c) as [rest' Hr]. rewrite Hr, Hc, <- str_app_assoc.
  destruct (keypair_ok der s (c_cert c) k (c_keyPEM c) (rest +:+ rest')) as (kp & x & HK & HL & HX & HD); [done..|].
  destruct (pool_ok fder (RawCert f) (c_cert f)) as (pool & HP & HI); [done..|].
  unfold RawKey. rewrite HK, HP, HX. by eexists _, _.
Qed.
Lemma ParseFiles_ok ca cert key w c f : made c → root_pem f →
  files w !! ca = Some (RawCert f) → files w !! cert = Some (RawCert c) → files w !! key = Some (RawKey c) →
  ∃ pcd raw, (ParseFiles ca cert key w).1 = Ok (pcd, raw) ∧ credentials c f pcd.
Proof.
  intros Hm Hf H1 H2 H3.
  destruct (ReadFile ca w) as [r1 w1] eqn:R1. apply (read_file _ _ _ _ _ R1) in H1 as [-> F1]. rewrite <- F1 in H2, H3.
  destruct (ReadFile cert w1) as [r2 w2] eqn:R2. apply (read_file _ _ _ _ _ R2) in H2 as [-> F2]. rewrite <- F2 in H3.
  destruct (ReadFile key w2) as [r3 w3] eqn:R3. apply (read_file _ _ _ _ _ R3) in H3 as [-> F3].
  destruct (ParseFiles_reads ca cert key w w1 w2 w3 c f Hm Hf R1 R2 R3) as (pcd & raw & -> & Hc). by eexists _, _.
Qed.

(** Two certificates of one authority: the client knows the name of the server. *)
Lemma handshake_ok t c s f pc ps n :
  credentials c f pc → credentials s f ps → signed (c_cert c) (c_cert f) → signed (c_cert s) (c_cert f) →
  authority (c_cert f) → in_force t (c_cert c) → in_force t (c_cert s) → in_force t (c_cert f) →
  ExtKeyUsageClientAuth ∈ ExtKeyUsages (c_cert c) → ExtKeyUsageServerAuth ∈ ExtKeyUsages (c_cert s) →
  n ∈ x_DNSNames (c_cert s) → valid_hostname n →
  handshake t (ClientConfig pc n) (ServerConfig ps) = true.
Proof.
  intros (Lc & Pc & _) (Ls & Ps & _) Sc Ss Ha Fc Fs Ff Uc Us Hn Hv. unfold handshake. simpl. apply andb_true_iff. split.
  - apply (verify_ok _ _ (c_cert f)); rewrite ?Ls; try done. by intros n' [= <-].
  - apply (verify_ok _ _ (c_cert f)); rewrite ?Lc; done.
Qed.

(** The certificate that is read from a file is in force. *)
Definition file_in_force (t : Z) (w : W) (p : string) : Prop :=
  ∀ raw c, files w !! p = Some raw → certificateFromRaw raw None = Ok c → in_force t (c_cert c).

(** C12: a fabric and two peers created by three commands that succeed: each peer parses
    its files, and while the certificates are in force either peer can connect to the
    other under its name; both sides are authenticated, and the name in the certificate
    of a peer is the name it was created with. *)
Theorem fabric_peers_connect fabric path a b w w1 w2 w3 t :
  fabric_Run fabric path w = (Done None, w1) →
  peer_Run a fabric path w1 = (Done None, w2) →
  peer_Run b fabric path w2 = (Done None, w3) →
  let ca := FabricCertificate fabric path in
  let cert p := peer_cert_file p fabric path in
  let key p := peer_key_file p fabric path in
  NoDup [ca; FabricKey fabric path; cert a; key a; cert b; key b] →
  valid_hostname a → valid_hostname b →
  file_in_force t w3 ca → file_in_force t w3 (cert a) → file_in_force t w3 (cert b) →
  ∃ pa pb rawa rawb,
    (ParseFiles ca (cert a) (key a) w3).1 = Ok (pa, rawa) ∧ (ParseFiles ca (cert b) (key b) w3).1 = Ok (pb, rawb) ∧
    handshake t (ClientConfig pa b) (ServerConfig pb) = true ∧ handshake t (ClientConfig pb a) (ServerConfig pa) = true ∧
    DNSNames pa = [a] ∧ DNSNames pb = [b].
Proof.
  intros Hf Ha Hb ca cert key Hnd Va Vb Tf Ta Tb.
  apply fabric_Run_ok in Hf as (f & Mf & Af & Pf & F1).
  repeat (apply NoDup_cons in Hnd as [? Hnd]). rewrite !not_elem_of_cons in *. destruct_and!.
  apply (peer_Run_ok _ _ _ _ _ f) in Ha as (ca' & Ma & Sa & Da & Ua & F2);
    [|done|by rewrite F1, lookup_insert_ne, lookup_insert_eq|by rewrite F1, lookup_insert_eq].
  apply (peer_Run_ok _ _ _ _ _ f) in Hb as (cb' & Mb & Sb & Db & Ub & F3);
    [|done|by rewrite F2, !lookup_insert_ne, F1, lookup_insert_ne, lookup_insert_eq|
     by rewrite F2, !lookup_insert_ne, F1, lookup_insert_eq].
  fold ca (cert a) (key a) in F2. fold (cert b) (key b) in F3. fold ca in F1. rewrite F2, F1 in F3. clear F1 F2 w1 w2.
  assert (files w3 !! ca = Some (RawCert f)) as Lf by (rewrite F3; by simplify_map_eq).
  assert (files w3 !! cert a = Some (RawCert ca')) as La by (rewrite F3; by simplify_map_eq).
  assert (files w3 !! key a = Some (RawKey ca')) as Ka by (rewrite F3; by simplify_map_eq).
  assert (files w3 !! cert b = Some (RawCert cb')) as Lb by (rewrite F3; by simplify_map_eq).
  assert (files w3 !! key b = Some (RawKey cb')) as Kb by (rewrite F3; by simplify_map_eq).
  destruct (ParseFiles_ok ca (cert a) (key a) w3 ca' f Ma Pf Lf La Ka) as (pa & rawa & Ra & Ca).
  destruct (ParseFiles_ok ca (cert b) (key b) w3 cb' f Mb Pf Lf Lb Kb) as (pb & rawb & Rb & Cb).
  specialize (Tf _ _ Lf (raw_cert f Mf)). specialize (Ta _ _ La (raw_cert ca' Ma)). specialize (Tb _ _ Lb (raw_cert cb' Mb)).
  exists pa, pb, rawa, rawb. split_and!; [done|done| | | |].
  - apply (handshake_ok t ca' cb' f); [assumption..| | |by rewrite Db; left|assumption]; [rewrite Ua|rewrite Ub]; by repeat constructor.
  - apply (handshake_ok t cb' ca' f); [assumption..| | |by rewrite Da; left|assumption]; [rewrite Ub|rewrite Ua]; by repeat constructor.
  - destruct Ca as (_ & _ & ->). by rewrite Da.
  - destruct Cb as (_ & _ & ->). by rewrite Db.
Qed.

(** The certificate of a data plane is refused as the certificate of a control plane, by
    any client and whatever its roots are. *)
Theorem dataplane_is_no_server ca w c w' pool kp n t :
  CreateDataplaneCertificate ca w = (Done (Ok c), w') → leaf kp = c_cert c →
  Verify pool kp n ExtKeyUsageServerAuth t = false.
Proof.
  intros (_ & _ & _ & (serial & now & k & k' & Hcert) & _)%createCertificate_ok Hl.
  apply not_true_is_false. intros [H|H]%verify_usage; rewrite Hl, Hcert in H; simpl in H; [done|set_solver].
Qed.
End facts.

(** ** Libraries in memory

    Keys are numbers, a certificate is printed in binary, a pool has one certificate; a
    directory is there when it has files. *)
Record host := mkHost {
  h_files : gmap string string; h_next : positive; h_secrets : gmap NamespacedName Secret
}.
#[export] Instance host_clock : Clock host := {| clock_now _ := 100%Z |}.

#[export] Instance host_x509 : X509Lib host := {|
  PrivateKey := positive; PublicKey := positive; Public k := k;
  GenerateKey h := (Ok (h_next h), mkHost (h_files h) (Pos.succ (h_next h)) (h_secrets h));
  random_serial h := (1%Z, h);
  ten_years_later z := (z + 1000)%Z;
  MarshalPKCS1PrivateKey := pos_bits;
  ParsePKCS1PrivateKey s := match bits_pos s with Some k => Ok k | None => Err (ENew "not a key") end;
  pem_Encode ty b := if str_in "|" ty || str_in "|" b then Err (ENew "bad character") else Ok (ty +:+ "|" +:+ b +:+ "|");
  pem_Decode s := match cut "|" s with
                  | Some (ty, s') => match cut "|" s' with Some (b, _) => Some (ty, b) | None => None end
                  | None => None
                  end
|}.

Definition x509_data : Type :=
  Z * Z * Z * bool * string * bool * Z * list bool * list string * option positive * option positive.
Definition to_data (c : @x509Certificate host host_x509) : x509_data :=
  (SerialNumber c, NotBefore c, NotAfter c, IsCA c, CommonName c, BasicConstraintsValid c, KeyUsage c,
   map (λ u, bool_decide (u = ExtKeyUsageServerAuth)) (ExtKeyUsages c), x_DNSNames c, x_PublicKey c, x_Signer c).
Definition of_data (d : x509_data) : @x509Certificate host host_x509 :=
  let '(a, b, c, d, e, f, g, h, i, j, k) := d in
  @mkX509 host host_x509 a b c d e f g
    (map (λ u : bool, if u then ExtKeyUsageServerAuth else ExtKeyUsageClientAuth) h) i j k.
Lemma of_data_to_data c : of_data (to_data c) = c.
Proof.
  destruct c as [a b c d e f g us h j k]. unfold to_data, of_data. simpl. f_equal. rewrite map_map.
  rewrite <- (map_id us) at 2. apply map_ext. by intros [].
Qed.
Definition parse_der (s : string) : result (@x509Certificate host host_x509) := of_data <$> ref_unmarshal (A := x509_data) s.
#[export] Instance host_sign : X509Sign host := {|
  CreateCertificate tmpl _ pub priv h := (Ok (ref_marshal (to_data (with_keys (W:=host) pub priv tmpl))), h);
  x509_ParseCertificate := parse_der
|}.
#[export] Instance host_x509_laws : X509Laws host.
Proof.
  split.
  - intros tmpl parent pub priv w der [= <-]. unfold x509_ParseCertificate. simpl. unfold parse_der.
    rewrite ref_unmarshal_marshal. exact (f_equal Ok (of_data_to_data _)).
  - intros k. simpl. by rewrite bits_pos_bits.
  - intros ty b s. unfold pem_Encode, pem_Decode. simpl. destruct (str_in "|" ty) eqn:Ht; [done|].
    destruct (str_in "|" b) eqn:Hb; [done|]. intros [= <-] rest.
    rewrite <- !str_app_assoc. change ("|" +:+ b +:+ "|" +:+ rest) with (String "|" (b +:+ String "|" rest)).
    by rewrite !cut_app.
Qed.

Definition first_certificate (s : string) : result (@x509Certificate host host_x509) :=
  match pem_Decode (W:=host) s with Some (_, der) => parse_der der | None => Err (ENew "no certificate") end.
#[export] Instance host_tls : TLSLib := {|
  Certificate := @x509Certificate host host_x509; CertPool := @x509Certificate host host_x509;
  X509Certificate := @x509Certificate host host_x509;
  X509KeyPair cert key :=
    match first_certificate cert, pem_Decode (W:=host) key with
    | Ok c, Some (_, k) => if decide (x_PublicKey c = bits_pos k) then Ok c else Err (ENew "key does not match")
    | Ok c, None => Err (ENew "no key")
    | Err err, _ => Err err
    end;
  AppendCertsFromPEM s := match first_certificate s with Ok c => Some c | Err _ => None end;
  ParseCertificate c := Ok c;
  x509_DNSNames := x_DNSNames
|}.
Definition host_verify (root c : @x509Certificate host host_x509) (name : option string) (usage : ExtKeyUsage) (t : Z) : bool :=
  bool_decide (x_Signer c = x_PublicKey root) && IsCA root && BasicConstraintsValid root &&
  Z.eqb (Z.land (KeyUsage root) KeyUsageCertSign) KeyUsageCertSign &&
  bool_decide (NotBefore root ≤ t ≤ NotAfter root)%Z && bool_decide (NotBefore c ≤ t ≤ NotAfter c)%Z &&
  bool_decide (usage ∈ ExtKeyUsages c) && match name with Some n => bool_decide (n ∈ x_DNSNames c) | None => true end.
#[export] Instance host_tls_verify : TLSVerify := {|
  Verify roots c name usage t := match roots with Some root => host_verify root c name usage t | None => false end
|}.
#[export] Instance host_tls_laws : TLSLaws host.
Proof.
  refine {| leaf c := c; in_pool pool c := pool = c; valid_hostname _ := True |}.
  - intros der s c k ks rest Hs Hp Hk Hks. exists c, c. unfold X509KeyPair. simpl. unfold first_certificate.
    rewrite (pem_round_trip _ _ _ Hs). simpl in Hp. rewrite Hp.
    pose proof (pem_round_trip _ _ _ Hks "") as Hd. rewrite str_app_nil_r in Hd. simpl in Hd. rewrite Hd.
    by rewrite bits_pos_bits, decide_True.
  - intros der s c Hs Hp. exists c. unfold AppendCertsFromPEM. simpl. unfold first_certificate.
    pose proof (pem_round_trip _ _ _ Hs "") as Hd. rewrite str_app_nil_r in Hd. rewrite Hd. simpl in Hp. by rewrite Hp.
  - intros pool kp root name usage t -> (k & H1 & H2) (H3 & H4 & H5) H6 H7 H8 H9. simpl. unfold host_verify, in_force in *.
    rewrite H1, H2, H3, H4, H5, Z.eqb_refl, !bool_decide_true by done. simpl.
    destruct name as [n|]; [|done]. by apply bool_decide_true, H9.
  - intros [root|] kp name usage t; [|done]. simpl. unfold host_verify. rewrite !andb_true_iff, !bool_decide_eq_true. tauto.
Defined.

#[export] Instance host_files : Files host := {|
  ReadFile p h := (match h_files h !! p with Some s => Ok s | None => Err (ENew "no such file") end, h)
|}.
#[export] Instance host_filesystem : FileSystem host := {|
  Mkdir _ h := (None, h);
  WriteFile p s h := (None, mkHost (<[p := s]> (h_files h)) (h_next h) (h_secrets h));
  Stat p h := (if existsb (λ q, bool_decide (q = p ∨ is_Some (strip_prefix (p +:+ "/") q))) (map_to_list (h_files h)).*1
               then None else Some (ENew "no such file"), h);
  IsNotExist _ := true
|}.
#[export] Instance host_idna : Idna := {| ToASCII s := Ok s |}.
#[export] Instance host_file_laws : FileLaws host.
Proof.
  refine {| files := h_files |}; try done.
  intros p w s. simpl. destruct (h_files w !! p); split; congruence.
Defined.

(** Two peers of the default fabric. *)
Definition fb_name : string := "default_fabric".
Definition fb_0 : host := mkHost ∅ 1 ∅.
Definition fb_1 : host := (fabric_Run fb_name "." fb_0).2.
Definition fb_2 : host := (peer_Run "peer1" fb_name "." fb_1).2.
Definition fb_3 : host := (peer_Run "peer2" fb_name "." fb_2).2.
Definition fb_ca : string := FabricCertificate fb_name ".".

Lemma file_in_force_check t (h : host) p :
  match h_files h !! p with
  | Some raw => match certificateFromRaw raw None with
                | Ok c => (NotBefore (c_cert c) <=? t)%Z && (t <=? NotAfter (c_cert c))%Z
                | Err _ => true
                end
  | None => true
  end = true → file_in_force t h p.
Proof.
  intros H raw c Hr Hc. change (h_files h !! p = Some raw) in Hr. rewrite Hr, Hc in H. unfold in_force. lia.
Qed.

Lemma fabric_peers_connect_witness :
  ∃ pa pb rawa rawb,
    (ParseFiles fb_ca (peer_cert_file "peer1" fb_name ".") (peer_key_file "peer1" fb_name ".") fb_3).1 = Ok (pa, rawa) ∧
    (ParseFiles fb_ca (peer_cert_file "peer2" fb_name ".") (peer_key_file "peer2" fb_name ".") fb_3).1 = Ok (pb, rawb) ∧
    handshake 500 (ClientConfig pa "peer2") (ServerConfig pb) = true ∧
    handshake 500 (ClientConfig pb "peer1") (ServerConfig pa) = true ∧ DNSNames pa = ["peer1"] ∧ DNSNames pb = ["peer2"].
Proof.
  apply (fabric_peers_connect fb_name "." "peer1" "peer2" fb_0 fb_1 fb_2 fb_3 500).
  - unfold fb_1. apply result_of. vm_compute. reflexivity.
  - apply (result_of (peer_Run "peer1" fb_name "." fb_1) (Done None)). vm_compute. reflexivity.
  - apply (result_of (peer_Run "peer2" fb_name "." fb_2) (Done None)). vm_compute. reflexivity.
  - apply (bool_decide_unpack _). vm_compute. exact I.
  - exact I.
  - exact I.
  - apply file_in_force_check. vm_compute. reflexivity.
  - apply file_in_force_check. vm_compute. reflexivity.
  - apply file_in_force_check. vm_compute. reflexivity.
Defined.
