(* ===== verification/Deploy.v ===== *)
(** * Deploying and deleting a peer

    [pkg/bootstrap/platform] and the commands of [cmd/clusterlink/cmd/deploy] and [delete].
    The text templates are given as the objects that are decoded from them. *)
From S2P Require Export Operator Bootstrap Jwks.
From stdpp Require Import options.
From Stdlib Require Import Ascii ZArith Lia.

#[local] Set Default Proof Using "Type".

(** ** platform/config.go *)
Section config.
Context {W : Type} {XL : X509Lib W}.
Record Config := mkConfig {
  cfg_Peer : string; cfg_Namespace : string;
  cfg_CACertificate : certificate; cfg_ControlplaneCertificate : certificate; cfg_DataplaneCertificate : certificate;
  cfg_FabricCertificate : certificate; cfg_PeerCertificate : certificate;
  cfg_Controlplanes : Z; cfg_Dataplanes : Z; cfg_DataplaneType : string;
  cfg_PeerLabels : gmap string string; cfg_LogLevel : string; cfg_ContainerRegistry : string; cfg_Tag : string;
  cfg_IngressType : string; cfg_IngressPort : Z; cfg_IngressAnnotations : gmap string string
}.
End config.
Definition DataplaneTypeEnvoy : string := "envoy".

(** ** platform/k8s.go *)
Section k8s.
Context {W : Type} {XL : X509Lib W} {EN : Encodings}.

(** [data] of a secret is base64 text; the API server decodes it. *)
Fixpoint decode_data (data : list (string * string)) : result (gmap string string) :=
  match data with
  | [] => Ok ∅
  | (k, text) :: data' =>
      match base64_decode text, decode_data data' with
      | Ok v, Ok m => Ok (<[k := v]> m)
      | Err err, _ => Err err
      | _, Err err => Err err
      end
  end.
(** A secret as a template renders it: the values are not decoded yet. *)
Record secret_text := mkSecretText { st_name : string; st_namespace : string; st_data : list (string * string) }.
Definition decode_secret (s : secret_text) : result Secret :=
  mkSecret (mkMeta (st_name s) (st_namespace s) ∅) <$> decode_data (st_data s).

(** The arguments of a template, by their names; one that is missing is written as
    [<no value>]. *)
Definition template_arg (args : list (string * string)) (k : string) : string :=
  match find (λ kv, String.eqb k kv.1) args with Some (_, v) => v | None => "<no value>" end.

(** [certsTemplate] *)
Definition certs_template (args : list (string * string)) : list secret_text :=
  let arg := template_arg args in
  [mkSecretText "cl-ca" (arg "namespace") [("ca", arg "ca")];
   mkSecretText (arg "controlplaneName") (arg "namespace") [("cert", arg "controlplaneCert"); ("key", arg "controlplaneKey")];
   mkSecretText (arg "dataplaneName") (arg "namespace") [("cert", arg "dataplaneCert"); ("key", arg "dataplaneKey")];
   mkSecretText "cl-peer" (arg "namespace")
     [(arg "peerCertificateFile", arg "peerCert"); (arg "peerKeyFile", arg "peerKey"); (arg "fabricCertFile", arg "fabricCert")]].

Fixpoint decode_secrets (l : list secret_text) : result (list Secret) :=
  match l with
  | [] => Ok []
  | s :: l' => match decode_secret s, decode_secrets l' with
               | Ok x, Ok xs => Ok (x :: xs)
               | Err err, _ => Err err
               | _, Err err => Err err
               end
  end.
Definition cert_args (cfg : Config) : list (string * string) :=
  let pem c := base64_encode (RawCert c) in
  let key c := base64_encode (RawKey c) in
  [("ca", pem (cfg_CACertificate cfg));
   ("controlplaneCert", pem (cfg_ControlplaneCertificate cfg)); ("controlplaneKey", key (cfg_ControlplaneCertificate cfg));
   ("dataplaneCert", pem (cfg_DataplaneCertificate cfg)); ("dataplaneKey", key (cfg_DataplaneCertificate cfg));
   ("controlplaneName", controlplane_Name); ("dataplaneName", dataplane_Name);
   ("peerCertificateFile", PeerCertificateFile); ("peerKeyFile", PeerKeyFile); ("fabricCertFile", FabricCertificateFile);
   ("peerCert", pem (cfg_PeerCertificate cfg)); ("peerKey", key (cfg_PeerCertificate cfg));
   ("fabricCert", pem (cfg_FabricCertificate cfg)); ("namespace", cfg_Namespace cfg)].
Definition K8SCertificateConfig (cfg : Config) : result (list Secret) :=
  decode_secrets (certs_template (cert_args cfg)).

(** The secrets that [delete peer] deletes, as they are rendered: the namespace is given
    under another name than the template asks for, and the files of the peer are not. *)
Definition K8SEmptyCertificateConfig (namespace : string) : list secret_text :=
  certs_template
    [("Namespace", namespace); ("controlplaneName", controlplane_Name); ("dataplaneName", dataplane_Name);
     ("ca", ""); ("controlplaneCert", ""); ("controlplaneKey", ""); ("dataplaneCert", ""); ("dataplaneKey", "");
     ("peerCert", ""); ("peerKey", ""); ("fabricCert", "")].

Definition registry_prefix (cfg : Config) : string :=
  if decide (cfg_ContainerRegistry cfg ≠ "") then cfg_ContainerRegistry cfg +:+ "/" else "".

Definition nodeport_error (port : Z) : error :=
  ENew ("nodeport number " +:+ Itoa port +:+ " is not in the valid range (30000:32767)").

(** [&&] binds tighter than [||]: a port above the range is refused for every type. *)
Definition K8SClusterLinkInstanceConfig (cfg : Config) (name : string) : result Instance_ :=
  if negb (cfg_IngressPort cfg =? 0)%Z &&
     (bool_decide (cfg_IngressType cfg = IngressTypeNodePort) && (cfg_IngressPort cfg <? 30000)%Z ||
      (32767 <? cfg_IngressPort cfg)%Z)
  then Err (nodeport_error (cfg_IngressPort cfg))
  else Ok (mkInstance
    (mkMeta name OperatorNamespace
       {[ "app.kubernetes.io/name" := "instance"; "app.kubernetes.io/instance" := name;
          "app.kubernetes.io/part-of" := "clusterlink"; "app.kubernetes.io/created-by" := "clusterlink" ]})
    0 false []
    (mkInstanceSpec (cfg_DataplaneType cfg) (cfg_Dataplanes cfg)
       (mkIngressSpec (cfg_IngressType cfg) (cfg_IngressPort cfg) (cfg_IngressAnnotations cfg))
       (cfg_LogLevel cfg) (registry_prefix cfg) (cfg_Tag cfg) (cfg_Namespace cfg) (cfg_PeerLabels cfg))
    (mkInstanceStatus ∅ ∅ (mkIngressStatus "" 0 ∅))).

Definition k8SIngressConfig (cfg : Config) : result Svc :=
  let nodeport := bool_decide (cfg_IngressType cfg = IngressTypeNodePort) in
  let svc port nodePort :=
    mkSvc (meta IngressSvcName (cfg_Namespace cfg)) ∅
      (if nodeport || bool_decide (cfg_IngressType cfg = IngressTypeLoadBalancer) then cfg_IngressType cfg else "ClusterIP")
      {[ "app" := dataplane_Name ]} [mkSvcPort "dataplane" "" port dataplane_ListenPort nodePort] [] in
  let port := cfg_IngressPort cfg in
  if decide (port = 0%Z) then Ok (svc DefaultExternalPort 0%Z)
  else if nodeport then
    if ((port <? 30000) || (32767 <? port))%Z then Err (nodeport_error port) else Ok (svc DefaultExternalPort port)
  else Ok (svc port 0%Z).

(** [k8sTemplate]: the deployments without the operator. *)
Definition or_one (z : Z) : Z := if decide (z = 0%Z) then 1%Z else z.
Definition k8s_deployment (name : string) (cfg : Config) (replicas : Z) (volumes : list (string * string)) (c : Container) : Deployment :=
  mkDeployment (mkMeta name (cfg_Namespace cfg) {[ "app" := name ]}) replicas {[ "app" := name ]} {[ "app" := name ]}
    "" volumes [c] [].
Definition k8s_controlplane (order : ranger string string) (cfg : Config) : Deployment :=
  k8s_deployment controlplane_Name cfg (or_one (cfg_Controlplanes cfg))
    [("ca", "cl-ca"); ("tls", controlplane_Name); ("peer-tls", "cl-peer")]
    (mkContainer controlplane_Name (registry_prefix cfg +:+ controlplane_Name +:+ ":" +:+ cfg_Tag cfg)
       (["--log-level"; cfg_LogLevel cfg] ++
        concat (map (λ kv, ["--peer-label"; kv.1 +:+ "=" +:+ kv.2]) (order (cfg_PeerLabels cfg))))
       controlplane_ListenPort ReadinessListenPort
       [mkMount "ca" CAFile "ca" true; mkMount "tls" cp_CertificateFile "cert" true;
        mkMount "tls" cp_KeyFile "key" true; mkMount "peer-tls" PeerTLSDirectory "" true]
       [(NamespaceEnvVariable, "metadata.namespace")]).
Definition k8s_dataplane (cfg : Config) : Deployment :=
  let type := if decide (cfg_DataplaneType cfg = "") then DataplaneTypeEnvoy else cfg_DataplaneType cfg in
  k8s_deployment dataplane_Name cfg (or_one (cfg_Dataplanes cfg)) [("ca", "cl-ca"); ("tls", dataplane_Name)]
    (mkContainer "dataplane"
       (registry_prefix cfg +:+ (if decide (type = DataplaneTypeEnvoy) then dataplane_Name else GoDataplaneName) +:+ ":" +:+ cfg_Tag cfg)
       ["--log-level"; cfg_LogLevel cfg; "--controlplane-host"; controlplane_Name]
       dataplane_ListenPort ReadinessListenPort
       [mkMount "ca" CAFile "ca" true; mkMount "tls" dp_CertificateFile "cert" true;
        mkMount "tls" dp_KeyFile "key" true] []).
Definition k8s_service (cfg : Config) : Svc :=
  mkSvc (meta controlplane_Name (cfg_Namespace cfg)) ∅ "ClusterIP" {[ "app" := controlplane_Name ]}
    [mkSvcPort "controlplane" "" controlplane_ListenPort 0 0] [].
Definition k8s_role : ClusterRole :=
  mkClusterRole (meta controlplane_Name "")
    [mkRule [""] ["events"] ["create"; "update"];
     mkRule [""] ["services"] ["get"; "list"; "watch"; "create"; "delete"; "update"];
     mkRule ["coordination.k8s.io"] ["leases"] ["get"; "create"; "update"];
     mkRule [""] ["secrets"] ["get"; "list"; "watch"; "create"; "update"];
     mkRule ["discovery.k8s.io"] ["endpointslices"] ["get"; "list"; "watch"; "create"; "delete"; "update"];
     mkRule [""] ["pods"] ["get"; "list"; "watch"];
     mkRule ["clusterlink.net"] ["exports"; "peers"; "accesspolicies"; "privilegedaccesspolicies"] ["get"; "list"; "watch"];
     mkRule ["clusterlink.net"] ["imports"] ["get"; "list"; "watch"; "update"];
     mkRule ["clusterlink.net"] ["imports/status"; "exports/status"; "peers/status"] ["update"]].
Definition k8s_role_binding (cfg : Config) : ClusterRoleBinding :=
  mkBinding (meta controlplane_Name "") controlplane_Name [mkSubject "ServiceAccount" "default" (cfg_Namespace cfg)].

(** The objects of the file, in its order. *)
Inductive manifest :=
  MNamespace (name : string) | MSecret (s : Secret) | MDeployment (d : Deployment) | MService (s : Svc)
  | MClusterRole (r : ClusterRole) | MClusterRoleBinding (b : ClusterRoleBinding).
Definition k8s_template (order : ranger string string) (cfg : Config) : list manifest :=
  [MDeployment (k8s_controlplane order cfg); MDeployment (k8s_dataplane cfg); MService (k8s_service cfg);
   MClusterRole k8s_role; MClusterRoleBinding (k8s_role_binding cfg)].
Definition K8SConfig (order : ranger string string) (cfg : Config) : result (list manifest) :=
  match K8SCertificateConfig cfg with
  | Err err => Err err
  | Ok certConfig =>
  match k8SIngressConfig cfg with
  | Err err => Err err
  | Ok ingressConfig =>
      Ok ([MNamespace (cfg_Namespace cfg)] ++ map MSecret certConfig ++ k8s_template order cfg ++ [MService ingressConfig])
  end end.
End k8s.

(** ** deploy_peer.go *)
Record PeerOptions := mkPeerOptions {
  po_Name : string; po_Fabric : string; po_Namespace : string; po_Path : string; po_StartInstance : string;
  po_Ingress : string; po_IngressPort : Z; po_IngressAnnotations : gmap string string;
  po_ContainerRegistry : string; po_Tag : string; po_ControlplaneReplicas : Z; po_DataplaneReplicas : Z;
  po_DataplaneType : string; po_Labels : gmap string string; po_LogLevel : string
}.
Definition StartAll : string := "all".
Definition StartOperator : string := "operator".
Definition NoStart : string := "none".
Definition K8SYAMLFile : string := "k8s.yaml".
Definition K8SClusterLinkInstanceYAMLFile : string := "cl-instance.yaml".
Definition DefaultRegistry : string := "ghcr.io/clusterlink-net".

(** The embedded files, and what the e2e-framework does with them: [apply_text] decodes
    and creates each object, [apply_dir] does so for the files of a directory,
    [delete_dir] deletes them.  [yaml_config] and [yaml_instance] are the texts of the
    templates, which range over a map in the order [yaml_order]. *)
Class Installer (W : Type) := {
  GetConfig : ST W (option error);
  resources_New : ST W (option error);
  manager_file : result string;
  apply_text : string → ST W (option error);
  apply_dir : string → ST W (option error);
  delete_dir : string → ST W (option error);
  AddToScheme : ST W (option error);
  IsNoMatchError : error → bool;
  Sleep : Z → ST W unit                        (* milliseconds *)
}.
Class Yaml := {
  yaml_order : ranger string string;
  yaml_config : list manifest → string;
  yaml_instance : Instance_ → string
}.

(** [strings.ReplaceAll] of a text that is not empty. *)
Fixpoint replace_from (fuel : nat) (s old new : string) : string :=
  match fuel with
  | O => s
  | S fuel' =>
      match strip_prefix old s with
      | Some rest => new +:+ replace_from fuel' rest old new
      | None => match s with
                | EmptyString => ""
                | String c s' => String c (replace_from fuel' s' old new)
                end
      end
  end.
Definition ReplaceAll (s old new : string) : string := replace_from (S (String.length s)) s old new.

Section deploy.
Context {W : Type} {CK : Clock W} {XL : X509Lib W} {XS : X509Sign W} {FS : Files W} {FY : FileSystem W} {EN : Encodings}.
Context {IN : Installer W} {YA : Yaml} {KS : KubeClient W Secret} {KI : KubeClient W Instance_}.

Definition verifyDataplaneType (dType : string) : option error :=
  if decide (dType = DataplaneTypeEnvoy ∨ dType = DataplaneTypeGo) then None
  else Some (ENew ("undefined dataplane-type " +:+ dType)).
Definition verifyStartInstance (sType : string) : option error :=
  if decide (sType = StartAll ∨ sType = StartOperator ∨ sType = NoStart) then None
  else Some (ENew ("undefined start type " +:+ sType)).
Definition deployDir (dir : string) : ST W (option error) :=
  err ← apply_dir dir;
  mret match err with Some err => if IsAlreadyExists err then None else Some err | None => None end.

(** The secrets are created one by one; one that exists is left as it is. *)
Fixpoint create_secrets (secrets : list Secret) : ST W (option error) :=
  match secrets with
  | [] => mret None
  | s :: secrets' =>
      r ← kCreate s;
      match r with
      | Ok _ => create_secrets secrets'
      | Err err => if IsAlreadyExists err then create_secrets secrets' else mret (Some err)
      end
  end.

Definition platform_config (o : PeerOptions) (fabric peer ca controlplane dataplane : certificate) : Config :=
  mkConfig (po_Name o) (po_Namespace o) ca controlplane dataplane fabric peer
    (po_ControlplaneReplicas o) (po_DataplaneReplicas o) (po_DataplaneType o) (po_Labels o) (po_LogLevel o)
    (po_ContainerRegistry o) (po_Tag o) (po_Ingress o)
    (if decide (po_IngressPort o ≠ DefaultExternalPort) then po_IngressPort o else 0%Z) (po_IngressAnnotations o).

(** The certificates of the site are made anew by every run. *)
Definition site_certificates : ST W (outcome (result (certificate * certificate * certificate))) :=
  caCert ← CreateCACertificate;
  match caCert with
  | Panic => mret Panic
  | Done (Err err) => mret (Done (Err (EWrap "failed to create CA certificate" err)))
  | Done (Ok caCert) =>
  controlplaneCert ← CreateControlplaneCertificate caCert;
  match controlplaneCert with
  | Panic => mret Panic
  | Done (Err err) => mret (Done (Err (EWrap "failed to create controlplane certificates" err)))
  | Done (Ok controlplaneCert) =>
  dataplaneCert ← CreateDataplaneCertificate caCert;
  mret match dataplaneCert with
  | Panic => Panic
  | Done (Err err) => Done (Err (EWrap "failed to create dataplane certificates" err))
  | Done (Ok dataplaneCert) => Done (Ok (caCert, controlplaneCert, dataplaneCert))
  end end end.

Definition deploy_operator (o : PeerOptions) : ST W (option error) :=
  check! GetConfig in
  check! resources_New in
  match manager_file with
  | Err err => mret (Some err)
  | Ok managerFile =>
      let ghImage := filepath_Join [DefaultRegistry; "cl-operator:latest"] in
      let newImage := filepath_Join [po_ContainerRegistry o; "cl-operator:" +:+ po_Tag o] in
      check! apply_text (ReplaceAll managerFile ghImage newImage) in
      check! deployDir "operator/rbac/*" in
      deployDir "crds/*"
  end.

Definition deploy_instance (o : PeerOptions) (peerDir : string) (cfg : Config) : ST W (option error) :=
  match K8SClusterLinkInstanceConfig cfg "cl-instance" with
  | Err err => mret (Some err)
  | Ok instance =>
      if decide (po_StartInstance o = StartAll) then
        r ← kCreate instance;
        mret match r with
             | Err err => if IsAlreadyExists err then None else Some err
             | Ok _ => None
             end
      else
        err ← WriteFile (filepath_Join [peerDir; K8SClusterLinkInstanceYAMLFile]) (yaml_instance instance);
        mret ((λ err, EWrap "failed to write YAML file" err) <$> err)
  end.

Definition deploy_with (o : PeerOptions) (peerDir : string) (cfg : Config) : ST W (option error) :=
  if decide (po_StartInstance o = NoStart) then
    match K8SConfig yaml_order cfg with
    | Err err => mret (Some err)
    | Ok k8sConfig =>
        err ← WriteFile (filepath_Join [peerDir; K8SYAMLFile]) (yaml_config k8sConfig);
        mret ((λ err, EWrap "failed to write YAML file" err) <$> err)
    end
  else
    check! deploy_operator o in
    match K8SCertificateConfig cfg with
    | Err err => mret (Some err)
    | Ok secrets =>
        check! create_secrets secrets in
        deploy_instance o peerDir cfg
    end.

Definition deploy_Run (o : PeerOptions) : ST W (outcome (option error)) :=
  let peerDir := PeerDirectory (po_Name o) (po_Fabric o) (po_Path o) in
  err ← Stat peerDir;
  match err with
  | Some err => mret (Done (Some (EWrap "failed to open certificates folder" err)))
  | None =>
  match verifyDataplaneType (po_DataplaneType o) with
  | Some err => mret (Done (Some err))
  | None =>
  match verifyStartInstance (po_StartInstance o) with
  | Some err => mret (Done (Some err))
  | None =>
  fabricCert ← ReadCertificates (FabricDirectory (po_Fabric o) (po_Path o)) false;
  match fabricCert with
  | Err err => mret (Done (Some (EWrap "failed to read fabric certificate" err)))
  | Ok fabricCert =>
  peerCert ← ReadCertificates peerDir true;
  match peerCert with
  | Err err => mret (Done (Some (EWrap "failed to read peer certificate" err)))
  | Ok peerCert =>
  site ← site_certificates;
  match site with
  | Panic => mret Panic
  | Done (Err err) => mret (Done (Some err))
  | Done (Ok (ca, controlplane, dataplane)) =>
      err ← deploy_with o peerDir (platform_config o fabricCert peerCert ca controlplane dataplane);
      mret (Done err)
  end end end end end end.
End deploy.

(** ** delete_peer.go *)
Section delete.
Context {W : Type} {CK : Clock W} {IN : Installer W} {KS : KubeClient W Secret} {KI : KubeClient W Instance_}.

(** A poll every half second, for a minute; [None] when the fuel is used up. *)
Fixpoint waitForInstanceDeletion (fuel : nat) (start : Z) (key : NamespacedName) : ST W (option (option error)) :=
  match fuel with
  | O => mret None
  | S fuel' =>
      now ← gets clock_now;
      if (now - start <? 60)%Z then
        r ← kGet (T:=Instance_) key;
        match r with
        | Err err => mret (Some (if IsNotFound err then None else Some err))
        | Ok _ => Sleep 500;; waitForInstanceDeletion fuel' start key
        end
      else mret (Some (Some (ENew "timeout exceeded while waiting for instance deletion")))
  end.

(** An instance that cannot be deleted is reported on the terminal and skipped. *)
Fixpoint delete_instances (fuel : nat) (is_ : list Instance_) : ST W (option (option error)) :=
  match is_ with
  | [] => mret (Some None)
  | i :: is' =>
      err ← kDelete (T:=Instance_) (kKey i);
      match err with
      | Some _ => delete_instances fuel is'
      | None =>
          start ← gets clock_now;
          r ← waitForInstanceDeletion fuel start (kKey i);
          match r with
          | Some None => delete_instances fuel is'
          | r => mret r
          end
      end
  end.

Definition deleteDir (dir : string) : ST W (option error) :=
  err ← delete_dir dir;
  mret ((λ err, EWrap ("failed to delete directory '" +:+ dir +:+ "'") err) <$> err).

Fixpoint delete_secrets (keys : list NamespacedName) : ST W (option error) :=
  match keys with
  | [] => mret None
  | k :: keys' =>
      err ← kDelete (T:=Secret) k;
      match err with
      | Some err => if IsNotFound err then delete_secrets keys' else mret (Some err)
      | None => delete_secrets keys'
      end
  end.

(** The rest of the command, once the instances are gone. *)
Definition delete_rest (namespace : string) : ST W (option error) :=
  check! deleteDir "operator/manager/*" in
  check! deleteDir "operator/rbac/*" in
  check! deleteDir "crds/*" in
  (* the decoder puts the secrets into the namespace, whatever was rendered *)
  err ← delete_secrets (map (λ s, mkNN namespace (st_name s)) (K8SEmptyCertificateConfig namespace));
  mret ((λ err, EPrefix "fail to delete certificate secrets" err) <$> err).

Definition delete_Run (fuel : nat) (namespace : string) : ST W (option (option error)) :=
  err ← GetConfig;
  match err with
  | Some err => mret (Some (Some err))
  | None =>
  err ← resources_New;
  match err with
  | Some err => mret (Some (Some err))
  | None =>
  err ← AddToScheme;
  match err with
  | Some err => mret (Some (Some err))
  | None =>
  instList ← kList (T:=Instance_) (mkListOptions None ∅);
  let is_ := match instList with
             | Ok is_ => Ok is_
             | Err err => if IsNotFound err || IsNoMatchError err then Ok [] else Err err
             end in
  match is_ with
  | Err err => mret (Some (Some (EWrap "unable to get instances list" err)))
  | Ok is_ =>
      r ← delete_instances fuel is_;
      match r with
      | Some None => err ← delete_rest namespace; mret (Some err)
      | r => mret r
      end
  end end end end.
End delete.
