(* ===== verification/DeployFacts.v ===== *)
(** * What a deployment gives its components

    The two ways to deploy agree; after a deployment the secrets hold one authority of
    the site and the certificate of the peer, the pods find them in their files, and
    the components can connect. *)
From S2P Require Export Deploy BootstrapFacts ApiServer.
From stdpp Require Import options.
From Stdlib Require Import Ascii ZArith Lia.

#[local] Set Default Proof Using "Type*".

(** ** The operator and the templates *)

Lemma registry_slash_idem s : registry_with_slash (s +:+ "/") = s +:+ "/".
Proof.
  unfold registry_with_slash. rewrite decide_False; [done|]. intros [_ H]. apply H.
  rewrite str_length_app. simpl. replace (String.length s + 1 - 1) with (String.length s) by lia. apply str_drop_app.
Qed.

(** What two deployments run: everything but the number of replicas, the service account
    and the labels of the deployment itself. *)
Definition same_pods (d d' : Deployment) : Prop :=
  om_key (dep_Meta d) = om_key (dep_Meta d') ∧ dep_Selector d = dep_Selector d' ∧ dep_PodLabels d = dep_PodLabels d' ∧
  dep_Volumes d = dep_Volumes d' ∧ dep_Containers d = dep_Containers d'.

(** The rules of a role, one verb of one resource at a time. *)
Definition permissions (r : ClusterRole) : list (string * string * string) :=
  concat (map (λ rule, concat (map (λ g, concat (map (λ res, map (pair (g, res)) (pr_Verbs rule)) (pr_Resources rule)))
                                   (pr_APIGroups rule))) (cr_Rules r)).
Lemma roles_agree x : x ∈ permissions k8s_role ↔ x ∈ permissions cluster_role.
Proof.
  assert (Forall (λ x, x ∈ permissions cluster_role) (permissions k8s_role)) as H1
    by (apply (bool_decide_unpack _); vm_compute; exact I).
  assert (Forall (λ x, x ∈ permissions k8s_role) (permissions cluster_role)) as H2
    by (apply (bool_decide_unpack _); vm_compute; exact I).
  rewrite Forall_forall in H1, H2. split; auto.
Qed.

(** The account the pods of a deployment run under: the one it names, or the default one of
    its namespace.  What a role and its binding allow them. *)
Definition pod_subject (d : Deployment) : Subject :=
  mkSubject "ServiceAccount" (if decide (dep_ServiceAccountName d = "") then "default" else dep_ServiceAccountName d)
    (om_Namespace (dep_Meta d)).
Definition allowed (r : ClusterRole) (b : ClusterRoleBinding) (d : Deployment) (x : string * string * string) : Prop :=
  crb_Role b = om_Name (cr_Meta r) ∧ pod_subject d ∈ crb_Subjects b ∧ x ∈ permissions r.

Section agree.
Context {W : Type} {XL : X509Lib W} {EN : Encodings} {EL : EncodingsLaws}.

(** What two services give: everything but the names and protocols of their ports and the
    annotations. *)
Definition same_service (s s' : Svc) : Prop :=
  om_key (svcs_Meta s) = om_key (svcs_Meta s') ∧ svcs_Type s = svcs_Type s' ∧ svcs_Selector s = svcs_Selector s' ∧
  map (λ p, (svp_Port p, svp_TargetPort p, svp_NodePort p)) (svcs_Ports s) =
  map (λ p, (svp_Port p, svp_TargetPort p, svp_NodePort p)) (svcs_Ports s').

Lemma registry_prefix_slash (cfg : Config) : registry_with_slash (registry_prefix cfg) = registry_prefix cfg.
Proof.
  unfold registry_prefix. destruct (decide (cfg_ContainerRegistry cfg ≠ "")); [apply registry_slash_idem|done].
Qed.
Lemma pods_agree order (cfg : Config) name i :
  verifyDataplaneType (cfg_DataplaneType cfg) = None → K8SClusterLinkInstanceConfig cfg name = Ok i →
  let i' := set_registry (registry_with_slash (isp_ContainerRegistry (in_Spec i))) i in
  same_pods (k8s_controlplane order cfg) (controlplane_deployment order i') ∧
  same_pods (k8s_dataplane cfg) (dataplane_deployment i').
Proof.
  intros Hty. unfold K8SClusterLinkInstanceConfig.
  match goal with |- (if ?b then _ else _) = _ → _ => destruct b; [done|] end. intros [= <-]. cbv zeta.
  cbn [in_Spec isp_ContainerRegistry]. rewrite registry_prefix_slash.
  split; split_and!; try done. unfold verifyDataplaneType in Hty. case_decide as Ht; [|done].
  unfold k8s_dataplane, dataplane_deployment, k8s_deployment, setDeployment, image. simpl.
  destruct Ht as [-> | ->]; done.
Qed.
Lemma ingress_agrees (cfg : Config) name i svc r :
  cfg_IngressType cfg = IngressTypeNodePort ∨ cfg_IngressType cfg = IngressTypeLoadBalancer →
  K8SClusterLinkInstanceConfig cfg name = Ok i → k8SIngressConfig cfg = Ok svc →
  same_service svc (external_service (set_registry r i)) ∧ svcs_Annotations svc = ∅.
Proof.
  intros Hty. unfold K8SClusterLinkInstanceConfig, k8SIngressConfig, external_service.
  match goal with |- (if ?b then _ else _) = _ → _ => destruct b; [done|] end. intros [= <-].
  unfold in_Namespace, in_Meta. cbn -[IngressTypeNodePort IngressTypeLoadBalancer].
  destruct Hty as [-> | ->].
  - rewrite bool_decide_true by done. destruct (decide (cfg_IngressPort cfg = 0%Z)).
    + by intros [= <-].
    + destruct (_ || _); [done|]. by intros [= <-].
  - rewrite bool_decide_false by done. destruct (decide (cfg_IngressPort cfg = 0%Z)); by intros [= <-].
Qed.

Lemma instance_of (cfg : Config) name i : K8SClusterLinkInstanceConfig cfg name = Ok i →
  in_Namespace i = cfg_Namespace cfg ∧ isp_Replicas (in_Spec i) = cfg_Dataplanes cfg.
Proof.
  unfold K8SClusterLinkInstanceConfig.
  match goal with |- (if ?b then _ else _) = _ → _ => destruct b; [done|] end. by intros [= <-].
Qed.

(** In both deployments the pods of the control plane have the same permissions; those of
    the data plane have them too without the operator, and none with it. *)
Lemma controlplanes_allowed order (cfg : Config) i x :
  (allowed k8s_role (k8s_role_binding cfg) (k8s_controlplane order cfg) x ↔ x ∈ permissions cluster_role) ∧
  (allowed cluster_role (cluster_role_binding (in_Namespace i)) (controlplane_deployment order i) x ↔ x ∈ permissions cluster_role).
Proof.
  unfold allowed. rewrite roles_agree. split; (split; [by intros (_ & _ & ?)|]; intros Hx; split_and!; [done| |done]);
    apply list_elem_of_singleton; done.
Qed.
Lemma dataplanes_allowed (cfg : Config) i x :
  (allowed k8s_role (k8s_role_binding cfg) (k8s_dataplane cfg) x ↔ x ∈ permissions cluster_role) ∧
  ¬ allowed cluster_role (cluster_role_binding (in_Namespace i)) (dataplane_deployment i) x.
Proof.
  unfold allowed. rewrite roles_agree. split.
  - split; [by intros (_ & _ & ?)|]. intros Hx. split_and!; [done| |done]. by apply list_elem_of_singleton.
  - intros (_ & Hs & _). by apply list_elem_of_singleton in Hs.
Qed.


(** A load balancer may listen on any port; one above the range of node ports is refused
    when the instance is made, and accepted when the ingress service is. *)
Theorem loadbalancer_port_refused (cfg : Config) name :
  cfg_IngressType cfg = IngressTypeLoadBalancer → (32767 < cfg_IngressPort cfg)%Z →
  K8SClusterLinkInstanceConfig cfg name = Err (nodeport_error (cfg_IngressPort cfg)) ∧
  ∃ svc, k8SIngressConfig cfg = Ok svc.
Proof.
  intros Ht Hp. unfold K8SClusterLinkInstanceConfig, k8SIngressConfig. rewrite Ht. split.
  - assert ((cfg_IngressPort cfg =? 0)%Z = false) as -> by lia.
    assert ((32767 <? cfg_IngressPort cfg)%Z = true) as -> by lia. by rewrite orb_true_r.
  - rewrite decide_False by lia. by eexists.
Qed.
End agree.

(** ** The secrets of a site *)

(** What the calls of the command do to the secrets the API server holds. *)
Class SecretFrame (W : Type) `{!X509Lib W} `{!X509Sign W} `{!Files W} `{!FileSystem W} `{!Installer W}
    `{!KubeClient W Secret} `{!KubeClientLaws W Secret} `{!KubeClient W Instance_} := {
  sf_read p w : kView (T:=Secret) (ReadFile p w).2 = kView w;
  sf_write p s w : kView (T:=Secret) (WriteFile p s w).2 = kView w;
  sf_stat p w : kView (T:=Secret) (Stat p w).2 = kView w;
  sf_generate w : kView (T:=Secret) (GenerateKey w).2 = kView w;
  sf_serial w : kView (T:=Secret) (random_serial w).2 = kView w;
  sf_create tmpl parent pub priv w : kView (T:=Secret) (CreateCertificate tmpl parent pub priv w).2 = kView w;
  sf_config w : kView (T:=Secret) (GetConfig w).2 = kView w;
  sf_resources w : kView (T:=Secret) (resources_New w).2 = kView w;
  sf_apply s w : kView (T:=Secret) (apply_text s w).2 = kView w;
  sf_apply_dir d w : kView (T:=Secret) (apply_dir d w).2 = kView w;
  sf_exists (s : Secret) w e : (kCreate s w).1 = Err e → IsAlreadyExists e = true → is_Some (kView w !! kKey s);
  sf_instance i w : kView (T:=Secret) (kCreate (T:=Instance_) i w).2 = kView w
}.

Section secrets.
Context {W : Type} {XL : X509Lib W}.

Definition inserted (l : list Secret) (m : gmap NamespacedName Secret) : gmap NamespacedName Secret :=
  foldl (λ m s, <[kKey s := s]> m) m l.
Lemma inserted_other l k : ∀ m, k ∉ map kKey l → inserted l m !! k = m !! k.
Proof using Type.
  unfold inserted. induction l as [|x l IH]; intros m Hk; [done|]. simpl in *. apply not_elem_of_cons in Hk as [??].
  by rewrite IH, lookup_insert_ne.
Qed.
Lemma inserted_lookup l s : ∀ m, NoDup (map kKey l) → s ∈ l → inserted l m !! kKey s = Some s.
Proof using Type.
  induction l as [|x l IH]; intros m Hnd Hs; [by apply not_elem_of_nil in Hs|]. apply NoDup_cons in Hnd as [Hx Hnd].
  apply elem_of_cons in Hs as [->|Hs]; [|by apply (IH (<[kKey x := x]> m))].
  change (inserted (x :: l) m) with (inserted l (<[kKey x := x]> m)). by rewrite inserted_other, lookup_insert_eq.
Qed.

(** The secrets of a configuration. *)
Definition site_secrets_of (cfg : Config) : list Secret :=
  let secret name data := mkSecret (mkMeta name (cfg_Namespace cfg) ∅) (list_to_map data) in
  [secret "cl-ca" [("ca", RawCert (cfg_CACertificate cfg))];
   secret controlplane_Name [("cert", RawCert (cfg_ControlplaneCertificate cfg)); ("key", RawKey (cfg_ControlplaneCertificate cfg))];
   secret dataplane_Name [("cert", RawCert (cfg_DataplaneCertificate cfg)); ("key", RawKey (cfg_DataplaneCertificate cfg))];
   secret "cl-peer" [(PeerCertificateFile, RawCert (cfg_PeerCertificate cfg)); (PeerKeyFile, RawKey (cfg_PeerCertificate cfg));
                     (FabricCertificateFile, RawCert (cfg_FabricCertificate cfg))]].
Definition site_secret_names : list string := ["cl-ca"; controlplane_Name; dataplane_Name; "cl-peer"].
Lemma site_secret_keys cfg : map kKey (site_secrets_of cfg) = map (mkNN (cfg_Namespace cfg)) site_secret_names.
Proof. done. Qed.
Lemma site_secret_keys_nodup cfg : NoDup (map kKey (site_secrets_of cfg)).
Proof.
  rewrite site_secret_keys. apply NoDup_fmap_2; [by intros ?? [= ->]|]. apply (bool_decide_unpack _). by vm_compute.
Qed.

(** A certificate that is read without its key. *)
Definition reread_cert (c : certificate) : certificate := mkCertificate None (c_cert c) None (RawCert c) "".
(** The configuration that is deployed. *)
Definition deployed (o : PeerOptions) (f pc ca cp dp : certificate) : Config :=
  platform_config o (reread_cert f) (reread pc) ca cp dp.

End secrets.

Section deploy.
Context {W : Type} {CK : Clock W} {XL : X509Lib W} {XS : X509Sign W} {FS : Files W} {FY : FileSystem W} {EN : Encodings}.
Context {EL : EncodingsLaws} {ID : Idna} {TL : TLSLib} {TV : TLSVerify} {XW : X509Laws W} {TW : TLSLaws W} {FW : FileLaws W}.
Context {IN : Installer W} {YA : Yaml} {KS : KubeClient W Secret} {KI : KubeClient W Instance_}.
Context {KL : KubeClientLaws W Secret} {SF : SecretFrame W}.

Definition same_secrets (w w' : W) : Prop := kView (T:=Secret) w' = kView w.
#[export] Instance same_secrets_preorder : PreOrder same_secrets.
Proof. split; [done|]. intros x y z. unfold same_secrets. congruence. Qed.

Lemma read_secrets p : keeps same_secrets (ReadFile p). Proof. exact (sf_read p). Qed.
Lemma write_secrets p s : keeps same_secrets (WriteFile p s). Proof. exact (sf_write p s). Qed.
Lemma stat_secrets p : keeps same_secrets (Stat p). Proof. exact (sf_stat p). Qed.
Lemma generate_secrets : keeps same_secrets GenerateKey. Proof. exact sf_generate. Qed.
Lemma serial_secrets : keeps same_secrets random_serial. Proof. exact sf_serial. Qed.
Lemma create_secrets_cert a b c d : keeps same_secrets (CreateCertificate a b c d). Proof. exact (sf_create a b c d). Qed.
Lemma config_secrets : keeps same_secrets GetConfig. Proof. exact sf_config. Qed.
Lemma resources_secrets : keeps same_secrets resources_New. Proof. exact sf_resources. Qed.
Lemma apply_secrets s : keeps same_secrets (apply_text s). Proof. exact (sf_apply s). Qed.
Lemma apply_dir_secrets d : keeps same_secrets (apply_dir d). Proof. exact (sf_apply_dir d). Qed.
Lemma instance_secrets i : keeps same_secrets (kCreate (T:=Instance_) i). Proof. exact (sf_instance i). Qed.
Lemma getS_secrets : keeps same_secrets (getS (S:=W)). Proof. apply (keeps_getS _). Qed.
#[local] Hint Resolve read_secrets write_secrets stat_secrets generate_secrets serial_secrets create_secrets_cert
  config_secrets resources_secrets apply_secrets apply_dir_secrets instance_secrets getS_secrets : clink.

Lemma ReadCertificates_secrets dir k : keeps same_secrets (ReadCertificates dir k).
Proof. unfold ReadCertificates. keeps_tac. Qed.
Lemma createCertificate_secrets c : keeps same_secrets (createCertificate c).
Proof. unfold createCertificate. keeps_tac. Qed.
#[local] Hint Resolve ReadCertificates_secrets createCertificate_secrets : clink.
Lemma site_secrets : keeps same_secrets site_certificates.
Proof. unfold site_certificates, CreateCACertificate, CreateControlplaneCertificate, CreateDataplaneCertificate. keeps_tac. Qed.
Lemma deployDir_secrets d : keeps same_secrets (deployDir d).
Proof. unfold deployDir. keeps_tac. Qed.
#[local] Hint Resolve site_secrets deployDir_secrets : clink.
Lemma operator_secrets o : keeps same_secrets (deploy_operator o).
Proof. unfold deploy_operator. keeps_tac. Qed.
Lemma deploy_instance_secrets o d cfg : keeps same_secrets (deploy_instance o d cfg).
Proof. unfold deploy_instance. keeps_tac. Qed.

Lemma create_secrets_ok l : ∀ w w', create_secrets l w = (None, w') →
  NoDup (map kKey l) → (∀ s, s ∈ l → kView w !! kKey s = None) → kView (T:=Secret) w' = inserted l (kView w).
Proof.
  induction l as [|s l IH]; intros w w' H Hnd Hnew; [by injection H as <-|].
  simpl in Hnd. apply NoDup_cons in Hnd as [Hs Hnd]. revert H. simpl. unfold_st.
  pose proof (kCreate_view s w) as Hv. pose proof (kCreate_ok s w) as Hok. pose proof (sf_exists s w) as Hex.
  assert (kView w !! kKey s = None) as Hns by (apply Hnew; left).
  destruct (kCreate s w) as [[y|e] w1]; cbn [fst snd] in *.
  - specialize (Hok y eq_refl). destruct Hv as [Hv|[_ Hv]]; [rewrite Hv in Hok; congruence|].
    intros H. apply IH in H; [by rewrite H, Hv|done|].
    intros x Hx. rewrite Hv, lookup_insert_ne; [by apply Hnew; right|].
    intros Heq. apply Hs. pose proof (list_elem_of_fmap_2 kKey l x Hx) as Hk. by rewrite <-Heq in Hk.
  - destruct (IsAlreadyExists e) eqn:He; [|done]. destruct (Hex e eq_refl He) as [x Hx]. congruence.
Qed.

Lemma K8SCertificateConfig_ok cfg : K8SCertificateConfig cfg = Ok (site_secrets_of cfg).
Proof.
  unfold K8SCertificateConfig, certs_template, cert_args, decode_secrets, decode_secret, decode_data.
  cbn [st_name st_namespace st_data template_arg find String.eqb Ascii.eqb Bool.eqb fst snd].
  by rewrite !base64_round_trip.
Qed.

(** The certificates of the site: one authority, which signed the other two. *)
Definition site (ca controlplane dataplane : certificate) : Prop :=
  made ca ∧ root_pem ca ∧ authority (c_cert ca) ∧ made controlplane ∧ made dataplane ∧
  signed (c_cert controlplane) (c_cert ca) ∧ signed (c_cert dataplane) (c_cert ca) ∧
  x_DNSNames (c_cert controlplane) = [controlplane_Name] ∧
  ExtKeyUsages (c_cert controlplane) = [ExtKeyUsageServerAuth] ∧ ExtKeyUsages (c_cert dataplane) = [ExtKeyUsageClientAuth].
Lemma site_certificates_ok w ca cp dp w' :
  site_certificates w = (Done (Ok (ca, cp, dp)), w') → site ca cp dp.
Proof.
  unfold site_certificates, CreateCACertificate, CreateControlplaneCertificate, CreateDataplaneCertificate. unfold_st.
  destruct (createCertificate _ w) as [[[c1|e]|] w1] eqn:H1; [|done..].
  destruct (createCertificate _ w1) as [[[c2|e]|] w2] eqn:H2; [|done..].
  destruct (createCertificate _ w2) as [[[c3|e]|] w3] eqn:H3; [|done..]. intros [= -> -> -> _].
  apply createCertificate_ok in H1 as (_ & M1 & P1 & (? & ? & ? & ? & T1) & (der & D1 & D2) & _).
  apply createCertificate_ok in H2 as (_ & M2 & _ & (? & ? & ? & ? & T2) & _ & S2).
  apply createCertificate_ok in H3 as (_ & M3 & _ & (? & ? & ? & ? & T3) & _ & S3).
  split_and!; [done| |by rewrite T1|done|done|by apply S2|by apply S3|by rewrite T2|by rewrite T2|by rewrite T3].
  exists der. split; [done|]. unfold RawCert. by rewrite P1.
Qed.
Lemma ReadCertificates_cert dir w c : made c →
  files w !! filepath_Join [dir; CertificateFileName] = Some (RawCert c) →
  ∃ w', ReadCertificates dir false w = (Ok (reread_cert c), w') ∧ files w' = files w.
Proof.
  intros Hm H1. unfold ReadCertificates. unfold_st.
  destruct (ReadFile _ w) as [r w1] eqn:Hr1. destruct (read_file _ _ _ _ _ Hr1 H1) as [-> Hf1].
  exists w1. by rewrite raw_cert.
Qed.

(** *** The command *)
Lemma deploy_with_ok o peerDir cfg w w' :
  deploy_with o peerDir cfg w = (None, w') → po_StartInstance o ≠ NoStart →
  (∀ n, n ∈ site_secret_names → kView (T:=Secret) w !! mkNN (cfg_Namespace cfg) n = None) →
  kView (T:=Secret) w' = inserted (site_secrets_of cfg) (kView w).
Proof.
  intros H Hs Hnew. revert H. unfold deploy_with. rewrite decide_False by done. unfold_st.
  pose proof (operator_secrets o w) as Ho. destruct (deploy_operator o w) as [[e|] w1]; cbn [fst snd] in *; [done|].
  unfold same_secrets in Ho. rewrite K8SCertificateConfig_ok.
  destruct (create_secrets _ w1) as [[e|] w2] eqn:Hc; [done|]. intros H.
  pose proof (deploy_instance_secrets o peerDir cfg w2) as Hi. rewrite H in Hi. cbn [fst snd] in Hi. unfold same_secrets in Hi.
  rewrite Hi, <- Ho. apply create_secrets_ok in Hc; [done|apply site_secret_keys_nodup|].
  intros s Hsec. apply (list_elem_of_fmap_2 kKey) in Hsec. change (kKey <$> ?l) with (map kKey l) in Hsec.
  rewrite site_secret_keys in Hsec. apply list_elem_of_fmap in Hsec as (n & -> & Hn). rewrite Ho. by apply Hnew.
Qed.

Lemma deploy_Run_ok o w w' f pc : made f → made pc →
  let dir := PeerDirectory (po_Name o) (po_Fabric o) (po_Path o) in
  files w !! FabricCertificate (po_Fabric o) (po_Path o) = Some (RawCert f) →
  files w !! filepath_Join [dir; CertificateFileName] = Some (RawCert pc) →
  files w !! filepath_Join [dir; PrivateKeyFileName] = Some (RawKey pc) →
  po_StartInstance o ≠ NoStart →
  (∀ n, n ∈ site_secret_names → kView (T:=Secret) w !! mkNN (po_Namespace o) n = None) →
  deploy_Run o w = (Done None, w') →
  ∃ ca cp dp, site ca cp dp ∧ kView (T:=Secret) w' = inserted (site_secrets_of (deployed o f pc ca cp dp)) (kView w).
Proof.
  intros Mf Mp dir H1 H2 H3 Hs Hnew. unfold deploy_Run. unfold_st. fold dir.
  pose proof (stat_keeps dir w) as Hst. pose proof (stat_secrets dir w) as Hss. unfold same_secrets in Hss.
  destruct (Stat dir w) as [[e|] w1]; cbn [fst snd] in *; [done|]. rewrite <- Hst in H1, H2, H3.
  destruct (verifyDataplaneType _); [done|]. destruct (verifyStartInstance _); [done|].
  destruct (ReadCertificates_cert (FabricDirectory (po_Fabric o) (po_Path o)) w1 f Mf H1) as (w2 & E2 & F2).
  pose proof (ReadCertificates_secrets (FabricDirectory (po_Fabric o) (po_Path o)) false w1) as S2.
  rewrite E2 in *. cbn [fst snd] in S2. rewrite <- F2 in H2, H3.
  destruct (ReadCertificates_ok dir w2 pc Mp H2 H3) as (w3 & E3 & F3).
  pose proof (ReadCertificates_secrets dir true w2) as S3. rewrite E3 in *. cbn [fst snd] in S3.
  pose proof (site_secrets w3) as S4.
  destruct (site_certificates w3) as [[[[[ca cp] dp]|e]|] w4] eqn:E4; [|done..]. cbn [fst snd] in S4.
  unfold same_secrets in S2, S3, S4.
  destruct (deploy_with _ _ _ w4) as [e w5] eqn:E5. intros [= -> <-]. apply site_certificates_ok in E4.
  exists ca, cp, dp. split; [done|]. apply deploy_with_ok in E5; [|done|].
  - unfold deployed. by rewrite E5, S4, S3, S2, Hss.
  - intros n Hn. rewrite S4, S3, S2, Hss. by apply Hnew.
Qed.
End deploy.

(** ** The files of a pod *)

(** Does a mount hide or hold the file at a path? *)
Definition covers (path : string) (m : VolumeMount) : bool :=
  bool_decide (vm_MountPath m = path) || bool_decide (is_Some (strip_prefix (vm_MountPath m +:+ "/") path)).
(** The name of the secret and the key of the data that the container of a deployment finds
    in a file, when one mount alone covers it: a mount with a sub-path is that file, and one
    without is a directory with a file for each key. *)
Definition mounted (d : Deployment) (path : string) : option (string * string) :=
  match dep_Containers d with
  | [c] =>
      match List.filter (covers path) (ct_Mounts c) with
      | [m] =>
          match List.filter (λ v, bool_decide (v.1 = vm_Name m)) (dep_Volumes d) with
          | [(_, secret)] =>
              if decide (vm_SubPath m = "") then pair secret <$> strip_prefix (vm_MountPath m +:+ "/") path
              else if decide (vm_MountPath m = path) then Some (secret, vm_SubPath m) else None
          | _ => None
          end
      | _ => None
      end
  | _ => None
  end.

Definition file_data (d : Deployment) (secrets : gmap NamespacedName Secret) (path : string) : option string :=
  match mounted d path with
  | Some (name, key) =>
      match secrets !! mkNN (om_Namespace (dep_Meta d)) name with
      | Some s => sec_Data s !! key
      | None => None
      end
  | None => None
  end.

(** [runs d secrets p]: [p] is the file system of a container of a pod of the deployment
    that was started while the API server held the secrets. *)
Class Kubelet (P : Type) `{!Files P} := {
  runs : Deployment → gmap NamespacedName Secret → P → Prop;
  runs_read d secrets p path data : runs d secrets p → file_data d secrets path = Some data →
    ∃ p', ReadFile path p = (Ok data, p') ∧ runs d secrets p'
}.

Section pods.
Context {W : Type} {XL : X509Lib W} {XS : X509Sign W} {P : Type} {FP : Files P} {KB : Kubelet P}.
Context {CK : Clock W} {FS : Files W} {FY : FileSystem W} {FW : FileLaws W}.
Context {ID : Idna} {TL : TLSLib} {TV : TLSVerify} {XW : X509Laws W} {TW : TLSLaws W}.

Lemma runs_ParseFiles d secrets p ca cert key c f : runs d secrets p → made c → root_pem f →
  file_data d secrets ca = Some (RawCert f) → file_data d secrets cert = Some (RawCert c) →
  file_data d secrets key = Some (RawKey c) →
  ∃ pcd raw, (ParseFiles ca cert key p).1 = Ok (pcd, raw) ∧ credentials c f pcd.
Proof using CK FS FW FY ID KB TL TV TW XW.
  intros Hr Hc Hf H1 H2 H3. destruct (runs_read d secrets p ca _ Hr H1) as (p1 & R1 & Hr1).
  destruct (runs_read d secrets p1 cert _ Hr1 H2) as (p2 & R2 & Hr2).
  destruct (runs_read d secrets p2 key _ Hr2 H3) as (p3 & R3 & _).
  destruct (ParseFiles_reads ca cert key p p1 p2 p3 c f) as (pcd & raw & -> & Hcr); [done..|]. by eexists _, _.
Qed.

(** The files of the pods, after the secrets were created. *)
Variable (order : ranger string string) (o : PeerOptions) (f pc ca cp dp : certificate) (m : gmap NamespacedName Secret).
Variable (i : Instance_).
Hypothesis Hns : in_Namespace i = po_Namespace o.
Abbreviation secrets := (inserted (site_secrets_of (deployed o f pc ca cp dp)) m).

Lemma site_secret_lookup n s :
  s ∈ site_secrets_of (deployed o f pc ca cp dp) → om_Name (sec_Meta s) = n →
  secrets !! mkNN (in_Namespace i) n = Some s.
Proof using Hns.
  intros Hs <-. rewrite Hns, <- (inserted_lookup _ s m (site_secret_keys_nodup _) Hs). f_equal.
  unfold site_secrets_of in Hs. rewrite !elem_of_cons in Hs.
  by destruct Hs as [->|[->|[->|[->|Hs%not_elem_of_nil]]]].
Qed.

Lemma in_site_file n d path name key s data :
  om_Namespace (dep_Meta d) = in_Namespace i → mounted d path = Some (name, key) →
  site_secrets_of (deployed o f pc ca cp dp) !! n = Some s → om_Name (sec_Meta s) = name → sec_Data s !! key = Some data →
  file_data d secrets path = Some data.
Proof using Hns.
  intros Hd Hm Hs%list_elem_of_lookup_2 Hn Hk. unfold file_data. by rewrite Hm, Hd, (site_secret_lookup name s).
Qed.

Ltac in_site n := eapply (in_site_file n); [done|reflexivity|reflexivity|reflexivity|reflexivity].
Lemma controlplane_ca : file_data (controlplane_deployment order i) secrets CAFile = Some (RawCert ca).
Proof using Hns. in_site 0. Qed.
Lemma controlplane_cert : file_data (controlplane_deployment order i) secrets cp_CertificateFile = Some (RawCert cp).
Proof using Hns. in_site 1. Qed.
Lemma controlplane_key : file_data (controlplane_deployment order i) secrets cp_KeyFile = Some (RawKey cp).
Proof using Hns. in_site 1. Qed.
Lemma fabric_cert : file_data (controlplane_deployment order i) secrets FabricCertificateFilePath = Some (RawCert f).
Proof using Hns. in_site 3. Qed.
Lemma peer_cert : file_data (controlplane_deployment order i) secrets PeerCertificateFilePath = Some (RawCert pc).
Proof using Hns. in_site 3. Qed.
Lemma peer_key : file_data (controlplane_deployment order i) secrets PeerKeyFilePath = Some (RawKey pc).
Proof using Hns. in_site 3. Qed.
Lemma dataplane_ca : file_data (dataplane_deployment i) secrets CAFile = Some (RawCert ca).
Proof using Hns. in_site 0. Qed.
Lemma dataplane_cert : file_data (dataplane_deployment i) secrets dp_CertificateFile = Some (RawCert dp).
Proof using Hns. in_site 2. Qed.
Lemma dataplane_key : file_data (dataplane_deployment i) secrets dp_KeyFile = Some (RawKey dp).
Proof using Hns. in_site 2. Qed.
End pods.

(** ** From the commands to the connections *)

(** The certificate that a pod reads from a file is in force. *)
Definition pod_in_force {W} `{X509Lib W, !X509Sign W} (t : Z) (d : Deployment) (secrets : gmap NamespacedName Secret)
    (path : string) : Prop :=
  ∀ raw c, file_data d secrets path = Some raw → certificateFromRaw raw None = Ok c → in_force t (c_cert c).

Section connect.
Context {W : Type} {CK : Clock W} {XL : X509Lib W} {XS : X509Sign W} {FS : Files W} {FY : FileSystem W} {EN : Encodings}.
Context {EL : EncodingsLaws} {ID : Idna} {TL : TLSLib} {TV : TLSVerify} {XW : X509Laws W} {TW : TLSLaws W} {FW : FileLaws W}.
Context {IN : Installer W} {YA : Yaml} {KS : KubeClient W Secret} {KI : KubeClient W Instance_}.
Context {KL : KubeClientLaws W Secret} {SF : SecretFrame W}.
Context {P : Type} {FP : Files P} {KB : Kubelet P}.

(** C13: after the commands that create a fabric, create a peer and deploy it have succeeded,
    the pods the operator makes for an instance of the namespace find their certificates:
    the data plane can connect to the control plane, which authenticates it; the control
    plane cannot connect to the data plane as if that were a server; and the control plane
    finds the certificate of the peer, signed by the fabric, with the name of the peer. *)
Theorem deployed_site_connects o w w1 w2 w3 order i p q t :
  let fabric := po_Fabric o in
  let path := po_Path o in
  let cert := peer_cert_file (po_Name o) fabric path in
  let key := peer_key_file (po_Name o) fabric path in
  let controlplane := controlplane_deployment order i in
  let dataplane := dataplane_deployment i in
  let secrets := kView (T:=Secret) w3 in
  fabric_Run fabric path w = (Done None, w1) →
  peer_Run (po_Name o) fabric path w1 = (Done None, w2) →
  deploy_Run o w2 = (Done None, w3) →
  NoDup [FabricCertificate fabric path; FabricKey fabric path; cert; key] →
  po_StartInstance o ≠ NoStart →
  (∀ n, n ∈ site_secret_names → kView (T:=Secret) w2 !! mkNN (po_Namespace o) n = None) →
  in_Namespace i = po_Namespace o → runs controlplane secrets p → runs dataplane secrets q →
  valid_hostname controlplane_Name →
  pod_in_force t controlplane secrets CAFile → pod_in_force t controlplane secrets cp_CertificateFile →
  pod_in_force t dataplane secrets dp_CertificateFile →
  ∃ cpd dpd peerd raw1 raw2 raw3,
    (ParseFiles CAFile cp_CertificateFile cp_KeyFile p).1 = Ok (cpd, raw1) ∧
    (ParseFiles CAFile dp_CertificateFile dp_KeyFile q).1 = Ok (dpd, raw2) ∧
    (ParseFiles FabricCertificateFilePath PeerCertificateFilePath PeerKeyFilePath p).1 = Ok (peerd, raw3) ∧
    handshake t (ClientConfig dpd controlplane_Name) (ServerConfig cpd) = true ∧
    (∀ n, handshake t (ClientConfig cpd n) (ServerConfig dpd) = false) ∧
    DNSNames peerd = [po_Name o] ∧
    ∃ root, in_pool (pcd_ca peerd) root ∧ authority root ∧ signed (leaf (pcd_certificate peerd)) root.
Proof.
  intros fabric path cert key cpl dpl secrets Hf Hp Hd Hnd Hs Hnew Hns Rp Rq Hv T1 T2 T3.
  apply fabric_Run_ok in Hf as (f & Mf & Af & Pf & F1).
  repeat (apply NoDup_cons in Hnd as [? Hnd]). rewrite !not_elem_of_cons in *. destruct_and!.
  apply (peer_Run_ok _ _ _ _ _ f) in Hp as (pc & Mp & Sp & Dp & _ & F2);
    [|done|by rewrite F1, lookup_insert_ne, lookup_insert_eq|by rewrite F1, lookup_insert_eq].
  fold cert key in F2.
  apply (deploy_Run_ok o w2 w3 f pc Mf Mp) in Hd as (ca & cp & dp & Hsite & E3);
    [|rewrite F2, F1; by simplify_map_eq|rewrite F2; by simplify_map_eq|rewrite F2; by simplify_map_eq|done|done].
  destruct Hsite as (Mc & Pc & Ac & Mcp & Mdp & Scp & Sdp & Dcp & Ucp & Udp).
  subst secrets. rewrite E3 in *. set (m := kView w2) in *.
  assert (root_pem (reread_cert f)) as Pf' by exact Pf.
  destruct (runs_ParseFiles cpl _ p CAFile cp_CertificateFile cp_KeyFile cp ca Rp Mcp Pc) as (cpd & r1 & E1 & C1);
    [by apply controlplane_ca|by apply controlplane_cert|by apply controlplane_key|].
  destruct (runs_ParseFiles dpl _ q CAFile dp_CertificateFile dp_KeyFile dp ca Rq Mdp Pc) as (dpd & r2 & E2 & C2);
    [by apply dataplane_ca|by apply dataplane_cert|by apply dataplane_key|].
  destruct (runs_ParseFiles cpl _ p FabricCertificateFilePath PeerCertificateFilePath PeerKeyFilePath pc f Rp Mp Pf)
    as (pd & r3 & E4 & C3); [by apply fabric_cert|by apply peer_cert|by apply peer_key|].
  exists cpd, dpd, pd, r1, r2, r3. split_and!; [done..| | | |].
  - apply (handshake_ok t dp cp ca); try done.
    + refine (T3 _ _ _ (raw_cert dp Mdp)). by apply dataplane_cert.
    + refine (T2 _ _ _ (raw_cert cp Mcp)). by apply controlplane_cert.
    + refine (T1 _ _ _ (raw_cert ca Mc)). by apply controlplane_ca.
    + rewrite Udp. left.
    + rewrite Ucp. left.
    + rewrite Dcp. left.
  - intros n. unfold handshake. simpl. destruct C2 as (L2 & _). apply andb_false_iff. left.
    apply not_true_is_false. intros [Hu|Hu]%verify_usage; rewrite L2, Udp in Hu; [done|].
    by apply list_elem_of_singleton in Hu.
  - destruct C3 as (_ & _ & ->). done.
  - destruct C3 as (L3 & I3 & _). exists (c_cert f). by rewrite L3.
Qed.
End connect.

(** ** Deleting a peer *)
Section delete.
Context {W : Type} {CK : Clock W} {IN : Installer W} {KS : KubeClient W Secret} {KI : KubeClient W Instance_}.
Context {KL : KubeClientLaws W Secret}.

Lemma delete_secrets_ok keys : ∀ w w', delete_secrets keys w = (None, w') →
  (∀ k, kView (T:=Secret) w !! k = None → kView w' !! k = None) ∧ (∀ k, k ∈ keys → kView (T:=Secret) w' !! k = None).
Proof using KL.
  induction keys as [|k keys IH]; intros w w' H; [injection H as <-; split; [done|by intros k Hk%not_elem_of_nil]|].
  revert H. simpl. unfold_st. pose proof (kDelete_view k w) as Hv. pose proof (kDelete_ok k w) as Hok.
  pose proof (kDelete_notfound k w) as Hnf. destruct (kDelete k w) as [r w1]; cbn [fst snd] in *.
  assert (∀ k', kView w !! k' = None → kView w1 !! k' = None) as Hmono.
  { intros k' Hk'. destruct Hv as [->| ->]; [done|]. by apply lookup_delete_None; right. }
  assert (delete_secrets keys w1 = (None, w') → kView w1 !! k = None →
          (∀ k', kView w !! k' = None → kView w' !! k' = None) ∧ (∀ k', k' ∈ k :: keys → kView w' !! k' = None)) as Hnext.
  { intros [H1 H2]%IH Hk. split; [auto|]. intros k' [->|Hk']%elem_of_cons; auto. }
  destruct r as [e|]; [|auto]. destruct (IsNotFound e) eqn:He; [|done]. eauto.
Qed.

(** When the peer is deleted, the certificates of its namespace are gone, and it can be
    deployed again ([deployed_site_connects]). *)
Theorem delete_removes_secrets fuel namespace w w' :
  delete_Run fuel namespace w = (Some None, w') →
  ∀ n, n ∈ site_secret_names → kView (T:=Secret) w' !! mkNN namespace n = None.
Proof using KL.
  unfold delete_Run. unfold_st. intros H n Hn. revert H.
  destruct (GetConfig w) as [[e|] w1]; [done|]. destruct (resources_New w1) as [[e|] w2]; [done|].
  destruct (AddToScheme w2) as [[e|] w3]; [done|]. destruct (kList (T:=Instance_) _ w3) as [r w4].
  destruct (match r with Ok l => _ | Err e => _ end) as [l|e]; [|done].
  destruct (delete_instances fuel l w4) as [[[e|]|] w5]; [done| |done]. unfold delete_rest. unfold_st.
  destruct (deleteDir _ w5) as [[e|] w6]; [done|]. destruct (deleteDir _ w6) as [[e|] w7]; [done|].
  destruct (deleteDir _ w7) as [[e|] w8]; [done|].
  destruct (delete_secrets _ w8) as [[e|] w9] eqn:Hd; [done|]. intros [= <-].
  apply delete_secrets_ok in Hd as [_ Hd]. apply Hd. by apply (list_elem_of_fmap_2 (mkNN namespace) site_secret_names).
Qed.
End delete.

(** ** A cluster in memory

    The API server keeps secrets; the instance, the operator and the CRDs are accepted and
    forgotten.  A pod reads its files from the mounts of its deployment. *)
#[export] Instance host_store : Store host Secret :=
  {| st_get h := keyed (h_secrets h); st_set m h := mkHost (h_files h) (h_next h) m |}.
#[export] Instance host_store_laws : StoreLaws host Secret.
Proof. split; simpl; intros; [by apply keyed_id|apply keyed_well_keyed]. Qed.
#[export] Instance host_secrets : KubeClient host Secret := mem_client.
#[export] Instance host_secrets_laws : KubeClientLaws host Secret := mem_laws.
#[export] Instance host_instances : KubeClient host Instance_ := {|
  kGet _ h := (Err not_found, h); kList _ h := (Ok [], h); kCreate i h := (Ok i, h); kUpdate i h := (Ok i, h);
  kStatusUpdate i h := (Ok i, h); kDelete _ h := (Some not_found, h)
|}.
#[export] Instance host_installer : Installer host := {|
  GetConfig h := (None, h); resources_New h := (None, h); manager_file := Ok "image: ghcr.io/clusterlink-net/cl-operator:latest";
  apply_text _ h := (None, h); apply_dir _ h := (None, h); delete_dir _ h := (None, h); AddToScheme h := (None, h);
  IsNoMatchError _ := false; Sleep _ h := (tt, h)
|}.
#[export] Instance host_frame : SecretFrame host.
Proof.
  split; try done. intros s h e. unfold kCreate. simpl. unfold mem_Create. simpl.
  by destruct (keyed (h_secrets h) !! om_key (sec_Meta s)) as [x|].
Qed.

Definition pod : Type := Deployment * gmap NamespacedName Secret.
#[export] Instance pod_files : Files pod := {|
  ReadFile path p := (match file_data p.1 p.2 path with Some s => Ok s | None => Err (ENew "no such file") end, p)
|}.
#[export] Instance pod_kubelet : Kubelet pod.
Proof.
  refine {| runs d secrets p := p = (d, secrets) |}. intros d secrets p path data -> H. exists (d, secrets).
  split; [|done]. unfold ReadFile. simpl. by rewrite H.
Defined.

Lemma pod_in_force_check t d secrets path :
  match file_data d secrets path with
  | Some raw => match certificateFromRaw (W:=host) raw None with
                | Ok c => (NotBefore (c_cert c) <=? t)%Z && (t <=? NotAfter (c_cert c))%Z
                | Err _ => true
                end
  | None => true
  end = true → pod_in_force (W:=host) t d secrets path.
Proof. intros H raw c Hr Hc. rewrite Hr, Hc in H. unfold in_force. lia. Qed.
#[export] Existing Instance ref_encodings.
#[export] Existing Instance ref_encodings_laws.
#[export] Instance host_yaml : Yaml := {| yaml_order := std_ranger; yaml_config _ := ""; yaml_instance _ := "" |}.

(** The first peer of the fabric, deployed with the default options. *)
Definition dp_o : PeerOptions :=
  mkPeerOptions "peer1" fb_name "clusterlink-system" "." StartAll "LoadBalancer" DefaultExternalPort ∅
    DefaultRegistry "latest" 1 1 DataplaneTypeEnvoy ∅ "info".
Definition dp_3 : host := (deploy_Run dp_o fb_2).2.
Definition dp_i : Instance_ :=
  mkInstance (mkMeta "cl-instance" OperatorNamespace ∅) 0 false []
    (mkInstanceSpec DataplaneTypeEnvoy 1 (mkIngressSpec "LoadBalancer" 0 ∅) "info" "ghcr.io/clusterlink-net/" "latest"
       "clusterlink-system" ∅)
    (mkInstanceStatus ∅ ∅ (mkIngressStatus "" 0 ∅)).
Definition dp_cp : pod := (controlplane_deployment std_ranger dp_i, kView (T:=Secret) dp_3).
Definition dp_dp : pod := (dataplane_deployment dp_i, kView (T:=Secret) dp_3).

Lemma deployed_site_connects_witness :
  ∃ cpd dpd peerd raw1 raw2 raw3,
    (ParseFiles CAFile cp_CertificateFile cp_KeyFile dp_cp).1 = Ok (cpd, raw1) ∧
    (ParseFiles CAFile dp_CertificateFile dp_KeyFile dp_dp).1 = Ok (dpd, raw2) ∧
    (ParseFiles FabricCertificateFilePath PeerCertificateFilePath PeerKeyFilePath dp_cp).1 = Ok (peerd, raw3) ∧
    handshake 500 (ClientConfig dpd controlplane_Name) (ServerConfig cpd) = true ∧
    (∀ n, handshake 500 (ClientConfig cpd n) (ServerConfig dpd) = false) ∧
    DNSNames peerd = ["peer1"] ∧
    ∃ root, in_pool (pcd_ca peerd) root ∧ authority (W:=host) root ∧ signed (W:=host) (leaf (pcd_certificate peerd)) root.
Proof.
  apply (deployed_site_connects dp_o fb_0 fb_1 fb_2 dp_3 std_ranger dp_i dp_cp dp_dp 500).
  - unfold fb_1. apply result_of. vm_compute. reflexivity.
  - apply (result_of (peer_Run "peer1" fb_name "." fb_1) (Done None)). vm_compute. reflexivity.
  - apply (result_of (deploy_Run dp_o fb_2) (Done None)). vm_compute. reflexivity.
  - apply (bool_decide_unpack _). vm_compute. exact I.
  - done.
  - apply Forall_forall. repeat constructor.
  - reflexivity.
  - reflexivity.
  - reflexivity.
  - exact I.
  - apply pod_in_force_check. vm_compute. reflexivity.
  - apply pod_in_force_check. vm_compute. reflexivity.
  - apply pod_in_force_check. vm_compute. reflexivity.
Defined.

(** The same peer behind a node port. *)
Definition blank : @certificate host host_x509 := mkCertificate None (mkX509 0 0 0 false "" false 0 [] [] None None) None "" "".
Definition da_o : PeerOptions :=
  mkPeerOptions "peer1" fb_name "clusterlink-system" "." NoStart "NodePort" 30443 {[ "key" := "value" ]}
    DefaultRegistry "latest" 1 1 DataplaneTypeGo {[ "zone" := "a" ]} "info".
Definition da_cfg : Config := deployed da_o blank blank blank blank blank.
Definition da_objects : list manifest := match K8SConfig std_ranger da_cfg with Ok l => l | Err _ => [] end.
Definition da_i : Instance_ :=
  match K8SClusterLinkInstanceConfig da_cfg "cl-instance" with Ok i => i | Err _ => dp_i end.
