(* ===== verification/Flags.v ===== *)
(** * Flags and commands

    What the programs use of [spf13/pflag] and [spf13/cobra]: options that flags write to,
    a tree of commands, and [Execute], which chooses a command, sets its options and runs
    it.  The libraries are the class [Cobra]; its laws say what their documentation says of
    flags given as [--name value] or [--name=value]. *)
From S2P Require Export GoString.
From stdpp Require Import options.
From Stdlib Require Import Ascii ZArith Lia.

#[local] Set Default Proof Using "Type".

(** ** Flag sets *)
Inductive flag_kind := KString | KUint16 | KStringToString.
Inductive flag_value := VString (s : string) | VUint16 (z : Z) | VStringToString (m : gmap string string).
#[global] Instance flag_kind_eq : EqDecision flag_kind. Proof. solve_decision. Defined.
#[global] Instance flag_value_eq : EqDecision flag_value. Proof. solve_decision. Defined.

(** A flag is bound to a field of the options [O]. *)
Record flag (O : Type) := mkFlag { fl_name : string; fl_kind : flag_kind; fl_set : flag_value → O → O }.
Arguments mkFlag {O}. Arguments fl_name {O}. Arguments fl_kind {O}. Arguments fl_set {O}.
Notation FlagSet O := (list (flag O)).

Section flags.
Context {O : Type}.
Implicit Types (fs : FlagSet O) (o : O).
Definition no_set (v : flag_value) (o : O) : O := o.

(** [fs.StringVar(&o.Field, name, value, usage)] and the others: the field gets the default
    value, and the flag set a flag that is bound to it. *)
Definition StringVar (field : string → O → O) (name value : string) : ST (O * FlagSet O) unit :=
  modify (λ s, (field value s.1, s.2 ++ [mkFlag name KString (λ v, match v with VString x => field x | _ => no_set v end)])).
Definition Uint16Var (field : Z → O → O) (name : string) (value : Z) : ST (O * FlagSet O) unit :=
  modify (λ s, (field value s.1, s.2 ++ [mkFlag name KUint16 (λ v, match v with VUint16 x => field x | _ => no_set v end)])).
Definition StringToStringVar (field : gmap string string → O → O) (name : string) (value : gmap string string) :
    ST (O * FlagSet O) unit :=
  modify (λ s, (field value s.1,
                s.2 ++ [mkFlag name KStringToString (λ v, match v with VStringToString x => field x | _ => no_set v end)])).

(** What the flags that have changed write to the options. *)
Definition bind_options (fs : FlagSet O) (changed : gmap string flag_value) (o : O) : O :=
  foldl (λ o f, match changed !! fl_name f with Some v => fl_set f v o | None => o end) o fs.
Definition flag_kinds (fs : FlagSet O) : list (string * flag_kind) := map (λ f, (fl_name f, fl_kind f)) fs.
End flags.

(** ** Arguments *)

(** What a flag is given: a text, a number, or one pair of a map.  The flags of a map add up. *)
Inductive flag_arg := AString (s : string) | AUint16 (z : Z) | APair (k v : string).
Record setting := mkSetting { st_name : string; st_arg : flag_arg; st_joined : bool }.

Definition arg_text (a : flag_arg) : string :=
  match a with AString s => s | AUint16 z => Itoa z | APair k v => k +:+ "=" +:+ v end.
(** [--name=value], or [--name value]. *)
Definition setting_args (x : setting) : list string :=
  if st_joined x then ["--" +:+ st_name x +:+ "=" +:+ arg_text (st_arg x)]
  else ["--" +:+ st_name x; arg_text (st_arg x)].
Definition flag_args (given : list setting) : list string := concat (map setting_args given).

(** Texts that the CSV syntax of a map leaves as they are. *)
Definition plain (s : string) : bool :=
  forallb (λ c, negb (str_in c s)) ["="; ","; "034"; "010"; "013"]%char.
Definition arg_ok (k : flag_kind) (a : flag_arg) : bool :=
  match k, a with
  | KString, AString _ => true
  | KUint16, AUint16 z => (0 <=? z)%Z && (z <? 65536)%Z
  | KStringToString, APair k v => plain k && plain v
  | _, _ => false
  end.
Fixpoint kind_of (flags : list (string * flag_kind)) (name : string) : option flag_kind :=
  match flags with
  | [] => None
  | (n, k) :: flags' => if decide (n = name) then Some k else kind_of flags' name
  end.
Definition setting_ok (flags : list (string * flag_kind)) (x : setting) : bool :=
  match kind_of flags (st_name x) with Some k => arg_ok k (st_arg x) | None => false end.
Definition settings_ok flags (given : list setting) : bool := forallb (setting_ok flags) given.

Definition set_arg (a : flag_arg) (old : option flag_value) : flag_value :=
  match a with
  | AString s => VString s
  | AUint16 z => VUint16 z
  | APair k v => VStringToString (<[k := v]> match old with Some (VStringToString m) => m | _ => ∅ end)
  end.
Definition set_flag (m : gmap string flag_value) (x : setting) : gmap string flag_value :=
  <[st_name x := set_arg (st_arg x) (m !! st_name x)]> m.
Definition changed (given : list setting) : gmap string flag_value := foldl set_flag ∅ given.

(** ** Commands *)

(** [None] while it runs; a command may panic, fail or succeed. *)
Notation exit := (option (outcome (option error))).

Section commands.
Context {S : Type}.
Inductive Command := mkCommand {
  cmd_Use : string;
  cmd_Flags : list (string * flag_kind);
  cmd_Required : list string;
  cmd_RunE : option (gmap string flag_value → ST S exit);
  cmd_Commands : list Command
}.

Fixpoint find_command (path : list string) (c : Command) : option Command :=
  match path with
  | [] => Some c
  | name :: path' => c' ← List.find (λ c', bool_decide (cmd_Use c' = name)) (cmd_Commands c); find_command path' c'
  end.

(** [--help] and [--version] are flags of their own. *)
Definition name_ok (name : string) : bool :=
  negb (bool_decide (name ∈ [""; "help"; "version"])) && negb (str_in "=" name) && negb (HasPrefix name "-").
Definition leaf_ok (c : Command) : bool :=
  forallb name_ok (cmd_Flags c).*1 && bool_decide (NoDup (cmd_Flags c).*1) && bool_decide (length (cmd_Commands c) = 0).

Class Cobra := {
  MarkFlagRequired : list (string * flag_kind) → string → option error;
  Execute : Command → list string → ST S exit
}.
Class CobraLaws `{!Cobra} := {
  (** A flag that is defined can be marked as required. *)
  mark_defined flags name : name ∈ flags.*1 → MarkFlagRequired flags name = None;
  (** The command that is named is run with the flags that are given. *)
  execute_runs c path leaf run given s :
    forallb name_ok path = true → find_command path c = Some leaf → leaf_ok leaf = true → cmd_RunE leaf = Some run →
    settings_ok (cmd_Flags leaf) given = true → Forall (λ n, n ∈ map st_name given) (cmd_Required leaf) →
    Execute c (path ++ flag_args given) s = run (changed given) s;
  (** Without a required flag there is an error, and the command is not run. *)
  execute_missing c path leaf given s :
    forallb name_ok path = true → find_command path c = Some leaf → leaf_ok leaf = true →
    settings_ok (cmd_Flags leaf) given = true → ¬ Forall (λ n, n ∈ map st_name given) (cmd_Required leaf) →
    is_Some (cmd_RunE leaf) → ∃ err, Execute c (path ++ flag_args given) s = (Some (Done (Some err)), s)
}.
End commands.
Arguments Command : clear implicits.
Arguments mkCommand {S}.
Arguments Cobra : clear implicits.
Arguments CobraLaws S {_}.

(** The shape of the constructors of the commands: options, the flags that are bound to
    them, the required flags, and what is run with the options.  [None]: a required flag
    does not exist, and the process exits. *)
Definition new_command {S O} `{Cobra S} (use : string) (zero : O) (AddFlags : ST (O * FlagSet O) unit)
    (required : list string) (Run : O → ST S exit) : option (Command S) :=
  let '(opts, fs) := (AddFlags (zero, [])).2 in
  if forallb (λ name, negb (bool_decide (is_Some (MarkFlagRequired (flag_kinds fs) name)))) required
  then Some (mkCommand use (flag_kinds fs) required (Some (λ ch, Run (bind_options fs ch opts))) [])
  else None.

(** [AddCommand]. *)
Definition AddCommand {S} (c : option (Command S)) (parent : option (Command S)) : option (Command S) :=
  match c, parent with
  | Some c, Some p => Some (mkCommand (cmd_Use p) (cmd_Flags p) (cmd_Required p) (cmd_RunE p) (cmd_Commands p ++ [c]))
  | _, _ => None
  end.

(** [main]: its exit status.  The runtime's own is 2 after a panic. *)
Definition exit_status (r : exit) : option Z :=
  match r with
  | None => None
  | Some Panic => Some 2%Z
  | Some (Done (Some _)) => Some 1%Z
  | Some (Done None) => Some 0%Z
  end.
Definition run_main {S} (f : ST S exit) : ST S (option Z) := err ← f; mret (exit_status err).
Definition main {S} `{Cobra S} (command : option (Command S)) (args : list string) : ST S (option Z) :=
  match command with
  | None => mret (Some 1%Z)
  | Some c => run_main (Execute c args)
  end.

(** ** Facts *)

(** The command that [new_command] makes when the required flags exist. *)
Definition leaf_command {S O} (use : string) (zero : O) (AddFlags : ST (O * FlagSet O) unit) (required : list string)
    (Run : O → ST S exit) : Command S :=
  let '(opts, fs) := (AddFlags (zero, [])).2 in
  mkCommand use (flag_kinds fs) required (Some (λ ch, Run (bind_options fs ch opts))) [].
Lemma new_command_some {S O} `{CobraLaws S} use (zero : O) AddFlags required Run :
  Forall (λ n, n ∈ (flag_kinds (AddFlags (zero, [])).2.2).*1) required →
  new_command (S:=S) use zero AddFlags required Run = Some (leaf_command use zero AddFlags required Run).
Proof.
  intros Hreq. unfold new_command, leaf_command. destruct (AddFlags (zero, [])) as [[] [opts fs]]. cbn [fst snd] in *.
  replace (forallb _ required) with true; [done|]. symmetry. apply forallb_forall. intros n Hn%list_elem_of_In.
  rewrite Forall_forall in Hreq. by rewrite (mark_defined _ _ (Hreq n Hn)).
Qed.

(** A command of the tree, as a program. *)
Lemma main_command {S O} `{CobraLaws S} c path use (zero : O) AddFlags required (Run : O → ST S exit) given s :
  let os := (AddFlags (zero, [])).2 in
  find_command path c = Some (leaf_command use zero AddFlags required Run) →
  forallb name_ok path && forallb name_ok (flag_kinds os.2).*1 && bool_decide (NoDup (flag_kinds os.2).*1) = true →
  settings_ok (flag_kinds os.2) given = true →
  (Forall (λ n, n ∈ map st_name given) required →
   main (Some c) (path ++ flag_args given) s = run_main (Run (bind_options os.2 (changed given) os.1)) s) ∧
  (¬ Forall (λ n, n ∈ map st_name given) required → main (Some c) (path ++ flag_args given) s = (Some 1%Z, s)).
Proof.
  cbv zeta. unfold leaf_command. destruct (AddFlags (zero, [])) as [[] [opts fs]]. cbn [fst snd].
  intros Hf [[Hp Hn]%andb_true_iff Hd]%andb_true_iff Hok.
  assert (leaf_ok (S:=S) (mkCommand use (flag_kinds fs) required (Some (λ ch, Run (bind_options fs ch opts))) []) = true) as Hl
    by (unfold leaf_ok; cbn [cmd_Flags cmd_Commands length]; by rewrite Hn, Hd).
  unfold main, run_main. unfold_st. split; intros Hreq.
  - by rewrite (execute_runs c path _ _ given s Hp Hf Hl eq_refl Hok Hreq).
  - destruct (execute_missing c path _ given s Hp Hf Hl Hok Hreq) as [err ->]; [by eexists|done].
Qed.

(** A command without subcommands, as a program of its own. *)
Lemma main_leaf {S O} `{CobraLaws S} use (zero : O) AddFlags required (Run : O → ST S exit) given s :
  let os := (AddFlags (zero, [])).2 in
  Forall (λ n, n ∈ (flag_kinds os.2).*1) required →
  forallb name_ok (flag_kinds os.2).*1 && bool_decide (NoDup (flag_kinds os.2).*1) = true →
  settings_ok (flag_kinds os.2) given = true → Forall (λ n, n ∈ map st_name given) required →
  main (new_command use zero AddFlags required Run) (flag_args given) s =
  run_main (Run (bind_options os.2 (changed given) os.1)) s.
Proof.
  cbv zeta. intros Hreq Hnames Hok Hgiven. rewrite new_command_some by done.
  by apply (main_command _ [] use zero AddFlags required Run given s eq_refl).
Qed.

(** The pairs that a flag of a map is given, in order. *)
Definition pairs_of (name : string) (given : list setting) : list (string * string) :=
  omap (λ x, match st_arg x with APair k v => if decide (st_name x = name) then Some (k, v) else None | _ => None end) given.
Definition insert_pair (m : gmap string string) (kv : string * string) : gmap string string := <[kv.1 := kv.2]> m.

Lemma changed_pairs flags given name (kinds : kind_of flags name = Some KStringToString) :
  settings_ok flags given = true → pairs_of name given ≠ [] →
  changed given !! name = Some (VStringToString (foldl insert_pair ∅ (pairs_of name given))).
Proof.
  assert (∀ given m0 (m : gmap string flag_value), settings_ok flags given = true →
    (m !! name = Some (VStringToString m0) ∨ m !! name = None ∧ m0 = ∅ ∧ pairs_of name given ≠ []) →
    foldl set_flag m given !! name = Some (VStringToString (foldl insert_pair m0 (pairs_of name given)))) as Hgen.
  2:{ intros Hok Hne. apply Hgen; [done|]. right. by rewrite lookup_empty. }
  clear given. induction given as [|[n a j] given IH]; intros m0 m Hok Hm.
  { destruct Hm as [Hm|(_ & _ & Hne)]; [done|by destruct Hne]. }
  simpl in Hok. apply andb_true_iff in Hok as [Ha Hok]. unfold setting_ok in Ha. simpl in Ha.
  unfold pairs_of in *. cbn [foldl omap list_omap st_arg st_name] in *. destruct (decide (n = name)) as [->|Hn].
  - rewrite kinds in Ha. destruct a as [?|?|k v]; [done..|]. simpl. apply (IH _ _ Hok). left.
    unfold set_flag. simpl. rewrite lookup_insert_eq.
    destruct Hm as [Hm|(Hm & -> & _)]; rewrite Hm; done.
  - assert (set_flag m (mkSetting n a j) !! name = m !! name) as E by (unfold set_flag; simpl; by rewrite lookup_insert_ne).
    destruct a as [?|?|k v]; simpl; apply (IH _ _ Hok); rewrite E; done.
Qed.

Definition map_flag (name : string) (given : list setting) : gmap string string := foldl insert_pair ∅ (pairs_of name given).

Lemma changed_none given name : name ∉ map st_name given → changed given !! name = None.
Proof.
  assert (∀ given (m : gmap string flag_value), name ∉ map st_name given → foldl set_flag m given !! name = m !! name) as Hgen;
    [|intros Hn; unfold changed; by rewrite Hgen].
  clear given. induction given as [|x given IH]; intros m Hn; [done|]. simpl in *.
  apply not_elem_of_cons in Hn as [Hx Hn]. rewrite IH by done. unfold set_flag. by rewrite lookup_insert_ne.
Qed.

(** What a flag whose default is the empty map leaves in the options. *)
Lemma map_flag_value flags given name : kind_of flags name = Some KStringToString → settings_ok flags given = true →
  changed given !! name = Some (VStringToString (map_flag name given)) ∨
  changed given !! name = None ∧ map_flag name given = ∅.
Proof.
  intros Hk Hok. destruct (decide (pairs_of name given = [])) as [Hp|Hp].
  - right. split; [|unfold map_flag; by rewrite Hp]. apply changed_none. intros Hin.
    apply list_elem_of_fmap in Hin as (x & -> & Hx%list_elem_of_In).
    unfold settings_ok in Hok. rewrite forallb_forall in Hok. specialize (Hok x Hx). unfold setting_ok in Hok. rewrite Hk in Hok.
    destruct (st_arg x) as [?|?|k v] eqn:Ha; [done..|].
    assert ((k, v) ∈ pairs_of (st_name x) given) as Hin; [|rewrite Hp in Hin; by apply elem_of_nil in Hin].
    apply list_elem_of_omap. exists x. split; [by apply list_elem_of_In|]. by rewrite Ha, decide_True.
  - left. by apply (changed_pairs flags).
Qed.

(** A field that only one of the flags is bound to. *)
Lemma bind_options_untouched {O A} (proj : O → A) fs ch o :
  Forall (λ f : flag O, ∀ v o, proj (fl_set f v o) = proj o) fs → proj (bind_options fs ch o) = proj o.
Proof.
  intros Hall. unfold bind_options. revert o. induction Hall as [|f fs Hf Hall IH]; intros o; [done|]. simpl.
  rewrite IH. by destruct (ch !! fl_name f).
Qed.
Lemma bind_options_app {O} (fs1 fs2 : FlagSet O) ch o : bind_options (fs1 ++ fs2) ch o = bind_options fs2 ch (bind_options fs1 ch o).
Proof. apply foldl_app. Qed.

(** ** A reference implementation

    It satisfies the laws. *)
Section reference.
Context {S : Type}.

Definition parse_value (k : flag_kind) (text : string) : option flag_arg :=
  match k with
  | KString => Some (AString text)
  | KUint16 => z ← unsigned_val text; if decide (z < 65536)%Z then Some (AUint16 z) else None
  | KStringToString => kv ← cut "=" text; Some (APair kv.1 kv.2)
  end.
Definition parse_setting (flags : list (string * flag_kind)) (name text : string) (joined : bool) : option setting :=
  k ← kind_of flags name; a ← parse_value k text; Some (mkSetting name a joined).
Fixpoint parse (flags : list (string * flag_kind)) (args : list string) : option (list setting) :=
  match args with
  | [] => Some []
  | arg :: args' =>
      body ← strip_prefix "--" arg;
      match cut "=" body with
      | Some (name, text) => x ← parse_setting flags name text true; cons x <$> parse flags args'
      | None =>
          match args' with
          | [] => None
          | text :: args'' => x ← parse_setting flags body text false; cons x <$> parse flags args''
          end
      end
  end.

Definition ref_MarkFlagRequired (flags : list (string * flag_kind)) (name : string) : option error :=
  if decide (name ∈ flags.*1) then None else Some (ENew "flag does not exist").
Definition ref_run (c : Command S) (args : list string) : ST S exit :=
  match parse (cmd_Flags c) args with
  | None => mret (Some (Done (Some (ENew "unknown flag"))))
  | Some given =>
      if decide (Forall (λ n, n ∈ map st_name given) (cmd_Required c)) then
        match cmd_RunE c with Some run => run (changed given) | None => mret (Some (Done None)) end
      else mret (Some (Done (Some (ENew "required flag(s) not set"))))
  end.
Fixpoint ref_Execute (c : Command S) (args : list string) : ST S exit :=
  match args with
  | name :: args' =>
      if HasPrefix name "-" then ref_run c args
      else match List.find (λ c', bool_decide (cmd_Use c' = name)) (cmd_Commands c) with
           | Some c' => ref_Execute c' args'
           | None => ref_run c args
           end
  | [] => ref_run c []
  end.

Lemma parse_value_text k a : arg_ok k a = true → parse_value k (arg_text a) = Some a.
Proof.
  destruct k, a as [s|z|x y]; cbn [arg_ok parse_value arg_text]; try done.
  - intros [Hl Hu]%andb_true_iff. apply Z.leb_le in Hl. apply Z.ltb_lt in Hu.
    destruct (Itoa_digits z Hl) as [Hd Hne].
    assert (unsigned_val (Itoa z) = Some z) as -> by (unfold unsigned_val; by case_match).
    simpl. by rewrite decide_True.
  - intros [Hx _]%andb_true_iff. change (x +:+ "=" +:+ y) with (x +:+ String "=" y). rewrite cut_app; [done|]. unfold plain in Hx. simpl in Hx.
    by apply andb_true_iff in Hx as [?%negb_true_iff _].
Qed.

Lemma kind_of_elem flags name k : kind_of flags name = Some k → name ∈ flags.*1.
Proof.
  induction flags as [|[n k'] flags IH]; [done|]. simpl. case_decide as Hn; [subst; intros _; left|right; auto].
Qed.

Lemma parse_flag_args flags given :
  forallb name_ok flags.*1 = true → settings_ok flags given = true → parse flags (flag_args given) = Some given.
Proof.
  intros Hnames. induction given as [|[n a j] given IH]; intros Hok; [done|].
  simpl in Hok. apply andb_true_iff in Hok as [Ha Hok]. specialize (IH Hok).
  unfold setting_ok in Ha. simpl in Ha. destruct (kind_of flags n) as [k|] eqn:Hk; [|done].
  assert (∀ j, parse_setting flags n (arg_text a) j = Some (mkSetting n a j)) as Hp.
  { intros j'. unfold parse_setting. rewrite Hk. simpl. by rewrite (parse_value_text k a Ha). }
  assert (str_in "=" n = false) as Hn.
  { rewrite forallb_forall in Hnames. apply kind_of_elem, list_elem_of_In, Hnames in Hk. unfold name_ok in Hk.
    apply andb_true_iff in Hk as [[_ Hk]%andb_true_iff _]. by apply negb_true_iff in Hk. }
  unfold flag_args in *. cbn [map concat]. unfold setting_args at 1. cbn [st_name st_arg st_joined]. destruct j.
  - cbn [app parse]. rewrite strip_prefix_app. cbn [mbind option_bind].
    change (n +:+ "=" +:+ arg_text a) with (n +:+ String "=" (arg_text a)).
    rewrite cut_app by done. rewrite Hp. simpl. by rewrite IH.
  - cbn [app parse]. rewrite strip_prefix_app. cbn [mbind option_bind].
    rewrite (proj2 (cut_None _ _) Hn), Hp. simpl. by rewrite IH.
Qed.

Lemma ref_Execute_path path c leaf given :
  forallb name_ok path = true → find_command path c = Some leaf → leaf_ok leaf = true →
  ref_Execute c (path ++ flag_args given) = ref_run leaf (flag_args given).
Proof.
  revert c. induction path as [|name path IH]; intros c Hp Hf Hl; simpl in *.
  - injection Hf as ->. destruct given as [|[n a j] given]; [done|]. unfold flag_args. cbn [map concat].
    unfold setting_args. cbn [st_joined st_name st_arg]. destruct j; cbn [app]; cbn [ref_Execute]; done.
  - apply andb_true_iff in Hp as [Hn Hp]. apply andb_true_iff in Hn as [_ Hn%negb_true_iff]. rewrite Hn.
    destruct (List.find _ _) as [c'|]; [|done]. simpl in Hf. by apply IH.
Qed.

#[local] Instance ref_cobra : Cobra S := {| MarkFlagRequired := ref_MarkFlagRequired; Execute := ref_Execute |}.
#[local] Instance ref_cobra_laws : CobraLaws S.
Proof.
  split.
  - intros flags name Hn. simpl. unfold ref_MarkFlagRequired. by rewrite decide_True.
  - intros c path leaf run given s Hp Hf Hl Hr Hok Hreq. simpl. rewrite (ref_Execute_path path c leaf) by done.
    apply andb_true_iff in Hl as [[Hl _]%andb_true_iff _].
    unfold ref_run. by rewrite parse_flag_args, decide_True, Hr.
  - intros c path leaf given s Hp Hf Hl Hok Hreq Hr. simpl. rewrite (ref_Execute_path path c leaf) by done.
    apply andb_true_iff in Hl as [[Hl _]%andb_true_iff _].
    unfold ref_run. rewrite parse_flag_args, decide_False by done. by eexists.
Qed.
End reference.
