(* ===== verification/Commands.v ===== *)
(** * The commands of the programs

    The flags of [cl-controlplane], [cl-dataplane], [cl-go-dataplane] and [clusterlink],
    what they are bound to, the tree of the subcommands, and the [main] functions.  The
    theorems: the arguments that a deployment gives to its containers set the options they
    are meant to set; labels given to [deploy peer] are those the policies of the peer see;
    a command that lacks a required flag does nothing. *)
From S2P Require Export DeployFacts DataplaneServers Flags.
From stdpp Require Import options.
From Stdlib Require Import Ascii ZArith Lia.

#[local] Set Default Proof Using "Type".

(** ** cl-controlplane *)
Definition set_co_LogFile (v : string) (o : ControlplaneOptions) : ControlplaneOptions := mkCpOptions v (co_LogLevel o) (co_PeerLabels o).
Definition set_co_LogLevel (v : string) (o : ControlplaneOptions) : ControlplaneOptions := mkCpOptions (co_LogFile o) v (co_PeerLabels o).
Definition set_co_PeerLabels (v : gmap string string) (o : ControlplaneOptions) : ControlplaneOptions :=
  mkCpOptions (co_LogFile o) (co_LogLevel o) v.
(** [logLevel], of all three programs. *)
Definition default_logLevel : string := "warn".

Definition controlplane_AddFlags : ST (ControlplaneOptions * FlagSet ControlplaneOptions) unit :=
  StringVar set_co_LogFile "log-file" "";;
  StringVar set_co_LogLevel "log-level" default_logLevel;;
  StringToStringVar set_co_PeerLabels "peer-label" ∅.

Definition NewCLControlplaneCommand {S} `{Cobra S} (opts_Run : ControlplaneOptions → ST S exit) : option (Command S) :=
  new_command "cl-controlplane" (mkCpOptions "" "" ∅) controlplane_AddFlags [] opts_Run.

(** ** cl-dataplane and cl-go-dataplane *)
Definition set_eo_ControlplaneHost (v : string) (o : EnvoyOptions) : EnvoyOptions := mkEnvoyOptions v (eo_LogFile o) (eo_LogLevel o).
Definition set_eo_LogFile (v : string) (o : EnvoyOptions) : EnvoyOptions := mkEnvoyOptions (eo_ControlplaneHost o) v (eo_LogLevel o).
Definition set_eo_LogLevel (v : string) (o : EnvoyOptions) : EnvoyOptions := mkEnvoyOptions (eo_ControlplaneHost o) (eo_LogFile o) v.

Definition dataplane_AddFlags : ST (EnvoyOptions * FlagSet EnvoyOptions) unit :=
  StringVar set_eo_ControlplaneHost "controlplane-host" "";;
  StringVar set_eo_LogFile "log-file" "";;
  StringVar set_eo_LogLevel "log-level" default_logLevel.
Definition dataplane_RequiredFlags : list string := ["controlplane-host"].
Definition NewCLDataplaneCommand {S} `{Cobra S} (opts_Run : EnvoyOptions → ST S exit) : option (Command S) :=
  new_command "cl-dataplane" (mkEnvoyOptions "" "" "") dataplane_AddFlags dataplane_RequiredFlags opts_Run.

Definition go_dataplane_AddFlags : ST (EnvoyOptions * FlagSet EnvoyOptions) unit :=
  StringVar set_eo_ControlplaneHost "controlplane-host" "";;
  StringVar set_eo_LogFile "log-file" "";;
  StringVar set_eo_LogLevel "log-level" default_logLevel.
Definition go_dataplane_RequiredFlags : list string := ["controlplane-host"].
Definition NewCLGoDataplaneCommand {S} `{Cobra S} (opts_Run : EnvoyOptions → ST S exit) : option (Command S) :=
  new_command "cl-go-dataplane" (mkEnvoyOptions "" "" "") go_dataplane_AddFlags go_dataplane_RequiredFlags opts_Run.

(** ** clusterlink create *)
Definition DefaultFabric : string := "default_fabric".

Record FabricOptions := mkFabricOptions { fo_Name : string; fo_Path : string }.
Definition set_fo_Name (v : string) (o : FabricOptions) : FabricOptions := mkFabricOptions v (fo_Path o).
Definition set_fo_Path (v : string) (o : FabricOptions) : FabricOptions := mkFabricOptions (fo_Name o) v.
Definition fabric_AddFlags : ST (FabricOptions * FlagSet FabricOptions) unit :=
  StringVar set_fo_Name "name" DefaultFabric;;
  StringVar set_fo_Path "path" ".".

Record PeerCertOptions := mkPeerCertOptions { pc_Name : string; pc_Fabric : string; pc_Path : string }.
Definition set_pc_Name (v : string) (o : PeerCertOptions) : PeerCertOptions := mkPeerCertOptions v (pc_Fabric o) (pc_Path o).
Definition set_pc_Fabric (v : string) (o : PeerCertOptions) : PeerCertOptions := mkPeerCertOptions (pc_Name o) v (pc_Path o).
Definition set_pc_Path (v : string) (o : PeerCertOptions) : PeerCertOptions := mkPeerCertOptions (pc_Name o) (pc_Fabric o) v.
Definition peer_cert_AddFlags : ST (PeerCertOptions * FlagSet PeerCertOptions) unit :=
  StringVar set_pc_Name "name" "";;
  StringVar set_pc_Fabric "fabric" DefaultFabric;;
  StringVar set_pc_Path "path" ".".
Definition peer_cert_RequiredFlags : list string := ["name"].

(** ** clusterlink deploy *)
Definition set_po_Name (v : string) (o : PeerOptions) : PeerOptions :=
  mkPeerOptions v (po_Fabric o) (po_Namespace o) (po_Path o) (po_StartInstance o) (po_Ingress o) (po_IngressPort
    o) (po_IngressAnnotations o) (po_ContainerRegistry o) (po_Tag o) (po_ControlplaneReplicas o)
    (po_DataplaneReplicas o) (po_DataplaneType o) (po_Labels o) (po_LogLevel o).
Definition set_po_Fabric (v : string) (o : PeerOptions) : PeerOptions :=
  mkPeerOptions (po_Name o) v (po_Namespace o) (po_Path o) (po_StartInstance o) (po_Ingress o) (po_IngressPort o)
    (po_IngressAnnotations o) (po_ContainerRegistry o) (po_Tag o) (po_ControlplaneReplicas o) (po_DataplaneReplicas
    o) (po_DataplaneType o) (po_Labels o) (po_LogLevel o).
Definition set_po_Namespace (v : string) (o : PeerOptions) : PeerOptions :=
  mkPeerOptions (po_Name o) (po_Fabric o) v (po_Path o) (po_StartInstance o) (po_Ingress o) (po_IngressPort o)
    (po_IngressAnnotations o) (po_ContainerRegistry o) (po_Tag o) (po_ControlplaneReplicas o) (po_DataplaneReplicas
    o) (po_DataplaneType o) (po_Labels o) (po_LogLevel o).
Definition set_po_Path (v : string) (o : PeerOptions) : PeerOptions :=
  mkPeerOptions (po_Name o) (po_Fabric o) (po_Namespace o) v (po_StartInstance o) (po_Ingress o) (po_IngressPort
    o) (po_IngressAnnotations o) (po_ContainerRegistry o) (po_Tag o) (po_ControlplaneReplicas o)
    (po_DataplaneReplicas o) (po_DataplaneType o) (po_Labels o) (po_LogLevel o).
Definition set_po_StartInstance (v : string) (o : PeerOptions) : PeerOptions :=
  mkPeerOptions (po_Name o) (po_Fabric o) (po_Namespace o) (po_Path o) v (po_Ingress o) (po_IngressPort o)
    (po_IngressAnnotations o) (po_ContainerRegistry o) (po_Tag o) (po_ControlplaneReplicas o) (po_DataplaneReplicas
    o) (po_DataplaneType o) (po_Labels o) (po_LogLevel o).
Definition set_po_Ingress (v : string) (o : PeerOptions) : PeerOptions :=
  mkPeerOptions (po_Name o) (po_Fabric o) (po_Namespace o) (po_Path o) (po_StartInstance o) v (po_IngressPort o)
    (po_IngressAnnotations o) (po_ContainerRegistry o) (po_Tag o) (po_ControlplaneReplicas o) (po_DataplaneReplicas
    o) (po_DataplaneType o) (po_Labels o) (po_LogLevel o).
Definition set_po_IngressPort (v : Z) (o : PeerOptions) : PeerOptions :=
  mkPeerOptions (po_Name o) (po_Fabric o) (po_Namespace o) (po_Path o) (po_StartInstance o) (po_Ingress o) v
    (po_IngressAnnotations o) (po_ContainerRegistry o) (po_Tag o) (po_ControlplaneReplicas o) (po_DataplaneReplicas
    o) (po_DataplaneType o) (po_Labels o) (po_LogLevel o).
Definition set_po_IngressAnnotations (v : gmap string string) (o : PeerOptions) : PeerOptions :=
  mkPeerOptions (po_Name o) (po_Fabric o) (po_Namespace o) (po_Path o) (po_StartInstance o) (po_Ingress o)
    (po_IngressPort o) v (po_ContainerRegistry o) (po_Tag o) (po_ControlplaneReplicas o) (po_DataplaneReplicas o)
    (po_DataplaneType o) (po_Labels o) (po_LogLevel o).
Definition set_po_ContainerRegistry (v : string) (o : PeerOptions) : PeerOptions :=
  mkPeerOptions (po_Name o) (po_Fabric o) (po_Namespace o) (po_Path o) (po_StartInstance o) (po_Ingress o)
    (po_IngressPort o) (po_IngressAnnotations o) v (po_Tag o) (po_ControlplaneReplicas o) (po_DataplaneReplicas o)
    (po_DataplaneType o) (po_Labels o) (po_LogLevel o).
Definition set_po_Tag (v : string) (o : PeerOptions) : PeerOptions :=
  mkPeerOptions (po_Name o) (po_Fabric o) (po_Namespace o) (po_Path o) (po_StartInstance o) (po_Ingress o)
    (po_IngressPort o) (po_IngressAnnotations o) (po_ContainerRegistry o) v (po_ControlplaneReplicas o)
    (po_DataplaneReplicas o) (po_DataplaneType o) (po_Labels o) (po_LogLevel o).
Definition set_po_ControlplaneReplicas (v : Z) (o : PeerOptions) : PeerOptions :=
  mkPeerOptions (po_Name o) (po_Fabric o) (po_Namespace o) (po_Path o) (po_StartInstance o) (po_Ingress o)
    (po_IngressPort o) (po_IngressAnnotations o) (po_ContainerRegistry o) (po_Tag o) v (po_DataplaneReplicas o)
    (po_DataplaneType o) (po_Labels o) (po_LogLevel o).
Definition set_po_DataplaneReplicas (v : Z) (o : PeerOptions) : PeerOptions :=
  mkPeerOptions (po_Name o) (po_Fabric o) (po_Namespace o) (po_Path o) (po_StartInstance o) (po_Ingress o)
    (po_IngressPort o) (po_IngressAnnotations o) (po_ContainerRegistry o) (po_Tag o) (po_ControlplaneReplicas o) v
    (po_DataplaneType o) (po_Labels o) (po_LogLevel o).
Definition set_po_DataplaneType (v : string) (o : PeerOptions) : PeerOptions :=
  mkPeerOptions (po_Name o) (po_Fabric o) (po_Namespace o) (po_Path o) (po_StartInstance o) (po_Ingress o)
    (po_IngressPort o) (po_IngressAnnotations o) (po_ContainerRegistry o) (po_Tag o) (po_ControlplaneReplicas o)
    (po_DataplaneReplicas o) v (po_Labels o) (po_LogLevel o).
Definition set_po_Labels (v : gmap string string) (o : PeerOptions) : PeerOptions :=
  mkPeerOptions (po_Name o) (po_Fabric o) (po_Namespace o) (po_Path o) (po_StartInstance o) (po_Ingress o)
    (po_IngressPort o) (po_IngressAnnotations o) (po_ContainerRegistry o) (po_Tag o) (po_ControlplaneReplicas o)
    (po_DataplaneReplicas o) (po_DataplaneType o) v (po_LogLevel o).
Definition set_po_LogLevel (v : string) (o : PeerOptions) : PeerOptions :=
  mkPeerOptions (po_Name o) (po_Fabric o) (po_Namespace o) (po_Path o) (po_StartInstance o) (po_Ingress o)
    (po_IngressPort o) (po_IngressAnnotations o) (po_ContainerRegistry o) (po_Tag o) (po_ControlplaneReplicas o)
    (po_DataplaneReplicas o) (po_DataplaneType o) (po_Labels o) v.

Definition deploy_AddFlags : ST (PeerOptions * FlagSet PeerOptions) unit :=
  StringVar set_po_Name "name" "";;
  StringVar set_po_Fabric "fabric" DefaultFabric;;
  StringVar set_po_Path "path" ".";;
  StringVar set_po_Namespace "namespace" SystemNamespace;;
  StringVar set_po_ContainerRegistry "container-registry" DefaultRegistry;;
  StringVar set_po_Tag "tag" "latest";;
  StringVar set_po_StartInstance "start" StartAll;;
  StringVar set_po_Ingress "ingress" IngressTypeLoadBalancer;;
  Uint16Var set_po_IngressPort "ingress-port" DefaultExternalPort;;
  StringToStringVar set_po_IngressAnnotations "ingress-annotations" ∅;;
  StringVar set_po_DataplaneType "dataplane" DataplaneTypeEnvoy;;
  Uint16Var set_po_ControlplaneReplicas "controlplane-replicas" 1;;
  Uint16Var set_po_DataplaneReplicas "dataplane-replicas" 1;;
  StringToStringVar set_po_Labels "label" ∅;;
  StringVar set_po_LogLevel "log-level" "info".
Definition deploy_RequiredFlags : list string := ["name"].
Definition zero_PeerOptions : PeerOptions := mkPeerOptions "" "" "" "" "" "" 0 ∅ "" "" 0 0 "" ∅ "".

(** ** clusterlink delete *)
Record DeleteOptions := mkDeleteOptions { do_Name : string; do_Namespace : string }.
Definition set_do_Name (v : string) (o : DeleteOptions) : DeleteOptions := mkDeleteOptions v (do_Namespace o).
Definition set_do_Namespace (v : string) (o : DeleteOptions) : DeleteOptions := mkDeleteOptions (do_Name o) v.
Definition delete_AddFlags : ST (DeleteOptions * FlagSet DeleteOptions) unit :=
  StringVar set_do_Name "name" "";;
  StringVar set_do_Namespace "namespace" SystemNamespace.
Definition delete_RequiredFlags : list string := ["name"].

(** ** The tree of clusterlink *)
Section clusterlink.
Context {W : Type} {CK : Clock W} {XL : X509Lib W} {XS : X509Sign W} {FS : Files W} {FY : FileSystem W} {EN : Encodings}.
Context {ID : Idna} {IN : Installer W} {YA : Yaml} {KS : KubeClient W Secret} {KI : KubeClient W Instance_} {CO : Cobra W}.

(** A command that returns. *)
Definition command_Run (f : ST W (outcome (option error))) : ST W exit := r ← f; mret (Some r).

Definition NewCmdCreateFabric : option (Command W) :=
  new_command "fabric" (mkFabricOptions "" "") fabric_AddFlags [] (λ o, command_Run (fabric_Run (fo_Name o) (fo_Path o))).
Definition NewCmdCreatePeerCert : option (Command W) :=
  new_command "peer-cert" (mkPeerCertOptions "" "" "") peer_cert_AddFlags peer_cert_RequiredFlags
    (λ o, command_Run (peer_Run (pc_Name o) (pc_Fabric o) (pc_Path o))).
Definition NewCmdDeployPeer : option (Command W) :=
  new_command "peer" zero_PeerOptions deploy_AddFlags deploy_RequiredFlags (λ o, command_Run (deploy_Run o)).
(** [delete] waits for the instances to go, with the fuel of [delete_Run]. *)
Definition NewCmdDeletePeer (fuel : nat) : option (Command W) :=
  new_command "peer" (mkDeleteOptions "" "") delete_AddFlags delete_RequiredFlags
    (λ o, r ← delete_Run fuel (do_Namespace o); mret (Done <$> r)).

Definition parent_command (use : string) : option (Command W) := Some (mkCommand use [] [] None []).
Definition NewCmdCreate : option (Command W) :=
  AddCommand NewCmdCreatePeerCert (AddCommand NewCmdCreateFabric (parent_command "create")).
Definition NewCmdDeploy : option (Command W) := AddCommand NewCmdDeployPeer (parent_command "deploy").
Definition NewCmdDelete (fuel : nat) : option (Command W) := AddCommand (NewCmdDeletePeer fuel) (parent_command "delete").
Definition NewCLADMCommand (fuel : nat) : option (Command W) :=
  AddCommand (NewCmdDelete fuel) (AddCommand NewCmdDeploy (AddCommand NewCmdCreate (parent_command "clusterlink"))).

Definition cl_adm (fuel : nat) (args : list string) : ST W (option Z) := main (NewCLADMCommand fuel) args.
End clusterlink.

(** ** The other programs *)
Section programs.
Context {LS : LabelSelectors} {NS : NamespacedNameString} {SC : StatusConditions} {SN : ServiceNames}.
Context {TL : TLSLib} {EN : Encodings} {JW : JWTLib} {AP : AnyPB}.
Context {LC : LinearCache Cluster} {LL : LinearCache Listener} {LT : LinearCache TLSSecret}.
Context {W : Type} {FS : Files W} {CE : ControlplaneEnv W} {KC : KubeClient W Secret} {RB : RandBytes W} {LG : LogLib W}.
Context (order : ranger string nat) (lo co : ranger nat (Server (controlplane * W) * string)).
Context (grpcServer httpServer : Server (controlplane * W)) (run : CertsWatcher (W:=controlplane * W) → ST (controlplane * W) (option error)).
Context (close : LogFile → ST W (option error)).
Definition cl_controlplane `{Cobra (logger * (controlplane * W))} (args : list string) : ST (logger * (controlplane * W)) (option Z) :=
  main (NewCLControlplaneCommand (λ o, err ← controlplane_Run order lo co o grpcServer httpServer run close; mret (Some (Done err)))) args.
End programs.

Section dataplanes.
Context {TL : TLSLib} {W L : Type} {FS : Files W} {LG : LogLib W} {TN : TCPNet W L} {EP : EnvoyProcess W} {DE : DataplaneEnv (W:=W) (L:=L)}.
Context (close : LogFile → ST W (option error)) {CO : Cobra (logger * W)}.
Definition cl_dataplane (args : list string) : ST (logger * W) (option Z) :=
  main (NewCLDataplaneCommand (λ o, r ← dataplane_Run o close; mret (Done <$> r))) args.
Definition cl_go_dataplane (args : list string) : ST (logger * W) (option Z) :=
  main (NewCLGoDataplaneCommand (λ o, r ← go_dataplane_Run o close; mret (Done <$> r))) args.
End dataplanes.
