(* ===== verification/CommandFacts.v ===== *)
(** * What the arguments of the programs mean

    The theorems of [Commands]: from the flags of [clusterlink deploy peer] to the options
    of the programs in the containers, and to the attributes the policies see. *)
From S2P Require Export Commands Controllers.
From stdpp Require Import options.
From Stdlib Require Import Ascii ZArith Lia.

#[local] Set Default Proof Using "Type*".

(** ** The arguments of the containers *)

(** Labels that the syntax of the flags leaves as they are. *)
Definition plain_labels (m : gmap string string) : Prop := ∀ k v, m !! k = Some v → plain k = true ∧ plain v = true.

Definition controlplane_settings (level : string) (labels : list (string * string)) : list setting :=
  mkSetting "log-level" (AString level) false :: map (λ kv, mkSetting "peer-label" (APair kv.1 kv.2) false) labels.
Definition dataplane_settings (level host : string) : list setting :=
  [mkSetting "log-level" (AString level) false; mkSetting "controlplane-host" (AString host) false].

Lemma controlplane_settings_args level labels :
  flag_args (controlplane_settings level labels) =
  ["--log-level"; level] ++ concat (map (λ kv, ["--peer-label"; kv.1 +:+ "=" +:+ kv.2]) labels).
Proof. unfold flag_args, controlplane_settings. cbn [map concat]. rewrite map_map. done. Qed.

Lemma insert_pairs_app l1 l2 m : foldl insert_pair m (l1 ++ l2) = foldl insert_pair (foldl insert_pair m l1) l2.
Proof. apply foldl_app. Qed.

(** Ranging over a map and putting the pairs back gives the map. *)
Lemma insert_pairs_lookup l k v : NoDup l.*1 → (k, v) ∈ l → ∀ m, foldl insert_pair m l !! k = Some v.
Proof.
  assert (∀ l m, k ∉ l.*1 → foldl insert_pair m l !! k = m !! k) as Hout.
  { clear. induction l as [|[k' v'] l IH]; intros m Hn; [done|]. simpl in *. apply not_elem_of_cons in Hn as [? ?].
    rewrite IH by done. unfold insert_pair. cbn [fst snd]. by rewrite lookup_insert_ne. }
  induction l as [|[k' v'] l IH]; [intros _ H; by apply elem_of_nil in H|].
  intros [Hn Hnd]%NoDup_cons Hin m. simpl. apply elem_of_cons in Hin as [[= -> ->]|Hin]; [|by apply IH].
  rewrite Hout by done. apply lookup_insert_eq.
Qed.
Lemma insert_pairs_elem l k v : ∀ m, foldl insert_pair m l !! k = Some v → (k, v) ∈ l ∨ m !! k = Some v.
Proof.
  induction l as [|[k' v'] l IH]; intros m; simpl; [by right|]. intros [Hin|Hm]%IH; [left; by right|].
  unfold insert_pair in Hm. cbn [fst snd] in Hm. apply lookup_insert_Some in Hm as [[-> <-]|[_ Hm]]; [left; left|by right].
Qed.
Lemma insert_pairs_range (order : ranger string string) m : foldl insert_pair ∅ (order m) = m.
Proof.
  apply map_eq. intros k. apply option_eq. intros v. split.
  - intros [Hin|Hm]%insert_pairs_elem; [by apply elem_of_range in Hin|by rewrite lookup_empty in Hm].
  - intros Hm. apply insert_pairs_lookup; [apply NoDup_range_fst|by apply elem_of_range].
Qed.

Lemma controlplane_pairs level labels : map_flag "peer-label" (controlplane_settings level labels) = foldl insert_pair ∅ labels.
Proof.
  unfold map_flag. f_equal. unfold pairs_of, controlplane_settings. cbn [omap list_omap st_arg].
  induction labels as [|[k v] labels IH]; [done|]. cbn [map omap list_omap st_arg st_name fst snd].
  rewrite decide_True by done. by f_equal.
Qed.

Lemma controlplane_settings_ok level labels flags :
  kind_of flags "log-level" = Some KString → kind_of flags "peer-label" = Some KStringToString →
  Forall (λ kv, plain kv.1 = true ∧ plain kv.2 = true) labels → settings_ok flags (controlplane_settings level labels) = true.
Proof.
  intros Hl Hp Hall. cbn [controlplane_settings settings_ok forallb]. unfold setting_ok at 1. cbn [st_name st_arg]. rewrite Hl.
  cbn [arg_ok andb]. induction Hall as [|kv labels [Hk Hv] Hall IH]; [done|]. cbn [map forallb]. rewrite IH.
  unfold setting_ok. cbn [st_name st_arg]. rewrite Hp. cbn [arg_ok]. by rewrite Hk, Hv.
Qed.

Lemma labels_keep_level level l : ∀ m, m !! "log-level" = Some (VString level) →
  foldl set_flag m (map (λ kv, mkSetting "peer-label" (APair kv.1 kv.2) false) l) !! "log-level" = Some (VString level).
Proof.
  induction l as [|kv l IH]; intros m Hm; [done|]. cbn [map foldl]. apply IH. unfold set_flag. cbn [st_name].
  by rewrite lookup_insert_ne.
Qed.

(** What a map flag is given is plain. *)
Lemma map_flag_plain flags given name : kind_of flags name = Some KStringToString → settings_ok flags given = true →
  plain_labels (map_flag name given).
Proof.
  intros Hk Hok k v Hin. apply insert_pairs_elem in Hin as [Hin|Hin]; [|by rewrite lookup_empty in Hin].
  apply list_elem_of_omap in Hin as (x & Hx%list_elem_of_In & Hin).
  unfold settings_ok in Hok. rewrite forallb_forall in Hok. specialize (Hok x Hx). unfold setting_ok in Hok.
  destruct (st_arg x) as [?|?|k' v'] eqn:Ha; [done..|]. case_decide as Hn; [|done]. injection Hin as -> ->.
  rewrite Hn, Hk in Hok. by apply andb_true_iff in Hok.
Qed.

Section mains.
Context {S : Type} {CO : Cobra S} {CL : CobraLaws S}.

Lemma controlplane_main (Run : ControlplaneOptions → ST S exit) (order : ranger string string) level labels s :
  plain_labels labels →
  main (NewCLControlplaneCommand Run)
    (["--log-level"; level] ++ concat (map (λ kv, ["--peer-label"; kv.1 +:+ "=" +:+ kv.2]) (order labels))) s =
  run_main (Run (mkCpOptions "" level labels)) s.
Proof.
  intros Hplain. rewrite <- controlplane_settings_args. set (given := controlplane_settings level (order labels)).
  assert (settings_ok (flag_kinds (controlplane_AddFlags (mkCpOptions "" "" ∅, [])).2.2) given = true) as Hok.
  { apply controlplane_settings_ok; [done..|]. apply Forall_forall. intros [k v] Hin%elem_of_range. by apply Hplain. }
  assert (changed given !! "log-file" = None) as Hfile.
  { apply changed_none. unfold given. cbn. intros [?|Hin]%elem_of_cons; [done|]. rewrite map_map in Hin.
    by apply list_elem_of_fmap in Hin as (? & ? & _). }
  assert (changed given !! "log-level" = Some (VString level)) as Hlevel.
  { unfold changed, given. cbn [controlplane_settings foldl]. apply labels_keep_level. apply lookup_insert_eq. }
  pose proof (controlplane_pairs level (order labels)) as Hm. fold given in Hm. rewrite insert_pairs_range in Hm.
  pose proof (λ Hk, map_flag_value _ given "peer-label" Hk Hok) as Hlabels. specialize (Hlabels eq_refl).
  rewrite Hm in Hlabels. clearbody given.
  unfold NewCLControlplaneCommand. rewrite main_leaf; [|by constructor|by vm_compute|done|by constructor].
  replace (bind_options _ _ _) with (mkCpOptions "" level labels); [done|].
  unfold bind_options, controlplane_AddFlags, StringVar, StringToStringVar. unfold_st. cbn -[lookup].
  rewrite Hfile, Hlevel.
  by destruct Hlabels as [-> | [-> ->]].
Qed.

Lemma dataplane_main (Run : EnvoyOptions → ST S exit) level host s :
  main (NewCLDataplaneCommand Run) ["--log-level"; level; "--controlplane-host"; host] s =
    run_main (Run (mkEnvoyOptions host "" level)) s ∧
  main (NewCLGoDataplaneCommand Run) ["--log-level"; level; "--controlplane-host"; host] s =
    run_main (Run (mkEnvoyOptions host "" level)) s.
Proof.
  change ["--log-level"; level; "--controlplane-host"; host] with (flag_args (dataplane_settings level host)).
  split; unfold NewCLDataplaneCommand, NewCLGoDataplaneCommand.
  all: rewrite main_leaf; [|by repeat constructor|by vm_compute|by vm_compute|repeat constructor; cbn; set_solver].
  all: done.
Qed.
End mains.

(** ** The deployments *)
Section containers.
Context {LS : LabelSelectors} {NS : NamespacedNameString} {SC : StatusConditions} {SN : ServiceNames}.
Context {TL : TLSLib} {EN : Encodings} {JW : JWTLib} {AP : AnyPB}.
Context {LC : LinearCache Cluster} {LL : LinearCache Listener} {LT : LinearCache TLSSecret}.
Context {W L : Type} {FS : Files W} {CE : ControlplaneEnv W} {KC : KubeClient W Secret} {RB : RandBytes W} {LG : LogLib W}.
Context {TN : TCPNet W L} {EP : EnvoyProcess W} {DE : DataplaneEnv (W:=W) (L:=L)}.
Context (order : ranger string nat) (lo co : ranger nat (Server (controlplane * W) * string)).
Context (grpcServer httpServer : Server (controlplane * W)) (run : CertsWatcher (W:=controlplane * W) → ST (controlplane * W) (option error)).
Context (close : LogFile → ST W (option error)).
Context {CC : Cobra (logger * (controlplane * W))} {CD : Cobra (logger * W)}.
Context {LCC : CobraLaws (logger * (controlplane * W))} {LCD : CobraLaws (logger * W)}.

(** What the program of a container does when it is started with its arguments: it runs
    with these options, logging to standard error. *)
Definition runs_controlplane (d : Deployment) (level : string) (labels : gmap string string) : Prop :=
  ∀ c s, c ∈ dep_Containers d →
    cl_controlplane order lo co grpcServer httpServer run close (ct_Args c) s =
    run_main (err ← controlplane_Run order lo co (mkCpOptions "" level labels) grpcServer httpServer run close;
              mret (Some (Done err))) s.
Definition runs_dataplane (d : Deployment) (level host : string) : Prop :=
  ∀ c s, c ∈ dep_Containers d →
    cl_dataplane close (ct_Args c) s = run_main (r ← dataplane_Run (mkEnvoyOptions host "" level) close; mret (Done <$> r)) s ∧
    cl_go_dataplane close (ct_Args c) s = run_main (r ← go_dataplane_Run (mkEnvoyOptions host "" level) close; mret (Done <$> r)) s.

Lemma operator_controlplane_runs labels_order i : plain_labels (isp_PeerLabels (in_Spec i)) →
  runs_controlplane (controlplane_deployment labels_order i) (isp_LogLevel (in_Spec i)) (isp_PeerLabels (in_Spec i)).
Proof using LCC. intros Hp c s ->%list_elem_of_singleton. by apply controlplane_main. Qed.
Lemma template_controlplane_runs {A : Type} {XL : X509Lib A} labels_order (cfg : Config) : plain_labels (cfg_PeerLabels cfg) →
  runs_controlplane (k8s_controlplane labels_order cfg) (cfg_LogLevel cfg) (cfg_PeerLabels cfg).
Proof using LCC. intros Hp c s ->%list_elem_of_singleton. by apply controlplane_main. Qed.

End containers.

(** ** clusterlink *)
Section adm.
Context {W : Type} {CK : Clock W} {XL : X509Lib W} {XS : X509Sign W} {FS : Files W} {FY : FileSystem W} {EN : Encodings}.
Context {ID : Idna} {IN : Installer W} {YA : Yaml} {KS : KubeClient W Secret} {KI : KubeClient W Instance_}.
Context {CO : Cobra W} {CL : CobraLaws W}.

(** The options that the flags [given] set. *)
Definition deploy_options (given : list setting) : PeerOptions :=
  let os := (deploy_AddFlags (zero_PeerOptions, [])).2 in bind_options os.2 (changed given) os.1.
Definition delete_options (given : list setting) : DeleteOptions :=
  let os := (delete_AddFlags (mkDeleteOptions "" "", [])).2 in bind_options os.2 (changed given) os.1.
Definition peer_cert_options (given : list setting) : PeerCertOptions :=
  let os := (peer_cert_AddFlags (mkPeerCertOptions "" "" "", [])).2 in bind_options os.2 (changed given) os.1.
Definition fabric_options (given : list setting) : FabricOptions :=
  let os := (fabric_AddFlags (mkFabricOptions "" "", [])).2 in bind_options os.2 (changed given) os.1.
Definition deploy_kinds : list (string * flag_kind) := flag_kinds (deploy_AddFlags (zero_PeerOptions, [])).2.2.
Definition delete_kinds : list (string * flag_kind) := flag_kinds (delete_AddFlags (mkDeleteOptions "" "", [])).2.2.
Definition peer_cert_kinds : list (string * flag_kind) := flag_kinds (peer_cert_AddFlags (mkPeerCertOptions "" "" "", [])).2.2.
Definition fabric_kinds : list (string * flag_kind) := flag_kinds (fabric_AddFlags (mkFabricOptions "" "", [])).2.2.

Lemma adm_command fuel : ∃ c, NewCLADMCommand fuel = Some c ∧
  find_command ["create"; "fabric"] c = Some (leaf_command "fabric" (mkFabricOptions "" "") fabric_AddFlags []
    (λ o, command_Run (fabric_Run (fo_Name o) (fo_Path o)))) ∧
  find_command ["create"; "peer-cert"] c = Some (leaf_command "peer-cert" (mkPeerCertOptions "" "" "") peer_cert_AddFlags
    peer_cert_RequiredFlags (λ o, command_Run (peer_Run (pc_Name o) (pc_Fabric o) (pc_Path o)))) ∧
  find_command ["deploy"; "peer"] c = Some (leaf_command "peer" zero_PeerOptions deploy_AddFlags deploy_RequiredFlags
    (λ o, command_Run (deploy_Run o))) ∧
  find_command ["delete"; "peer"] c = Some (leaf_command "peer" (mkDeleteOptions "" "") delete_AddFlags delete_RequiredFlags
    (λ o, r ← delete_Run fuel (do_Namespace o); mret (Done <$> r))).
Proof.
  unfold NewCLADMCommand, NewCmdCreate, NewCmdDeploy, NewCmdDelete, NewCmdCreateFabric, NewCmdCreatePeerCert, NewCmdDeployPeer, NewCmdDeletePeer.
  rewrite !new_command_some by (repeat constructor; cbn; set_solver).
  unfold AddCommand, parent_command. eexists. by split_and!.
Qed.

(** One of the commands of the tree. *)
Lemma adm_runs fuel path use {O} (zero : O) AddFlags required (Run : O → ST W exit) given w c :
  NewCLADMCommand fuel = Some c → find_command path c = Some (leaf_command use zero AddFlags required Run) →
  let os := (AddFlags (zero, [])).2 in
  forallb name_ok path && forallb name_ok (flag_kinds os.2).*1 && bool_decide (NoDup (flag_kinds os.2).*1) = true →
  settings_ok (flag_kinds os.2) given = true →
  (Forall (λ n, n ∈ map st_name given) required →
   cl_adm fuel (path ++ flag_args given) w = run_main (Run (bind_options os.2 (changed given) os.1)) w) ∧
  (¬ Forall (λ n, n ∈ map st_name given) required → cl_adm fuel (path ++ flag_args given) w = (Some 1%Z, w)).
Proof. intros Hc Hf. unfold cl_adm. rewrite Hc. exact (main_command c path use zero AddFlags required Run given w Hf). Qed.

Lemma deploy_main fuel given w : settings_ok deploy_kinds given = true → "name" ∈ map st_name given →
  cl_adm fuel (["deploy"; "peer"] ++ flag_args given) w = run_main (command_Run (deploy_Run (deploy_options given))) w.
Proof.
  intros Hok Hn. destruct (adm_command fuel) as (c & Hc & _ & _ & Hd & _).
  destruct (adm_runs fuel ["deploy"; "peer"] _ _ _ _ _ given w c Hc Hd eq_refl Hok) as [Hr _].
  apply Hr. by constructor.
Qed.

(** C39: each of the four subcommands runs with the options its flags spell, the
    defaults where a flag is not given, and exits with the status of the run; when the
    required name is missing it exits with status one, and neither the cluster nor the file
    system is touched. *)
Theorem subcommands_run fuel given w :
  (settings_ok fabric_kinds given = true →
     cl_adm fuel (["create"; "fabric"] ++ flag_args given) w =
     run_main (command_Run (fabric_Run (fo_Name (fabric_options given)) (fo_Path (fabric_options given)))) w) ∧
  (settings_ok peer_cert_kinds given = true →
     cl_adm fuel (["create"; "peer-cert"] ++ flag_args given) w =
     if decide ("name" ∈ map st_name given) then
       let o := peer_cert_options given in run_main (command_Run (peer_Run (pc_Name o) (pc_Fabric o) (pc_Path o))) w
     else (Some 1%Z, w)) ∧
  (settings_ok deploy_kinds given = true →
     cl_adm fuel (["deploy"; "peer"] ++ flag_args given) w =
     if decide ("name" ∈ map st_name given) then run_main (command_Run (deploy_Run (deploy_options given))) w else (Some 1%Z, w)) ∧
  (settings_ok delete_kinds given = true →
     cl_adm fuel (["delete"; "peer"] ++ flag_args given) w =
     if decide ("name" ∈ map st_name given)
     then run_main (r ← delete_Run fuel (do_Namespace (delete_options given)); mret (Done <$> r)) w else (Some 1%Z, w)).
Proof.
  destruct (adm_command fuel) as (c & Hc & H1 & H2 & H3 & H4).
  assert (∀ P : string → Prop, Forall P ["name"] ↔ P "name") as Hone by (intros P; by rewrite Forall_singleton).
  split_and!; intros Hok.
  - by apply (adm_runs fuel ["create"; "fabric"] _ _ _ _ _ given w c Hc H1).
  - destruct (adm_runs fuel ["create"; "peer-cert"] _ _ _ _ _ given w c Hc H2 eq_refl Hok) as [Hr Hm].
    case_decide as Hn; [apply Hr|apply Hm]; by rewrite Hone.
  - destruct (adm_runs fuel ["deploy"; "peer"] _ _ _ _ _ given w c Hc H3 eq_refl Hok) as [Hr Hm].
    case_decide as Hn; [apply Hr|apply Hm]; by rewrite Hone.
  - destruct (adm_runs fuel ["delete"; "peer"] _ _ _ _ _ given w c Hc H4 eq_refl Hok) as [Hr Hm].
    case_decide as Hn; [apply Hr|apply Hm]; by rewrite Hone.
Qed.
End adm.

Definition label_flag : flag PeerOptions :=
  mkFlag "label" KStringToString (λ v, match v with VStringToString x => set_po_Labels x | _ => no_set v end).
Lemma deploy_options_labels given : settings_ok deploy_kinds given = true →
  po_Labels (deploy_options given) = map_flag "label" given.
Proof.
  intros Hok. unfold deploy_options. cbv zeta. set (os := (deploy_AddFlags _).2).
  replace os.2 with (take 13 os.2 ++ [label_flag] ++ drop 14 os.2) by reflexivity. rewrite !bind_options_app.
  rewrite bind_options_untouched by (by repeat constructor; intros [] o). set (o := bind_options (take 13 os.2) _ _).
  assert (po_Labels o = ∅) as Ho by (unfold o; rewrite bind_options_untouched by (by repeat constructor; intros [] o'); done).
  clearbody o. unfold bind_options. cbn [foldl fl_name fl_set label_flag].
  by destruct (map_flag_value deploy_kinds given "label" eq_refl Hok) as [-> | [-> ->]].
Qed.

(** *** The labels of the peer in the control plane *)
Section labels.
Context {LS : LabelSelectors} {NS : NamespacedNameString} {SC : StatusConditions}.
Context {TL : TLSLib} {EN : Encodings} {JW : JWTLib}.
Context {W : Type} {KPol : KubeClient W AccessPolicyCR} {KPriv : KubeClient W PrivilegedAccessPolicy}.
Context {KP : KubeClient W Peer} {KI : KubeClient W Import} {KE : KubeClient W Export}.
Context {KS : KubeClient W Secret} {KPod : KubeClient W Pod}.

Definition same_labels (s s' : Authz.Manager * W) : Prop := peerLabels s'.1 = peerLabels s.1.
#[local] Instance same_labels_preorder : PreOrder same_labels.
Proof. split; [done|]. unfold same_labels. by intros a b c -> ->. Qed.

Lemma reconcile_labels {T R} `{KubeClient W T} `{HandlerResult R} (spec : Spec W T Authz.Manager R) n :
  (∀ x, keeps same_labels (AddHandler spec x)) → keeps same_labels (DeleteHandler spec n) → keeps same_labels (Reconcile spec n).
Proof.
  intros Ha Hd. unfold Reconcile. apply keeps_bind; [apply _| |].
  { intros [m w]. unfold same_labels, outside. cbn [fst snd]. by destruct (kGet n w). }
  intros [x|err]; [apply Ha|].
  destruct (IsNotFound err); [apply Hd|by intros s].
Qed.
Lemma inside_labels {A} (f : ST Authz.Manager A) : (∀ m, peerLabels (f m).2 = peerLabels m) → keeps same_labels (inside f).
Proof. intros Hf [m w]. unfold same_labels, inside. specialize (Hf m). cbn [fst snd]. by destruct (f m). Qed.
Lemma run_op_labels op : keeps same_labels (run_authz_op (W:=W) op).
Proof.
  intros s.
  destruct op as [req|tls|f]; [|destruct s as [m w]; unfold same_labels; cbn [run_authz_op]; unfold_st; unfold inside;
    cbn [fst snd]; unfold Authz.SetPeerCertificates; by destruct (DNSNames tls)|done].
  revert s. destruct req as [n|n|n|n|n|n|n]; cbn [run_authz_op authz_reconcile].
  all: try (apply keeps_bind; [apply _| |intros ?; apply keeps_ret; apply _]).
  all: apply reconcile_labels; [intros x|]; try by intros [m w]. all: cbn; apply inside_labels; intros m.
  - unfold AddAccessPolicy. by destruct (AddOrUpdatePolicy _ _).
  - unfold DeleteAccessPolicy. by destruct (DeletePolicy _ _ _).
  - unfold AddAccessPolicy. by destruct (AddOrUpdatePolicy _ _).
  - unfold DeleteAccessPolicy. by destruct (DeletePolicy _ _ _).
  - unfold Authz.AddPeer. by destruct (peerTLS m).
  - unfold Authz.addSecret. case_decide; [done|]. destruct (ParseJWKSSecret x) as [key|]; [|done]. by destruct (jwk_New key).
Qed.
Lemma run_authz_labels ops s : peerLabels (run_authz ops s).2.1 = peerLabels s.1.
Proof.
  revert s. induction ops as [|op ops IH]; intros s; [done|]. unfold run_authz in *. cbn [run_list]. unfold_st.
  pose proof (run_op_labels op s) as Hop. unfold same_labels in Hop. destruct (run_authz_op op s) as [r s1]. cbn [fst snd] in *.
  specialize (IH s1). destruct (run_list run_authz_op ops s1) as [rs s2]. cbn [fst snd] in *. by rewrite IH.
Qed.
End labels.

(** *** From the command line to the policies *)
Section reach.
Context {LS : LabelSelectors} {NS : NamespacedNameString} {SC : StatusConditions} {SN : ServiceNames}.
Context {TL : TLSLib} {EN : Encodings} {JW : JWTLib} {AP : AnyPB}.
Context {LC : LinearCache Cluster} {LL : LinearCache Listener} {LT : LinearCache TLSSecret}.
(** The machine of the administrator. *)
Context {A : Type} {CK : Clock A} {XL : X509Lib A} {XS : X509Sign A} {FA : Files A} {FY : FileSystem A}.
Context {ID : Idna} {IN : Installer A} {YA : Yaml} {KSA : KubeClient A Secret} {KIA : KubeClient A Instance_}.
Context {CA : Cobra A} {CLA : CobraLaws A}.
(** The cluster. *)
Context {W : Type} {FS : Files W} {CE : ControlplaneEnv W} {KC : KubeClient W Secret} {RB : RandBytes W} {LG : LogLib W}.
Context {KPol : KubeClient W AccessPolicyCR} {KPriv : KubeClient W PrivilegedAccessPolicy}.
Context {KP : KubeClient W Peer} {KI : KubeClient W Import} {KE : KubeClient W Export} {KPod : KubeClient W Pod}.
Context (order : ranger string nat) (lo co : ranger nat (Server (controlplane * W) * string)).
Context (grpcServer httpServer : Server (controlplane * W)) (run : CertsWatcher (W:=controlplane * W) → ST (controlplane * W) (option error)).
Context (close : LogFile → ST W (option error)).
Context {CC : Cobra (logger * (controlplane * W))} {LCC : CobraLaws (logger * (controlplane * W))}.

(** The deployments of the control plane that [deploy peer] leads to: that of the operator,
    for the instance it makes, and that of the template. *)
Definition deployed_controlplane (labels_order : ranger string string) (cfg : Config) (d : Deployment) : Prop :=
  (∃ name i, K8SClusterLinkInstanceConfig cfg name = Ok i ∧
     d = controlplane_deployment labels_order (set_registry (registry_with_slash (isp_ContainerRegistry (in_Spec i))) i)) ∨
  d = k8s_controlplane labels_order cfg.

Lemma deployed_controlplane_runs labels_order cfg d : plain_labels (cfg_PeerLabels cfg) → deployed_controlplane labels_order cfg d →
  runs_controlplane order lo co grpcServer httpServer run close d (cfg_LogLevel cfg) (cfg_PeerLabels cfg).
Proof.
  intros Hp [(name & i & Hi & ->)| ->]; [|by apply template_controlplane_runs].
  unfold K8SClusterLinkInstanceConfig in Hi. match type of Hi with (if ?b then _ else _) = _ => destruct b; [done|] end.
  injection Hi as <-. apply (operator_controlplane_runs order lo co grpcServer httpServer run close). done.
Qed.

(** Labels that the control plane is set up with are attributes of every pod. *)
Lemma setup_labels level labels s watcher s' ops w' req info k v :
  controlplane_setup order (mkCpOptions "" level labels) s = (Ok watcher, s') →
  let m := (run_authz ops (cpl_authz s'.1, w')).2.1 in
  getPodInfoByIP (ereq_IP req) m = Some info → labels !! k = Some v →
  getSrcAttributes req m !! (PeerLabelsPrefix +:+ k) = Some v.
Proof using Type.
  intros (parsed & raw & cm & _ & Ha & _)%controlplane_setup_ok m Hi Hk.
  unfold getSrcAttributes. rewrite Hi. apply prefix_labels_label. unfold m. rewrite run_authz_labels. cbn [fst].
  unfold Authz.SetPeerCertificates in Ha. destruct (DNSNames parsed); [done|]. by injection Ha as <-.
Qed.

Lemma deploy_labels given : settings_ok deploy_kinds given = true →
  po_Labels (deploy_options given) = foldl insert_pair ∅ (pairs_of "label" given) ∧ plain_labels (po_Labels (deploy_options given)).
Proof using Type.
  intros Hok. rewrite (deploy_options_labels given Hok). split; [reflexivity|].
  apply (map_flag_plain deploy_kinds given "label"); [reflexivity|exact Hok].
Qed.

Lemma options_reach o : plain_labels (po_Labels o) →
  ∀ fabric peer ca cp dp labels_order d,
    deployed_controlplane labels_order (platform_config o fabric peer ca cp dp) d →
    runs_controlplane order lo co grpcServer httpServer run close d (po_LogLevel o) (po_Labels o) ∧
    ∀ s watcher s' ops w',
      controlplane_setup order (mkCpOptions "" (po_LogLevel o) (po_Labels o)) s = (Ok watcher, s') →
      let m := (run_authz ops (cpl_authz s'.1, w')).2.1 in
      ∀ req info k v, getPodInfoByIP (ereq_IP req) m = Some info → po_Labels o !! k = Some v →
        getSrcAttributes req m !! (PeerLabelsPrefix +:+ k) = Some v.
Proof.
  intros Hp fabric peer ca cp dp labels_order d Hd.
  split; [exact (deployed_controlplane_runs labels_order (platform_config o fabric peer ca cp dp) d Hp Hd)|].
  intros s watcher s' ops w' Hs m req info k v Hi Hk. exact (setup_labels _ _ s watcher s' ops w' req info k v Hs Hi Hk).
Qed.

End reach.

(** ** Two quirks *)
Section quirks.
Context {W : Type} {CK : Clock W} {XL : X509Lib W} {XS : X509Sign W} {FS : Files W} {FY : FileSystem W} {EN : Encodings}.
Context {ID : Idna} {IN : Installer W} {YA : Yaml} {KS : KubeClient W Secret} {KI : KubeClient W Instance_}.
Context {CO : Cobra W} {CL : CobraLaws W}.

(** [delete peer] requires a name and does not look at it. *)
Lemma delete_name_ignored fuel n n' ns j w :
  let args n := ["delete"; "peer"] ++ flag_args [mkSetting "name" (AString n) j; mkSetting "namespace" (AString ns) j] in
  cl_adm fuel (args n) w = cl_adm fuel (args n') w ∧
  cl_adm fuel (args n) w = run_main (r ← delete_Run fuel ns; mret (Done <$> r)) w.
Proof.
  cbv zeta. destruct (adm_command fuel) as (c & Hc & _ & _ & _ & Hd).
  assert (∀ n, cl_adm fuel (["delete"; "peer"] ++ flag_args [mkSetting "name" (AString n) j; mkSetting "namespace" (AString ns) j]) w =
    run_main (r ← delete_Run fuel ns; mret (Done <$> r)) w) as E; [|by rewrite !E].
  clear n n'. intros n.
  destruct (adm_runs fuel ["delete"; "peer"] _ _ _ _ _ [mkSetting "name" (AString n) j; mkSetting "namespace" (AString ns) j]
    w c Hc Hd eq_refl eq_refl) as [Hr _]. apply Hr. repeat constructor.
Qed.

(** With the name alone, the defaults are accepted: the operator is to make a load
    balancer on port 443 for the Envoy data plane, and so is the template. *)
Lemma default_deployment n j fabric peer ca cp dp name :
  let o := deploy_options [mkSetting "name" (AString n) j] in
  let cfg := platform_config o fabric peer ca cp dp in
  verifyDataplaneType (po_DataplaneType o) = None ∧ verifyStartInstance (po_StartInstance o) = None ∧
  ∃ i svc, K8SClusterLinkInstanceConfig cfg name = Ok i ∧ k8SIngressConfig cfg = Ok svc ∧
    map svp_Port (svcs_Ports (external_service i)) = [443%Z] ∧ map svp_Port (svcs_Ports svc) = [443%Z] ∧
    svcs_Type (external_service i) = "LoadBalancer" ∧ svcs_Type svc = "LoadBalancer" ∧
    isp_DataPlaneType (in_Spec i) = DataplaneTypeEnvoy ∧ isp_Namespace (in_Spec i) = SystemNamespace.
Proof.
  cbv zeta. assert (deploy_options [mkSetting "name" (AString n) j] = mkPeerOptions n DefaultFabric SystemNamespace "."
    StartAll IngressTypeLoadBalancer DefaultExternalPort ∅ DefaultRegistry "latest" 1 1 DataplaneTypeEnvoy ∅ "info") as ->
    by (vm_compute; reflexivity).
  split; [reflexivity|split; [reflexivity|]]. eexists _, _. split; [reflexivity|]. split; [reflexivity|].
  repeat split; reflexivity.
Qed.
End quirks.

(** ** Witnesses *)
#[local] Existing Instance ref_cobra.
#[local] Existing Instance ref_cobra_laws.
#[local] Existing Instance store_here | 1.
#[local] Existing Instance store_there | 2.
#[local] Existing Instances here_laws there_laws mem_client.
#[local] Existing Instances ref_labelselectors ref_nn_string ref_tls ref_jwt ref_anypb.
#[local] Existing Instances x_clusters x_listeners x_secrets cp_names cp_clock cp_rand cp_files cp_env.
#[local] Instance cp_log : LogLib cp_api := {|
  LogFile := nat; user_HomeDir := mret (Ok "/root"); os_MkdirAll _ := mret None; os_OpenFile _ := mret (Ok 0);
  LogLevel := string; ErrorLevel := "error"; log_ParseLevel s := Ok s
|}.
#[local] Instance cp_tcp : TCPNet cp_api nat := {|
  net_Listen _ := mret (Ok 0); lis_Close _ := mret None
|}.
#[local] Instance cp_envoy : EnvoyProcess cp_api := λ _ _, mret None.
#[local] Instance cp_dataplane : DataplaneEnv (W:=cp_api) (L:=nat) := {|
  uuid_New := mret "id"; grpc_NewClient _ _ := mret None; go_DataplaneServer _ := mret tt; go_ReadinessServer _ := mret tt;
  type_url r := match r with Res_Cluster => "Cluster" | Res_Listener => "Listener" | Res_Secret => "Secret" end;
  fetcher_order := std_ranger
|}.
Definition wc_server : Server (controlplane * cp_api) := mkServer "server" (λ _, mret None) (mret None).
Definition wc_run (_ : CertsWatcher (W:=controlplane * cp_api)) : ST (controlplane * cp_api) (option error) := mret None.
Definition wc_close (_ : LogFile (W:=cp_api)) : ST cp_api (option error) := mret None.

Definition wc_instance : Instance_ := set_registry "ghcr.io/" da_i.
Definition wc_args : list string := concat (map ct_Args (dep_Containers (controlplane_deployment std_ranger wc_instance))).
Definition wc_options : ControlplaneOptions := mkCpOptions "" "info" {[ "zone" := "a" ]}.


(** A peer with two labels, one of which is given twice, and a pod of it. *)
Definition wl_given : list setting :=
  [mkSetting "name" (AString "peer1") false; mkSetting "label" (APair "zone" "b") true;
   mkSetting "ingress" (AString "NodePort") true; mkSetting "ingress-port" (AUint16 30443) true;
   mkSetting "label" (APair "tier" "gold") false; mkSetting "label" (APair "zone" "a") true].
Abbreviation wl_options := (deploy_options wl_given).
Definition wl_deployment : Deployment :=
  k8s_controlplane std_ranger (platform_config wl_options blank blank blank blank blank).
Definition wl_pod : Pod := mkPod (mkMeta "client" "default" ∅) "default" ["10.0.0.9"] "10.0.0.1".
Definition wl_key : NamespacedName := mkNN "default" "client".
Definition wl_ops : list (authz_op (W:=cp_api)) :=
  [AuthzWorld (λ w, (kCreate (T:=Pod) wl_pod w).2); AuthzReq (AuthzPod wl_key)].
Abbreviation wl_setup := (controlplane_setup std_ranger (mkCpOptions "" (po_LogLevel wl_options) (po_Labels wl_options)) cp_start).
Abbreviation wl_manager := (run_authz wl_ops (cpl_authz wl_setup.2.1, cp_start.2)).2.1.
Definition wl_req : egressAuthorizationRequest := mkEgressReq (mkNN "default" "svc") "10.0.0.9".


Definition ws_given : list setting := [mkSetting "fabric" (AString "f") true].
Lemma subcommands_run_witness :
  cl_adm 3 ["deploy"; "peer"; "--fabric=f"] fb_2 = (Some 1%Z, fb_2) ∧
  cl_adm 3 ["delete"; "peer"; "--name"; "peer1"] fb_2 = run_main (r ← delete_Run 3 SystemNamespace; mret (Done <$> r)) fb_2.
Proof.
  destruct (subcommands_run 3 ws_given fb_2) as (_ & _ & Hd & _).
  destruct (subcommands_run 3 [mkSetting "name" (AString "peer1") false] fb_2) as (_ & _ & _ & Hx).
  split; [exact (Hd eq_refl)|exact (Hx eq_refl)].
Defined.
