(* ===== verification/OperatorProgram.v ===== *)
(** * The operator program

    [cmd/cl-operator/main.go] and [SetupWithManager] of
    [pkg/operator/controller/instance_controller.go]: the flags, the manager of
    controller-runtime (a third-party class), what it watches, and a run of the reconciler.
    The theorems: a namespace stays with the instance that got it first, and its deployments
    are the ones that instance asks for. *)
From S2P Require Export OperatorFacts Reconciler.
From stdpp Require Import options.
From Stdlib Require Import Ascii ZArith Lia.

#[local] Set Default Proof Using "Type".

(** ** The flags: package [flag] of the standard library *)
Inductive goflag := GoString | GoBool.

(** [strconv.ParseBool] *)
Definition ParseBool (s : string) : option bool :=
  if decide (s ∈ ["1"; "t"; "T"; "TRUE"; "true"; "True"]) then Some true
  else if decide (s ∈ ["0"; "f"; "F"; "FALSE"; "false"; "False"]) then Some false
  else None.

Inductive parsed := Parsed (values : gmap string string) (rest : list string) | ParseHelp | ParseError.

(** The name of a flag without its dashes; [None] ends the flags. *)
Definition flag_body (arg : string) : option string :=
  match arg with
  | String "-" (String "-" EmptyString) => None
  | String "-" EmptyString => None
  | String "-" (String "-" body) => Some body
  | String "-" body => Some body
  | _ => None
  end.

(** [FlagSet.Parse]: the texts that the flags are given; the last one counts. *)
Fixpoint flag_Parse (flags : string → option goflag) (args : list string) (m : gmap string string) : parsed :=
  match args with
  | [] => Parsed m []
  | arg :: args' =>
      match flag_body arg with
      | None => Parsed m (if decide (arg = "--") then args' else args)
      | Some body =>
          if HasPrefix body "-" || HasPrefix body "=" then ParseError
          else
            let '(name, value) := match cut "=" body with Some (n, v) => (n, Some v) | None => (body, None) end in
            match flags name, value with
            | None, _ => if decide (name ∈ ["help"; "h"]) then ParseHelp else ParseError
            | Some GoBool, Some v =>
                match ParseBool v with Some _ => flag_Parse flags args' (<[name := v]> m) | None => ParseError end
            | Some GoBool, None => flag_Parse flags args' (<[name := "true"]> m)
            | Some GoString, Some v => flag_Parse flags args' (<[name := v]> m)
            | Some GoString, None =>
                match args' with
                | [] => ParseError
                | v :: args'' => flag_Parse flags args'' (<[name := v]> m)
                end
            end
      end
  end.

(** ** main.go *)

(** [ctrl.Options], what main sets of it. *)
Record ManagerOptions := mkManagerOptions {
  MetricsBindAddress : string; HealthProbeBindAddress : string; LeaderElection : bool; LeaderElectionID : string
}.

(** What a controller watches: the kind of the objects, and the name in the object that is
    passed to [Watches]. *)
Record watch := mkWatch { watch_Kind : string; watch_Name : string }.

Class CtrlRuntime (W : Type) := {
  GetConfigOrDie : ST W bool;                          (* false: the process exits *)
  ctrl_NewManager : ManagerOptions → ST W (option error);
  Complete : list watch → ST W (option error);
  AddHealthzCheck : string → ST W (option error);
  AddReadyzCheck : string → ST W (option error);
  zap_flags : string → option goflag                   (* [BindFlags] *)
}.

Definition SetupWithManager : list watch :=
  [mkWatch "Instance" ""; mkWatch "Deployment" controlplane_Name; mkWatch "Deployment" dataplane_Name].

Section main.
Context {W : Type} {CR : CtrlRuntime W}.

Definition operator_flags (name : string) : option goflag :=
  if decide (name = "metrics-bind-address") then Some GoString
  else if decide (name = "health-probe-bind-address") then Some GoString
  else if decide (name = "leader-elect") then Some GoBool
  else zap_flags name.

Definition manager_options (values : gmap string string) : ManagerOptions :=
  mkManagerOptions (default ":8080" (values !! "metrics-bind-address")) (default ":8081" (values !! "health-probe-bind-address"))
    (default false (values !! "leader-elect" ≫= ParseBool)) "2754cddd.clusterlink.net".

(** The steps of main up to the start of the manager: the status of the process that a step
    which fails ends with. *)
Definition operator_setup (args : list string) : ST W (option Z) :=
  match flag_Parse operator_flags args ∅ with
  | ParseHelp => mret (Some 0%Z)
  | ParseError => mret (Some 2%Z)
  | Parsed values _ =>
      ok ← GetConfigOrDie;
      if negb ok then mret (Some 1%Z) else
      err ← ctrl_NewManager (manager_options values);
      match err with
      | Some _ => mret (Some 1%Z)
      | None =>
          err ← Complete SetupWithManager;
          match err with
          | Some _ => mret (Some 1%Z)
          | None =>
              err ← AddHealthzCheck "healthz";
              match err with
              | Some _ => mret (Some 1%Z)
              | None => err ← AddReadyzCheck "readyz"; mret ((λ _, 1%Z) <$> err)
              end
          end
      end
  end.

(** main: the map of the owners is made empty; [start] is [mgr.Start]. *)
Definition operator_main (args : list string) (start : ST (owners * W) (option error)) : ST (owners * W) Z :=
  status ← outside (operator_setup args);
  match status with
  | Some z => mret z
  | None =>
      modify (λ s, (∅, s.2));;
      err ← start;
      mret match err with Some _ => 1%Z | None => 0%Z end
  end.

(** The arguments in [config/operator/manager] are accepted. *)
Lemma deployed_operator_flags (w : W) :
  flag_Parse operator_flags ["--leader-elect"] ∅ = Parsed {[ "leader-elect" := "true" ]} [] ∧
  manager_options {[ "leader-elect" := "true" ]} = mkManagerOptions ":8080" ":8081" true "2754cddd.clusterlink.net".
Proof. done. Qed.
End main.

(** ** The manager *)

(** What happens while the manager runs: an event of an object, a request that is run
    again, and what others do to the cluster. *)
Inductive operator_op (W : Type) := OpEvent (kind : string) (n : NamespacedName) | OpRetry (n : NamespacedName) | OpWorld (f : W → W).
Arguments OpEvent {W}. Arguments OpRetry {W}. Arguments OpWorld {W}.

(** [EnqueueRequestForObject]: the request is the key of the object of the event, of any
    object of the kind; requests are not queued twice. *)
Definition watched (ws : list watch) (kind : string) : bool := existsb (λ w, bool_decide (watch_Kind w = kind)) ws.
Definition op_request {W} (op : operator_op W) : option NamespacedName :=
  match op with
  | OpEvent kind n => if watched SetupWithManager kind then Some n else None
  | OpRetry n => Some n
  | OpWorld _ => None
  end.

Section run.
Context {W : Type} {CL : Clock W} {CU : Controllerutil}.
Context {KI : KubeClient W Instance_} {KD : KubeClient W Deployment} {KS : KubeClient W Svc}.
Context {KA : KubeClient W ServiceAccount} {KR : KubeClient W ClusterRole} {KB : KubeClient W ClusterRoleBinding}.
Context {KN : KubeClient W Node} (label_order : ranger string string) (fuel : nat).

Definition run_operator_op (op : operator_op W) : ST (owners * W) (option (outcome (result ctrlResult))) :=
  match op_request op, op with
  | Some n, _ => Operator.Reconcile label_order fuel n
  | None, OpWorld f => modify (λ s, (s.1, f s.2));; mret (Some (Done (Ok None)))
  | None, _ => mret (Some (Done (Ok None)))
  end.
Definition run_operator : list (operator_op W) → ST (owners * W) (list (option (outcome (result ctrlResult)))) :=
  run_list run_operator_op.
End run.

(** ** Who owns a namespace *)
Section owner.
Context {W : Type} {SV : Server W} {CU : Controllerutil} {CUL : ControllerutilLaws} {CL : Clock W}.
Context {KI : KubeClient W Instance_} {KD : KubeClient W Deployment} {KS : KubeClient W Svc}.
Context {KA : KubeClient W ServiceAccount} {KR : KubeClient W ClusterRole} {KB : KubeClient W ClusterRoleBinding}.
Context {KN : KubeClient W Node}.
Context {LI : InstanceLaws W} {LD : ObjectLaws W Deployment} {LS : ObjectLaws W Svc}.
Context {LA : ObjectLaws W ServiceAccount} {LR : ObjectLaws W ClusterRole} {LB : ObjectLaws W ClusterRoleBinding}.
Context {LN : NodeLaws W}.
Context (label_order : ranger string string) (fuel : nat).
#[local] Set Default Proof Using "Type*".

(** The instance [name] of the namespace [ns]. *)
Context (ns name : string).
(** It is not being deleted. *)
Definition owner_alive (is_ : gmap NamespacedName Instance_) : Prop :=
  ∀ k i, is_ !! k = Some i → in_Namespace i = ns → in_Name i = name → in_Deleting i = false.

Lemma outside_owners {A} (m : ST W A) (s : owners * W) : (outside m s).2.1 = s.1.
Proof. unfold outside. by destruct (m s.2). Qed.

Lemma present_owners i s : (reconcile_present label_order i s).2.1 = s.1.
Proof.
  assert (∀ A (m : ST (owners * W) A) s, keeps (λ s s', s'.1 = s.1) m → (m s).2.1 = s.1) as Hk by (intros A m s0 H; apply H).
  apply Hk. clear Hk s. assert (PreOrder (λ s s' : owners * W, s'.1 = s.1)) by (split; [done|intros a b c; congruence]).
  assert (∀ A (m : ST W A), keeps (λ s s' : owners * W, s'.1 = s.1) (outside m)) as Ho by (intros A m s; apply outside_owners).
  unfold reconcile_present, fail, give.
  repeat (apply keeps_bind || apply keeps_ret || apply Ho || (intros [[?|?]|]) || case_match || done).
Qed.

Lemma owner_stays_owner f : ∀ req o w,
  o !! ns = Some name → owner_alive (instances w) →
  (Operator.Reconcile label_order f req (o, w)).2.1 !! ns = Some name.
Proof.
  induction f as [|f IH]; intros req o w Ho Hal; [done|]. cbn [Operator.Reconcile].
  unfold mbind at 1, ST_bind at 1, outside at 1. cbn [fst snd].
  destruct (inst_get req w) as [_ Hi]. pose proof (inst_get_ok req w) as Hok.
  destruct (kGet (T:=Instance_) req w) as [[i|e] w1]; cbn [fst snd] in *; [|done].
  destruct (Hok i eq_refl) as [Hreq Hk]. rewrite <- Hi in Hreq, Hal. rewrite <- Hk in Hreq.
  unfold mbind at 1, ST_bind at 1. destruct (claim_namespace i (o, w1)) as [[r|] [o2 w2]] eqn:Hc.
  { unfold claim_namespace in Hc. revert Hc. unfold_st. destruct (o !! in_Namespace i); [|done].
    case_decide; [|done]. cbn [fst snd]. destruct (updateFailureStatus i w1) as [r1 w3]. by intros [= _ <- _]. }
  apply claim_owner in Hc as [Hown [= -> ->]].
  assert (<[in_Namespace i := in_Name i]> o !! ns = Some name) as Ho'.
  { destruct (decide (in_Namespace i = ns)) as [He|He]; [|by rewrite lookup_insert_ne].
    rewrite He, lookup_insert_eq. destruct Hown as [Hn|Hn]; rewrite He, Ho in Hn; [done|by injection Hn as <-]. }
  destruct (in_Deleting i) eqn:Hd.
  - assert (in_Namespace i ≠ ns) as Hne.
    { intros He. destruct Hown as [Hn|Hn]; rewrite He, Ho in Hn; [done|]. injection Hn as Hn.
      by rewrite (Hal _ _ Hreq He (eq_sym Hn)) in Hd. }
    unfold mbind at 1, ST_bind at 1. destruct (reconcile_deleted i _) as [[[j|e]|] [o3 w3]] eqn:Hdel.
    + apply reconcile_deleted_ok in Hdel as (-> & -> & _ & Hi3); [|done].
      unfold triggerAnotherInstance. unfold mbind at 1, ST_bind at 1, outside at 1. cbn [fst snd].
      destruct (inst_list (mkListOptions (Some OperatorNamespace) ∅) w3) as [_ Hl].
      destruct (kList (T:=Instance_) _ w3) as [[items|e] w4]; cbn [fst snd] in *; [|cbn; by rewrite lookup_delete_ne].
      destruct (earliest _ _ items) as [e|]; [|by cbn; rewrite lookup_delete_ne].
      unfold mbind at 1, ST_bind at 1.
      destruct (Operator.Reconcile label_order f _ _) as [r s'] eqn:Hr.
      replace (_.2.1) with s'.1 by (by destruct r as [[[]|]|]). replace s' with (r, s').2 by done. rewrite <- Hr. apply IH.
      * by rewrite lookup_delete_ne.
      * rewrite Hl, Hi3. intros k i'. unfold stored. case_decide; [by intros [_ Hx]%lookup_delete_Some; apply (Hal k)|].
        intros [[_ <-]|[_ Hx]]%lookup_insert_Some; [done|by apply (Hal k)].
    + revert Hdel. unfold reconcile_deleted. unfold_st. unfold outside. cbn [fst snd].
      destruct (deleteClusterLink _ _) as [[[[]|e1]|] w3']; [|by intros [= _ <- _]..].
      cbn [fst snd]. destruct (deleteFinalizer _ _) as [[[j|e1]|] w4']; by intros [= _ <- _].
    + revert Hdel. unfold reconcile_deleted. unfold_st. unfold outside. cbn [fst snd].
      destruct (deleteClusterLink _ _) as [[[[]|e1]|] w3']; [|by intros [= <- _]..].
      cbn [fst snd]. destruct (deleteFinalizer _ _) as [[[j|e1]|] w4']; by intros [= <- _].
  - unfold mbind at 1, ST_bind at 1. pose proof (present_owners i (<[in_Namespace i := in_Name i]> o, w1)) as Hp.
    destruct (reconcile_present _ _ _) as [r [o3 w3]]. cbn in *. by subst o3.
Qed.

(** Another instance of the namespace is refused. *)
Lemma updateFailureStatus_objects i w : same_objects w (updateFailureStatus i w).2.
Proof.
  unfold updateFailureStatus, give. unfold_st. repeat case_match; cbn [fst snd]; try done.
  match goal with H : kStatusUpdate ?j w = _ |- _ => pose proof (inst_status_objects j w) as Hs; by rewrite H in Hs end.
Qed.
Lemma other_refused f req o w i r s' :
  o !! ns = Some name → instances w !! req = Some i → in_Namespace i = ns → in_Name i ≠ name →
  Operator.Reconcile label_order (S f) req (o, w) = (r, s') → s'.1 = o ∧ same_objects w s'.2.
Proof.
  intros Ho Hi Hns Hne. cbn [Operator.Reconcile]. unfold mbind at 1, ST_bind at 1, outside at 1. cbn [fst snd].
  destruct (inst_get req w) as [Hob Hin]. pose proof (inst_get_ok req w) as Hok.
  destruct (kGet (T:=Instance_) req w) as [[j|e] w1]; cbn [fst snd] in *; [|by intros [= _ <-]].
  destruct (Hok j eq_refl) as [Hj _]. rewrite Hi in Hj. injection Hj as <-.
  unfold mbind at 1, ST_bind at 1. unfold claim_namespace. unfold_st. cbn [fst snd]. rewrite Hns, Ho, decide_True by done.
  cbn [fst snd]. pose proof (updateFailureStatus_objects i w1) as Hu. unfold outside. cbn [fst snd].
  destruct (updateFailureStatus i w1) as [r1 w2]. intros [= _ <-]. split; [done|].
  unfold same_objects in *. cbn [snd] in *. congruence.
Qed.

(** At each operation the owner is not being deleted. *)
Fixpoint alive_along (ops : list (operator_op W)) (s : owners * W) : Prop :=
  match ops with
  | [] => True
  | op :: ops' => owner_alive (instances s.2) ∧ alive_along ops' (run_operator_op label_order (S fuel) op s).2
  end.

Lemma run_op_owner op s : s.1 !! ns = Some name → owner_alive (instances s.2) →
  (run_operator_op label_order (S fuel) op s).2.1 !! ns = Some name.
Proof.
  intros Ho Hal. unfold run_operator_op. destruct s as [o w].
  destruct (op_request op) as [n|]; [by apply owner_stays_owner|by destruct op].
Qed.
Lemma run_operator_cons op ops s :
  (run_operator label_order (S fuel) (op :: ops) s).2 =
  (run_operator label_order (S fuel) ops (run_operator_op label_order (S fuel) op s).2).2.
Proof.
  unfold run_operator. cbn [run_list]. unfold_st. destruct (run_operator_op _ _ op s) as [r s1]. cbn [snd].
  by destruct (run_list _ ops s1).
Qed.
Lemma run_operator_owner ops s : s.1 !! ns = Some name → alive_along ops s →
  (run_operator label_order (S fuel) ops s).2.1 !! ns = Some name.
Proof.
  revert s. induction ops as [|op ops IH]; intros s Ho Hal; [done|]. destruct Hal as [Ha Hal].
  rewrite run_operator_cons. apply IH; [by apply run_op_owner|done].
Qed.
Lemma alive_along_app ops1 ops2 s : alive_along (ops1 ++ ops2) s →
  alive_along ops1 s ∧ alive_along ops2 (run_operator label_order (S fuel) ops1 s).2.
Proof.
  revert s. induction ops1 as [|op ops1 IH]; intros s Hal; [done|]. destruct Hal as [Ha [H1 H2]%IH].
  split; [by split|]. by rewrite run_operator_cons.
Qed.

(** C10: one instance at a time has a namespace: from the moment the operator gives a
    namespace to an instance, as long as that instance is not deleted and the operator is
    not restarted, it stays the owner, whatever events come for whichever objects, whatever
    fails and whatever others do to the cluster; and a request for any other instance of
    the namespace leaves every deployment, service, role and service account as it is. *)
Theorem namespace_not_taken_over ops s :
  s.1 !! ns = Some name → alive_along ops s →
  (run_operator label_order (S fuel) ops s).2.1 !! ns = Some name ∧
  ∀ ops1 op ops2 n i, ops = ops1 ++ op :: ops2 → op_request op = Some n →
    let s1 := (run_operator label_order (S fuel) ops1 s).2 in
    instances s1.2 !! n = Some i → in_Namespace i = ns → in_Name i ≠ name →
    let s2 := (run_operator_op label_order (S fuel) op s1).2 in s2.1 = s1.1 ∧ same_objects s1.2 s2.2.
Proof.
  intros Ho Hal. split; [by apply run_operator_owner|]. intros ops1 op ops2 n i -> Hn s1 Hi Hns Hne.
  apply alive_along_app in Hal as [H1 _]. pose proof (run_operator_owner ops1 s Ho H1) as Ho1. fold s1 in Ho1.
  unfold run_operator_op. rewrite Hn. destruct s1 as [o w].
  destruct (Operator.Reconcile _ _ _ _) as [r s2] eqn:Hr. by apply (other_refused fuel n o w i r s2).
Qed.
End owner.

(** ** The deployments of a namespace *)
Scheme reconciled_mut := Minimality for reconciled Sort Prop
  with then_next_mut := Minimality for then_next Sort Prop.

Section follow.
Context {CU : Controllerutil} {CUL : ControllerutilLaws} (label_order : ranger string string).
(** The instance at [k0] has the namespace [ns], and this specification. *)
Context (ns name : string) (k0 : NamespacedName) (sp : InstanceSpec).
#[local] Set Default Proof Using "Type*".

(** The instances: under their keys, and the owner as it is asked for, not being deleted. *)
Definition instances_ok (is_ : gmap NamespacedName Instance_) : Prop :=
  (∀ k i, is_ !! k = Some i → kKey i = k) ∧
  (∀ k i, is_ !! k = Some i → in_Namespace i = ns → in_Name i = name → k = k0 ∧ in_Deleting i = false ∧ in_Spec i = sp).
Definition owner_inv (s : state) : Prop := st_owners s !! ns = Some name ∧ instances_ok (st_instances s).
Definition owner_there (s : state) : Prop := ∃ i, st_instances s !! k0 = Some i ∧ in_Namespace i = ns ∧ in_Name i = name.
Definition cp_key : string * NamespacedName := okey Deployment (mkNN ns controlplane_Name).
Definition dp_key : string * NamespacedName := okey Deployment (mkNN ns dataplane_Name).
Definition served (m : objects) : Prop := ∀ i, in_Spec i = sp →
  m !! cp_key = Some (ODeployment (controlplane_deployment label_order (with_registry i))) ∧
  m !! dp_key = Some (ODeployment (dataplane_deployment (with_registry i))).

(** An instance is written back with another status or other finalizers. *)
Lemma instances_ok_insert is_ req i j :
  instances_ok is_ → is_ !! req = Some i → in_Meta j = in_Meta i → in_Spec j = in_Spec i → in_Deleting j = in_Deleting i →
  instances_ok (<[req := j]> is_).
Proof.
  intros [Hk Hal] Hi Hm Hs Hd. split; intros k x [[<- <-]|[_ Hx]]%lookup_insert_Some; eauto.
  - unfold kKey. simpl. rewrite Hm. apply (Hk req i Hi).
  - unfold in_Namespace, in_Name. rewrite Hs, Hm, Hd. apply (Hal req i Hi).
Qed.

Lemma deployed_same i : in_Spec i = sp → in_Namespace i = ns → ∀ m, served (deployed label_order i m).
Proof.
  intros Hs Hns m j Hj. unfold deployed, cp_key, dp_key. rewrite Hns. split.
  - rewrite lookup_insert_ne by done. rewrite lookup_insert_eq. do 2 f_equal.
    unfold controlplane_deployment, with_registry, set_registry, in_Namespace, image. simpl. by rewrite Hs, Hj.
  - rewrite lookup_insert_eq. do 2 f_equal. unfold dataplane_deployment, with_registry, set_registry, in_Namespace, image. simpl.
    by rewrite Hs, Hj.
Qed.
Lemma deployed_other i m : in_Namespace i ≠ ns → served m → served (deployed label_order i m).
Proof.
  intros Hns Hm j Hj. destruct (Hm j Hj) as [H1 H2]. unfold deployed, cp_key, dp_key in *.
  split; (repeat rewrite lookup_insert_ne by (unfold okey; congruence)); by apply lookup_union_Some_l.
Qed.
Lemma removed_other ns' m : ns' ≠ ns → served m → served (removed ns' m).
Proof.
  intros Hns Hm j Hj. destruct (Hm j Hj) as [H1 H2]. unfold removed, cp_key, dp_key in *. cbn [removed_keys foldl].
  split; (repeat rewrite lookup_delete_ne by (unfold okey; simpl; congruence)); done.
Qed.

(** A request whose instance owns the namespace is for the owner itself. *)
Lemma owns_is_owner o is_ req i : owner_inv (mkState o ∅ is_) → is_ !! req = Some i → owns o i → in_Namespace i = ns →
  in_Name i = name ∧ req = k0 ∧ in_Deleting i = false ∧ in_Spec i = sp.
Proof.
  intros [Ho [_ Hal]] Hi Hown Hns. simpl in *.
  assert (in_Name i = name) as Hn by (destruct Hown as [H|H]; rewrite Hns, Ho in H; [done|by injection H]).
  split; [done|]. by apply (Hal req i).
Qed.

Definition follows (req : NamespacedName) (s s' : state) : Prop := owner_inv s →
  owner_inv s' ∧ (served (st_objects s) → served (st_objects s')) ∧ (owner_there s → req = k0 → served (st_objects s')) ∧
  (owner_there s → owner_there s').
Definition follows_next (s s' : state) : Prop := owner_inv s →
  owner_inv s' ∧ (served (st_objects s) → served (st_objects s')) ∧ (owner_there s → owner_there s').

Lemma reconciled_follows req s s' r : reconciled label_order req s s' r → follows req s s'.
Proof.
  apply (reconciled_mut CU label_order (λ req s s' _, follows req s s') (λ _ _ s s' _, follows_next s s')).
  - intros req' [o m is_] Hn Hinv. split_and!; [done|done| |done]. intros (i & Hi & _) ->. simpl in *. by rewrite Hi in Hn.
  - intros req' o m is_ i st Hi Hown _ _ [Ho Hok]. split_and!; simpl.
    + split; [done|]. simpl. by apply (instances_ok_insert is_ req' i).
    + done.
    + intros (j & Hj & Hns & Hn) ->. simpl in Hj. rewrite Hi in Hj. injection Hj as <-. destruct Hown. right. by rewrite Hns, Hn.
    + intros (j & Hj & Hns & Hn). simpl in Hj. destruct (decide (req' = k0)) as [->|Hne].
      * rewrite Hi in Hj. injection Hj as <-. exists (set_status st i). simpl. by rewrite lookup_insert_eq.
      * exists j. simpl. by rewrite lookup_insert_ne.
  - intros req' o m is_ i fs st Hi Hown Hd _ _ i' [Ho Hok].
    pose proof (owns_is_owner o is_ req' i (conj Ho Hok) Hi Hown) as Hself. simpl in *. split_and!.
    + split; simpl; [|by apply (instances_ok_insert is_ req' i)]. destruct (decide (in_Namespace i = ns)) as [He|He].
      * destruct (Hself He) as (Hn & _). by rewrite He, Hn, lookup_insert_eq.
      * by rewrite lookup_insert_ne.
    + intros Hs. destruct (decide (in_Namespace i = ns)) as [He|He]; [|by apply deployed_other].
      destruct (Hself He) as (_ & _ & _ & Hsp). by apply deployed_same.
    + intros (j & Hj & Hns & Hn) ->. simpl in Hj. rewrite Hi in Hj. injection Hj as <-.
      destruct (Hself Hns) as (_ & _ & _ & Hsp). by apply deployed_same.
    + intros (j & Hj & Hns & Hn). simpl in Hj. destruct (decide (req' = k0)) as [->|Hne].
      * rewrite Hi in Hj. injection Hj as <-. exists i'. simpl. by rewrite lookup_insert_eq.
      * exists j. simpl. by rewrite lookup_insert_ne.
  - intros req' o m is_ i s0 r0 Hi Hown Hd i' _ IH [Ho Hok].
    pose proof (owns_is_owner o is_ req' i (conj Ho Hok) Hi Hown) as Hself. simpl in *.
    assert (in_Namespace i ≠ ns) as Hne by (intros He; destruct (Hself He) as (_ & _ & Hd' & _); by rewrite Hd' in Hd).
    assert (kKey i' = req') as Hk by apply (proj1 Hok req' i Hi).
    assert (req' = k0 → ¬ ∃ j, is_ !! k0 = Some j ∧ in_Namespace j = ns ∧ in_Name j = name) as Hother.
    { intros -> (j & Hj & Hns & _). rewrite Hi in Hj. injection Hj as <-. done. }
    destruct IH as (I1 & I2 & I3).
    { split; simpl; [by rewrite lookup_delete_ne|]. unfold stored. rewrite Hk. case_decide.
      - split; intros k x [_ Hx]%lookup_delete_Some; by apply Hok.
      - by apply (instances_ok_insert is_ req' i). }
    split_and!; [done| | |].
    + intros Hs. apply I2. simpl. by apply removed_other.
    + intros Ht ->. by destruct (Hother eq_refl).
    + intros Ht. apply I3. pose proof Ht as (j & Hj & Hjn). exists j. split; [|done]. cbn [st_instances] in *. unfold stored. rewrite Hk.
      assert (req' ≠ k0) by (intros He; by destruct (Hother He)).
      case_decide; [by rewrite lookup_delete_ne|by rewrite lookup_insert_ne].
  - by intros name' ns' s0 _ Hinv.
  - intros name' ns' s0 e s1 r0 _ _ IH Hinv. destruct (IH Hinv) as (I1 & I2 & _ & I3). done.
Qed.
End follow.

Section follow_run.
Context {W : Type} {SV : Server W} {CU : Controllerutil} {CUL : ControllerutilLaws} {CL : Clock W}.
Context {KI : KubeClient W Instance_} {KD : KubeClient W Deployment} {KS : KubeClient W Svc}.
Context {KA : KubeClient W ServiceAccount} {KR : KubeClient W ClusterRole} {KB : KubeClient W ClusterRoleBinding}.
Context {KN : KubeClient W Node}.
Context {LI : InstanceLaws W} {LD : ObjectLaws W Deployment} {LS : ObjectLaws W Svc}.
Context {LA : ObjectLaws W ServiceAccount} {LR : ObjectLaws W ClusterRole} {LB : ObjectLaws W ClusterRoleBinding}.
Context {LN : NodeLaws W}.
Context (label_order : ranger string string) (fuel : nat) (ns name : string) (k0 : NamespacedName) (sp : InstanceSpec).
#[local] Set Default Proof Using "Type*".

Definition succeeded (r : option (outcome (result ctrlResult))) : Prop := match r with Some (Done (Ok _)) => True | _ => False end.
(** Others may do anything to the cluster but delete or change the owner. *)
Definition op_ok (op : operator_op W) : Prop :=
  match op with
  | OpWorld f => ∀ w, instances_ok ns name k0 sp (instances w) →
      instances_ok ns name k0 sp (instances (f w)) ∧ (instances (f w) !! k0 = instances w !! k0)
  | _ => True
  end.
(** They leave the two deployments alone. *)
Definition leaves_deployments (_ : NamespacedName) (op : operator_op W) : Prop :=
  match op with
  | OpWorld f => ∀ w, submitted (f w) !! cp_key ns = submitted w !! cp_key ns ∧ submitted (f w) !! dp_key ns = submitted w !! dp_key ns
  | _ => True
  end.
Definition asks_for (op : operator_op W) (n : NamespacedName) : Prop := op_request op = Some n.

Lemma run_op_follows op s r s' : run_operator_op label_order fuel op s = (r, s') → succeeded r → op_ok op →
  owner_inv ns name k0 sp (view s) → owner_there ns name k0 (view s) →
  owner_inv ns name k0 sp (view s') ∧ owner_there ns name k0 (view s') ∧
  (asks_for op k0 → served label_order ns sp (submitted s'.2)) ∧
  (leaves_deployments k0 op → served label_order ns sp (submitted s.2) → served label_order ns sp (submitted s'.2)).
Proof.
  unfold run_operator_op, asks_for. destruct (op_request op) as [n|] eqn:Hn.
  - intros Hr Hs _ Hinv Ht. destruct r as [[[r|]|]|]; try done. apply Reconcile_ok in Hr.
    destruct (reconciled_follows label_order ns name k0 sp n _ _ _ Hr Hinv) as (H1 & H2 & H3 & H4).
    split_and!; [done|by apply H4| |by intros _]. intros [= ->]. by apply H3.
  - destruct op as [kd n|n|f]; [by intros [= <- <-]; cbn; auto|done|]. unfold_st. intros [= <- <-] _ Hok [Ho Hi] Ht.
    destruct s as [o w]. cbn in *. destruct (Hok w Hi) as [H1 H2]. split_and!; [done| |done|].
    + destruct Ht as (i & Hi0 & Hni). exists i. cbn in *. by rewrite H2.
    + intros Hl Hs i Hsp. destruct (Hl w) as [-> ->]. by apply Hs.
Qed.

Lemma run_operator_follows ops s rs s' : run_operator label_order fuel ops s = (rs, s') → Forall succeeded rs → Forall op_ok ops →
  owner_inv ns name k0 sp (view s) → owner_there ns name k0 (view s) →
  owner_inv ns name k0 sp (view s') ∧
  (settled asks_for succeeded leaves_deployments ops rs k0 → served label_order ns sp (submitted s'.2)) ∧
  (Forall (leaves_deployments k0) ops → served label_order ns sp (submitted s.2) → served label_order ns sp (submitted s'.2)).
Proof.
  revert s rs. induction ops as [|op ops IH]; intros s rs H Hok Hops Hinv Ht.
  { injection H as <- <-. split_and!; [done| |by intros _]. intros (i & ? & ? & Hi & _). by rewrite lookup_nil in Hi. }
  revert H. unfold run_operator. cbn [run_list]. unfold_st.
  destruct (run_operator_op label_order fuel op s) as [r s1] eqn:Hr. cbn [fst snd].
  destruct (run_list _ ops s1) as [rs1 s2] eqn:Hrs. intros [= <- <-].
  apply Forall_cons_1 in Hok as [Hr1 Hok]. apply Forall_cons_1 in Hops as [Hop Hops].
  destruct (run_op_follows op s r s1 Hr Hr1 Hop Hinv Ht) as (H1 & H2 & H3 & H4).
  destruct (IH s1 rs1 Hrs Hok Hops H1 H2) as (I1 & I2 & I3). split_and!; [done| |].
  - intros ([|i] & op' & r' & Hi & He & Ha & Hs & Hq); simpl in *; [|apply I2; by exists i, op', r'].
    injection Hi as <-. injection He as <-. rewrite drop_0 in Hq. auto.
  - intros [??]%Forall_cons_1 ?. auto.
Qed.

(** C11: the deployments of a namespace are those of its owner: in a run whose requests
    succeed, whatever instances of this and of other namespaces they are for, created,
    deleted and handed over in between by others, once the owner was reconciled after the
    last change of its deployments, the control plane and the data plane of the namespace
    are exactly the deployments that its specification asks for. *)
Theorem deployments_follow_owner ops s rs s' : run_operator label_order fuel ops s = (rs, s') → Forall succeeded rs → Forall op_ok ops →
  owner_inv ns name k0 sp (view s) → owner_there ns name k0 (view s) →
  settled asks_for succeeded leaves_deployments ops rs k0 →
  s'.1 !! ns = Some name ∧
  ∀ i, in_Spec i = sp →
    submitted s'.2 !! okey Deployment (mkNN ns controlplane_Name) = Some (ODeployment (controlplane_deployment label_order (with_registry i))) ∧
    submitted s'.2 !! okey Deployment (mkNN ns dataplane_Name) = Some (ODeployment (dataplane_deployment (with_registry i))).
Proof.
  intros Hr Hs Hops Hinv Ht Hset. destruct (run_operator_follows ops s rs s' Hr Hs Hops Hinv Ht) as ([Ho _] & H & _).
  split; [exact Ho|exact (H Hset)].
Qed.

(** An event of a deployment does nothing: its key is not that of an instance. *)
Lemma deployment_event_ignored n s : instances s.2 !! n = None → 0 < fuel →
  let '(r, s') := run_operator_op label_order fuel (OpEvent "Deployment" n) s in
  s'.1 = s.1 ∧ unchanged s.2 s'.2 ∧ match r with Some (Done (Ok (Some _))) => False | _ => True end.
Proof.
  intros Hn Hf. destruct fuel as [|f]; [lia|]. unfold run_operator_op.
  replace (op_request (OpEvent (W:=W) "Deployment" n)) with (Some n) by reflexivity. cbn [Operator.Reconcile]. destruct s as [o w].
  unfold_st. unfold outside. cbn [fst snd] in *. pose proof (inst_get n w) as Hu. pose proof (inst_get_ok n w) as Hok.
  destruct (kGet (T:=Instance_) n w) as [[i|e] w1]; cbn [fst snd] in *; [destruct (Hok i eq_refl) as [Hi _]; by rewrite Hn in Hi|].
  split_and!; [done|done|]. by destruct (IsNotFound e).
Qed.
End follow_run.

(** ** Runs *)

(** The operator is restarted while [second] is refused because of [first]; the requests
    of the new process come in the other order. *)
Definition or_first : Instance_ := op_instance "first" 1 false [FinalizerName].
Definition or_second : Instance_ := op_instance "second" 2 false [].
Definition or_start : owners * cluster := (∅, op_cluster ∅ [or_first; or_second]).
Definition or_request (name : string) : operator_op cluster := OpEvent "Instance" (op_req name).
Abbreviation or_run ops s := (run_operator std_ranger 3 ops s).2.
Abbreviation or_before := (or_run [or_request "first"; or_request "second"] or_start).
(** Another process, which starts with the map of main. *)
Definition restarted (s : owners * cluster) : owners * cluster := (∅, s.2).
Abbreviation or_taken := (or_run [or_request "second"; or_request "first"] (restarted or_before)).

(** The second instance takes the namespace over; and when the first is deleted, it is
    refused and keeps its finalizer. *)
Lemma restart_hands_over :
  or_before.1 !! op_ns = Some "first" ∧ or_taken.1 !! op_ns = Some "second" ∧
  ∃ i, instances (or_run [OpWorld (set_instances (insert (op_req "first") (op_instance "first" 1 true [FinalizerName])));
                          or_request "first"; or_request "second"] or_taken).2 !! op_req "first" = Some i ∧
       in_Deleting i = true ∧ in_Finalizers i = [FinalizerName].
Proof. split; [vm_compute; reflexivity|]. split; [vm_compute; reflexivity|]. eexists. vm_compute. repeat split. Qed.

Definition or_refused : Instance_ := match instances or_before.2 !! op_req "second" with Some i => i | None => or_second end.
Abbreviation or_ops := [or_request "second"; OpWorld (set_objects (delete (okey Svc (mkNN op_ns IngressSvcName)))); or_request "first"].
Lemma namespace_not_taken_over_witness :
  (run_operator std_ranger 3 or_ops or_before).2.1 !! op_ns = Some "first" ∧
  let s1 := (run_operator std_ranger 3 [] or_before).2 in
  same_objects s1.2 (run_operator_op std_ranger 3 (or_request "second") s1).2.2.
Proof.
  assert (∀ s : owners * cluster, bool_decide (map_Forall (λ _ i, in_Namespace i = op_ns → in_Name i = "first" → in_Deleting i = false)
    (instances s.2)) = true → owner_alive op_ns "first" (instances s.2)) as Hal.
  { intros s Hs%bool_decide_eq_true k i Hi. apply (Hs k i Hi). }
  destruct (namespace_not_taken_over std_ranger 2 op_ns "first" or_ops or_before) as [H1 H2].
  - vm_compute. reflexivity.
  - split; [apply Hal; vm_compute; reflexivity|]. split; [apply Hal; vm_compute; reflexivity|].
    split; [apply Hal; vm_compute; reflexivity|exact I].
  - split; [exact H1|]. destruct (H2 [] (or_request "second") _ (op_req "second")
      or_refused eq_refl eq_refl) as [_ H3].
    + vm_compute. reflexivity.
    + vm_compute. reflexivity.
    + vm_compute. discriminate.
    + exact H3.
Defined.

Lemma in_map_list {A} (P : NamespacedName → A → Prop) (m : gmap NamespacedName A) :
  Forall (λ ki, P ki.1 ki.2) (map_to_list m) → ∀ k i, m !! k = Some i → P k i.
Proof. rewrite Forall_forall. intros H k i Hi. by apply (H (k, i)), elem_of_map_to_list. Qed.

(** The deployment of the control plane is deleted by hand; the owner is reconciled again,
    and then the other instance is refused. *)
Definition of_delete : operator_op cluster :=
  OpWorld (set_objects (delete (okey Deployment (mkNN op_ns controlplane_Name)))).
Definition of_keep : operator_op cluster := OpWorld (set_objects (delete (okey Svc (mkNN op_ns IngressSvcName)))).
Definition of_ops : list (operator_op cluster) := [of_delete; or_request "first"; of_keep; or_request "second"].
Abbreviation of_end := (run_operator std_ranger 3 of_ops or_before).
Lemma deployments_follow_owner_witness :
  submitted (or_run [of_delete] or_before).2 !! okey Deployment (mkNN op_ns controlplane_Name) = None ∧
  submitted of_end.2.2 !! okey Deployment (mkNN op_ns controlplane_Name) =
    Some (ODeployment (controlplane_deployment std_ranger (with_registry or_first))).
Proof.
  split; [vm_compute; reflexivity|].
  destruct (deployments_follow_owner std_ranger 3 op_ns "first" (op_req "first") op_spec of_ops or_before of_end.1 of_end.2)
    as [_ H]; [apply surjective_pairing| | | | | |].
  - vm_compute. repeat constructor.
  - assert (∀ f, op_ok op_ns "first" (op_req "first") op_spec (OpWorld (set_objects f))) as Hw by (by intros f w Hw).
    constructor; [apply Hw|]. constructor; [exact I|]. constructor; [apply Hw|]. constructor; [exact I|constructor].
  - split; [vm_compute; reflexivity|]. split.
    + apply (in_map_list (λ k i, kKey i = k)). vm_compute. repeat constructor.
    + apply (in_map_list (λ k i, in_Namespace i = op_ns → in_Name i = "first" →
        k = op_req "first" ∧ in_Deleting i = false ∧ in_Spec i = op_spec)).
      vm_compute. repeat constructor; intros; discriminate.
  - eexists. vm_compute. repeat split.
  - exists 1, (or_request "first"), (Some (Done (Ok (Some 3%Z)))). split; [reflexivity|]. split; [vm_compute; reflexivity|].
    split; [reflexivity|]. split; [exact I|].
    constructor; [intros w; split; by apply lookup_delete_ne|]. constructor; [exact I|constructor].
  - exact (proj1 (H or_first eq_refl)).
Defined.
