(* ===== verification/DeepCopy.v ===== *)
(** * Deep copies

    [pkg/apis/clusterlink.net/v1alpha1/zz_generated.deepcopy.go].  Objects are structs with
    references: slices, maps and pointers, which are locations of a heap.  A copy has the
    value of the original and shares no location with it, nor with anything that was there
    before, so that neither sees what is written to the other.

    The deep copies of the types of apimachinery are parameters, with the law that they are
    deep copies. *)
From S2P Require Export GoString.
From stdpp Require Import options.
From Stdlib Require Import ZArith Lia.

#[local] Set Default Proof Using "Type".

(** ** References *)
Abbreviation loc := positive.
(** A slice is the first elements of an array; the generated code never makes one that
    starts inside an array. *)
Inductive slice (T : Type) := nil_slice | Slice (array : loc) (len : nat).
Arguments nil_slice {T}. Arguments Slice {T}.
Inductive gomap (T : Type) := nil_map | Map (l : loc).
Arguments nil_map {T}. Arguments Map {T}.
Inductive ptr (T : Type) := nil_ptr | Ptr (l : loc).
Arguments nil_ptr {T}. Arguments Ptr {T}.

(** ** The types *)
Section types.
Context {TypeMeta ObjectMeta ListMeta Condition LabelSelector : Type}.

(** accesspolicy.go *)
Record WorkloadSetOrSelector_t := mkWSS_t { WorkloadSets_r : slice string; WorkloadSelector_r : ptr LabelSelector }.
Abbreviation WorkloadSetOrSelectorList_t := (slice WorkloadSetOrSelector_t).
Record AccessPolicySpec_t := mkPolicySpec_t { Action_r : string; From_r : WorkloadSetOrSelectorList_t; To_r : WorkloadSetOrSelectorList_t }.
Record AccessPolicy_t := mkPolicy_t { ap_TypeMeta : TypeMeta; ap_ObjectMeta : ObjectMeta; ap_Spec : AccessPolicySpec_t }.
Record PrivilegedAccessPolicy_t := mkPrivileged_t { pap_TypeMeta : TypeMeta; pap_ObjectMeta : ObjectMeta; pap_Spec : AccessPolicySpec_t }.
Record AccessPolicyList_t := mkPolicyList_t { apl_TypeMeta : TypeMeta; apl_ListMeta : ListMeta; apl_Items : slice AccessPolicy_t }.
Record PrivilegedAccessPolicyList_t :=
  mkPrivilegedList_t { papl_TypeMeta : TypeMeta; papl_ListMeta : ListMeta; papl_Items : slice PrivilegedAccessPolicy_t }.

(** peer.go *)
Record Endpoint_t := mkEndpoint_t { Host_r : string; Port_r : Z }.
Record PeerSpec_t := mkPeerSpec_t { Gateways_r : slice Endpoint_t }.
Record PeerStatus_t := mkPeerStatus_t { ps_Conditions : slice Condition; ps_Labels : gomap string }.
Record Peer_t := mkPeer_t { p_TypeMeta : TypeMeta; p_ObjectMeta : ObjectMeta; p_Spec : PeerSpec_t; p_Status : PeerStatus_t }.
Record PeerList_t := mkPeerList_t { pl_TypeMeta : TypeMeta; pl_ListMeta : ListMeta; pl_Items : slice Peer_t }.

(** export.go *)
Record ExportSpec_t := mkExportSpec_t { es_Host : string; es_Port : Z }.
Record ExportStatus_t := mkExportStatus_t { es_Conditions : slice Condition }.
Record Export_t := mkExport_t { e_TypeMeta : TypeMeta; e_ObjectMeta : ObjectMeta; e_Spec : ExportSpec_t; e_Status : ExportStatus_t }.
Record ExportList_t := mkExportList_t { el_TypeMeta : TypeMeta; el_ListMeta : ListMeta; el_Items : slice Export_t }.

(** import.go *)
Record ImportSource_t := mkImportSource_t { is_Peer : string; is_ExportName : string; is_ExportNamespace : string }.
Record ImportSpec_t := mkImportSpec_t { is_Port : Z; is_TargetPort : Z; is_Sources : slice ImportSource_t; is_LBScheme : string }.
Record ImportStatus_t := mkImportStatus_t { ims_Conditions : slice Condition }.
Record Import_t := mkImport_t { i_TypeMeta : TypeMeta; i_ObjectMeta : ObjectMeta; i_Spec : ImportSpec_t; i_Status : ImportStatus_t }.
Record ImportList_t := mkImportList_t { il_TypeMeta : TypeMeta; il_ListMeta : ListMeta; il_Items : slice Import_t }.

(** instance_types.go *)
Record ComponentStatus_t := mkComponentStatus_t { cs_Conditions : gomap Condition }.
Record IngressStatus_t := mkIngressStatus_t { igs_IP_r : string; igs_Port_r : Z; igs_Conditions_r : gomap Condition }.
Record InstanceStatus_t := mkInstanceStatus_t { ins_Controlplane : ComponentStatus_t; ins_Dataplane : ComponentStatus_t; ins_Ingress : IngressStatus_t }.
Record DataPlaneSpec_t := mkDataPlaneSpec_t { dps_Type : string; dps_Replicas : Z }.
Record IngressSpec_t := mkIngressSpec_t { igp_Type_r : string; igp_Port_r : Z; igp_Annotations_r : gomap string }.
Record InstanceSpec_t := mkInstanceSpec_t {
  ins_DataPlane : DataPlaneSpec_t; ins_IngressSpec : IngressSpec_t; ins_LogLevel : string; ins_ContainerRegistry : string;
  ins_Tag : string; ins_Namespace : string; ins_PeerLabels : gomap string
}.
Record Instance_t := mkInstance_t { in_TypeMeta : TypeMeta; in_ObjectMeta : ObjectMeta; in_Spec_r : InstanceSpec_t; in_Status_r : InstanceStatus_t }.
Record InstanceList_t := mkInstanceList_t { inl_TypeMeta : TypeMeta; inl_ListMeta : ListMeta; inl_Items : slice Instance_t }.

(** ** The heap *)

(** What a location holds: an array, a map, or an object; [Foreign] is what the objects of
    apimachinery refer to. *)
Context {Foreign : Type}.
Inductive cell :=
  | Foreign_cell (x : Foreign) | Arr_string (x : list string) | Arr_Endpoint (x : list Endpoint_t)
  | Arr_ImportSource (x : list ImportSource_t) | Arr_Condition (x : list Condition)
  | Arr_WorkloadSetOrSelector (x : list WorkloadSetOrSelector_t) | Arr_AccessPolicy (x : list AccessPolicy_t)
  | Arr_PrivilegedAccessPolicy (x : list PrivilegedAccessPolicy_t) | Arr_Peer (x : list Peer_t)
  | Arr_Export (x : list Export_t) | Arr_Import (x : list Import_t) | Arr_Instance (x : list Instance_t)
  | Map_string (x : gmap string string) | Map_Condition (x : gmap string Condition) | Obj_LabelSelector (x : LabelSelector)
  | Obj_AccessPolicy (x : AccessPolicy_t) | Obj_AccessPolicyList (x : AccessPolicyList_t)
  | Obj_AccessPolicySpec (x : AccessPolicySpec_t) | Obj_ComponentStatus (x : ComponentStatus_t)
  | Obj_DataPlaneSpec (x : DataPlaneSpec_t) | Obj_Endpoint (x : Endpoint_t) | Obj_Export (x : Export_t)
  | Obj_ExportList (x : ExportList_t) | Obj_ExportSpec (x : ExportSpec_t) | Obj_ExportStatus (x : ExportStatus_t)
  | Obj_Import (x : Import_t) | Obj_ImportList (x : ImportList_t) | Obj_ImportSource (x : ImportSource_t)
  | Obj_ImportSpec (x : ImportSpec_t) | Obj_ImportStatus (x : ImportStatus_t) | Obj_IngressSpec (x : IngressSpec_t)
  | Obj_IngressStatus (x : IngressStatus_t) | Obj_Instance (x : Instance_t) | Obj_InstanceList (x : InstanceList_t)
  | Obj_InstanceSpec (x : InstanceSpec_t) | Obj_InstanceStatus (x : InstanceStatus_t) | Obj_Peer (x : Peer_t)
  | Obj_PeerList (x : PeerList_t) | Obj_PeerSpec (x : PeerSpec_t) | Obj_PeerStatus (x : PeerStatus_t)
  | Obj_PrivilegedAccessPolicy (x : PrivilegedAccessPolicy_t)
  | Obj_PrivilegedAccessPolicyList (x : PrivilegedAccessPolicyList_t)
  | Obj_WorkloadSetOrSelector (x : WorkloadSetOrSelector_t).
Class Cell (A : Type) := { inj : A → cell; proj : cell → option A; proj_inj a : proj (inj a) = Some a }.
#[export] Instance Arr_string_cell : Cell (list string).
Proof. refine {| inj := Arr_string; proj c := match c with Arr_string x => Some x | _ => None end |}. done. Defined.
#[export] Instance Arr_Endpoint_cell : Cell (list Endpoint_t).
Proof. refine {| inj := Arr_Endpoint; proj c := match c with Arr_Endpoint x => Some x | _ => None end |}. done. Defined.
#[export] Instance Arr_ImportSource_cell : Cell (list ImportSource_t).
Proof. refine {| inj := Arr_ImportSource; proj c := match c with Arr_ImportSource x => Some x | _ => None end |}. done. Defined.
#[export] Instance Arr_Condition_cell : Cell (list Condition).
Proof. refine {| inj := Arr_Condition; proj c := match c with Arr_Condition x => Some x | _ => None end |}. done. Defined.
#[export] Instance Arr_WorkloadSetOrSelector_cell : Cell (list WorkloadSetOrSelector_t).
Proof. refine {| inj := Arr_WorkloadSetOrSelector; proj c := match c with Arr_WorkloadSetOrSelector x => Some x | _ => None end |}. done. Defined.
#[export] Instance Arr_AccessPolicy_cell : Cell (list AccessPolicy_t).
Proof. refine {| inj := Arr_AccessPolicy; proj c := match c with Arr_AccessPolicy x => Some x | _ => None end |}. done. Defined.
#[export] Instance Arr_PrivilegedAccessPolicy_cell : Cell (list PrivilegedAccessPolicy_t).
Proof. refine {| inj := Arr_PrivilegedAccessPolicy; proj c := match c with Arr_PrivilegedAccessPolicy x => Some x | _ => None end |}. done. Defined.
#[export] Instance Arr_Peer_cell : Cell (list Peer_t).
Proof. refine {| inj := Arr_Peer; proj c := match c with Arr_Peer x => Some x | _ => None end |}. done. Defined.
#[export] Instance Arr_Export_cell : Cell (list Export_t).
Proof. refine {| inj := Arr_Export; proj c := match c with Arr_Export x => Some x | _ => None end |}. done. Defined.
#[export] Instance Arr_Import_cell : Cell (list Import_t).
Proof. refine {| inj := Arr_Import; proj c := match c with Arr_Import x => Some x | _ => None end |}. done. Defined.
#[export] Instance Arr_Instance_cell : Cell (list Instance_t).
Proof. refine {| inj := Arr_Instance; proj c := match c with Arr_Instance x => Some x | _ => None end |}. done. Defined.
#[export] Instance Map_string_cell : Cell (gmap string string).
Proof. refine {| inj := Map_string; proj c := match c with Map_string x => Some x | _ => None end |}. done. Defined.
#[export] Instance Map_Condition_cell : Cell (gmap string Condition).
Proof. refine {| inj := Map_Condition; proj c := match c with Map_Condition x => Some x | _ => None end |}. done. Defined.
#[export] Instance Obj_LabelSelector_cell : Cell LabelSelector.
Proof. refine {| inj := Obj_LabelSelector; proj c := match c with Obj_LabelSelector x => Some x | _ => None end |}. done. Defined.
#[export] Instance Obj_AccessPolicy_cell : Cell AccessPolicy_t.
Proof. refine {| inj := Obj_AccessPolicy; proj c := match c with Obj_AccessPolicy x => Some x | _ => None end |}. done. Defined.
#[export] Instance Obj_AccessPolicyList_cell : Cell AccessPolicyList_t.
Proof. refine {| inj := Obj_AccessPolicyList; proj c := match c with Obj_AccessPolicyList x => Some x | _ => None end |}. done. Defined.
#[export] Instance Obj_AccessPolicySpec_cell : Cell AccessPolicySpec_t.
Proof. refine {| inj := Obj_AccessPolicySpec; proj c := match c with Obj_AccessPolicySpec x => Some x | _ => None end |}. done. Defined.
#[export] Instance Obj_ComponentStatus_cell : Cell ComponentStatus_t.
Proof. refine {| inj := Obj_ComponentStatus; proj c := match c with Obj_ComponentStatus x => Some x | _ => None end |}. done. Defined.
#[export] Instance Obj_DataPlaneSpec_cell : Cell DataPlaneSpec_t.
Proof. refine {| inj := Obj_DataPlaneSpec; proj c := match c with Obj_DataPlaneSpec x => Some x | _ => None end |}. done. Defined.
#[export] Instance Obj_Endpoint_cell : Cell Endpoint_t.
Proof. refine {| inj := Obj_Endpoint; proj c := match c with Obj_Endpoint x => Some x | _ => None end |}. done. Defined.
#[export] Instance Obj_Export_cell : Cell Export_t.
Proof. refine {| inj := Obj_Export; proj c := match c with Obj_Export x => Some x | _ => None end |}. done. Defined.
#[export] Instance Obj_ExportList_cell : Cell ExportList_t.
Proof. refine {| inj := Obj_ExportList; proj c := match c with Obj_ExportList x => Some x | _ => None end |}. done. Defined.
#[export] Instance Obj_ExportSpec_cell : Cell ExportSpec_t.
Proof. refine {| inj := Obj_ExportSpec; proj c := match c with Obj_ExportSpec x => Some x | _ => None end |}. done. Defined.
#[export] Instance Obj_ExportStatus_cell : Cell ExportStatus_t.
Proof. refine {| inj := Obj_ExportStatus; proj c := match c with Obj_ExportStatus x => Some x | _ => None end |}. done. Defined.
#[export] Instance Obj_Import_cell : Cell Import_t.
Proof. refine {| inj := Obj_Import; proj c := match c with Obj_Import x => Some x | _ => None end |}. done. Defined.
#[export] Instance Obj_ImportList_cell : Cell ImportList_t.
Proof. refine {| inj := Obj_ImportList; proj c := match c with Obj_ImportList x => Some x | _ => None end |}. done. Defined.
#[export] Instance Obj_ImportSource_cell : Cell ImportSource_t.
Proof. refine {| inj := Obj_ImportSource; proj c := match c with Obj_ImportSource x => Some x | _ => None end |}. done. Defined.
#[export] Instance Obj_ImportSpec_cell : Cell ImportSpec_t.
Proof. refine {| inj := Obj_ImportSpec; proj c := match c with Obj_ImportSpec x => Some x | _ => None end |}. done. Defined.
#[export] Instance Obj_ImportStatus_cell : Cell ImportStatus_t.
Proof. refine {| inj := Obj_ImportStatus; proj c := match c with Obj_ImportStatus x => Some x | _ => None end |}. done. Defined.
#[export] Instance Obj_IngressSpec_cell : Cell IngressSpec_t.
Proof. refine {| inj := Obj_IngressSpec; proj c := match c with Obj_IngressSpec x => Some x | _ => None end |}. done. Defined.
#[export] Instance Obj_IngressStatus_cell : Cell IngressStatus_t.
Proof. refine {| inj := Obj_IngressStatus; proj c := match c with Obj_IngressStatus x => Some x | _ => None end |}. done. Defined.
#[export] Instance Obj_Instance_cell : Cell Instance_t.
Proof. refine {| inj := Obj_Instance; proj c := match c with Obj_Instance x => Some x | _ => None end |}. done. Defined.
#[export] Instance Obj_InstanceList_cell : Cell InstanceList_t.
Proof. refine {| inj := Obj_InstanceList; proj c := match c with Obj_InstanceList x => Some x | _ => None end |}. done. Defined.
#[export] Instance Obj_InstanceSpec_cell : Cell InstanceSpec_t.
Proof. refine {| inj := Obj_InstanceSpec; proj c := match c with Obj_InstanceSpec x => Some x | _ => None end |}. done. Defined.
#[export] Instance Obj_InstanceStatus_cell : Cell InstanceStatus_t.
Proof. refine {| inj := Obj_InstanceStatus; proj c := match c with Obj_InstanceStatus x => Some x | _ => None end |}. done. Defined.
#[export] Instance Obj_Peer_cell : Cell Peer_t.
Proof. refine {| inj := Obj_Peer; proj c := match c with Obj_Peer x => Some x | _ => None end |}. done. Defined.
#[export] Instance Obj_PeerList_cell : Cell PeerList_t.
Proof. refine {| inj := Obj_PeerList; proj c := match c with Obj_PeerList x => Some x | _ => None end |}. done. Defined.
#[export] Instance Obj_PeerSpec_cell : Cell PeerSpec_t.
Proof. refine {| inj := Obj_PeerSpec; proj c := match c with Obj_PeerSpec x => Some x | _ => None end |}. done. Defined.
#[export] Instance Obj_PeerStatus_cell : Cell PeerStatus_t.
Proof. refine {| inj := Obj_PeerStatus; proj c := match c with Obj_PeerStatus x => Some x | _ => None end |}. done. Defined.
#[export] Instance Obj_PrivilegedAccessPolicy_cell : Cell PrivilegedAccessPolicy_t.
Proof. refine {| inj := Obj_PrivilegedAccessPolicy; proj c := match c with Obj_PrivilegedAccessPolicy x => Some x | _ => None end |}. done. Defined.
#[export] Instance Obj_PrivilegedAccessPolicyList_cell : Cell PrivilegedAccessPolicyList_t.
Proof. refine {| inj := Obj_PrivilegedAccessPolicyList; proj c := match c with Obj_PrivilegedAccessPolicyList x => Some x | _ => None end |}. done. Defined.
#[export] Instance Obj_WorkloadSetOrSelector_cell : Cell WorkloadSetOrSelector_t.
Proof. refine {| inj := Obj_WorkloadSetOrSelector; proj c := match c with Obj_WorkloadSetOrSelector x => Some x | _ => None end |}. done. Defined.

Abbreviation heap := (gmap loc cell).

(** ** Deep values

    What an object is when its references are followed, and the locations that are met. *)
Class Deep (T : Type) := {
  deep : Type;
  reads : heap → T → option deep;
  reach : heap → T → list loc;
  reads_frame h h' x d : reads h x = Some d → (∀ l, l ∈ reach h x → h' !! l = h !! l) →
    reads h' x = Some d ∧ reach h' x = reach h x;
  reach_dom h x d : reads h x = Some d → ∀ l, l ∈ reach h x → l ∈ dom h
}.
Arguments deep T {_}.

Lemma reads_weaken {T} `{Deep T} h h' x d : reads h x = Some d → h ⊆ h' → reads h' x = Some d ∧ reach h' x = reach h x.
Proof.
  intros Hr Hs. apply reads_frame; [done|]. intros l Hl. apply (reach_dom h x d) in Hl; [|done].
  apply elem_of_dom in Hl as [c Hc]. rewrite Hc. by apply (lookup_weaken h).
Qed.

(** A value without references, a pair, and a struct by its fields. *)
Definition plain_deep (T : Type) : Deep T.
Proof. refine {| deep := T; reads _ x := Some x; reach _ _ := [] |}; [done|by intros h x d _ l ?%elem_of_nil]. Defined.
#[export] Instance pair_deep {A B} `{Deep A} `{Deep B} : Deep (A * B).
Proof.
  refine {| deep := deep A * deep B; reads h x := a ← reads h x.1; b ← reads h x.2; Some (a, b);
            reach h x := reach h x.1 ++ reach h x.2 |}.
  - intros h h' [a b] d. simpl. destruct (reads h a) as [da|] eqn:Ha; [|done]. destruct (reads h b) as [db|] eqn:Hb; [|done].
    intros [= <-] Hf. destruct (reads_frame h h' a da Ha) as [-> ->]; [intros l Hl; apply Hf, elem_of_app; by left|].
    destruct (reads_frame h h' b db Hb) as [-> ->]; [intros l Hl; apply Hf, elem_of_app; by right|]. done.
  - intros h [a b] d. simpl. destruct (reads h a) as [da|] eqn:Ha; [|done]. destruct (reads h b) as [db|] eqn:Hb; [|done].
    intros _ l [Hl|Hl]%elem_of_app; [by apply (reach_dom h a da)|by apply (reach_dom h b db)].
Defined.
Definition via_deep {R A} (fields : R → A) `{Deep A} : Deep R.
Proof.
  refine {| deep := deep A; reads h x := reads h (fields x); reach h x := reach h (fields x) |}.
  - intros h h' x. apply reads_frame.
  - intros h x. apply reach_dom.
Defined.

(** All of a list. *)
Definition reads_list {T} `{Deep T} (h : heap) : list T → option (list (deep T)) := mapM (reads h).
Lemma list_frame {T} `{Deep T} h h' (xs : list T) ds :
  reads_list h xs = Some ds → (∀ l, l ∈ flat_map (reach h) xs → h' !! l = h !! l) →
  reads_list h' xs = Some ds ∧ flat_map (reach h') xs = flat_map (reach h) xs.
Proof.
  revert ds. induction xs as [|x xs IH]; intros ds Hr Hf; [by split|]. unfold reads_list in *. simpl in *.
  destruct (reads h x) as [d|] eqn:Hx; [|done]. destruct (mapM (reads h) xs) as [ds'|] eqn:Hxs; [|done].
  destruct (reads_frame h h' x d Hx) as [-> ->]; [intros l Hl; apply Hf, elem_of_app; by left|].
  destruct (IH ds' eq_refl) as [E ->]; [intros l Hl; apply Hf, elem_of_app; by right|]. unfold reads_list in E. by rewrite E.
Qed.
Lemma list_dom {T} `{Deep T} h (xs : list T) ds : reads_list h xs = Some ds → ∀ l, l ∈ flat_map (reach h) xs → l ∈ dom h.
Proof.
  revert ds. induction xs as [|x xs IH]; intros ds Hr l Hl; simpl in *; [by apply elem_of_nil in Hl|].
  unfold reads_list in Hr. simpl in Hr. destruct (reads h x) as [d|] eqn:Hx; [|done].
  destruct (mapM (reads h) xs) as [ds'|] eqn:Hxs; [|done].
  apply elem_of_app in Hl as [Hl|Hl]; [by apply (reach_dom h x d)|by apply (IH ds')].
Qed.

Definition content {A} `{Cell A} (h : heap) (l : loc) : option A := h !! l ≫= proj.
Lemma content_frame {A} `{Cell A} (h h' : heap) l : h' !! l = h !! l → content h' l = content (A:=A) h l.
Proof. unfold content. by intros ->. Qed.
Lemma content_dom {A} `{Cell A} h l (a : A) : content h l = Some a → l ∈ dom h.
Proof. unfold content. intros Hc. apply elem_of_dom. destruct (h !! l); [by eexists|done]. Qed.

(** A slice: nil, or the first elements of its array. *)
#[export] Instance slice_deep {T} `{Deep T} `{Cell (list T)} : Deep (slice T).
Proof.
  refine {|
    deep := option (list (deep T));
    reads h s := match s with
                 | nil_slice => Some None
                 | Slice l n => xs ← content h l; if decide (n ≤ length xs) then Some <$> reads_list h (take n xs) else None
                 end;
    reach h s := match s with
                 | nil_slice => []
                 | Slice l n => l :: flat_map (reach h) (take n (default [] (content h l)))
                 end |}.
  - intros h h' [|l n] d; [done|]. destruct (content h l) as [xs|] eqn:Hc; [|done]. simpl. case_decide as Hn; [|done].
    intros Hr Hf. rewrite (content_frame h h'), Hc by (apply Hf; left). simpl. rewrite decide_True by done.
    destruct (reads_list h (take n xs)) as [ds|] eqn:Hds; [|done].
    destruct (list_frame h h' _ ds Hds) as [-> ->]; [intros l' Hl'; apply Hf; by right|]. done.
  - intros h [|l n] d; [by intros _ l ?%elem_of_nil|]. destruct (content h l) as [xs|] eqn:Hc; [|done]. simpl.
    case_decide as Hn; [|done]. destruct (reads_list h (take n xs)) as [ds|] eqn:Hds; [|done].
    intros _ l' [->|Hl']%elem_of_cons; [by apply (content_dom h l xs)|by apply (list_dom h _ ds Hds)].
Defined.

(** A map: nil, or its keys with what the values are. *)
Definition reads_map {T} `{Deep T} (h : heap) (m : gmap string T) : option (gmap string (deep T)) :=
  if decide (map_Forall (λ _ x, is_Some (reads h x)) m) then Some (omap (reads h) m) else None.
Definition reach_map {T} `{Deep T} (h : heap) (m : gmap string T) : list loc := flat_map (λ kx, reach h kx.2) (map_to_list m).
Lemma elem_of_reach_map {T} `{Deep T} h (m : gmap string T) l : l ∈ reach_map h m ↔ ∃ k x, m !! k = Some x ∧ l ∈ reach h x.
Proof.
  unfold reach_map. rewrite list_elem_of_In, in_flat_map. split.
  - intros ([k x] & Hx%list_elem_of_In%elem_of_map_to_list & Hl%list_elem_of_In). by exists k, x.
  - intros (k & x & Hx & Hl). exists (k, x). by rewrite <- !list_elem_of_In, elem_of_map_to_list.
Qed.
Lemma map_frame {T} `{Deep T} h h' (m : gmap string T) d :
  reads_map h m = Some d → (∀ l, l ∈ reach_map h m → h' !! l = h !! l) →
  reads_map h' m = Some d ∧ reach_map h' m = reach_map h m.
Proof.
  unfold reads_map. case_decide as Hall; [|done]. intros [= <-] Hf.
  assert (∀ k x, m !! k = Some x → reads h' x = reads h x ∧ reach h' x = reach h x) as Heq.
  { intros k x Hx. destruct (Hall k x Hx) as [dx Hdx]. rewrite Hdx. apply reads_frame; [done|].
    intros l Hl. apply Hf, elem_of_reach_map. by exists k, x. }
  split.
  - rewrite decide_True; [|intros k x Hx; destruct (Heq k x Hx) as [-> _]; by apply (Hall k x)]. f_equal. apply map_eq. intros k.
    rewrite !lookup_omap. destruct (m !! k) as [x|] eqn:Hx; [|done]. simpl. by destruct (Heq k x Hx).
  - unfold reach_map.
    assert (∀ kx, kx ∈ map_to_list m → reach h' kx.2 = reach h kx.2) as Hl
      by (intros [k x] Hx%elem_of_map_to_list; by apply (Heq k x)).
    revert Hl. generalize (map_to_list m) as l. induction l as [|kx l IH]; intros Hl; [done|]. simpl.
    rewrite Hl by left. f_equal. apply IH. intros. apply Hl. by right.
Qed.
#[export] Instance gomap_deep {T} `{Deep T} `{Cell (gmap string T)} : Deep (gomap T).
Proof.
  refine {|
    deep := option (gmap string (deep T));
    reads h s := match s with nil_map => Some None | Map l => m ← content h l; Some <$> reads_map h m end;
    reach h s := match s with nil_map => [] | Map l => l :: reach_map h (default ∅ (content h l)) end |}.
  - intros h h' [|l] d; [done|]. destruct (content h l) as [m|] eqn:Hc; [|done]. simpl. intros Hr Hf.
    rewrite (content_frame h h'), Hc by (apply Hf; left). simpl. destruct (reads_map h m) as [dm|] eqn:Hm; [|done].
    destruct (map_frame h h' m dm Hm) as [-> ->]; [intros l' Hl'; apply Hf; by right|]. done.
  - intros h [|l] d; [by intros _ l ?%elem_of_nil|]. destruct (content h l) as [m|] eqn:Hc; [|done]. simpl.
    unfold reads_map. case_decide as Hall; [|done]. intros _ l' [->|Hl']%elem_of_cons; [by apply (content_dom h l m)|].
    apply elem_of_reach_map in Hl' as (k & x & Hx & Hl'). destruct (Hall k x Hx) as [dx Hdx]. by apply (reach_dom h x dx).
Defined.

(** A pointer: nil, or what it points to. *)
#[export] Instance ptr_deep {T} `{Deep T} `{Cell T} : Deep (ptr T).
Proof.
  refine {|
    deep := option (deep T);
    reads h s := match s with nil_ptr => Some None | Ptr l => x ← content h l; Some <$> reads h x end;
    reach h s := match s with
                 | nil_ptr => []
                 | Ptr l => l :: match content h l with Some x => reach h x | None => [] end
                 end |}.
  - intros h h' [|l] d; [done|]. destruct (content h l) as [x|] eqn:Hc; [|done]. simpl. intros Hr Hf.
    rewrite (content_frame h h'), Hc by (apply Hf; left). simpl. destruct (reads h x) as [dx|] eqn:Hx; [|done].
    destruct (reads_frame h h' x dx Hx) as [-> ->]; [intros l' Hl'; apply Hf; by right|]. done.
  - intros h [|l] d; [by intros _ l ?%elem_of_nil|]. destruct (content h l) as [x|] eqn:Hc; [|done]. simpl.
    destruct (reads h x) as [dx|] eqn:Hx; [|done]. intros _ l' [->|Hl']%elem_of_cons; [by apply (content_dom h l x)|].
    by apply (reach_dom h x dx).
Defined.

(** ** Copying *)

(** The result of a copy: everything that was there is as it was, the copy has the value,
    and its locations are new and distinct. *)
Definition copied {T} `{Deep T} (h : heap) (d : deep T) (r : T * heap) : Prop :=
  h ⊆ r.2 ∧ reads r.2 r.1 = Some d ∧ (∀ l, l ∈ reach r.2 r.1 → l ∉ dom h) ∧ NoDup (reach r.2 r.1).

Class Copier (T : Type) `{Deep T} := {
  DeepCopyInto : T → ST heap T;
  copies h x d : reads h x = Some d → copied h d (DeepCopyInto x h)
}.
(** The zero value of a type. *)
Class Zero (T : Type) := zero : T.

Definition alloc {A} `{Cell A} (a : A) : ST heap loc := λ h, let l := fresh (dom h) in (l, <[l := inj a]> h).
Definition store {A} `{Cell A} (l : loc) (a : A) : ST heap unit := modify <[l := inj a]>.
(** An element of a slice. *)
Definition index {T} `{Zero T} `{Cell (list T)} (l : loc) (i : nat) : ST heap T :=
  gets (λ h, default zero (default [] (content h l) !! i)).
Definition set_index {T} `{Cell (list T)} (l : loc) (i : nat) (x : T) : ST heap unit :=
  modify (λ h, <[l := inj (<[i := x]> (default [] (content h l)))]> h).

Section copy.
Context {T : Type} {DT : Deep T} {CT : Copier T} {ZT : Zero T}.

(** The loop [for i := range in { in[i].DeepCopyInto(&out[i]) }]. *)
Fixpoint copy_elements `{Cell (list T)} (in_ out : loc) (range : list nat) : ST heap unit :=
  match range with
  | [] => mret tt
  | i :: range' => x ← index in_ i; y ← DeepCopyInto x; set_index out i y;; copy_elements in_ out range'
  end.
(** A slice that is not nil: [out = make([]T, len(in))] and the loop; [copy(out, in)] does
    the same for elements without references. *)
Definition copy_slice `{Cell (list T)} (in_ : slice T) : ST heap (slice T) :=
  match in_ with
  | nil_slice => mret nil_slice
  | Slice l n => out ← alloc (replicate n zero); copy_elements l out (seq 0 n);; mret (Slice out n)
  end.

(** The loop [for key, val := range in { out[key] = val.DeepCopy() }], in some order. *)
Fixpoint copy_entries `{Cell (gmap string T)} (out : loc) (entries : list (string * T)) : ST heap unit :=
  match entries with
  | [] => mret tt
  | (key, val) :: entries' =>
      y ← DeepCopyInto val;
      modify (λ h, <[out := inj (<[key := y]> (default ∅ (content h out)))]> h);;
      copy_entries out entries'
  end.
Definition copy_map `{Cell (gmap string T)} (order : ranger string T) (in_ : gomap T) : ST heap (gomap T) :=
  match in_ with
  | nil_map => mret nil_map
  | Map l =>
      m ← gets (λ h, default ∅ (content h l));
      out ← alloc (∅ : gmap string T);
      copy_entries out (order m);;
      mret (Map out)
  end.

(** [DeepCopy]: [out := new(T); in.DeepCopyInto(out)]. *)
Definition DeepCopy `{Cell T} (in_ : ptr T) : ST heap (ptr T) :=
  match in_ with
  | nil_ptr => mret nil_ptr
  | Ptr l =>
      out ← alloc zero;
      x ← gets (λ h, default zero (content h l));
      y ← DeepCopyInto x;
      store out y;;
      mret (Ptr out)
  end.

Lemma fresh_new (h : heap) : fresh (dom h) ∉ dom h.
Proof. apply is_fresh. Qed.
Lemma content_insert {A} `{Cell A} (h : heap) l (a : A) : content (<[l := inj a]> h) l = Some a.
Proof. unfold content. rewrite lookup_insert_eq. simpl. apply proj_inj. Qed.
Lemma insert_fresh_sub (h h' : heap) l c : h ⊆ h' → l ∉ dom h → h ⊆ <[l := c]> h'.
Proof. intros Hs Hl. etrans; [apply (insert_subseteq h l c); by apply not_elem_of_dom|]. by apply insert_mono. Qed.

(** Copies [ys] that were made one after the other, besides the cell [out]: they have their
    values, and their locations are new and distinct. *)
Definition made (h0 : heap) (out : loc) (h : heap) (ys : list T) (ds : list (deep T)) : Prop :=
  h0 ⊆ h ∧ out ∈ dom h ∧ out ∉ dom h0 ∧ Forall2 (λ y d, reads h y = Some d) ys ds ∧
  (∀ l, l ∈ flat_map (reach h) ys → l ∉ dom h0 ∧ l ≠ out) ∧ NoDup (flat_map (reach h) ys).

Lemma made_reads h0 out h ys ds : made h0 out h ys ds → reads_list h ys = Some ds.
Proof. intros (_ & _ & _ & Hys & _). unfold reads_list. by apply mapM_Some. Qed.

(** One more copy, whose value is then written to [out]. *)
Lemma made_snoc h0 out h ys ds x d c :
  made h0 out h ys ds → reads h0 x = Some d →
  let '(y, h') := DeepCopyInto x h in made h0 out (<[out := c]> h') (ys ++ [y]) (ds ++ [d]).
Proof.
  intros Hm Hx. pose proof Hm as (Hs & Hout & Hnew & Hys & Hl & Hnd). apply made_reads in Hm as Hr.
  destruct (reads_weaken h0 h x d Hx Hs) as [Hx' _]. pose proof (copies h x d Hx') as (C1 & C2 & C3 & C4).
  destruct (DeepCopyInto x h) as [y h']. cbn [fst snd] in *.
  assert (∀ l, l ∈ flat_map (reach h) ys → <[out := c]> h' !! l = h !! l) as Hframe.
  { intros l Hin. destruct (Hl l Hin) as [_ Hne]. rewrite lookup_insert_ne by done.
    apply (list_dom h ys ds Hr), elem_of_dom in Hin as [v Hv]. rewrite Hv. by apply (lookup_weaken h). }
  destruct (list_frame h _ ys ds Hr Hframe) as [Hr' Hreach].
  assert (out ∉ reach h' y) as Hy by (intros Hin; by apply C3 in Hin).
  destruct (reads_frame h' (<[out := c]> h') y d C2) as [Hy1 Hy2].
  { intros l Hin. apply lookup_insert_ne. intros ->. done. }
  unfold made. rewrite flat_map_app, Hreach. cbn [flat_map]. rewrite Hy2, app_nil_r. split_and!.
  - apply insert_fresh_sub; [by etrans|done].
  - rewrite dom_insert. set_solver.
  - done.
  - apply Forall2_app; [by apply mapM_Some|by repeat constructor].
  - intros l [Hin|Hin]%elem_of_app; [by apply Hl|]. split; [|by intros ->].
    intros Hd. apply (C3 l Hin). apply subseteq_dom in Hs. by apply Hs.
  - apply NoDup_app. split_and!; [done| |done]. intros l Hin Hin'. apply (C3 l Hin'). by apply (list_dom h ys ds Hr).
Qed.
Lemma made_start h0 a `{Cell A} (x : A) : alloc x h0 = (a, (alloc x h0).2) → made h0 a (alloc x h0).2 [] [].
Proof.
  intros [= <-]. simpl. split_and!; [by apply insert_fresh_sub, fresh_new|rewrite dom_insert; set_solver|apply fresh_new| | |constructor].
  - constructor.
  - by intros l ?%elem_of_nil.
Qed.

(** *** Slices *)
Definition slice_inv `{Cell (list T)} (h0 : heap) (out : loc) (n : nat) (ds : list (deep T)) (h : heap) (i : nat) : Prop :=
  ∃ ys, length ys = i ∧ made h0 out h ys (take i ds) ∧ content h out = Some (ys ++ replicate (n - i) zero).

Lemma content_weaken {A} `{Cell A} (h h' : heap) l (a : A) : content h l = Some a → h ⊆ h' → content h' l = Some a.
Proof.
  unfold content. intros Hc Hs. destruct (h !! l) as [c|] eqn:Hl; [|done]. by rewrite (lookup_weaken h h' l c Hl Hs).
Qed.

Lemma copy_elements_ok `{Cell (list T)} h0 l out n xs ds :
  content h0 l = Some xs → n ≤ length xs → reads_list h0 (take n xs) = Some ds →
  ∀ k i h, i + k = n → slice_inv h0 out n ds h i → slice_inv h0 out n ds (copy_elements l out (seq i k) h).2 n.
Proof.
  intros Hc Hn Hds. unfold reads_list in Hds. rewrite mapM_Some in Hds.
  induction k as [|k IH]; intros i h Hi Hinv; [assert (i = n) as -> by lia; done|].
  destruct Hinv as (ys & Hlen & Hm & Hout). cbn [seq copy_elements]. unfold index, set_index. unfold_st. cbn [fst snd].
  pose proof Hm as (Hs & _). rewrite (content_weaken h0 h l xs Hc Hs). cbn [default from_option id].
  assert (is_Some (xs !! i)) as [x Hx] by (apply lookup_lt_is_Some_2; lia). rewrite Hx. cbn [default from_option id].
  destruct (Forall2_lookup_l _ _ _ i x Hds) as (d & Hd & Hr); [by rewrite lookup_take_lt by lia|].
  pose proof (made_snoc h0 out h ys (take i ds) x d) as Hsnoc. pose proof (copies h x d) as Hcop.
  destruct (reads_weaken h0 h x d Hr Hs) as [Hr' _]. specialize (Hcop Hr'). destruct (DeepCopyInto x h) as [y h'].
  destruct Hcop as (Hsub & _). cbn [fst snd] in *. cbn [fst snd modify].
  rewrite (content_weaken h h' out _ Hout Hsub). cbn [default from_option id].
  apply (IH (S i)); [lia|]. exists (ys ++ [y]). split; [rewrite length_app; simpl; lia|].
  rewrite (take_S_r ds i d Hd). split; [by apply Hsnoc|]. rewrite content_insert. f_equal.
  replace (n - i) with (S (n - S i)) by lia. cbn [replicate]. rewrite <- Hlen at 1.
  rewrite insert_app_r_alt by lia. replace (length ys - length ys) with 0 by lia. simpl. by rewrite <- app_assoc.
Qed.

Lemma copy_slice_ok `{Cell (list T)} h s d : reads h s = Some d → copied h d (copy_slice s h).
Proof.
  destruct s as [|l n]; cbn [reads slice_deep copy_slice].
  { intros [= <-]. split_and!; simpl; [done|done|by intros l ?%elem_of_nil|constructor]. }
  destruct (content h l) as [xs|] eqn:Hc; [|done]. simpl. case_decide as Hn; [|done].
  destruct (reads_list h (take n xs)) as [ds|] eqn:Hds; [|done]. intros [= <-]. unfold_st.
  pose proof (made_start h (fresh (dom h)) (replicate n zero) eq_refl) as Hst. unfold alloc in *. cbn [fst snd] in *.
  set (out := fresh (dom h)) in *. set (h1 := <[out := _]> h) in *.
  assert (length ds = n) as Hlen.
  { unfold reads_list in Hds. apply mapM_Some, Forall2_length in Hds. rewrite length_take in Hds. lia. }
  destruct (copy_elements_ok h l out n xs ds Hc Hn Hds n 0 h1) as (ys & Hys & Hm & Hout); [done| |].
  { exists []. split_and!; [done|done|]. unfold h1. rewrite content_insert. by rewrite Nat.sub_0_r. }
  destruct (copy_elements l out (seq 0 n) h1) as [[] h2]. cbn [fst snd] in *.
  rewrite take_ge in Hm by lia. rewrite Nat.sub_diag, app_nil_r in Hout. pose proof (made_reads _ _ _ _ _ Hm) as Hr.
  destruct Hm as (Hs & Ho & Hnew & Hys' & Hl & Hnd). unfold copied. cbn [fst snd reads reach slice_deep]. rewrite Hout. simpl.
  rewrite take_ge by lia. rewrite decide_True by lia. rewrite Hr. split_and!; [done|done| |].
  - intros l' [->|Hin]%elem_of_cons; [done|]. by apply Hl.
  - apply NoDup_cons. split; [|done]. intros Hin. by apply Hl in Hin as [_ ?].
Qed.

(** *** Maps *)
Lemma copy_entries_ok `{Cell (gmap string T)} h0 out ents :
  NoDup ents.*1 → (∀ kx, kx ∈ ents → is_Some (reads h0 kx.2)) →
  ∀ m ys ks ds h, made h0 out h ys ds → content h out = Some m → map_to_list m ≡ₚ zip ks ys → length ks = length ys →
  (∀ k, k ∈ ks → k ∉ ents.*1) →
  ∃ m' ys' ks', let h' := (copy_entries out ents h).2 in
    made h0 out h' ys' (ds ++ omap (λ kx, reads h0 kx.2) ents) ∧ content h' out = Some m' ∧
    map_to_list m' ≡ₚ zip ks' ys' ∧ ks' = ks ++ ents.*1.
Proof.
  induction ents as [|[k x] ents IH]; intros Hnd Hr m ys ks ds h Hm Hc Hp Hlen Hk.
  { exists m, ys, ks. simpl. rewrite !app_nil_r. done. }
  cbn [copy_entries]. unfold_st. cbn [fmap list_fmap fst] in Hnd. apply NoDup_cons in Hnd as [Hnk Hnd].
  destruct (Hr (k, x)) as [d Hd]; [left|]. simpl in Hd. pose proof Hm as (Hs & _).
  pose proof (made_snoc h0 out h ys ds x d) as Hsnoc. pose proof (copies h x d) as Hcop.
  destruct (reads_weaken h0 h x d Hd Hs) as [Hr' _]. specialize (Hcop Hr'). destruct (DeepCopyInto x h) as [y h1].
  destruct Hcop as (Hsub & _). cbn [fst snd modify] in *. rewrite (content_weaken h h1 out m Hc Hsub). cbn [default from_option id].
  destruct (IH Hnd) with (m := <[k := y]> m) (ys := ys ++ [y]) (ks := ks ++ [k]) (ds := ds ++ [d]) (h := <[out := inj (<[k := y]> m)]> h1)
    as (m' & ys' & ks' & I1 & I2 & I3 & I4).
  - intros kx Hin. apply Hr. by right.
  - by apply Hsnoc.
  - apply content_insert.
  - rewrite map_to_list_insert.
    + rewrite Hp, zip_with_app by done. simpl. by rewrite Permutation_app_comm.
    + apply eq_None_not_Some. intros [y' Hy]. apply elem_of_map_to_list in Hy. rewrite Hp in Hy. apply elem_of_zip_l in Hy.
      apply (Hk k Hy). left.
  - rewrite !length_app. simpl. lia.
  - intros k' [Hin| ->%list_elem_of_singleton]%elem_of_app; [|done]. specialize (Hk k' Hin). by apply not_elem_of_cons in Hk as [_ ?].
  - exists m', ys', ks'. cbv zeta. cbn [omap list_omap snd fmap list_fmap fst]. rewrite Hd. rewrite <- app_assoc in I1, I4. done.
Qed.

Lemma Forall2_reads (h : heap) (ents : list (string * T)) :
  (∀ kx, kx ∈ ents → is_Some (reads h kx.2)) → Forall2 (λ kx d, reads h kx.2 = Some d) ents (omap (λ kx, reads h kx.2) ents).
Proof.
  induction ents as [|kx ents IH]; intros Hr; [constructor|]. cbn [omap list_omap]. destruct (Hr kx) as [d Hd]; [left|].
  rewrite Hd. constructor; [done|]. apply IH. intros ??. apply Hr. by right.
Qed.
Lemma flat_map_zip {A B} (f : B → list loc) (ks : list A) ys : length ks = length ys →
  flat_map (λ kx, f kx.2) (zip ks ys) = flat_map f ys.
Proof. revert ys. induction ks as [|k ks IH]; intros [|y ys] Hl; simplify_eq/=; [done|]. f_equal. by apply IH. Qed.

(** The entries of the copy are the entries of the map, one by one. *)
Lemma reads_copied_map h h' (m m' : gmap string T) order ys :
  map_Forall (λ _ x, is_Some (reads h x)) m →
  Forall2 (λ y d, reads h' y = Some d) ys (omap (λ kx, reads h kx.2) (range order m)) →
  map_to_list m' ≡ₚ zip (range order m).*1 ys → reads_map h' m' = Some (omap (reads h) m).
Proof.
  intros Hall Hys Hp.
  assert (Forall2 (λ kx y, ∃ d, reads h kx.2 = Some d ∧ reads h' y = Some d) (range order m) ys) as H2.
  { pose proof (Forall2_reads h (range order m)) as H1. generalize dependent (omap (λ kx, reads h kx.2) (range order m)).
    intros ds Hys H1. assert (Forall2 (λ kx d, reads h kx.2 = Some d) (range order m) ds) as H2
      by (apply H1; intros [k x] Hin%elem_of_range; by apply (Hall k x)).
    clear -H2 Hys. revert ys Hys. induction H2 as [|kx d ents ds Hd H2 IH]; intros ys Hys; [by inversion Hys; constructor|].
    inversion Hys as [|y ? ys' ? Hy Hys']; subst. constructor; [by exists d|by apply IH]. }
  assert (∀ k y, m' !! k = Some y → ∃ x d, m !! k = Some x ∧ reads h x = Some d ∧ reads h' y = Some d) as Hm'.
  { intros k y Hy. apply elem_of_map_to_list in Hy. rewrite Hp in Hy. apply list_elem_of_lookup in Hy as [j Hj].
    apply lookup_zip_Some in Hj as [Hk Hy]. rewrite list_lookup_fmap in Hk. destruct (range order m !! j) as [[k' x]|] eqn:He; [|done].
    injection Hk as ->. destruct (Forall2_lookup_lr _ _ _ j _ _ H2 He Hy) as (d & Hd & Hd'). exists x, d. split; [|done].
    apply (elem_of_range order). by apply list_elem_of_lookup_2 in He. }
  unfold reads_map. rewrite decide_True; [|intros k y Hy; destruct (Hm' k y Hy) as (x & d & _ & _ & Hd); by exists d]. f_equal.
  apply map_eq. intros k. rewrite !lookup_omap. destruct (m' !! k) as [y|] eqn:Hy.
  - destruct (Hm' k y Hy) as (x & d & -> & Hd & Hd'). simpl. by rewrite Hd, Hd'.
  - destruct (m !! k) as [x|] eqn:Hx; [|done]. exfalso. apply (elem_of_range order), list_elem_of_lookup in Hx as [j Hj].
    destruct (Forall2_lookup_l _ _ _ j _ H2 Hj) as (y & Hyj & _). apply (not_elem_of_dom_2 m' k); [done|].
    apply elem_of_dom. exists y. apply elem_of_map_to_list. rewrite Hp. apply (list_elem_of_lookup_2 _ j), lookup_zip_Some.
    by rewrite list_lookup_fmap, Hj.
Qed.

Lemma copy_map_ok `{Cell (gmap string T)} order h s d : reads h s = Some d → copied h d (copy_map order s h).
Proof.
  destruct s as [|l]; cbn [reads gomap_deep copy_map].
  { intros [= <-]. split_and!; simpl; [done|done|by intros l ?%elem_of_nil|constructor]. }
  destruct (content h l) as [m|] eqn:Hc; [|done]. cbn [mbind option_bind fmap option_fmap option_map]. unfold reads_map.
  case_decide as Hall; [|done]. intros [= <-]. unfold_st. rewrite Hc. cbn [default from_option id].
  pose proof (made_start h (fresh (dom h)) (∅ : gmap string T) eq_refl) as Hst. unfold alloc in *. cbn [fst snd] in *.
  set (out := fresh (dom h)) in *. set (h1 := <[out := _]> h) in *.
  destruct (copy_entries_ok h out (order m)) with (m := ∅ : gmap string T) (ys := @nil T) (ks := @nil string) (ds := @nil (deep T)) (h := h1)
    as (m' & ys & ks & I1 & I2 & I3 & ->); [apply NoDup_range_fst| |done|apply content_insert|done|done|by intros k ?%elem_of_nil|].
  { intros [k x] Hin%elem_of_range. by apply (Hall k x). }
  destruct (copy_entries out (order m) h1) as [[] h2]. cbn [fst snd app] in *.
  pose proof I1 as (Hs & Ho & Hnew & Hys & Hl & Hnd).
  pose proof (reads_copied_map h h2 m m' order ys Hall Hys I3) as Hr.
  assert (length (order m).*1 = length ys) as Hlen.
  { apply Forall2_length in Hys. rewrite Hys. rewrite length_fmap. apply Forall2_length with (P := λ kx d, reads h kx.2 = Some d).
    apply Forall2_reads. intros [k x] Hin%elem_of_range. by apply (Hall k x). }
  assert (reach_map h2 m' ≡ₚ flat_map (reach h2) ys) as Hreach.
  { unfold reach_map. rewrite I3. by rewrite (flat_map_zip (reach h2)). }
  unfold copied. cbn [fst snd reads reach gomap_deep]. rewrite I2. cbn [mbind option_bind]. rewrite Hr. cbn [default from_option id].
  split_and!; [done|done| |].
  - intros l' [->|Hin]%elem_of_cons; [done|]. rewrite Hreach in Hin. by apply Hl.
  - rewrite Hreach. apply NoDup_cons. split; [|done]. intros Hin. by apply Hl in Hin as [_ ?].
Qed.

(** *** Pointers *)
Lemma DeepCopy_ok `{Cell T} h p d : reads h p = Some d → copied h d (DeepCopy p h).
Proof.
  destruct p as [|l]; cbn [reads ptr_deep DeepCopy].
  { intros [= <-]. split_and!; simpl; [done|done|by intros l ?%elem_of_nil|constructor]. }
  destruct (content h l) as [x|] eqn:Hc; [|done]. cbn [mbind option_bind]. destruct (reads h x) as [dx|] eqn:Hx; [|done].
  intros [= <-]. unfold_st. pose proof (made_start h (fresh (dom h)) (zero : T) eq_refl) as Hst. unfold alloc in *. cbn [fst snd] in *.
  set (out := fresh (dom h)) in *. set (h1 := <[out := _]> h) in *. pose proof Hst as (Hs & _).
  rewrite (content_weaken h h1 l x Hc Hs). cbn [default from_option id].
  pose proof (λ c, made_snoc h out h1 [] [] x dx c Hst Hx) as Hsnoc. destruct (DeepCopyInto x h1) as [y h2].
  specialize (Hsnoc (inj y)). unfold store. cbn [fst snd modify app] in *.
  destruct Hsnoc as (Hs2 & _ & Hnew & Hys & Hl & Hnd). apply Forall2_cons_1 in Hys as [Hy _]. cbn [flat_map] in Hl, Hnd. rewrite app_nil_r in Hl, Hnd.
  unfold copied. cbn [fst snd reads reach ptr_deep]. rewrite content_insert. cbn [mbind option_bind]. rewrite Hy.
  split_and!; [done|done| |].
  - intros l' [->|Hin]%elem_of_cons; [done|]. by apply Hl.
  - apply NoDup_cons. split; [|done]. intros Hin. by apply Hl in Hin as [_ ?].
Qed.
End copy.

(** ** The types of apimachinery

    [TypeMeta] has no references, and the deep copies of the others are deep copies. *)
Context {OD : Deep ObjectMeta} {LD : Deep ListMeta} {CD : Deep Condition} {SD : Deep LabelSelector}.
Context {OC : Copier ObjectMeta} {LC : Copier ListMeta} {CC : Copier Condition} {SC : Copier LabelSelector}.
Context {TZ : Zero TypeMeta} {OZ : Zero ObjectMeta} {LZ : Zero ListMeta} {CZ : Zero Condition} {SZ : Zero LabelSelector}.
(** The orders in which the maps are visited. *)
Context (strings : ranger string string) (conditions : ranger string Condition).

#[export] Instance TypeMeta_deep : Deep TypeMeta := plain_deep TypeMeta.
#[export] Instance string_deep : Deep string := plain_deep string.
#[export] Instance Z_deep : Deep Z := plain_deep Z.
#[export] Instance string_zero : Zero string := "".
#[export] Instance Z_zero : Zero Z := 0%Z.
#[export] Instance slice_zero {T} : Zero (slice T) := nil_slice.
#[export] Instance gomap_zero {T} : Zero (gomap T) := nil_map.
#[export] Instance ptr_zero {T} : Zero (ptr T) := nil_ptr.

Lemma copied_plain {T} h h0 (x d : T) : @reads T (plain_deep T) h0 x = Some d → @copied T (plain_deep T) h d (x, h).
Proof. intros [= <-]. split_and!; simpl; [done|done|by intros l ?%elem_of_nil|constructor]. Qed.
Lemma copied_pair {A B} `{Deep A} `{Deep B} h h1 h2 (a : A) (b : B) da db :
  copied h da (a, h1) → copied h1 db (b, h2) → copied (T:=A * B) h (da, db) ((a, b), h2).
Proof.
  intros (A1 & A2 & A3 & A4) (B1 & B2 & B3 & B4). cbn [fst snd] in *. destruct (reads_weaken h1 h2 a da A2 B1) as [R1 R2].
  split_and!; cbn [fst snd reads reach pair_deep]; [by etrans|by rewrite R1, B2| |].
  - intros l [Hl|Hl]%elem_of_app; [rewrite R2 in Hl; by apply A3|]. intros Hd. apply (B3 l Hl). apply subseteq_dom in A1. by apply A1.
  - apply NoDup_app. rewrite R2. split_and!; [done| |done]. intros l Hl Hl'. apply (B3 l Hl'). by apply (reach_dom h1 a da A2).
Qed.
Lemma copied_via {R A} (fields : R → A) `{Deep A} h d r h' : copied h d (fields r, h') → @copied R (via_deep fields) h d (r, h').
Proof. done. Qed.
Lemma copied_bind {A B} `{Deep A} h (d : deep A) (m : ST heap A) (k : A → ST heap B) (P : B * heap → Prop) :
  copied h d (m h) → (∀ a h1, copied h d (a, h1) → P (k a h1)) → P ((m ≫= k) h).
Proof. intros Hm Hk. unfold_st. destruct (m h) as [a h1]. by apply Hk. Qed.
Lemma reads_pair {A B} `{Deep A} `{Deep B} h (a : A) (b : B) (d : deep (A * B)) :
  reads h (a, b) = Some d → ∃ da db, d = (da, db) ∧ reads h a = Some da ∧ reads h b = Some db.
Proof.
  cbn [reads pair_deep fst snd]. destruct (reads h a) as [da|]; [|done]. destruct (reads h b) as [db|]; [|done].
  intros [= <-]. by exists da, db.
Qed.
Lemma reads_via {R A} (fields : R → A) `{Deep A} h r d : @reads R (via_deep fields) h r = Some d → reads h (fields r) = Some d.
Proof. done. Qed.
Lemma copied_sub {T} `{Deep T} h h' (d : deep T) x : copied h d (x, h') → h ⊆ h'.
Proof. by intros [? _]. Qed.

(** A struct, field by field; the copies of its parts are in the hint database. *)
Create HintDb deepcopy.
Ltac split_reads :=
  repeat match goal with H : reads _ (_, _) = Some _ |- _ => apply reads_pair in H as (? & ? & -> & ? & H) end.
Ltac weaken_reads h h1 Hs :=
  repeat match goal with H : reads h ?x = Some _ |- _ => apply (reads_weaken h h1 x _) in H; [destruct H as [H _]|exact Hs] end.
Ltac copy_step :=
  match goal with
  | |- copied _ _ ((_ ≫= _) ?h) =>
      let h1 := fresh "h" in let C := fresh "C" in
      eapply copied_bind; [first [eapply copy_slice_ok; eassumption | eapply copy_map_ok; eassumption | eapply DeepCopy_ok; eassumption | eapply copies; eassumption | solve [eauto 2 with deepcopy]]|];
      intros ? h1 C; weaken_reads h h1 (copied_sub _ _ _ _ C)
  end.
Ltac copy_done := first [eassumption | eapply copied_plain; eassumption | eapply copied_pair; [copy_done|copy_done]].
Ltac copy_struct :=
  let H := fresh "H" in intros H; apply reads_via in H; cbv beta in H; split_reads; cbv beta; repeat copy_step;
  apply copied_via; cbv beta; copy_done.

(** ** Structs without references *)
#[export] Instance Endpoint_deep : Deep Endpoint_t := plain_deep Endpoint_t.
#[export] Instance Endpoint_zero : Zero Endpoint_t := mkEndpoint_t zero zero.
Definition Endpoint_DeepCopyInto (in_ : Endpoint_t) : ST heap Endpoint_t := mret in_.
#[export] Instance Endpoint_copier : Copier Endpoint_t.
Proof. refine {| DeepCopyInto := Endpoint_DeepCopyInto |}. intros h x d. apply copied_plain. Defined.
#[export] Instance ImportSource_deep : Deep ImportSource_t := plain_deep ImportSource_t.
#[export] Instance ImportSource_zero : Zero ImportSource_t := mkImportSource_t zero zero zero.
Definition ImportSource_DeepCopyInto (in_ : ImportSource_t) : ST heap ImportSource_t := mret in_.
#[export] Instance ImportSource_copier : Copier ImportSource_t.
Proof. refine {| DeepCopyInto := ImportSource_DeepCopyInto |}. intros h x d. apply copied_plain. Defined.
#[export] Instance ExportSpec_deep : Deep ExportSpec_t := plain_deep ExportSpec_t.
#[export] Instance ExportSpec_zero : Zero ExportSpec_t := mkExportSpec_t zero zero.
Definition ExportSpec_DeepCopyInto (in_ : ExportSpec_t) : ST heap ExportSpec_t := mret in_.
#[export] Instance ExportSpec_copier : Copier ExportSpec_t.
Proof. refine {| DeepCopyInto := ExportSpec_DeepCopyInto |}. intros h x d. apply copied_plain. Defined.
#[export] Instance DataPlaneSpec_deep : Deep DataPlaneSpec_t := plain_deep DataPlaneSpec_t.
#[export] Instance DataPlaneSpec_zero : Zero DataPlaneSpec_t := mkDataPlaneSpec_t zero zero.
Definition DataPlaneSpec_DeepCopyInto (in_ : DataPlaneSpec_t) : ST heap DataPlaneSpec_t := mret in_.
#[export] Instance DataPlaneSpec_copier : Copier DataPlaneSpec_t.
Proof. refine {| DeepCopyInto := DataPlaneSpec_DeepCopyInto |}. intros h x d. apply copied_plain. Defined.
#[export] Instance string_copier : Copier string.
Proof. refine {| DeepCopyInto x := mret x |}. intros h x d. apply copied_plain. Defined.

(** ** Structs with references

    A field that is not mentioned has the value that the assignment of the struct gives it. *)
#[export] Instance WorkloadSetOrSelector_deep : Deep WorkloadSetOrSelector_t := via_deep (λ x, (WorkloadSets_r x, WorkloadSelector_r x)).
#[export] Instance WorkloadSetOrSelector_zero : Zero WorkloadSetOrSelector_t := mkWSS_t zero zero.
Definition WorkloadSetOrSelector_DeepCopyInto (in_ : WorkloadSetOrSelector_t) : ST heap WorkloadSetOrSelector_t :=
  sets ← copy_slice (WorkloadSets_r in_);
  selector ← DeepCopy (WorkloadSelector_r in_);
  mret (mkWSS_t sets selector).
Lemma WorkloadSetOrSelector_copies h (x : WorkloadSetOrSelector_t) d : reads h x = Some d → copied h d (WorkloadSetOrSelector_DeepCopyInto x h).
Proof using OC LC CC SC TZ OZ LZ CZ SZ. unfold WorkloadSetOrSelector_DeepCopyInto. copy_struct. Qed.
#[export] Instance WorkloadSetOrSelector_copier : Copier WorkloadSetOrSelector_t := {| DeepCopyInto := WorkloadSetOrSelector_DeepCopyInto; copies := WorkloadSetOrSelector_copies |}.
#[local] Hint Resolve WorkloadSetOrSelector_copies : deepcopy.
#[export] Instance AccessPolicySpec_deep : Deep AccessPolicySpec_t := via_deep (λ x, (Action_r x, From_r x, To_r x)).
#[export] Instance AccessPolicySpec_zero : Zero AccessPolicySpec_t := mkPolicySpec_t zero zero zero.
Definition AccessPolicySpec_DeepCopyInto (in_ : AccessPolicySpec_t) : ST heap AccessPolicySpec_t :=
  from ← copy_slice (From_r in_);
  to ← copy_slice (To_r in_);
  mret (mkPolicySpec_t (Action_r in_) from to).
Lemma AccessPolicySpec_copies h (x : AccessPolicySpec_t) d : reads h x = Some d → copied h d (AccessPolicySpec_DeepCopyInto x h).
Proof using OC LC CC SC TZ OZ LZ CZ SZ. unfold AccessPolicySpec_DeepCopyInto. copy_struct. Qed.
#[export] Instance AccessPolicySpec_copier : Copier AccessPolicySpec_t := {| DeepCopyInto := AccessPolicySpec_DeepCopyInto; copies := AccessPolicySpec_copies |}.
#[local] Hint Resolve AccessPolicySpec_copies : deepcopy.
#[export] Instance AccessPolicy_deep : Deep AccessPolicy_t := via_deep (λ x, (ap_TypeMeta x, ap_ObjectMeta x, ap_Spec x)).
#[export] Instance AccessPolicy_zero : Zero AccessPolicy_t := mkPolicy_t zero zero zero.
Definition AccessPolicy_DeepCopyInto (in_ : AccessPolicy_t) : ST heap AccessPolicy_t :=
  objectMeta ← DeepCopyInto (ap_ObjectMeta in_);
  spec ← AccessPolicySpec_DeepCopyInto (ap_Spec in_);
  mret (mkPolicy_t (ap_TypeMeta in_) objectMeta spec).
Lemma AccessPolicy_copies h (x : AccessPolicy_t) d : reads h x = Some d → copied h d (AccessPolicy_DeepCopyInto x h).
Proof using OC LC CC SC TZ OZ LZ CZ SZ. unfold AccessPolicy_DeepCopyInto. copy_struct. Qed.
#[export] Instance AccessPolicy_copier : Copier AccessPolicy_t := {| DeepCopyInto := AccessPolicy_DeepCopyInto; copies := AccessPolicy_copies |}.
#[local] Hint Resolve AccessPolicy_copies : deepcopy.
#[export] Instance AccessPolicyList_deep : Deep AccessPolicyList_t := via_deep (λ x, (apl_TypeMeta x, apl_ListMeta x, apl_Items x)).
#[export] Instance AccessPolicyList_zero : Zero AccessPolicyList_t := mkPolicyList_t zero zero zero.
Definition AccessPolicyList_DeepCopyInto (in_ : AccessPolicyList_t) : ST heap AccessPolicyList_t :=
  listMeta ← DeepCopyInto (apl_ListMeta in_);
  items ← copy_slice (apl_Items in_);
  mret (mkPolicyList_t (apl_TypeMeta in_) listMeta items).
Lemma AccessPolicyList_copies h (x : AccessPolicyList_t) d : reads h x = Some d → copied h d (AccessPolicyList_DeepCopyInto x h).
Proof using OC LC CC SC TZ OZ LZ CZ SZ. unfold AccessPolicyList_DeepCopyInto. copy_struct. Qed.
#[export] Instance AccessPolicyList_copier : Copier AccessPolicyList_t := {| DeepCopyInto := AccessPolicyList_DeepCopyInto; copies := AccessPolicyList_copies |}.
#[local] Hint Resolve AccessPolicyList_copies : deepcopy.
#[export] Instance PrivilegedAccessPolicy_deep : Deep PrivilegedAccessPolicy_t := via_deep (λ x, (pap_TypeMeta x, pap_ObjectMeta x, pap_Spec x)).
#[export] Instance PrivilegedAccessPolicy_zero : Zero PrivilegedAccessPolicy_t := mkPrivileged_t zero zero zero.
Definition PrivilegedAccessPolicy_DeepCopyInto (in_ : PrivilegedAccessPolicy_t) : ST heap PrivilegedAccessPolicy_t :=
  objectMeta ← DeepCopyInto (pap_ObjectMeta in_);
  spec ← AccessPolicySpec_DeepCopyInto (pap_Spec in_);
  mret (mkPrivileged_t (pap_TypeMeta in_) objectMeta spec).
Lemma PrivilegedAccessPolicy_copies h (x : PrivilegedAccessPolicy_t) d : reads h x = Some d → copied h d (PrivilegedAccessPolicy_DeepCopyInto x h).
Proof using OC LC CC SC TZ OZ LZ CZ SZ. unfold PrivilegedAccessPolicy_DeepCopyInto. copy_struct. Qed.
#[export] Instance PrivilegedAccessPolicy_copier : Copier PrivilegedAccessPolicy_t := {| DeepCopyInto := PrivilegedAccessPolicy_DeepCopyInto; copies := PrivilegedAccessPolicy_copies |}.
#[local] Hint Resolve PrivilegedAccessPolicy_copies : deepcopy.
#[export] Instance PrivilegedAccessPolicyList_deep : Deep PrivilegedAccessPolicyList_t := via_deep (λ x, (papl_TypeMeta x, papl_ListMeta x, papl_Items x)).
#[export] Instance PrivilegedAccessPolicyList_zero : Zero PrivilegedAccessPolicyList_t := mkPrivilegedList_t zero zero zero.
Definition PrivilegedAccessPolicyList_DeepCopyInto (in_ : PrivilegedAccessPolicyList_t) : ST heap PrivilegedAccessPolicyList_t :=
  listMeta ← DeepCopyInto (papl_ListMeta in_);
  items ← copy_slice (papl_Items in_);
  mret (mkPrivilegedList_t (papl_TypeMeta in_) listMeta items).
Lemma PrivilegedAccessPolicyList_copies h (x : PrivilegedAccessPolicyList_t) d : reads h x = Some d → copied h d (PrivilegedAccessPolicyList_DeepCopyInto x h).
Proof using OC LC CC SC TZ OZ LZ CZ SZ. unfold PrivilegedAccessPolicyList_DeepCopyInto. copy_struct. Qed.
#[export] Instance PrivilegedAccessPolicyList_copier : Copier PrivilegedAccessPolicyList_t := {| DeepCopyInto := PrivilegedAccessPolicyList_DeepCopyInto; copies := PrivilegedAccessPolicyList_copies |}.
#[local] Hint Resolve PrivilegedAccessPolicyList_copies : deepcopy.
#[export] Instance PeerSpec_deep : Deep PeerSpec_t := via_deep (λ x, Gateways_r x).
#[export] Instance PeerSpec_zero : Zero PeerSpec_t := mkPeerSpec_t zero.
Definition PeerSpec_DeepCopyInto (in_ : PeerSpec_t) : ST heap PeerSpec_t :=
  gateways ← copy_slice (Gateways_r in_);
  mret (mkPeerSpec_t gateways).
Lemma PeerSpec_copies h (x : PeerSpec_t) d : reads h x = Some d → copied h d (PeerSpec_DeepCopyInto x h).
Proof using OC LC CC SC TZ OZ LZ CZ SZ. unfold PeerSpec_DeepCopyInto. copy_struct. Qed.
#[export] Instance PeerSpec_copier : Copier PeerSpec_t := {| DeepCopyInto := PeerSpec_DeepCopyInto; copies := PeerSpec_copies |}.
#[local] Hint Resolve PeerSpec_copies : deepcopy.
#[export] Instance PeerStatus_deep : Deep PeerStatus_t := via_deep (λ x, (ps_Conditions x, ps_Labels x)).
#[export] Instance PeerStatus_zero : Zero PeerStatus_t := mkPeerStatus_t zero zero.
Definition PeerStatus_DeepCopyInto (in_ : PeerStatus_t) : ST heap PeerStatus_t :=
  conds ← copy_slice (ps_Conditions in_);
  labels ← copy_map strings (ps_Labels in_);
  mret (mkPeerStatus_t conds labels).
Lemma PeerStatus_copies h (x : PeerStatus_t) d : reads h x = Some d → copied h d (PeerStatus_DeepCopyInto x h).
Proof using OC LC CC SC TZ OZ LZ CZ SZ strings. unfold PeerStatus_DeepCopyInto. copy_struct. Qed.
#[export] Instance PeerStatus_copier : Copier PeerStatus_t := {| DeepCopyInto := PeerStatus_DeepCopyInto; copies := PeerStatus_copies |}.
#[local] Hint Resolve PeerStatus_copies : deepcopy.
#[export] Instance Peer_deep : Deep Peer_t := via_deep (λ x, (p_TypeMeta x, p_ObjectMeta x, p_Spec x, p_Status x)).
#[export] Instance Peer_zero : Zero Peer_t := mkPeer_t zero zero zero zero.
Definition Peer_DeepCopyInto (in_ : Peer_t) : ST heap Peer_t :=
  objectMeta ← DeepCopyInto (p_ObjectMeta in_);
  spec ← PeerSpec_DeepCopyInto (p_Spec in_);
  status ← PeerStatus_DeepCopyInto (p_Status in_);
  mret (mkPeer_t (p_TypeMeta in_) objectMeta spec status).
Lemma Peer_copies h (x : Peer_t) d : reads h x = Some d → copied h d (Peer_DeepCopyInto x h).
Proof using OC LC CC SC TZ OZ LZ CZ SZ strings. unfold Peer_DeepCopyInto. copy_struct. Qed.
#[export] Instance Peer_copier : Copier Peer_t := {| DeepCopyInto := Peer_DeepCopyInto; copies := Peer_copies |}.
#[local] Hint Resolve Peer_copies : deepcopy.
#[export] Instance PeerList_deep : Deep PeerList_t := via_deep (λ x, (pl_TypeMeta x, pl_ListMeta x, pl_Items x)).
#[export] Instance PeerList_zero : Zero PeerList_t := mkPeerList_t zero zero zero.
Definition PeerList_DeepCopyInto (in_ : PeerList_t) : ST heap PeerList_t :=
  listMeta ← DeepCopyInto (pl_ListMeta in_);
  items ← copy_slice (pl_Items in_);
  mret (mkPeerList_t (pl_TypeMeta in_) listMeta items).
Lemma PeerList_copies h (x : PeerList_t) d : reads h x = Some d → copied h d (PeerList_DeepCopyInto x h).
Proof using OC LC CC SC TZ OZ LZ CZ SZ strings. unfold PeerList_DeepCopyInto. copy_struct. Qed.
#[export] Instance PeerList_copier : Copier PeerList_t := {| DeepCopyInto := PeerList_DeepCopyInto; copies := PeerList_copies |}.
#[local] Hint Resolve PeerList_copies : deepcopy.
#[export] Instance ExportStatus_deep : Deep ExportStatus_t := via_deep (λ x, es_Conditions x).
#[export] Instance ExportStatus_zero : Zero ExportStatus_t := mkExportStatus_t zero.
Definition ExportStatus_DeepCopyInto (in_ : ExportStatus_t) : ST heap ExportStatus_t :=
  conds ← copy_slice (es_Conditions in_);
  mret (mkExportStatus_t conds).
Lemma ExportStatus_copies h (x : ExportStatus_t) d : reads h x = Some d → copied h d (ExportStatus_DeepCopyInto x h).
Proof using OC LC CC SC TZ OZ LZ CZ SZ. unfold ExportStatus_DeepCopyInto. copy_struct. Qed.
#[export] Instance ExportStatus_copier : Copier ExportStatus_t := {| DeepCopyInto := ExportStatus_DeepCopyInto; copies := ExportStatus_copies |}.
#[local] Hint Resolve ExportStatus_copies : deepcopy.
#[export] Instance Export_deep : Deep Export_t := via_deep (λ x, (e_TypeMeta x, e_ObjectMeta x, e_Spec x, e_Status x)).
#[export] Instance Export_zero : Zero Export_t := mkExport_t zero zero zero zero.
Definition Export_DeepCopyInto (in_ : Export_t) : ST heap Export_t :=
  objectMeta ← DeepCopyInto (e_ObjectMeta in_);
  status ← ExportStatus_DeepCopyInto (e_Status in_);
  mret (mkExport_t (e_TypeMeta in_) objectMeta (e_Spec in_) status).
Lemma Export_copies h (x : Export_t) d : reads h x = Some d → copied h d (Export_DeepCopyInto x h).
Proof using OC LC CC SC TZ OZ LZ CZ SZ. unfold Export_DeepCopyInto. copy_struct. Qed.
#[export] Instance Export_copier : Copier Export_t := {| DeepCopyInto := Export_DeepCopyInto; copies := Export_copies |}.
#[local] Hint Resolve Export_copies : deepcopy.
#[export] Instance ExportList_deep : Deep ExportList_t := via_deep (λ x, (el_TypeMeta x, el_ListMeta x, el_Items x)).
#[export] Instance ExportList_zero : Zero ExportList_t := mkExportList_t zero zero zero.
Definition ExportList_DeepCopyInto (in_ : ExportList_t) : ST heap ExportList_t :=
  listMeta ← DeepCopyInto (el_ListMeta in_);
  items ← copy_slice (el_Items in_);
  mret (mkExportList_t (el_TypeMeta in_) listMeta items).
Lemma ExportList_copies h (x : ExportList_t) d : reads h x = Some d → copied h d (ExportList_DeepCopyInto x h).
Proof using OC LC CC SC TZ OZ LZ CZ SZ. unfold ExportList_DeepCopyInto. copy_struct. Qed.
#[export] Instance ExportList_copier : Copier ExportList_t := {| DeepCopyInto := ExportList_DeepCopyInto; copies := ExportList_copies |}.
#[local] Hint Resolve ExportList_copies : deepcopy.
#[export] Instance ImportSpec_deep : Deep ImportSpec_t := via_deep (λ x, (is_Port x, is_TargetPort x, is_Sources x, is_LBScheme x)).
#[export] Instance ImportSpec_zero : Zero ImportSpec_t := mkImportSpec_t zero zero zero zero.
Definition ImportSpec_DeepCopyInto (in_ : ImportSpec_t) : ST heap ImportSpec_t :=
  sources ← copy_slice (is_Sources in_);
  mret (mkImportSpec_t (is_Port in_) (is_TargetPort in_) sources (is_LBScheme in_)).
Lemma ImportSpec_copies h (x : ImportSpec_t) d : reads h x = Some d → copied h d (ImportSpec_DeepCopyInto x h).
Proof using OC LC CC SC TZ OZ LZ CZ SZ. unfold ImportSpec_DeepCopyInto. copy_struct. Qed.
#[export] Instance ImportSpec_copier : Copier ImportSpec_t := {| DeepCopyInto := ImportSpec_DeepCopyInto; copies := ImportSpec_copies |}.
#[local] Hint Resolve ImportSpec_copies : deepcopy.
#[export] Instance ImportStatus_deep : Deep ImportStatus_t := via_deep (λ x, ims_Conditions x).
#[export] Instance ImportStatus_zero : Zero ImportStatus_t := mkImportStatus_t zero.
Definition ImportStatus_DeepCopyInto (in_ : ImportStatus_t) : ST heap ImportStatus_t :=
  conds ← copy_slice (ims_Conditions in_);
  mret (mkImportStatus_t conds).
Lemma ImportStatus_copies h (x : ImportStatus_t) d : reads h x = Some d → copied h d (ImportStatus_DeepCopyInto x h).
Proof using OC LC CC SC TZ OZ LZ CZ SZ. unfold ImportStatus_DeepCopyInto. copy_struct. Qed.
#[export] Instance ImportStatus_copier : Copier ImportStatus_t := {| DeepCopyInto := ImportStatus_DeepCopyInto; copies := ImportStatus_copies |}.
#[local] Hint Resolve ImportStatus_copies : deepcopy.
#[export] Instance Import_deep : Deep Import_t := via_deep (λ x, (i_TypeMeta x, i_ObjectMeta x, i_Spec x, i_Status x)).
#[export] Instance Import_zero : Zero Import_t := mkImport_t zero zero zero zero.
Definition Import_DeepCopyInto (in_ : Import_t) : ST heap Import_t :=
  objectMeta ← DeepCopyInto (i_ObjectMeta in_);
  spec ← ImportSpec_DeepCopyInto (i_Spec in_);
  status ← ImportStatus_DeepCopyInto (i_Status in_);
  mret (mkImport_t (i_TypeMeta in_) objectMeta spec status).
Lemma Import_copies h (x : Import_t) d : reads h x = Some d → copied h d (Import_DeepCopyInto x h).
Proof using OC LC CC SC TZ OZ LZ CZ SZ. unfold Import_DeepCopyInto. copy_struct. Qed.
#[export] Instance Import_copier : Copier Import_t := {| DeepCopyInto := Import_DeepCopyInto; copies := Import_copies |}.
#[local] Hint Resolve Import_copies : deepcopy.
#[export] Instance ImportList_deep : Deep ImportList_t := via_deep (λ x, (il_TypeMeta x, il_ListMeta x, il_Items x)).
#[export] Instance ImportList_zero : Zero ImportList_t := mkImportList_t zero zero zero.
Definition ImportList_DeepCopyInto (in_ : ImportList_t) : ST heap ImportList_t :=
  listMeta ← DeepCopyInto (il_ListMeta in_);
  items ← copy_slice (il_Items in_);
  mret (mkImportList_t (il_TypeMeta in_) listMeta items).
Lemma ImportList_copies h (x : ImportList_t) d : reads h x = Some d → copied h d (ImportList_DeepCopyInto x h).
Proof using OC LC CC SC TZ OZ LZ CZ SZ. unfold ImportList_DeepCopyInto. copy_struct. Qed.
#[export] Instance ImportList_copier : Copier ImportList_t := {| DeepCopyInto := ImportList_DeepCopyInto; copies := ImportList_copies |}.
#[local] Hint Resolve ImportList_copies : deepcopy.
#[export] Instance ComponentStatus_deep : Deep ComponentStatus_t := via_deep (λ x, cs_Conditions x).
#[export] Instance ComponentStatus_zero : Zero ComponentStatus_t := mkComponentStatus_t zero.
Definition ComponentStatus_DeepCopyInto (in_ : ComponentStatus_t) : ST heap ComponentStatus_t :=
  conds ← copy_map conditions (cs_Conditions in_);
  mret (mkComponentStatus_t conds).
Lemma ComponentStatus_copies h (x : ComponentStatus_t) d : reads h x = Some d → copied h d (ComponentStatus_DeepCopyInto x h).
Proof using OC LC CC SC TZ OZ LZ CZ SZ conditions. unfold ComponentStatus_DeepCopyInto. copy_struct. Qed.
#[export] Instance ComponentStatus_copier : Copier ComponentStatus_t := {| DeepCopyInto := ComponentStatus_DeepCopyInto; copies := ComponentStatus_copies |}.
#[local] Hint Resolve ComponentStatus_copies : deepcopy.
#[export] Instance IngressStatus_deep : Deep IngressStatus_t := via_deep (λ x, (igs_IP_r x, igs_Port_r x, igs_Conditions_r x)).
#[export] Instance IngressStatus_zero : Zero IngressStatus_t := mkIngressStatus_t zero zero zero.
Definition IngressStatus_DeepCopyInto (in_ : IngressStatus_t) : ST heap IngressStatus_t :=
  conds ← copy_map conditions (igs_Conditions_r in_);
  mret (mkIngressStatus_t (igs_IP_r in_) (igs_Port_r in_) conds).
Lemma IngressStatus_copies h (x : IngressStatus_t) d : reads h x = Some d → copied h d (IngressStatus_DeepCopyInto x h).
Proof using OC LC CC SC TZ OZ LZ CZ SZ conditions. unfold IngressStatus_DeepCopyInto. copy_struct. Qed.
#[export] Instance IngressStatus_copier : Copier IngressStatus_t := {| DeepCopyInto := IngressStatus_DeepCopyInto; copies := IngressStatus_copies |}.
#[local] Hint Resolve IngressStatus_copies : deepcopy.
#[export] Instance InstanceStatus_deep : Deep InstanceStatus_t := via_deep (λ x, (ins_Controlplane x, ins_Dataplane x, ins_Ingress x)).
#[export] Instance InstanceStatus_zero : Zero InstanceStatus_t := mkInstanceStatus_t zero zero zero.
Definition InstanceStatus_DeepCopyInto (in_ : InstanceStatus_t) : ST heap InstanceStatus_t :=
  controlplane ← ComponentStatus_DeepCopyInto (ins_Controlplane in_);
  dataplane ← ComponentStatus_DeepCopyInto (ins_Dataplane in_);
  ingress ← IngressStatus_DeepCopyInto (ins_Ingress in_);
  mret (mkInstanceStatus_t controlplane dataplane ingress).
Lemma InstanceStatus_copies h (x : InstanceStatus_t) d : reads h x = Some d → copied h d (InstanceStatus_DeepCopyInto x h).
Proof using OC LC CC SC TZ OZ LZ CZ SZ conditions. unfold InstanceStatus_DeepCopyInto. copy_struct. Qed.
#[export] Instance InstanceStatus_copier : Copier InstanceStatus_t := {| DeepCopyInto := InstanceStatus_DeepCopyInto; copies := InstanceStatus_copies |}.
#[local] Hint Resolve InstanceStatus_copies : deepcopy.
#[export] Instance IngressSpec_deep : Deep IngressSpec_t := via_deep (λ x, (igp_Type_r x, igp_Port_r x, igp_Annotations_r x)).
#[export] Instance IngressSpec_zero : Zero IngressSpec_t := mkIngressSpec_t zero zero zero.
Definition IngressSpec_DeepCopyInto (in_ : IngressSpec_t) : ST heap IngressSpec_t :=
  annotations ← copy_map strings (igp_Annotations_r in_);
  mret (mkIngressSpec_t (igp_Type_r in_) (igp_Port_r in_) annotations).
Lemma IngressSpec_copies h (x : IngressSpec_t) d : reads h x = Some d → copied h d (IngressSpec_DeepCopyInto x h).
Proof using OC LC CC SC TZ OZ LZ CZ SZ strings. unfold IngressSpec_DeepCopyInto. copy_struct. Qed.
#[export] Instance IngressSpec_copier : Copier IngressSpec_t := {| DeepCopyInto := IngressSpec_DeepCopyInto; copies := IngressSpec_copies |}.
#[local] Hint Resolve IngressSpec_copies : deepcopy.
#[export] Instance InstanceSpec_deep : Deep InstanceSpec_t := via_deep (λ x, (ins_DataPlane x, ins_IngressSpec x, ins_LogLevel x, ins_ContainerRegistry x, ins_Tag x, ins_Namespace x, ins_PeerLabels x)).
#[export] Instance InstanceSpec_zero : Zero InstanceSpec_t := mkInstanceSpec_t zero zero zero zero zero zero zero.
Definition InstanceSpec_DeepCopyInto (in_ : InstanceSpec_t) : ST heap InstanceSpec_t :=
  ingress ← IngressSpec_DeepCopyInto (ins_IngressSpec in_);
  labels ← copy_map strings (ins_PeerLabels in_);
  mret (mkInstanceSpec_t (ins_DataPlane in_) ingress (ins_LogLevel in_) (ins_ContainerRegistry in_) (ins_Tag in_) (ins_Namespace in_) labels).
Lemma InstanceSpec_copies h (x : InstanceSpec_t) d : reads h x = Some d → copied h d (InstanceSpec_DeepCopyInto x h).
Proof using OC LC CC SC TZ OZ LZ CZ SZ strings. unfold InstanceSpec_DeepCopyInto. copy_struct. Qed.
#[export] Instance InstanceSpec_copier : Copier InstanceSpec_t := {| DeepCopyInto := InstanceSpec_DeepCopyInto; copies := InstanceSpec_copies |}.
#[local] Hint Resolve InstanceSpec_copies : deepcopy.
#[export] Instance Instance_deep : Deep Instance_t := via_deep (λ x, (in_TypeMeta x, in_ObjectMeta x, in_Spec_r x, in_Status_r x)).
#[export] Instance Instance_zero : Zero Instance_t := mkInstance_t zero zero zero zero.
Definition Instance_DeepCopyInto (in_ : Instance_t) : ST heap Instance_t :=
  objectMeta ← DeepCopyInto (in_ObjectMeta in_);
  spec ← InstanceSpec_DeepCopyInto (in_Spec_r in_);
  status ← InstanceStatus_DeepCopyInto (in_Status_r in_);
  mret (mkInstance_t (in_TypeMeta in_) objectMeta spec status).
Lemma Instance_copies h (x : Instance_t) d : reads h x = Some d → copied h d (Instance_DeepCopyInto x h).
Proof using OC LC CC SC TZ OZ LZ CZ SZ strings conditions. unfold Instance_DeepCopyInto. copy_struct. Qed.
#[export] Instance Instance_copier : Copier Instance_t := {| DeepCopyInto := Instance_DeepCopyInto; copies := Instance_copies |}.
#[local] Hint Resolve Instance_copies : deepcopy.
#[export] Instance InstanceList_deep : Deep InstanceList_t := via_deep (λ x, (inl_TypeMeta x, inl_ListMeta x, inl_Items x)).
#[export] Instance InstanceList_zero : Zero InstanceList_t := mkInstanceList_t zero zero zero.
Definition InstanceList_DeepCopyInto (in_ : InstanceList_t) : ST heap InstanceList_t :=
  listMeta ← DeepCopyInto (inl_ListMeta in_);
  items ← copy_slice (inl_Items in_);
  mret (mkInstanceList_t (inl_TypeMeta in_) listMeta items).
Lemma InstanceList_copies h (x : InstanceList_t) d : reads h x = Some d → copied h d (InstanceList_DeepCopyInto x h).
Proof using OC LC CC SC TZ OZ LZ CZ SZ strings conditions. unfold InstanceList_DeepCopyInto. copy_struct. Qed.
#[export] Instance InstanceList_copier : Copier InstanceList_t := {| DeepCopyInto := InstanceList_DeepCopyInto; copies := InstanceList_copies |}.
#[local] Hint Resolve InstanceList_copies : deepcopy.

(** ** DeepCopy and DeepCopyObject *)
Definition Endpoint_DeepCopy : ptr Endpoint_t → ST heap (ptr Endpoint_t) := DeepCopy.
Definition ImportSource_DeepCopy : ptr ImportSource_t → ST heap (ptr ImportSource_t) := DeepCopy.
Definition ExportSpec_DeepCopy : ptr ExportSpec_t → ST heap (ptr ExportSpec_t) := DeepCopy.
Definition DataPlaneSpec_DeepCopy : ptr DataPlaneSpec_t → ST heap (ptr DataPlaneSpec_t) := DeepCopy.
Definition WorkloadSetOrSelector_DeepCopy : ptr WorkloadSetOrSelector_t → ST heap (ptr WorkloadSetOrSelector_t) := DeepCopy.
Definition AccessPolicySpec_DeepCopy : ptr AccessPolicySpec_t → ST heap (ptr AccessPolicySpec_t) := DeepCopy.
Definition AccessPolicy_DeepCopy : ptr AccessPolicy_t → ST heap (ptr AccessPolicy_t) := DeepCopy.
Definition AccessPolicyList_DeepCopy : ptr AccessPolicyList_t → ST heap (ptr AccessPolicyList_t) := DeepCopy.
Definition PrivilegedAccessPolicy_DeepCopy : ptr PrivilegedAccessPolicy_t → ST heap (ptr PrivilegedAccessPolicy_t) := DeepCopy.
Definition PrivilegedAccessPolicyList_DeepCopy : ptr PrivilegedAccessPolicyList_t → ST heap (ptr PrivilegedAccessPolicyList_t) := DeepCopy.
Definition PeerSpec_DeepCopy : ptr PeerSpec_t → ST heap (ptr PeerSpec_t) := DeepCopy.
Definition PeerStatus_DeepCopy : ptr PeerStatus_t → ST heap (ptr PeerStatus_t) := DeepCopy.
Definition Peer_DeepCopy : ptr Peer_t → ST heap (ptr Peer_t) := DeepCopy.
Definition PeerList_DeepCopy : ptr PeerList_t → ST heap (ptr PeerList_t) := DeepCopy.
Definition ExportStatus_DeepCopy : ptr ExportStatus_t → ST heap (ptr ExportStatus_t) := DeepCopy.
Definition Export_DeepCopy : ptr Export_t → ST heap (ptr Export_t) := DeepCopy.
Definition ExportList_DeepCopy : ptr ExportList_t → ST heap (ptr ExportList_t) := DeepCopy.
Definition ImportSpec_DeepCopy : ptr ImportSpec_t → ST heap (ptr ImportSpec_t) := DeepCopy.
Definition ImportStatus_DeepCopy : ptr ImportStatus_t → ST heap (ptr ImportStatus_t) := DeepCopy.
Definition Import_DeepCopy : ptr Import_t → ST heap (ptr Import_t) := DeepCopy.
Definition ImportList_DeepCopy : ptr ImportList_t → ST heap (ptr ImportList_t) := DeepCopy.
Definition ComponentStatus_DeepCopy : ptr ComponentStatus_t → ST heap (ptr ComponentStatus_t) := DeepCopy.
Definition IngressStatus_DeepCopy : ptr IngressStatus_t → ST heap (ptr IngressStatus_t) := DeepCopy.
Definition InstanceStatus_DeepCopy : ptr InstanceStatus_t → ST heap (ptr InstanceStatus_t) := DeepCopy.
Definition IngressSpec_DeepCopy : ptr IngressSpec_t → ST heap (ptr IngressSpec_t) := DeepCopy.
Definition InstanceSpec_DeepCopy : ptr InstanceSpec_t → ST heap (ptr InstanceSpec_t) := DeepCopy.
Definition Instance_DeepCopy : ptr Instance_t → ST heap (ptr Instance_t) := DeepCopy.
Definition InstanceList_DeepCopy : ptr InstanceList_t → ST heap (ptr InstanceList_t) := DeepCopy.

(** A [runtime.Object] is nil, or a pointer to one of the objects. *)
Inductive runtime_Object := nil_object
  | AccessPolicy_object (p : ptr AccessPolicy_t)
  | AccessPolicyList_object (p : ptr AccessPolicyList_t)
  | PrivilegedAccessPolicy_object (p : ptr PrivilegedAccessPolicy_t)
  | PrivilegedAccessPolicyList_object (p : ptr PrivilegedAccessPolicyList_t)
  | Peer_object (p : ptr Peer_t)
  | PeerList_object (p : ptr PeerList_t)
  | Export_object (p : ptr Export_t)
  | ExportList_object (p : ptr ExportList_t)
  | Import_object (p : ptr Import_t)
  | ImportList_object (p : ptr ImportList_t)
  | Instance_object (p : ptr Instance_t)
  | InstanceList_object (p : ptr InstanceList_t).
Definition as_object {T} (object : ptr T → runtime_Object) (c : ptr T) : runtime_Object :=
  match c with nil_ptr => nil_object | Ptr _ => object c end.
Definition AccessPolicy_DeepCopyObject (in_ : ptr AccessPolicy_t) : ST heap runtime_Object := c ← AccessPolicy_DeepCopy in_; mret (as_object AccessPolicy_object c).
Definition AccessPolicyList_DeepCopyObject (in_ : ptr AccessPolicyList_t) : ST heap runtime_Object := c ← AccessPolicyList_DeepCopy in_; mret (as_object AccessPolicyList_object c).
Definition PrivilegedAccessPolicy_DeepCopyObject (in_ : ptr PrivilegedAccessPolicy_t) : ST heap runtime_Object := c ← PrivilegedAccessPolicy_DeepCopy in_; mret (as_object PrivilegedAccessPolicy_object c).
Definition PrivilegedAccessPolicyList_DeepCopyObject (in_ : ptr PrivilegedAccessPolicyList_t) : ST heap runtime_Object := c ← PrivilegedAccessPolicyList_DeepCopy in_; mret (as_object PrivilegedAccessPolicyList_object c).
Definition Peer_DeepCopyObject (in_ : ptr Peer_t) : ST heap runtime_Object := c ← Peer_DeepCopy in_; mret (as_object Peer_object c).
Definition PeerList_DeepCopyObject (in_ : ptr PeerList_t) : ST heap runtime_Object := c ← PeerList_DeepCopy in_; mret (as_object PeerList_object c).
Definition Export_DeepCopyObject (in_ : ptr Export_t) : ST heap runtime_Object := c ← Export_DeepCopy in_; mret (as_object Export_object c).
Definition ExportList_DeepCopyObject (in_ : ptr ExportList_t) : ST heap runtime_Object := c ← ExportList_DeepCopy in_; mret (as_object ExportList_object c).
Definition Import_DeepCopyObject (in_ : ptr Import_t) : ST heap runtime_Object := c ← Import_DeepCopy in_; mret (as_object Import_object c).
Definition ImportList_DeepCopyObject (in_ : ptr ImportList_t) : ST heap runtime_Object := c ← ImportList_DeepCopy in_; mret (as_object ImportList_object c).
Definition Instance_DeepCopyObject (in_ : ptr Instance_t) : ST heap runtime_Object := c ← Instance_DeepCopy in_; mret (as_object Instance_object c).
Definition InstanceList_DeepCopyObject (in_ : ptr InstanceList_t) : ST heap runtime_Object := c ← InstanceList_DeepCopy in_; mret (as_object InstanceList_object c).

(** The list type has methods of its own: [DeepCopyInto] makes an empty list of nil. *)
Definition WorkloadSetOrSelectorList_DeepCopyInto (in_ : WorkloadSetOrSelectorList_t) : ST heap WorkloadSetOrSelectorList_t :=
  let '(l, n) := match in_ with nil_slice => (1%positive, 0) | Slice l n => (l, n) end in
  out ← alloc (replicate n (zero : WorkloadSetOrSelector_t));
  copy_elements (T:=WorkloadSetOrSelector_t) l out (seq 0 n);; mret (Slice out n).
Definition WorkloadSetOrSelectorList_DeepCopy (in_ : WorkloadSetOrSelectorList_t) : ST heap WorkloadSetOrSelectorList_t :=
  match in_ with nil_slice => mret nil_slice | Slice _ _ => WorkloadSetOrSelectorList_DeepCopyInto in_ end.

(** ** Independence *)

(** A function that copies: besides the copy nothing changes; the copy has the value of the
    original, no location twice and none of the original; and whatever is written to the
    copy the original does not see it, whatever is written elsewhere the copy does not. *)
Definition independent_copy {P} `{Deep P} (f : P → ST heap P) : Prop := ∀ h p d, reads h p = Some d →
  let '(q, h') := f p h in
  h ⊆ h' ∧ reads h' q = Some d ∧ NoDup (reach h' q) ∧ (∀ l, l ∈ reach h' q → l ∉ reach h p) ∧
  (∀ h2, (∀ l, l ∉ reach h' q → h2 !! l = h' !! l) → reads h2 p = Some d) ∧
  (∀ h2, (∀ l, l ∈ reach h' q → h2 !! l = h' !! l) → reads h2 q = Some d).

Lemma copied_independent {P} `{Deep P} (f : P → ST heap P) :
  (∀ h p d, reads h p = Some d → copied h d (f p h)) → independent_copy f.
Proof.
  intros Hf h p d Hp. specialize (Hf h p d Hp). destruct (f p h) as [q h']. destruct Hf as (H1 & H2 & H3 & H4). cbn [fst snd] in *.
  assert (∀ l, l ∈ reach h p → l ∈ dom h) as Hdom by (intros l; apply (reach_dom h p d Hp)).
  split_and!; [done|done|done| | |].
  - intros l Hq Hl. by apply (H3 l Hq), Hdom.
  - intros h2 Hsame. apply (reads_frame h h2 p d Hp). intros l Hl. rewrite Hsame by (intros Hq; by apply (H3 l Hq), Hdom).
    apply Hdom, elem_of_dom in Hl as [c Hc]. rewrite Hc. by apply (lookup_weaken h).
  - intros h2 Hsame. by apply (reads_frame h' h2 q d H2).
Qed.

Lemma list_DeepCopy_ok h s d : reads h s = Some d → copied h d (WorkloadSetOrSelectorList_DeepCopy s h).
Proof using OC LC CC SC TZ OZ LZ CZ SZ. intros Hs. pose proof (copy_slice_ok h s d Hs) as H. destruct s; exact H. Qed.

(** C38: the generated copies are deep and independent: each DeepCopy of the custom
    resources, of their lists and of their parts gives, whatever it shares inside and
    whatever is nil, a copy with the same value that has no slice, map or pointer in common
    with the original, nor one twice; the original and everything else is left as it is,
    and from then on writes to either are not seen by the other. *)
Theorem DeepCopy_independent :
  independent_copy Endpoint_DeepCopy ∧ independent_copy ImportSource_DeepCopy ∧ independent_copy ExportSpec_DeepCopy ∧
  independent_copy DataPlaneSpec_DeepCopy ∧ independent_copy WorkloadSetOrSelector_DeepCopy ∧ independent_copy
  AccessPolicySpec_DeepCopy ∧ independent_copy AccessPolicy_DeepCopy ∧ independent_copy AccessPolicyList_DeepCopy ∧
  independent_copy PrivilegedAccessPolicy_DeepCopy ∧ independent_copy PrivilegedAccessPolicyList_DeepCopy ∧
  independent_copy PeerSpec_DeepCopy ∧ independent_copy PeerStatus_DeepCopy ∧ independent_copy Peer_DeepCopy ∧
  independent_copy PeerList_DeepCopy ∧ independent_copy ExportStatus_DeepCopy ∧ independent_copy Export_DeepCopy ∧
  independent_copy ExportList_DeepCopy ∧ independent_copy ImportSpec_DeepCopy ∧ independent_copy ImportStatus_DeepCopy ∧
  independent_copy Import_DeepCopy ∧ independent_copy ImportList_DeepCopy ∧ independent_copy ComponentStatus_DeepCopy ∧
  independent_copy IngressStatus_DeepCopy ∧ independent_copy InstanceStatus_DeepCopy ∧ independent_copy
  IngressSpec_DeepCopy ∧ independent_copy InstanceSpec_DeepCopy ∧ independent_copy Instance_DeepCopy ∧ independent_copy
  InstanceList_DeepCopy ∧ independent_copy WorkloadSetOrSelectorList_DeepCopy.
Proof using Type*.
  split_and!; apply copied_independent; first [exact list_DeepCopy_ok|intros h p d; apply (DeepCopy_ok h p d)].
Qed.

(** An object is never a nil pointer in an interface that is not nil. *)
Lemma DeepCopyObject_nil {T} `{Deep T} `{Copier T} `{Zero T} `{Cell T} (object : ptr T → runtime_Object) (p : ptr T) h :
  let r := as_object object (DeepCopy p h).1 in
  match p with nil_ptr => r = nil_object | Ptr _ => ∃ q, r = object (Ptr q) end.
Proof.
  destruct p as [|l]; [done|]. cbv zeta. unfold DeepCopy. unfold_st. unfold alloc, store. cbn [fst snd].
  match goal with |- context [DeepCopyInto ?x ?h] => destruct (DeepCopyInto x h) end. cbn. by eexists.
Qed.

(** *** Reference copies of the types of apimachinery *)
Definition plain_copier (T : Type) : @Copier T (plain_deep T).
Proof. refine {| DeepCopyInto x := mret x |}. intros h x d. apply copied_plain. Defined.
Definition pair_copier {A B} `{Copier A} `{Copier B} : Copier (A * B).
Proof.
  refine {| DeepCopyInto p := a ← DeepCopyInto p.1; b ← DeepCopyInto p.2; mret (a, b) |}.
  intros h [a b] d (da & db & -> & Ha & Hb)%reads_pair. cbn [fst snd]. eapply copied_bind; [by apply copies|].
  intros a' h1 Ca. destruct (reads_weaken h h1 b db Hb (copied_sub _ _ _ _ Ca)) as [Hb' _].
  eapply copied_bind; [by apply copies|]. intros b' h2 Cb. by eapply copied_pair.
Defined.
Definition map_copier {T} `{Copier T} `{Zero T} `{Cell (gmap string T)} (order : ranger string T) : Copier (gomap T).
Proof. refine {| DeepCopyInto := copy_map order |}. intros h x d. apply copy_map_ok. Defined.
End types.

(** ** A peer on a heap

    Its labels are a map, and so are those of its metadata; a label selector is a map. *)
Definition w_cell : Type := @cell string (string * gomap string) string Z (gomap string) unit.
#[local] Instance w_meta_deep : @Deep string (string * gomap string) string Z (gomap string) unit (string * gomap string) := pair_deep.
#[local] Instance w_list_deep : @Deep string (string * gomap string) string Z (gomap string) unit string := plain_deep string.
#[local] Instance w_cond_deep : @Deep string (string * gomap string) string Z (gomap string) unit Z := plain_deep Z.
#[local] Instance w_selector_deep : @Deep string (string * gomap string) string Z (gomap string) unit (gomap string) := gomap_deep.
#[local] Instance w_list_copier : Copier string := plain_copier string.
#[local] Instance w_cond_copier : Copier Z := plain_copier Z.
#[local] Instance w_selector_copier : Copier (gomap string) := map_copier std_ranger.
#[local] Instance w_meta_copier : Copier (string * gomap string) := pair_copier.
#[local] Instance w_meta_zero : Zero (string * gomap string) := ("", nil_map).

Definition w_peer : @Peer_t string (string * gomap string) Z :=
  mkPeer_t "Peer" ("east", Map 2%positive) (mkPeerSpec_t (Slice 3%positive 1)) (mkPeerStatus_t nil_slice (Map 4%positive)).
Definition w_heap : gmap loc w_cell :=
  {[ 1%positive := Obj_Peer w_peer; 2%positive := Map_string {[ "a" := "b" ]};
     3%positive := Arr_Endpoint [mkEndpoint_t "10.0.0.1" 443; mkEndpoint_t "spare" 0]; 4%positive := Map_string {[ "zone" := "x" ]} ]}.
Definition w_copy := Peer_DeepCopy std_ranger (Ptr 1%positive) w_heap.
(** What the labels of the copy become. *)
Definition w_labels : loc :=
  match w_copy.1 with
  | Ptr l => match content w_copy.2 l with Some p => match ps_Labels (p_Status p) with Map m => m | nil_map => l end | None => l end
  | nil_ptr => 1%positive
  end.
Definition w_written : gmap loc w_cell := <[ w_labels := Map_string ∅ ]> w_copy.2.
Lemma DeepCopy_independent_witness :
  w_labels ∈ reach w_copy.2 w_copy.1 ∧ w_labels ∉ reach w_heap (Ptr 1%positive : ptr Peer_t) ∧
  reads w_written (Ptr 1%positive : ptr Peer_t) = reads w_heap (Ptr 1%positive).
Proof.
  assert (w_labels ∈ reach w_copy.2 w_copy.1) as Hin by (apply (bool_decide_unpack _); vm_compute; exact I).
  destruct (reads w_heap (Ptr 1%positive : ptr Peer_t)) as [d|] eqn:Hd; [|vm_compute in Hd; discriminate].
  destruct (DeepCopy_independent (TypeMeta:=string) (ObjectMeta:=string * gomap string) (ListMeta:=string) (Condition:=Z)
    (LabelSelector:=gomap string) (Foreign:=unit) std_ranger std_ranger) as (_ & _ & _ & _ & _ & _ & _ & _ & _ & _ & _ & _ & H & _).
  specialize (H w_heap (Ptr 1%positive) d Hd). fold w_copy in H. destruct w_copy as [q h'] eqn:Hc.
  destruct H as (_ & _ & _ & H4 & H5 & _). split; [exact Hin|]. split; [by apply H4|].
  apply H5. intros l Hl. unfold w_written. rewrite Hc. apply lookup_insert_ne. intros He. apply Hl. by rewrite <- He.
Defined.
